(* ===== verification/_CoqProject ===== *)
-Q . S2P
Prelude.v
Utf8.v
ByteOrder.v
DnsEnums.v
DnsHeader.v
DnsName.v
DnsRData.v
DnsPacket.v
DnsBuilder.v
Clock.v
TimerConfig.v
Slab.v
Wheel.v
WheelInv.v
WheelSpec.v
WheelProps.v
StdText.v
Resolver.v
Poller.v
PollerProps.v
Routing.v
Fiber.v
DnsMac.v
Runner.v
Sim.v
FiberProps.v
RunnerInv.v
RunnerTurn.v
RunnerFuel.v
RunnerEval.v
RunnerIo.v
RunnerOrder.v
RunnerProps.v
RunnerSafe.v
RunnerSession.v
RunnerExamples.v
SessionExamples.v
Thread.v
RunnerStacks.v
ThreadExamples.v
