(* ===== verification/Prelude.v ===== *)
(** * easyfibers: a verification development

    easyfibers runs many fibers (coroutines with their own stacks) on one thread.
    A thread has one poller (src/src/poller.rs), which waits for sockets, timers
    and DNS lookups, and up to 20 runners (src/src/runner.rs), each of which owns
    a slab of fibers (src/src/fiber.rs) and resumes the ones the poller found
    something for.  This library models the program as executable functions,
    translated from the Rust source, and proves what they promise.

    ** How the code is modelled

    A function that can fail returns [outcome E A] (this file): a value, an [Err]
    of Rust's [Result], a panic (an index out of range, an [unwrap], an [assert!],
    an arithmetic overflow with the checks of the debug profile), or [OutOfFuel]
    for a loop written with fuel.  Code that goes through raw pointers has the error
    [UseAfterFree] ([Undefined]).  A [&mut self] method maps the old state to the
    new one; the methods of the runner, which change the runner, the poller and
    the world, are in a state monad ([Runner.Run]).  Integers are [Z] with their
    widths as bounds ([byte], [u16], [u32] here, [U64_MAX] and the checked sums in
    Clock); positions in slices and vectors are [nat]; [usize] has 64 bits.
    Third-party crates are type classes: their operations, and laws that restate
    their documentation, with an instance to show that the laws can hold and to
    run the witnesses on.

    A fiber's function is user code: an abstract tree of calls to the methods of
    its handle ([Fiber.Program]).  A method that blocks switches to the main
    stack; it is modelled as two definitions, one up to the switch and one from
    there, and the fiber's context is the call it waits in with what follows it
    ([Fiber.Transfer]).

    A fiber that is in its function also has, in the frame of [context_function], a
    reference to its own [FiberInt], which was made when it was first started and is
    used when the function has returned.  The fibers are in a [Vec], which moves when
    it grows.  So the model counts the allocations that the vector has used
    ([RunnerInt.buffer], [push_fiber]), a context remembers the one that its
    reference points into ([home] in [Waiting]), and the end of [context_function] is
    a use after free when the two differ ([context_end]).

    ** Files, in dependency order

    - Prelude: [outcome] and its lemmas, slices, counted loops, bytes.
    - Utf8: [std::str::from_utf8] and [is_ascii].
    - ByteOrder: the [byteorder] crate as the class [BigEndian].
    - DnsEnums (dns_parser/enums.rs, error.rs), DnsHeader (header.rs), DnsName
      (name.rs), DnsRData (rrdata.rs), DnsPacket (parser.rs, structs.rs): the
      decoder of DNS packets, a Module per Rust type.
    - DnsBuilder (dns_parser/builder.rs): the encoder of queries.
    - Clock: [Instant], [Duration] and machine arithmetic.
    - TimerConfig (builder.rs): the timer's configuration.
    - Slab: the [slab] crate as the classes [SlabOps] and [SlabLaws].
    - Wheel (wheel.rs): the hashed timer wheel; WheelInv: its invariant and the
      steps that keep it; WheelSpec: what each operation does to the map from
      tokens to armed timers; WheelProps: the properties and their instances.
    - StdText: [lines], [split_whitespace] and the parser of IP addresses.
    - Resolver (dns.rs): [dns_parse], the portable client [Dns] and its server
      list; [rand] and the UDP sockets of [mio] are the class [Network].
    - Poller (poller.rs): [PollerInt] with its wheel, its queues for each runner
      and its stacks; PollerProps: its properties; Routing: its queues and timers
      only name what sockets, timers and lookups were given.
    - Fiber (fiber.rs): [io::Error], the sockets of [mio] and [native_tls] (the
      class [Net]), the socket of a fiber ([Sock]), its record ([FiberInt]), the
      calls of its handle ([Call]) and its function ([Program]).
    - DnsMac (dns.rs): the client of macOS, two threads that share boxes through
      raw pointers, as a step relation over a heap.
    - Runner (runner.rs, tls.c): every method of [RunnerInt], the turn of a fiber
      ([exec], [switch], [step_into]), the scheduler ([run]), the main stack's
      methods, and the thread's table of runners ([Slots]).
    - Sim: a simulated network and simple fiber functions, for examples.
    - FiberProps: the socket's loops over buffers.
    - RunnerInv, RunnerTurn: the runner's invariant, kept by every method and
      every turn, and the reachable states.
    - RunnerFuel: fuel is only a bound.
    - RunnerEval: equations that run methods on known states.
    - RunnerIo: how the socket and the timer end a wait.
    - RunnerOrder: the order in which a run serves its queues, alone and after a
      poll.
    - RunnerProps: the properties of single methods and turns.
    - RunnerSafe: a logic of methods that do not panic, and the invariant that keeps
      fibers which only serve sockets from panicking; RunnerSession: what happens to
      a runner in service; SessionExamples: a server that accepts connections.
    - RunnerExamples: instances of the theorems and whole runs.
    - Thread (tls.c, [Poller] and [Runner] as handles): the thread's variables,
      several runners on one poller; RunnerStacks: who has which execution stack;
      ThreadExamples: instances of their theorems.

    The poller calls the wheel ([timer_reg], [timer_cancel], [poll]) and routes
    what fires by the identifiers that the runners make ([fiber_id], [split_id]).
    A runner starts lookups through [Dns], whose queries the encoder builds, and
    hands the datagrams it receives to [dns_parse], which runs the decoder.  Its
    [run] takes fibers from the poller's queues and switches to them; a fiber that
    blocks has registered its socket and a timer with the poller first.  The main
    stack calls the poller and the runners in turn ([Thread.step]).

    ** What is shown

    - The decoder is safe on every byte string (no panic, no endless loop) and
      agrees with a declarative grammar: [name_at] for compressed names,
      [record_at] for records; headers and queries survive the round trip.
    - The wheel's lists, cursor and slab keep their invariant under every
      operation.  [poll] terminates, fires exactly the timers that are due, each
      once, and misses none; [set_timeout], [cancel] and [reserve] change exactly
      their own token; [next_timeout] is a lower bound after a complete poll.
    - The resolver sends its query to the servers in rotation, understands the
      response to it, and reads back a server list.  The client of macOS yields the
      host's first IPv4 address, or its last IPv6 address ([answer_address]), but
      frees every answer twice ([answer_freed_twice]).
    - The poller routes ready sockets, due timers and results to the right queues,
      never panics under any sequence of calls, and fires what was registered
      ([registered_timer_fires]): by the first poll that is past the deadline and past
      the cursor, which can be a tick late when a timer of one tick is set right after
      a poll ([timer_precision]).
    - Every state a runner can reach is well formed ([runner_reachable_wf]): its
      queues, timers and family links name fibers, and stacks and contexts go
      together.  So is every state of a thread with several runners
      ([thread_reachable_wf]): what the poller holds names fibers of the runner in a
      slot, or of one that was dropped from it; the integers of fibers stay in the
      ranges of their types, if the program's arguments do ([fiber_types]).
      (States that only undefined behaviour could lead to are not reachable.)
      A suspended fiber has the stack that its frames are on for itself: no other
      fiber of the thread runs on it, and the poller does not give it to the next
      one ([stacks_exclusive]).
    - Runners do not disturb each other: in a round of runs each is served as if it
      were alone ([round_serves]).  A runner that is dropped does disturb its
      successor, whose run panics on the first stale position that it has no fiber
      for ([stale_queue_panics]).
    - A run serves its queues first in, first out, and skips nothing
      ([run_in_order]); together with the poller, every fiber whose socket was
      ready or whose timer was due is served by the next run ([poll_then_run]).
    - A runner whose fibers only read, write, accept, shake hands, send chunks, join
      the main stack and start further fibers never panics, over any sequence of
      starts, reports of the poller and runs ([session_never_panics]): the panics
      that the findings describe need children, hibernation, lookups, or a fiber
      that is resumed twice, which [reports] excludes.  Its runs may not come to an
      end, and they may go through a dangling reference: a fiber that returns after
      the vector of the fibers has moved writes to freed memory, as in the server of
      SessionExamples that accepts four connections ([server_dangles]) and in
      [vector_moves].  They do not when fibers start no others and the main stack
      starts them only while the vector need not move ([spawn] is [false], [steady]).
    - A fiber that waits in a socket operation goes on with [TimedOut] when its
      timer fires and tries again when its socket is signalled
      ([blocked_io_resumes]); one that waits in a TLS handshake goes on with
      [TimedOut] or with the next step of the handshake ([blocked_tls_resumes]).
    - Slots are reused oldest first with a new generation ([register_spec]),
      closed children are freed once ([child_iter_spec]), and a fiber that ends, in
      whichever turn, delivers its result and gives back stack and slot, unless the
      vector of the fibers has moved ([turn_completes]).
    - Where the code departs from its documentation the theorems state what it
      does: [query_by_length] (hosts for which a lookup panics or sends no
      question), [dns_parse_cases] (a malformed datagram panics the client),
      [trailing_dot_query], [set_truncated_clears], [timer_precision] (a timer may
      fire up to a tick early, or late), [max_capacity_not_enforced], [next_timeout_stale],
      [write_bufs_small] (small buffers are repeated on TLS sockets),
      [hibernate_restart_panics], [lookup_timeout_stuck], [write_zero], and the
      last examples of RunnerExamples.

    ** Fuel and bounds

    [Name.scan] gets the square of the sizes it can visit, [parse_txt] one step per
    byte, [Wheel.poll] one step per tick and per entry it can visit ([poll_fuel]),
    the poller's loop one step per entry of the slab ([timeouts_fuel]), [get_child]
    one per child; the theorems about these functions include that they return.
    The wheel's theorems assume less than 2{^32} ticks (the code truncates a tick to
    [u32]), which is 34 years of the poller's 250 ms, and a clock within 2{^63} ms
    of the start.  A session ([session bt bg]) has room for [bt] more timers and [bg]
    more fibers; a run with fuel [n] uses at most [2 n] and [2 n^2] of them, and what
    is left may be counted anew between runs.

    The loops of the runner around sockets, user code and queues need not end: a
    socket may be interrupted for ever, a function may not return, a fiber may
    queue itself again and again.  Their fuel is an argument; [run_fuel] shows that
    it is only a bound.  The invariant and the order of service are statements
    about runs that return; the theorems about single turns and methods
    ([turn_completes], [register_spec], [child_iter_spec], [timer_response]) show
    that they return.

    ** What is not modelled

    - build.rs, and the examples and tests in lib.rs.  Of the macOS client only its
      own operations are modelled; what CoreFoundation answers is an argument.
    - The waiting in [mio::Poll::poll] itself: the ready tokens are an argument.
    - Fibers of one runner that use another, and user code that uses a [Runner], a
      [FiberRef] or a [TimerRef] from inside a fiber.  All runners of a thread have
      the same parameter and response types here.
    - What follows undefined behaviour, and growth of the vector in place: every
      reallocation counts as a move.  Its capacities are those of the standard library
      for elements of up to 1024 bytes (4, then doubled).
    - The destruction of the values a runner owns when it is dropped, apart from the
      [FiberRef]s that wait for the main stack ([Thread.drop_refs]). *)
From Stdlib Require Export ZArith Lia.
From stdpp Require Export base numbers option sets tactics list_numbers list.

(** * Outcomes of Rust code

    A Rust function that returns [Result<A, E>] ends in one of three ways: it
    returns [Ok a], it returns [Err e], or it panics (an index out of range, an
    [unwrap] of the wrong variant, an [assert!] or a [panic!]).  A loop written
    with fuel has the fourth outcome [OutOfFuel].  The properties of the loops of
    the library show that their fuel is enough; those about whole runs of fibers,
    whose code need not end, are about runs that return. *)
Inductive outcome (E A : Type) : Type :=
| Ok (a : A)
| Err (e : E)
| Panic
| OutOfFuel.
Arguments Ok {E A} a.
Arguments Err {E A} e.
Arguments Panic {E A}.
Arguments OutOfFuel {E A}.

(** The errors of code that goes through raw pointers: what it does is undefined
    behaviour. *)
Inductive Undefined := UseAfterFree.

#[export] Instance outcome_ret E : MRet (outcome E) := λ A a, Ok a.
#[export] Instance outcome_bind E : MBind (outcome E) := λ A B f m,
  match m with
  | Ok a => f a
  | Err e => Err e
  | Panic => Panic
  | OutOfFuel => OutOfFuel
  end.

#[export] Instance outcome_eq_dec `{EqDecision E, EqDecision A} :
  EqDecision (outcome E A).
Proof. solve_decision. Defined.

(** [ensures m Q]: the code came back to its caller (it neither panicked nor ran
    out of fuel), and a value it returned satisfies [Q]. *)
Definition ensures {E A} (m : outcome E A) (Q : A → Prop) : Prop :=
  match m with Ok a => Q a | Err _ => True | Panic | OutOfFuel => False end.

Definition returns {E A} (m : outcome E A) : Prop := ensures m (λ _, True).

(** [Result::unwrap]: an error becomes a panic of the caller. *)
Definition unwrap {E E' A} (m : outcome E A) : outcome E' A :=
  match m with
  | Ok a => Ok a
  | Err _ => Panic
  | Panic => Panic
  | OutOfFuel => OutOfFuel
  end.

(** A function that returns no error, called where there may be some. *)
Definition widen {E A} (m : outcome Empty_set A) : outcome E A :=
  match m with
  | Ok a => Ok a
  | Err e => match e with end
  | Panic => Panic
  | OutOfFuel => OutOfFuel
  end.

(** [Option::unwrap] and the panicking half of an indexing expression. *)
Definition expect {E A} (o : option A) : outcome E A :=
  match o with Some a => Ok a | None => Panic end.

Section outcome.
Context {E : Type}.

Lemma bind_Ok {A B} (f : A → outcome E B) (m : outcome E A) b :
  m ≫= f = Ok b ↔ ∃ a, m = Ok a ∧ f a = Ok b.
Proof.
  destruct m; cbn; (split; [try done|by intros (? & ? & ?); simplify_eq]).
  intros. by eexists.
Qed.

(** Running the first action of a bind, up to conversion. *)
Lemma bind_step {A B} (f : A → outcome E B) (m : outcome E A) a r :
  m = Ok a → f a = r → m ≫= f = r.
Proof. by intros -> <-. Qed.

Lemma ensures_bind {A B} (f : A → outcome E B) (m : outcome E A) Q :
  ensures m (λ a, ensures (f a) Q) → ensures (m ≫= f) Q.
Proof. by destruct m. Qed.

Lemma ensures_weaken {A} (m : outcome E A) (P Q : A → Prop) :
  ensures m P → (∀ a, P a → Q a) → ensures m Q.
Proof. destruct m; cbn; auto. Qed.

Lemma ensures_Ok {A} (m : outcome E A) Q a : ensures m Q → m = Ok a → Q a.
Proof. by intros H ->. Qed.

Lemma expect_Ok {A} (o : option A) a : expect (E:=E) o = Ok a ↔ o = Some a.
Proof. destruct o; cbn; naive_solver. Qed.

Lemma unwrap_Ok {E' A} (m : outcome E A) a : unwrap (E':=E') m = Ok a ↔ m = Ok a.
Proof. destruct m; cbn; naive_solver. Qed.

Lemma widen_Ok {A} (m : outcome Empty_set A) a : widen (E:=E) m = Ok a ↔ m = Ok a.
Proof. destruct m as [|[]| |]; cbn; naive_solver. Qed.

Lemma widen_Panic {A} (m : outcome Empty_set A) : widen (E:=E) m = Panic ↔ m = Panic.
Proof. destruct m as [|[]| |]; cbn; naive_solver. Qed.
End outcome.

Lemma decide_same {A} P `{Decision P} (a : A) : (if decide P then a else a) = a.
Proof. by destruct (decide P). Qed.

(** Reduces the binds whose first action is known. *)
Ltac mstep := cbn [mbind outcome_bind mret outcome_ret expect unwrap widen].

(** * Slices

    A slice [&[T]] is a list; positions are [nat].  A slice is shorter than
    2{^63} elements, so the [usize] sums of positions and of 16-bit lengths that
    the code computes never wrap. *)
Section slices.
Context {E A : Type}.
Implicit Types (l : list A) (a b i : nat).

(** [l[i]] *)
Definition index l i : outcome E A := expect (l !! i).

(** [&l[a..b]] *)
Definition slice l a b : outcome E (list A) :=
  if decide (a ≤ b ∧ b ≤ length l) then Ok (take (b - a) (drop a l)) else Panic.

(** [&l[a..]] *)
Definition slice_from l a : outcome E (list A) :=
  if decide (a ≤ length l) then Ok (drop a l) else Panic.

(** [&l[..b]] *)
Definition slice_to l b : outcome E (list A) :=
  if decide (b ≤ length l) then Ok (take b l) else Panic.

(** [l[i] = x] *)
Definition store l i (x : A) : outcome E (list A) :=
  if decide (i < length l) then Ok (<[i:=x]> l) else Panic.

(** [l[a..a+src.len()].copy_from_slice(src)] *)
Definition copy_at l a (src : list A) : outcome E (list A) :=
  if decide (a + length src ≤ length l)
  then Ok (take a l ++ src ++ drop (a + length src) l) else Panic.

Lemma index_Ok l i x : index l i = Ok x ↔ l !! i = Some x.
Proof. apply expect_Ok. Qed.

Lemma index_lt l i : i < length l → ∃ x, index l i = Ok x ∧ l !! i = Some x.
Proof.
  intros H. destruct (lookup_lt_is_Some_2 l i H) as [x Hx].
  exists x. by rewrite index_Ok.
Qed.

Lemma slice_in l a b : a ≤ b → b ≤ length l → slice l a b = Ok (take (b - a) (drop a l)).
Proof. intros. unfold slice. by rewrite decide_True. Qed.

Lemma slice_Ok l a b s :
  slice l a b = Ok s ↔ a ≤ b ∧ b ≤ length l ∧ s = take (b - a) (drop a l).
Proof. unfold slice. case_decide; split; intros; destruct_and?; simplify_eq; tauto. Qed.

Lemma slice_from_in l a : a ≤ length l → slice_from l a = Ok (drop a l).
Proof. intros. unfold slice_from. by rewrite decide_True. Qed.

Lemma slice_to_in l b : b ≤ length l → slice_to l b = Ok (take b l).
Proof. intros. unfold slice_to. by rewrite decide_True. Qed.

Lemma store_in l i x : i < length l → store l i x = Ok (<[i:=x]> l).
Proof. intros. unfold store. by rewrite decide_True. Qed.

Lemma copy_at_in l a src : a + length src ≤ length l →
  copy_at l a src = Ok (take a l ++ src ++ drop (a + length src) l).
Proof. intros. unfold copy_at. by rewrite decide_True. Qed.
End slices.

(** * Counted loops over a buffer

    [for _ in 0..n { v.push(body(&mut offset)?) }]: the values pushed and the
    final offset. *)
Fixpoint for_n {E A} (body : nat → outcome E (A * nat)) (n offset : nat)
    : outcome E (list A * nat) :=
  match n with
  | O => Ok ([], offset)
  | S n =>
    '(x, offset) ← body offset;
    '(xs, offset) ← for_n body n offset;
    Ok (x :: xs, offset)
  end.

Section for_n.
Context {E A : Type} (body : nat → outcome E (A * nat)) (P : A → Prop) (len : nat).

(** A body that keeps the offset inside the buffer and returns good values
    makes a loop that does. *)
Lemma for_n_ensures n offset : offset ≤ len →
  (∀ o, o ≤ len → ensures (body o) (λ r, o ≤ r.2 ≤ len ∧ P r.1)) →
  ensures (for_n body n offset)
    (λ r, offset ≤ r.2 ≤ len ∧ length r.1 = n ∧ Forall P r.1).
Proof.
  intros Ho Hbody. revert offset Ho. induction n as [|n IH]; intros offset Ho; cbn [for_n].
  { cbn. auto with lia. }
  apply ensures_bind. eapply ensures_weaken; [by apply Hbody|].
  intros [x o1] [Ho1 Hx]. cbn in *. apply ensures_bind.
  eapply ensures_weaken; [apply IH; lia|]. intros [xs o2] (Ho2 & Hlen & Hxs).
  cbn in *. split_and!; auto with lia.
Qed.
End for_n.

(** * Bytes *)
Definition byte (b : Z) : Prop := (0 ≤ b < 256)%Z.
Definition u16 (v : Z) : Prop := (0 ≤ v < 65536)%Z.
Definition u32 (v : Z) : Prop := (0 ≤ v < 4294967296)%Z.
Definition bytes (l : list Z) : Prop := Forall byte l.

Lemma bytes_lookup l i b : bytes l → l !! i = Some b → byte b.
Proof. apply Forall_lookup_1. Qed.
Lemma bytes_cons b l : bytes (b :: l) ↔ byte b ∧ bytes l.
Proof. unfold bytes. by rewrite Forall_cons_iff. Qed.
Lemma bytes_app l k : bytes (l ++ k) ↔ bytes l ∧ bytes k.
Proof. apply Forall_app. Qed.
Lemma bytes_take n l : bytes l → bytes (take n l).
Proof. apply Forall_take. Qed.
Lemma bytes_drop n l : bytes l → bytes (drop n l).
Proof. apply Forall_drop. Qed.

Create HintDb easyfibers.
#[export] Hint Resolve bytes_take bytes_drop : easyfibers.

(** Opens every bind of a hypothesis [m = Ok x] and turns the slice
    operations it meets into their bounds. *)
Ltac open_ok H :=
  repeat match type of H with
  | mbind _ _ = Ok _ =>
      let x := fresh "x" in let Hx := fresh "Hx" in
      apply bind_Ok in H as (x & Hx & H); open_ok Hx
  | (match ?m with _ => _ end) = Ok _ => fail 1
  | index _ _ = Ok _ => apply index_Ok in H
  | slice _ _ _ = Ok _ => apply slice_Ok in H as (? & ? & H)
  | expect _ = Ok _ => apply expect_Ok in H
  | unwrap _ = Ok _ => apply unwrap_Ok in H
  | Ok _ = Ok _ => injection H as H
  end.
