(* ===== verification/Utf8.v ===== *)
(** * Utf8: what the code uses of [std::str]

    [is_ascii] of byte slices and [std::str::from_utf8], the validation of the
    Standard Library: a step consumes one character or reports the length of the
    bad sequence, and [from_utf8] returns the bytes themselves (a [&str] is its
    bytes) or the position of the first bad one. *)
From S2P Require Import Prelude.
Local Open Scope Z_scope.

(** [<[u8]>::is_ascii] *)
Definition is_ascii (l : list Z) : bool := forallb (λ b, b <? 128) l.

(** [std::str::Utf8Error]: the index of the first bad byte and the length of the
    bad sequence ([None] when the input ends in the middle of a character). *)
Record Utf8Error := { valid_up_to : nat; error_len : option Z }.

Definition within (lo hi b : Z) : bool := (lo <=? b) && (b <=? hi).
Definition continuation (b : Z) : bool := within 0x80 0xBF b.

(** The second byte a first byte allows: no overlong form, no surrogate, nothing
    above U+10FFFF. *)
Definition second_ok (first second : Z) : bool :=
  if first =? 0xE0 then within 0xA0 0xBF second
  else if first =? 0xED then within 0x80 0x9F second
  else if first =? 0xF0 then within 0x90 0xBF second
  else if first =? 0xF4 then within 0x80 0x8F second
  else continuation second.

(** One character at the front of a slice: its number of bytes, or the
    [error_len] of the error. *)
Definition char_width (first : Z) : nat :=
  if first <? 0x80 then 1%nat
  else if within 0xC2 0xDF first then 2%nat
  else if within 0xE0 0xEF first then 3%nat
  else if within 0xF0 0xF4 first then 4%nat
  else 0%nat.

Definition utf8_step (l : list Z) : nat + option Z :=
  match l with
  | [] => inl 0%nat
  | first :: l =>
    match char_width first, l with
    | 1%nat, _ => inl 1%nat
    | 2%nat, b1 :: _ => if second_ok first b1 then inl 2%nat else inr (Some 1)
    | 3%nat, b1 :: l =>
        if second_ok first b1 then
          match l with
          | b2 :: _ => if continuation b2 then inl 3%nat else inr (Some 2)
          | [] => inr None
          end
        else inr (Some 1)
    | 4%nat, b1 :: l =>
        if second_ok first b1 then
          match l with
          | b2 :: l =>
              if continuation b2 then
                match l with
                | b3 :: _ => if continuation b3 then inl 4%nat else inr (Some 3)
                | [] => inr None
                end
              else inr (Some 2)
          | [] => inr None
          end
        else inr (Some 1)
    | O, _ => inr (Some 1)
    | _, _ => inr None
    end
  end.

Fixpoint utf8_check (fuel : nat) (pos : nat) (l : list Z) : outcome Utf8Error () :=
  match l, fuel with
  | [], _ => Ok ()
  | _, O => OutOfFuel
  | _, S fuel =>
    match utf8_step l with
    | inl n => utf8_check fuel (pos + n) (drop n l)
    | inr len => Err {| valid_up_to := pos; error_len := len |}
    end
  end.

(** [std::str::from_utf8] *)
Definition from_utf8 (l : list Z) : outcome Utf8Error (list Z) :=
  _ ← utf8_check (length l) 0 l; Ok l.

(** A step that succeeds consumes at least one byte, so the fuel is enough. *)
Lemma utf8_step_pos x l n : utf8_step (x :: l) = inl n → (0 < n)%nat.
Proof.
  unfold utf8_step. intros H.
  repeat (case_match; simplify_eq/=; try lia).
Qed.

Lemma utf8_check_returns fuel pos l : (length l ≤ fuel)%nat → returns (utf8_check fuel pos l).
Proof.
  revert pos l. induction fuel as [|fuel IH]; intros pos [|x l] Hn; try done; [cbn in Hn; lia|].
  cbn [utf8_check]. destruct (utf8_step (x :: l)) as [n|len] eqn:E; [|done].
  apply IH. apply utf8_step_pos in E. rewrite length_drop. cbn in *. lia.
Qed.

Lemma from_utf8_returns l : returns (from_utf8 l).
Proof.
  unfold from_utf8. apply ensures_bind. eapply ensures_weaken; [by apply utf8_check_returns|done].
Qed.

Lemma utf8_check_ascii fuel pos l : is_ascii l = true → (length l ≤ fuel)%nat →
  utf8_check fuel pos l = Ok ().
Proof.
  revert pos l. induction fuel as [|fuel IH]; intros pos [|x l] Ha Hn; try done; [cbn in Hn; lia|].
  cbn in Ha. apply andb_true_iff in Ha as [Hx Ha].
  cbn [utf8_check]. assert (utf8_step (x :: l) = inl 1%nat) as ->.
  { unfold utf8_step, char_width. change 0x80 with 128. by rewrite Hx. }
  rewrite skipn_cons, drop_0. apply IH; [done|cbn in Hn; lia].
Qed.

(** ASCII text is valid UTF-8. *)
Lemma from_utf8_ascii l : is_ascii l = true → from_utf8 l = Ok l.
Proof. intros Ha. unfold from_utf8. by rewrite utf8_check_ascii. Qed.
