(* ===== verification/ByteOrder.v ===== *)
(** * ByteOrder: the interface of the [byteorder] crate

    The DNS code reads and writes big-endian integers through the third-party
    crate [byteorder].  Its source is not part of the repository, so its four
    functions are a parameter: the class [BigEndian] bundles them with their
    documented behaviour (network byte order; a panic, here [None], when the
    slice is too short; bytes past the integer are ignored or kept).  The
    instance [be_arith] shows that the laws can hold and lets the definitions
    run on concrete packets. *)
From S2P Require Import Prelude.
Local Open Scope Z_scope.

Class BigEndian := {
  read_u16 : list Z → option Z;
  read_u32 : list Z → option Z;
  write_u16 : list Z → Z → option (list Z);
  read_u16_spec : ∀ b0 b1 l, byte b0 → byte b1 →
    read_u16 (b0 :: b1 :: l) = Some (b0 * 256 + b1);
  read_u16_short : ∀ l, (length l < 2)%nat → read_u16 l = None;
  read_u32_spec : ∀ b0 b1 b2 b3 l, byte b0 → byte b1 → byte b2 → byte b3 →
    read_u32 (b0 :: b1 :: b2 :: b3 :: l) =
      Some (((b0 * 256 + b1) * 256 + b2) * 256 + b3);
  read_u32_short : ∀ l, (length l < 4)%nat → read_u32 l = None;
  write_u16_spec : ∀ b0 b1 l v, u16 v →
    write_u16 (b0 :: b1 :: l) v = Some (v / 256 :: v mod 256 :: l);
  write_u16_short : ∀ l v, (length l < 2)%nat → write_u16 l v = None;
}.

(** The laws are satisfiable. *)
Definition arith_read_u16 (l : list Z) : option Z :=
  match l with b0 :: b1 :: _ => Some (b0 * 256 + b1) | _ => None end.
Definition arith_read_u32 (l : list Z) : option Z :=
  match l with
  | b0 :: b1 :: b2 :: b3 :: _ => Some (((b0 * 256 + b1) * 256 + b2) * 256 + b3)
  | _ => None
  end.
Definition arith_write_u16 (l : list Z) (v : Z) : option (list Z) :=
  match l with _ :: _ :: l => Some (v / 256 :: v mod 256 :: l) | _ => None end.

#[export] Instance be_arith : BigEndian.
Proof.
  refine {| read_u16 := arith_read_u16; read_u32 := arith_read_u32;
            write_u16 := arith_write_u16 |}; try done.
  - intros [|? [|? ?]] H; cbn in *; (done || lia).
  - intros [|? [|? [|? [|? ?]]]] H; cbn in *; (done || lia).
  - intros [|? [|? ?]] v H; cbn in *; (done || lia).
Defined.

Section byteorder.
Context `{!BigEndian}.
Implicit Types l : list Z.

Lemma read_u16_Some l : bytes l → (2 ≤ length l)%nat →
  ∃ b0 b1 k, l = b0 :: b1 :: k ∧ byte b0 ∧ byte b1 ∧ read_u16 l = Some (b0 * 256 + b1).
Proof.
  intros Hl Hn. destruct l as [|b0 [|b1 k]]; cbn in Hn; try lia.
  rewrite !bytes_cons in Hl. destruct Hl as (? & ? & _).
  exists b0, b1, k. by rewrite read_u16_spec.
Qed.

Lemma read_u16_bound l v : bytes l → read_u16 l = Some v → u16 v.
Proof.
  intros Hl Hv. destruct (decide (2 ≤ length l)%nat) as [Hn|Hn].
  - destruct (read_u16_Some l Hl Hn) as (b0 & b1 & k & -> & ? & ? & E).
    rewrite E in Hv. injection Hv as <-. unfold byte, u16 in *. lia.
  - rewrite read_u16_short in Hv by lia. done.
Qed.

Lemma read_u16_total l : bytes l → (2 ≤ length l)%nat → ∃ v, read_u16 l = Some v ∧ u16 v.
Proof.
  intros Hl Hn. destruct (read_u16_Some l Hl Hn) as (b0 & b1 & k & _ & _ & _ & E).
  exists (b0 * 256 + b1). split; [done|]. eauto using read_u16_bound.
Qed.

Lemma read_u16_len l v : read_u16 l = Some v → (2 ≤ length l)%nat.
Proof.
  intros Hv. destruct (decide (2 ≤ length l)%nat); [done|].
  rewrite read_u16_short in Hv by lia. done.
Qed.

Lemma read_u32_total l : bytes l → (4 ≤ length l)%nat → ∃ v, read_u32 l = Some v ∧ u32 v.
Proof.
  intros Hl Hn. destruct l as [|b0 [|b1 [|b2 [|b3 k]]]]; cbn in Hn; try lia.
  rewrite !bytes_cons in Hl. destruct_and!.
  eexists. rewrite read_u32_spec by done. split; [done|].
  unfold byte, u32 in *. lia.
Qed.

Lemma read_u32_bound l v : bytes l → read_u32 l = Some v → u32 v.
Proof.
  intros Hl Hv. destruct (decide (4 ≤ length l)%nat) as [Hn|Hn].
  - destruct (read_u32_total l Hl Hn) as (w & E & ?). by simplify_eq/=.
  - rewrite read_u32_short in Hv by lia. done.
Qed.

(** Writing two bytes at the front, then reading them back. *)
Lemma write_u16_total l v : u16 v → (2 ≤ length l)%nat →
  write_u16 l v = Some (v / 256 :: v mod 256 :: drop 2 l).
Proof.
  intros Hv Hn. destruct l as [|b0 [|b1 k]]; cbn in Hn; try lia.
  rewrite write_u16_spec by done. by rewrite skipn_cons, skipn_cons, drop_0.
Qed.

Lemma u16_hi v : u16 v → byte (v / 256).
Proof. unfold u16, byte. intros. split; [apply Z.div_pos|apply Z.div_lt_upper_bound]; lia. Qed.
Lemma u16_lo v : byte (v mod 256).
Proof. unfold byte. apply Z.mod_pos_bound. lia. Qed.

Lemma read_write_u16 v l : u16 v → read_u16 (v / 256 :: v mod 256 :: l) = Some v.
Proof.
  intros Hv. rewrite read_u16_spec by auto using u16_hi, u16_lo.
  f_equal. pose proof (Z.div_mod v 256). lia.
Qed.
End byteorder.
#[export] Hint Resolve u16_hi u16_lo read_u16_bound read_u32_bound : easyfibers.

(** ** Integers at a position of a buffer *)
Section positions.
Context `{!BigEndian} {E : Type}.
Implicit Types (data : list Z) (a b : nat).

(** [BigEndian::read_u16(&data[a..b])] *)
Definition be16 data a b : outcome E Z := s ← slice data a b; expect (read_u16 s).

(** [BigEndian::read_u32(&data[a..b])] *)
Definition be32 data a b : outcome E Z := s ← slice data a b; expect (read_u32 s).

(** [BigEndian::write_u16(&mut data[a..b], v)] *)
Definition put16 data a b (v : Z) : outcome E (list Z) :=
  s ← slice data a b; s' ← expect (write_u16 s v); copy_at data a s'.

(** [BigEndian::write_u16(&mut data[a..], v)] *)
Definition put16_from data a (v : Z) : outcome E (list Z) :=
  s ← slice_from data a; s' ← expect (write_u16 s v); copy_at data a s'.

(** The value the two bytes at [a] denote. *)
Definition val16 data a : Z := nth a data 0 * 256 + nth (S a) data 0.
Definition val32 data a : Z := val16 data a * 65536 + val16 data (a + 2).

Lemma take_drop_nth2 data a : (a + 2 ≤ length data)%nat →
  take 2 (drop a data) = [nth a data 0; nth (S a) data 0].
Proof.
  revert data. induction a as [|a IH]; intros [|x data] Hn; cbn in Hn; try lia.
  - destruct data as [|y data]; cbn in *; [lia|]. by rewrite take_0.
  - rewrite skipn_cons, IH by lia. done.
Qed.

Lemma bytes_nth data a : bytes data → byte (nth a data 0).
Proof.
  intros Hb. revert a. induction Hb as [|x l Hx Hl IH]; intros [|a]; cbn; try done.
Qed.

Lemma val16_u16 data a : bytes data → u16 (val16 data a).
Proof.
  intros Hb. pose proof (bytes_nth data a Hb). pose proof (bytes_nth data (S a) Hb).
  unfold val16, u16, byte in *. lia.
Qed.

Lemma val32_u32 data a : bytes data → u32 (val32 data a).
Proof.
  intros Hb. pose proof (val16_u16 data a Hb). pose proof (val16_u16 data (a + 2) Hb).
  unfold val32, u32, u16 in *. lia.
Qed.

Lemma be16_val data a b : bytes data → b = (a + 2)%nat → (b ≤ length data)%nat →
  be16 data a b = Ok (val16 data a).
Proof.
  intros Hb -> Hn. unfold be16. rewrite slice_in by lia. cbn.
  replace (a + 2 - a)%nat with 2%nat by lia.
  rewrite take_drop_nth2, read_u16_spec by auto using bytes_nth. done.
Qed.

Lemma take4_nth data a : (a + 4 ≤ length data)%nat →
  take 4 (drop a data) =
    [nth a data 0; nth (S a) data 0; nth (S (S a)) data 0; nth (S (S (S a))) data 0].
Proof.
  intros Hn. change 4%nat with (2 + 2)%nat. rewrite <-firstn_skipn with (n := 2%nat) (l := take _ _).
  rewrite take_take, skipn_firstn_comm, drop_drop. cbn [Nat.min Nat.sub Nat.add].
  rewrite take_drop_nth2, take_drop_nth2 by lia. cbn.
  by rewrite Nat.add_comm.
Qed.

Lemma be32_val data a b : bytes data → b = (a + 4)%nat → (b ≤ length data)%nat →
  be32 data a b = Ok (val32 data a).
Proof.
  intros Hb -> Hn. unfold be32. rewrite slice_in by lia. cbn.
  replace (a + 4 - a)%nat with 4%nat by lia.
  rewrite take4_nth, read_u32_spec by auto using bytes_nth. cbn.
  unfold val32, val16. rewrite Nat.add_comm. cbn. f_equal. lia.
Qed.

Lemma put16_from_val data a v : u16 v → (a + 2 ≤ length data)%nat →
  put16_from data a v = Ok (take a data ++ [v / 256; v mod 256] ++ drop (a + 2) data).
Proof.
  intros Hv Hn. unfold put16_from. rewrite slice_from_in by lia. cbn.
  rewrite write_u16_total by (done || (rewrite length_drop; lia)). cbn.
  rewrite copy_at_in by (cbn; rewrite !length_drop; lia).
  rewrite drop_drop. do 2 f_equal. cbn. do 2 f_equal.
  rewrite length_drop, (drop_ge data (a + S (S (length data - (a + 2))))) by lia. by rewrite app_nil_r.
Qed.

Lemma put16_from_short data a v : (a ≤ length data < a + 2)%nat →
  put16_from data a v = Panic.
Proof.
  intros Hn. unfold put16_from. rewrite slice_from_in by lia. mstep.
  by rewrite write_u16_short by (rewrite length_drop; lia).
Qed.

Lemma put16_val data a b v : u16 v → b = (a + 2)%nat → (b ≤ length data)%nat →
  put16 data a b v = Ok (take a data ++ [v / 256; v mod 256] ++ drop b data).
Proof.
  intros Hv -> Hn. unfold put16. rewrite slice_in by lia. cbn.
  replace (a + 2 - a)%nat with 2%nat by lia.
  rewrite write_u16_total by (done || (rewrite length_take, length_drop; lia)). cbn.
  rewrite drop_ge by (rewrite length_take; lia).
  rewrite copy_at_in by (cbn; lia). done.
Qed.

(** A word that was put is read back. *)
Lemma val16_put data a v rest : (a ≤ length data)%nat →
  val16 (take a data ++ [v / 256; v mod 256] ++ rest) a = v.
Proof.
  intros Hn. unfold val16. rewrite !(app_nth2 (take a data)) by (rewrite length_take; lia).
  rewrite length_take_le by done.
  replace (a - a)%nat with 0%nat by lia. replace (S a - a)%nat with 1%nat by lia.
  cbn. pose proof (Z.div_mod v 256). lia.
Qed.

Lemma val16_app_r pre rest k : val16 (pre ++ rest) (length pre + k) = val16 rest k.
Proof.
  unfold val16. rewrite <- Nat.add_succ_r, !app_nth2 by lia.
  by rewrite !(Nat.add_comm (length pre)), !Nat.add_sub.
Qed.

Lemma val32_app_r pre rest k : val32 (pre ++ rest) (length pre + k) = val32 rest k.
Proof. unfold val32. rewrite <- Nat.add_assoc. by rewrite !val16_app_r. Qed.

Lemma val16_middle pre v rest : val16 (pre ++ v / 256 :: v mod 256 :: rest) (length pre) = v.
Proof.
  pose proof (val16_put pre (length pre) v rest) as Hp. rewrite take_ge in Hp by lia. auto.
Qed.
End positions.

(** Executes the read or write at the head of a chain of binds. *)
Ltac io_step :=
  lazymatch goal with
  | |- context [mbind _ (be16 ?d ?a ?b)] =>
      rewrite (be16_val d a b) by (done || lia); mstep
  | |- context [mbind _ (be32 ?d ?a ?b)] =>
      rewrite (be32_val d a b) by (done || lia); mstep
  | |- context [mbind _ (put16 ?d ?a ?b ?v)] =>
      rewrite (put16_val d a b v) by (done || (cbn; lia)); mstep
  | |- context [mbind _ (put16_from ?d ?a ?v)] =>
      rewrite (put16_from_val d a v) by (done || (cbn; lia)); mstep
  end.
