(* ===== verification/DnsEnums.v ===== *)
(** * DnsEnums: the enumerations of [dns_parser/enums.rs] and the errors of
    [dns_parser/error.rs]

    One module per Rust enum, with its constructors and its conversions from and
    to wire codes.  [RRType] and [RRClass] are [Type] and [Class] of the source
    (both words are reserved in Rocq); [code] is the discriminant [x as u16].
    The payload of [TxtDataIsNotUTF8] is the [Utf8Error] of the Standard Library. *)
From S2P Require Import Prelude Utf8.
Local Open Scope Z_scope.

Inductive Error :=
| BadPointer
| HeaderTooShort
| UnexpectedEOF
| WrongRdataLength
| ReservedBitsAreNonZero
| UnknownLabelFormat
| InvalidQueryType (code : Z)
| InvalidQueryClass (code : Z)
| InvalidType (code : Z)
| InvalidClass (code : Z)
| LabelIsNotAscii
| TxtDataIsNotUTF8 (error : Utf8Error)
| WrongState
| AdditionalOPT.

Module RRType.
Inductive t :=
| A | NS | MF | CNAME | SOA | MB | MG | MR | NULL | WKS | PTR | HINFO | MINFO
| MX | TXT | AAAA | SRV | OPT.

Definition code (x : t) : Z :=
  match x with
  | A => 1 | NS => 2 | MF => 4 | CNAME => 5 | SOA => 6 | MB => 7 | MG => 8
  | MR => 9 | NULL => 10 | WKS => 11 | PTR => 12 | HINFO => 13 | MINFO => 14
  | MX => 15 | TXT => 16 | AAAA => 28 | SRV => 33 | OPT => 41
  end.

Definition parse (code : Z) : outcome Error t :=
  match code with
  | 1 => Ok A | 2 => Ok NS | 4 => Ok MF | 5 => Ok CNAME | 6 => Ok SOA
  | 7 => Ok MB | 8 => Ok MG | 9 => Ok MR | 10 => Ok NULL | 11 => Ok WKS
  | 12 => Ok PTR | 13 => Ok HINFO | 14 => Ok MINFO | 15 => Ok MX | 16 => Ok TXT
  | 28 => Ok AAAA | 33 => Ok SRV | 41 => Ok OPT
  | x => Err (InvalidType x)
  end.

#[global] Instance t_eq_dec : EqDecision t.
Proof. solve_decision. Defined.
End RRType.

Module QueryType.
Inductive t :=
| A | NS | MF | CNAME | SOA | MB | MG | MR | NULL | WKS | PTR | HINFO | MINFO
| MX | TXT | AAAA | SRV | AXFR | MAILB | MAILA | All.

Definition code (x : t) : Z :=
  match x with
  | A => 1 | NS => 2 | MF => 4 | CNAME => 5 | SOA => 6 | MB => 7 | MG => 8
  | MR => 9 | NULL => 10 | WKS => 11 | PTR => 12 | HINFO => 13 | MINFO => 14
  | MX => 15 | TXT => 16 | AAAA => 28 | SRV => 33 | AXFR => 252 | MAILB => 253
  | MAILA => 254 | All => 255
  end.

Definition parse (code : Z) : outcome Error t :=
  match code with
  | 1 => Ok A | 2 => Ok NS | 4 => Ok MF | 5 => Ok CNAME | 6 => Ok SOA
  | 7 => Ok MB | 8 => Ok MG | 9 => Ok MR | 10 => Ok NULL | 11 => Ok WKS
  | 12 => Ok PTR | 13 => Ok HINFO | 14 => Ok MINFO | 15 => Ok MX | 16 => Ok TXT
  | 28 => Ok AAAA | 33 => Ok SRV | 252 => Ok AXFR | 253 => Ok MAILB
  | 254 => Ok MAILA | 255 => Ok All
  | x => Err (InvalidQueryType x)
  end.
End QueryType.

Module RRClass.
Inductive t := IN | CS | CH | HS.

Definition code (x : t) : Z :=
  match x with IN => 1 | CS => 2 | CH => 3 | HS => 4 end.

Definition parse (code : Z) : outcome Error t :=
  match code with
  | 1 => Ok IN | 2 => Ok CS | 3 => Ok CH | 4 => Ok HS
  | x => Err (InvalidClass x)
  end.
End RRClass.

Module QueryClass.
Inductive t := IN | CS | CH | HS | Any.

Definition code (x : t) : Z :=
  match x with IN => 1 | CS => 2 | CH => 3 | HS => 4 | Any => 255 end.

Definition parse (code : Z) : outcome Error t :=
  match code with
  | 1 => Ok IN | 2 => Ok CS | 3 => Ok CH | 4 => Ok HS | 255 => Ok Any
  | x => Err (InvalidQueryClass x)
  end.
End QueryClass.

Module Opcode.
Inductive t := StandardQuery | InverseQuery | ServerStatusRequest | Reserved (x : Z).

(** [impl From<u16> for Opcode] *)
Definition from_u16 (code : Z) : t :=
  match code with
  | 0 => StandardQuery | 1 => InverseQuery | 2 => ServerStatusRequest
  | x => Reserved x
  end.

(** [impl Into<u16> for Opcode] *)
Definition into_u16 (x : t) : Z :=
  match x with
  | StandardQuery => 0 | InverseQuery => 1 | ServerStatusRequest => 2
  | Reserved x => x
  end.

(** The opcodes that four bits of the wire can produce. *)
Definition wf (x : t) : Prop :=
  match x with Reserved x => 3 ≤ x < 16 | _ => True end.
End Opcode.

Module ResponseCode.
Inductive t :=
| NoError | FormatError | ServerFailure | NameError | NotImplemented | Refused
| Reserved (code : Z).

(** [impl From<u8> for ResponseCode]; a code above 15 panics. *)
Definition from_u8 {E} (code : Z) : outcome E t :=
  match code with
  | 0 => Ok NoError | 1 => Ok FormatError | 2 => Ok ServerFailure
  | 3 => Ok NameError | 4 => Ok NotImplemented | 5 => Ok Refused
  | x => if bool_decide (6 ≤ x ≤ 15) then Ok (Reserved x) else Panic
  end.

(** [impl Into<u8> for ResponseCode] *)
Definition into_u8 (x : t) : Z :=
  match x with
  | NoError => 0 | FormatError => 1 | ServerFailure => 2 | NameError => 3
  | NotImplemented => 4 | Refused => 5 | Reserved code => code
  end.

Definition wf (x : t) : Prop :=
  match x with Reserved x => 6 ≤ x < 16 | _ => True end.
End ResponseCode.

(** ** Codes and constructors determine each other *)

(** Case analysis on a match over integer literals. *)
Ltac z_cases x := destruct x as [|x|x]; cbn; try done;
  repeat (match goal with
  | |- context [match ?p with xI _ => _ | xO _ => _ | xH => _ end] => is_var p; destruct p
  end; cbn; try done).

Lemma rrtype_parse_code (x : RRType.t) : RRType.parse (RRType.code x) = Ok x.
Proof. by destruct x. Qed.

Lemma rrtype_code_parse c x : RRType.parse c = Ok x → RRType.code x = c.
Proof. unfold RRType.parse. z_cases c; naive_solver. Qed.

Lemma opcode_into_from c : 0 ≤ c < 16 →
  Opcode.into_u16 (Opcode.from_u16 c) = c ∧ Opcode.wf (Opcode.from_u16 c).
Proof. intros H. unfold Opcode.from_u16. z_cases c; lia. Qed.

Lemma rrtype_parse_iff c x : RRType.parse c = Ok x ↔ RRType.code x = c.
Proof.
  split; [apply rrtype_code_parse|]. intros <-. apply rrtype_parse_code.
Qed.

Lemma rrclass_parse_iff c x : RRClass.parse c = Ok x ↔ RRClass.code x = c.
Proof.
  split; [|by intros <-; destruct x].
  unfold RRClass.parse. z_cases c; intros [= <-]; done.
Qed.

Lemma query_type_parse_iff c x : QueryType.parse c = Ok x ↔ QueryType.code x = c.
Proof.
  split; [|by intros <-; destruct x].
  unfold QueryType.parse. z_cases c; intros [= <-]; done.
Qed.

Lemma query_class_parse_iff c x : QueryClass.parse c = Ok x ↔ QueryClass.code x = c.
Proof.
  split; [|by intros <-; destruct x].
  unfold QueryClass.parse. z_cases c; intros [= <-]; done.
Qed.
