(* ===== verification/DnsHeader.v ===== *)
(** * DnsHeader: the twelve-byte packet header of [dns_parser/header.rs]

    [Header.parse] decodes the flag word field by field, [Header.write] encodes
    it again into a twelve-byte buffer.  The encoder never writes the AD and CD
    flags ([authenticated_data], [checking_disabled]), which is what the round
    trips below say exactly; [Header.set_truncated] is the in-place update of the
    flag word. *)
From S2P Require Import Prelude ByteOrder DnsEnums.
Local Open Scope Z_scope.

Module flag.
Definition QUERY := 0x8000.
Definition OPCODE_MASK := 0x7800.
Definition AUTHORITATIVE := 0x0400.
Definition TRUNCATED := 0x0200.
Definition RECURSION_DESIRED := 0x0100.
Definition RECURSION_AVAILABLE := 0x0080.
Definition AUTHENTICATED_DATA := 0x0020.
Definition CHECKING_DISABLED := 0x0010.
Definition RESERVED_MASK := 0x0040.
Definition RESPONSE_CODE_MASK := 0x000F.
End flag.

(** [u16::trailing_zeros] of a non-zero word *)
Definition trailing_zeros (m : Z) : Z := Z.log2 (Z.land m (- m)).

(** [x << n] on a [u16], for [n < 16]: the high bits are lost. *)
Definition shl16 (x n : Z) : Z := Z.shiftl x n mod 65536.

(** [flags & mask != 0] *)
Definition has (flags mask : Z) : bool := negb (Z.land flags mask =? 0).

(** [if b { flags |= mask }] *)
Definition set_if (b : bool) (mask flags : Z) : Z := if b then Z.lor flags mask else flags.

Module Header.
Record t := mk {
  id : Z;
  query : bool;
  opcode : Opcode.t;
  authoritative : bool;
  truncated : bool;
  recursion_desired : bool;
  recursion_available : bool;
  authenticated_data : bool;
  checking_disabled : bool;
  response_code : ResponseCode.t;
  questions : Z;
  answers : Z;
  nameservers : Z;
  additional : Z;
}.

Definition size : nat := 12.

Section ops.
Context `{!BigEndian}.

Definition parse (data : list Z) : outcome Error t :=
  if decide (length data < 12)%nat then Err HeaderTooShort else
  flags ← be16 data 2 4;
  if has flags flag.RESERVED_MASK then Err ReservedBitsAreNonZero else
  id ← be16 data 0 2;
  response_code ← ResponseCode.from_u8 (Z.land flags flag.RESPONSE_CODE_MASK mod 256);
  questions ← be16 data 4 6;
  answers ← be16 data 6 8;
  nameservers ← be16 data 8 10;
  additional ← be16 data 10 12;
  Ok {|
    id := id;
    query := Z.land flags flag.QUERY =? 0;
    opcode := Opcode.from_u16
      (Z.shiftr (Z.land flags flag.OPCODE_MASK) (trailing_zeros flag.OPCODE_MASK));
    authoritative := has flags flag.AUTHORITATIVE;
    truncated := has flags flag.TRUNCATED;
    recursion_desired := has flags flag.RECURSION_DESIRED;
    recursion_available := has flags flag.RECURSION_AVAILABLE;
    authenticated_data := has flags flag.AUTHENTICATED_DATA;
    checking_disabled := has flags flag.CHECKING_DISABLED;
    response_code := response_code;
    questions := questions;
    answers := answers;
    nameservers := nameservers;
    additional := additional;
  |}.

(** The flag word [write] builds. *)
Definition write_flags (h : t) : Z :=
  let flags := 0 in
  let flags := Z.lor flags
    (shl16 (Opcode.into_u16 (opcode h)) (trailing_zeros flag.OPCODE_MASK)) in
  let flags := Z.lor flags (ResponseCode.into_u8 (response_code h)) in
  let flags := set_if (negb (query h)) flag.QUERY flags in
  let flags := set_if (authoritative h) flag.AUTHORITATIVE flags in
  let flags := set_if (recursion_desired h) flag.RECURSION_DESIRED flags in
  let flags := set_if (recursion_available h) flag.RECURSION_AVAILABLE flags in
  set_if (truncated h) flag.TRUNCATED flags.

Definition write (h : t) (data : list Z) : outcome Error (list Z) :=
  if decide (length data ≠ 12%nat) then Panic else
  data ← put16 data 0 2 (id h);
  data ← put16 data 2 4 (write_flags h);
  data ← put16 data 4 6 (questions h);
  data ← put16 data 6 8 (answers h);
  data ← put16 data 8 10 (nameservers h);
  put16 data 10 12 (additional h).

Definition set_truncated (data : list Z) : outcome Error (list Z) :=
  oldflags ← be16 data 2 4;
  put16 data 2 4 (Z.land oldflags flag.TRUNCATED).
End ops.

(** The values a [Header] of the source can hold: 16-bit counters, an opcode and
    a response code in the form [parse] gives them. *)
Definition wf (h : t) : Prop :=
  u16 (id h) ∧ Opcode.wf (opcode h) ∧ ResponseCode.wf (response_code h) ∧
  u16 (questions h) ∧ u16 (answers h) ∧ u16 (nameservers h) ∧ u16 (additional h).

(** The header as [write] sees it: without the two flags it does not encode. *)
Definition without_ad_cd (h : t) : t :=
  mk (id h) (query h) (opcode h) (authoritative h) (truncated h)
     (recursion_desired h) (recursion_available h) false false
     (response_code h) (questions h) (answers h) (nameservers h) (additional h).
End Header.

(** ** Bits of the flag word *)

Lemma has_testbit flags k : 0 ≤ k → has flags (2 ^ k) = Z.testbit flags k.
Proof.
  intros Hk. unfold has. apply eq_true_iff_eq.
  rewrite negb_true_iff, Z.eqb_neq. split.
  - intros Hn. destruct (Z.testbit flags k) eqn:E; [done|]. destruct Hn.
    apply Z.bits_inj'. intros i Hi. rewrite Z.land_spec, Z.bits_0.
    destruct (decide (i = k)) as [->|Hne]; [by rewrite E|].
    rewrite Z.pow2_bits_false by lia. apply andb_false_r.
  - intros Ht H0. assert (Z.testbit (Z.land flags (2 ^ k)) k = false) as Hf.
    { by rewrite H0, Z.bits_0. }
    rewrite Z.land_spec, Ht, Z.pow2_bits_true in Hf by lia. done.
Qed.

(** Decides an equation between words below 2^16 bit by bit. *)
Ltac bits16 :=
  apply Z.bits_inj'; let i := fresh "i" in let Hi := fresh "Hi" in
  intros i Hi;
  destruct (decide (i < 16)) as [?|?];
  [ assert (i = 0 ∨ i = 1 ∨ i = 2 ∨ i = 3 ∨ i = 4 ∨ i = 5 ∨ i = 6 ∨ i = 7 ∨
            i = 8 ∨ i = 9 ∨ i = 10 ∨ i = 11 ∨ i = 12 ∨ i = 13 ∨ i = 14 ∨ i = 15)
      as Hcase by lia;
    repeat (destruct Hcase as [->|Hcase]); try subst i
  | ].

Lemma testbit_high v k i : 0 ≤ v < 2 ^ k → 0 ≤ k → k ≤ i → Z.testbit v i = false.
Proof.
  intros Hv Hk Hi. destruct (decide (v = 0)) as [->|]; [apply Z.bits_0|].
  apply Z.bits_above_log2; [lia|].
  apply Z.lt_le_trans with k; [|lia]. apply Z.log2_lt_pow2; lia.
Qed.

Lemma land_low_bound v m k : 0 ≤ m < 2 ^ k → 0 ≤ k → 0 ≤ Z.land v m < 2 ^ k.
Proof.
  intros Hm Hk. split; [apply Z.land_nonneg; lia|].
  destruct (decide (Z.land v m = 0)) as [->|Hne]; [lia|].
  assert (0 ≤ Z.land v m) by (apply Z.land_nonneg; lia).
  apply Z.log2_lt_pow2; [lia|].
  destruct (decide (k ≤ Z.log2 (Z.land v m))) as [Hle|]; [|lia].
  pose proof (Z.bit_log2 (Z.land v m) ltac:(lia)) as Hb.
  rewrite Z.land_spec, (testbit_high m k) in Hb by lia.
  by rewrite andb_false_r in Hb.
Qed.

Lemma opcode_field_bound flags :
  0 ≤ Z.shiftr (Z.land flags flag.OPCODE_MASK) 11 < 16.
Proof.
  assert (0 ≤ Z.land flags flag.OPCODE_MASK < 2 ^ 15)
    by (apply land_low_bound; unfold flag.OPCODE_MASK; lia).
  rewrite Z.shiftr_div_pow2 by lia.
  split; [apply Z.div_pos; lia|apply Z.div_lt_upper_bound; lia].
Qed.

Lemma rcode_field_bound flags : 0 ≤ Z.land flags flag.RESPONSE_CODE_MASK < 16.
Proof. apply (land_low_bound _ _ 4); unfold flag.RESPONSE_CODE_MASK; lia. Qed.

Lemma rcode_from_Ok {E} c : 0 ≤ c < 16 →
  ∃ r, ResponseCode.from_u8 (E:=E) c = Ok r ∧ ResponseCode.wf r ∧ ResponseCode.into_u8 r = c.
Proof.
  intros Hc.
  assert (c = 0 ∨ c = 1 ∨ c = 2 ∨ c = 3 ∨ c = 4 ∨ c = 5 ∨ 6 ≤ c) as Hcase by lia.
  repeat destruct Hcase as [->|Hcase]; try (by eexists).
  exists (ResponseCode.Reserved c). unfold ResponseCode.from_u8, ResponseCode.wf.
  rewrite bool_decide_eq_true_2 by lia. z_cases c; first [lia | split_and!; (done || lia)].
Qed.

Lemma rcode_into_from {E} r : ResponseCode.wf r →
  0 ≤ ResponseCode.into_u8 r < 16 ∧
  ResponseCode.from_u8 (E:=E) (ResponseCode.into_u8 r) = Ok r.
Proof.
  destruct r as [| | | | | |c]; cbn; try (by split; [lia|]). intros Hc. split; [lia|].
  unfold ResponseCode.from_u8. rewrite bool_decide_eq_true_2 by lia. z_cases c; lia.
Qed.

Lemma opcode_from_into o : Opcode.wf o →
  0 ≤ Opcode.into_u16 o < 16 ∧ Opcode.from_u16 (Opcode.into_u16 o) = o.
Proof.
  destruct o as [| | |c]; cbn; try (by split; [lia|]). intros Hc. split; [lia|].
  unfold Opcode.from_u16. z_cases c; lia.
Qed.

(** Bit [i] of the word [write] builds, as the six masks contribute it. *)
Lemma set_if_testbit b m f i :
  Z.testbit (set_if b m f) i = Z.testbit f i || (b && Z.testbit m i).
Proof. destruct b; cbn; [by rewrite Z.lor_spec|by rewrite orb_false_r]. Qed.

Lemma shl16_testbit x i : 0 ≤ x < 16 → 0 ≤ i →
  Z.testbit (shl16 x 11) i = Z.testbit x (i - 11).
Proof.
  intros Hx Hi. unfold shl16. rewrite Z.mod_small, Z.shiftl_spec by
    (rewrite ?Z.shiftl_mul_pow2; lia). done.
Qed.

Lemma write_flags_testbit h i : Header.wf h → 0 ≤ i →
  Z.testbit (Header.write_flags h) i =
    Z.testbit (Opcode.into_u16 (Header.opcode h)) (i - 11)
    || Z.testbit (ResponseCode.into_u8 (Header.response_code h)) i
    || (negb (Header.query h) && (i =? 15))
    || (Header.authoritative h && (i =? 10))
    || (Header.recursion_desired h && (i =? 8))
    || (Header.recursion_available h && (i =? 7))
    || (Header.truncated h && (i =? 9)).
Proof.
  intros (_ & Ho & _) Hi. unfold Header.write_flags.
  rewrite !set_if_testbit, !Z.lor_spec, Z.bits_0.
  change (trailing_zeros flag.OPCODE_MASK) with 11.
  rewrite shl16_testbit by (try apply (opcode_from_into _ Ho); done).
  assert (∀ k, 0 ≤ k → Z.testbit (2 ^ k) i = (i =? k)) as Hp.
  { intros k Hk. rewrite Z.pow2_bits_eqb by done. apply Z.eqb_sym. }
  by rewrite <-(Hp 15), <-(Hp 10), <-(Hp 8), <-(Hp 7), <-(Hp 9) by lia.
Qed.

Lemma write_flags_u16 h : Header.wf h → u16 (Header.write_flags h).
Proof.
  intros Hwf. pose proof Hwf as (_ & Ho & Hr & _).
  destruct (opcode_from_into _ Ho) as [Hob _].
  destruct (rcode_into_from (E:=Error) _ Hr) as [Hrb _].
  assert (Z.land (Header.write_flags h) (Z.ones 16) = Header.write_flags h) as <-.
  { apply Z.bits_inj'. intros i Hi. rewrite Z.land_spec.
    destruct (decide (i < 16)).
    - rewrite Z.ones_spec_low by lia. apply andb_true_r.
    - rewrite Z.ones_spec_high, andb_false_r by lia.
      rewrite write_flags_testbit, (testbit_high _ 4), (testbit_high _ 4) by (done || lia).
      repeat match goal with |- context [i =? ?k] =>
        rewrite (proj2 (Z.eqb_neq i k)) by lia end.
      by rewrite !andb_false_r. }
  rewrite Z.land_ones by lia. apply Z.mod_pos_bound. lia.
Qed.

(** What [parse] reads in the word [write] wrote, field by field. *)
Lemma write_flags_bit h k : Header.wf h → k ∈ [4; 5; 6; 7; 8; 9; 10; 15] →
  has (Header.write_flags h) (2 ^ k) =
    match k with
    | 15 => negb (Header.query h) | 10 => Header.authoritative h
    | 9 => Header.truncated h | 8 => Header.recursion_desired h
    | 7 => Header.recursion_available h | _ => false
    end.
Proof.
  intros Hwf Hk. pose proof Hwf as (_ & Ho & Hr & _).
  destruct (opcode_from_into _ Ho) as [Hob _].
  destruct (rcode_into_from (E:=Error) _ Hr) as [Hrb _].
  assert (4 ≤ k ≤ 10 ∨ k = 15) as Hk'.
  { repeat (apply elem_of_cons in Hk as [->|Hk]; [lia|]). by apply elem_of_nil in Hk. }
  rewrite has_testbit, write_flags_testbit, (testbit_high (ResponseCode.into_u8 _) 4 k) by (done || lia).
  assert (Z.testbit (Opcode.into_u16 (Header.opcode h)) (k - 11) = false) as ->.
  { destruct Hk' as [? | ->]; [apply Z.testbit_neg_r; lia|].
    apply (testbit_high _ 4); lia. }
  repeat (apply elem_of_cons in Hk as [->|Hk];
    [cbn; rewrite ?andb_false_r, ?andb_true_r, ?orb_false_r; done|]).
  by apply elem_of_nil in Hk.
Qed.

Lemma write_flags_opcode h : Header.wf h →
  Z.shiftr (Z.land (Header.write_flags h) flag.OPCODE_MASK) 11 =
    Opcode.into_u16 (Header.opcode h).
Proof.
  intros Hwf. pose proof Hwf as (_ & Ho & Hr & _).
  destruct (opcode_from_into _ Ho) as [Hob _].
  destruct (rcode_into_from (E:=Error) _ Hr) as [Hrb _].
  apply Z.bits_inj'. intros i Hi. rewrite Z.shiftr_spec, Z.land_spec by done.
  rewrite write_flags_testbit by (done || lia).
  rewrite (testbit_high (ResponseCode.into_u8 _) 4) by lia.
  replace (i + 11 - 11) with i by lia.
  destruct (decide (i < 4)).
  - assert (Z.testbit flag.OPCODE_MASK (i + 11) = true) as ->.
    { assert (i = 0 ∨ i = 1 ∨ i = 2 ∨ i = 3) as [->|[->|[->| ->]]] by lia; done. }
    repeat match goal with |- context [?j =? ?k] =>
      rewrite (proj2 (Z.eqb_neq j k)) by lia end.
    by rewrite !andb_false_r, !orb_false_r, andb_true_r.
  - rewrite (testbit_high _ 4), (testbit_high flag.OPCODE_MASK 15)
      by (unfold flag.OPCODE_MASK; lia). by rewrite andb_false_r.
Qed.

Lemma write_flags_rcode h : Header.wf h →
  Z.land (Header.write_flags h) flag.RESPONSE_CODE_MASK =
    ResponseCode.into_u8 (Header.response_code h).
Proof.
  intros Hwf. pose proof Hwf as (_ & Ho & Hr & _).
  destruct (opcode_from_into _ Ho) as [Hob _].
  destruct (rcode_into_from (E:=Error) _ Hr) as [Hrb _].
  apply Z.bits_inj'. intros i Hi. rewrite Z.land_spec.
  rewrite write_flags_testbit by (done || lia).
  change flag.RESPONSE_CODE_MASK with (Z.ones 4).
  destruct (decide (i < 4)).
  - rewrite Z.ones_spec_low, Z.testbit_neg_r by lia.
    repeat match goal with |- context [?j =? ?k] =>
      rewrite (proj2 (Z.eqb_neq j k)) by lia end.
    by rewrite !andb_false_r, !orb_false_r, andb_true_r.
  - rewrite Z.ones_spec_high, (testbit_high _ 4 i) by lia. apply andb_false_r.
Qed.

(** ** Closed forms of the two operations *)
Section ops.
Context `{!BigEndian}.

Lemma parse_short data : (length data < 12)%nat → Header.parse data = Err HeaderTooShort.
Proof. intros. unfold Header.parse. by rewrite decide_True. Qed.

Lemma parse_reserved data : bytes data → (12 ≤ length data)%nat →
  has (val16 data 2) flag.RESERVED_MASK = true →
  Header.parse data = Err ReservedBitsAreNonZero.
Proof.
  intros Hb Hn Hres. unfold Header.parse. rewrite decide_False by lia.
  io_step. by rewrite Hres.
Qed.

(** The header of a long enough packet, as a function of its flag word, its
    response code and its four counters. *)
Definition decode (flags : Z) (rc : ResponseCode.t) (id q a n d : Z) : Header.t :=
  Header.mk id (Z.land flags flag.QUERY =? 0)
    (Opcode.from_u16 (Z.shiftr (Z.land flags flag.OPCODE_MASK) 11))
    (has flags flag.AUTHORITATIVE) (has flags flag.TRUNCATED)
    (has flags flag.RECURSION_DESIRED) (has flags flag.RECURSION_AVAILABLE)
    (has flags flag.AUTHENTICATED_DATA) (has flags flag.CHECKING_DISABLED) rc q a n d.

Lemma parse_long data rc : bytes data → (12 ≤ length data)%nat →
  has (val16 data 2) flag.RESERVED_MASK = false →
  ResponseCode.from_u8 (E:=Error) (Z.land (val16 data 2) flag.RESPONSE_CODE_MASK) = Ok rc →
  Header.parse data = Ok (decode (val16 data 2) rc (val16 data 0)
    (val16 data 4) (val16 data 6) (val16 data 8) (val16 data 10)).
Proof.
  intros Hb Hn Hres Hrc. unfold Header.parse. rewrite decide_False by lia.
  io_step. rewrite Hres.
  io_step.
  rewrite Z.mod_small by (pose proof (rcode_field_bound (val16 data 2)); lia).
  rewrite Hrc. mstep. by repeat io_step.
Qed.

Lemma decode_wf flags rc id q a n d : ResponseCode.wf rc →
  u16 id → u16 q → u16 a → u16 n → u16 d → Header.wf (decode flags rc id q a n d).
Proof.
  intros. repeat split; cbn; try done; try (unfold u16 in *; lia).
  apply opcode_into_from, opcode_field_bound.
Qed.

(** The twelve bytes [write] produces. *)
Definition encoding (h : Header.t) : list Z :=
  let w := Header.write_flags h in
  [Header.id h / 256; Header.id h mod 256; w / 256; w mod 256;
   Header.questions h / 256; Header.questions h mod 256;
   Header.answers h / 256; Header.answers h mod 256;
   Header.nameservers h / 256; Header.nameservers h mod 256;
   Header.additional h / 256; Header.additional h mod 256].

Lemma write_encoding h buf : Header.wf h → length buf = 12%nat →
  Header.write h buf = Ok (encoding h).
Proof.
  intros Hwf Hn. pose proof Hwf as (Hid & _ & _ & Hq & Ha & Hns & Hd).
  pose proof (write_flags_u16 h Hwf) as Hw.
  do 12 (destruct buf as [|? buf]; [done|]). destruct buf; [|done].
  unfold Header.write. rewrite decide_False by (intros ?; done).
  unfold encoding. generalize dependent (Header.write_flags h). intros w Hw.
  do 5 (io_step; cbn [take drop app]).
  by rewrite put16_val by (done || (cbn; lia)).
Qed.

Lemma encoding_bytes h : Header.wf h → bytes (encoding h).
Proof.
  intros Hwf. pose proof Hwf as (Hid & _ & _ & Hq & Ha & Hns & Hd).
  pose proof (write_flags_u16 h Hwf).
  unfold encoding. rewrite !bytes_cons. split_and!; auto using u16_hi, u16_lo. by constructor.
Qed.
End ops.

(** ** Writing what was parsed *)
Section reparse.
Context `{!BigEndian}.

Lemma parse_Ok_inv data h : bytes data → Header.parse data = Ok h →
  (12 ≤ length data)%nat ∧ has (val16 data 2) flag.RESERVED_MASK = false ∧
  ∃ rc, ResponseCode.wf rc ∧
    ResponseCode.into_u8 rc = Z.land (val16 data 2) flag.RESPONSE_CODE_MASK ∧
    h = decode (val16 data 2) rc (val16 data 0)
          (val16 data 4) (val16 data 6) (val16 data 8) (val16 data 10).
Proof.
  intros Hb Hp. destruct (decide (length data < 12)%nat) as [Hn|Hn].
  { by rewrite parse_short in Hp. }
  destruct (has (val16 data 2) flag.RESERVED_MASK) eqn:Hres.
  { by rewrite parse_reserved in Hp by (done || lia). }
  destruct (rcode_from_Ok (E:=Error) _ (rcode_field_bound (val16 data 2))) as (rc & Hrc & Hwf & Hi).
  rewrite (parse_long data rc) in Hp by (done || lia). injection Hp as <-.
  split_and!; [lia|done|]. by exists rc.
Qed.

Lemma header_parse_no_panic data : bytes data →
  Header.parse data ≠ Panic ∧ Header.parse data ≠ OutOfFuel.
Proof.
  intros Hb. destruct (decide (length data < 12)%nat); [by rewrite parse_short|].
  destruct (has (val16 data 2) flag.RESERVED_MASK) eqn:Hres.
  { by rewrite parse_reserved by (done || lia). }
  destruct (rcode_from_Ok (E:=Error) _ (rcode_field_bound (val16 data 2))) as (rc & Hrc & _).
  by rewrite (parse_long data rc) by (done || lia).
Qed.

Lemma parse_Ok_wf data h : bytes data → Header.parse data = Ok h → Header.wf h.
Proof.
  intros Hb Hp. destruct (parse_Ok_inv _ _ Hb Hp) as (_ & _ & rc & Hrc & _ & ->).
  apply decode_wf; auto using val16_u16.
Qed.

(** Evaluates the bits of literals. *)
Ltac eval_bits :=
  unfold flag.OPCODE_MASK, flag.RESPONSE_CODE_MASK;
  repeat match goal with
  | |- context [Z.testbit (Zpos ?m) ?k] => is_ground m;
      let b := eval vm_compute in (Z.testbit (Zpos m) k) in
      change (Z.testbit (Zpos m) k) with b
  | |- context [?x =? ?y] =>
      let b := eval vm_compute in (x =? y) in change (x =? y) with b
  end.

(** Re-encoding a decoded flag word clears AD and CD (bits 5 and 4). *)
Lemma write_flags_decode flags rc id q a n d :
  u16 flags → u16 id → u16 q → u16 a → u16 n → u16 d → ResponseCode.wf rc →
  has flags flag.RESERVED_MASK = false →
  ResponseCode.into_u8 rc = Z.land flags flag.RESPONSE_CODE_MASK →
  Header.write_flags (decode flags rc id q a n d) = Z.land flags 0xFFCF.
Proof.
  intros Hf ????? Hrc Hres Hi. change flag.RESERVED_MASK with (2 ^ 6) in Hres.
  rewrite has_testbit in Hres by lia.
  apply Z.bits_inj'. intros i Hi0. rewrite write_flags_testbit by (try apply decode_wf; done).
  unfold decode. cbn [Header.opcode Header.response_code Header.query Header.authoritative
    Header.recursion_desired Header.recursion_available Header.truncated].
  rewrite (proj1 (opcode_into_from _ (opcode_field_bound flags))), Hi, Z.land_spec.
  change flag.AUTHORITATIVE with (2 ^ 10). change flag.RECURSION_DESIRED with (2 ^ 8).
  change flag.RECURSION_AVAILABLE with (2 ^ 7). change flag.TRUNCATED with (2 ^ 9).
  assert (negb (Z.land flags flag.QUERY =? 0) = Z.testbit flags 15) as ->
    by (by rewrite <-has_testbit by lia).
  rewrite !has_testbit, Z.land_spec by lia.
  destruct (decide (i < 16)); [|rewrite (testbit_high flags 16 i),
    (testbit_high _ 4 (i - 11)) by (unfold u16 in *; done || lia || apply opcode_field_bound);
    repeat match goal with |- context [?j =? ?k] => rewrite (proj2 (Z.eqb_neq j k)) by lia end;
    by rewrite !andb_false_r].
  assert (i = 0 ∨ i = 1 ∨ i = 2 ∨ i = 3 ∨ i = 4 ∨ i = 5 ∨ i = 6 ∨ i = 7 ∨ i = 8 ∨ i = 9 ∨
          i = 10 ∨ i = 11 ∨ i = 12 ∨ i = 13 ∨ i = 14 ∨ i = 15) as Hcase by lia.
  assert (∀ k, 0 ≤ k → Z.testbit (Z.shiftr (Z.land flags flag.OPCODE_MASK) 11) k =
    Z.testbit flags (k + 11) && Z.testbit flag.OPCODE_MASK (k + 11)) as Hop.
  { intros k Hk. by rewrite Z.shiftr_spec, Z.land_spec by done. }
  repeat destruct Hcase as [->|Hcase]; try subst i;
    first [rewrite Z.testbit_neg_r by lia | rewrite Hop by lia];
    rewrite ?Hres; eval_bits; rewrite ?andb_true_r, ?andb_false_r, ?orb_false_r; done.
Qed.

Lemma land_div256 x y : Z.land x y / 256 = Z.land (x / 256) (y / 256).
Proof. change 256 with (2 ^ 8). by rewrite <-!Z.shiftr_div_pow2, Z.shiftr_land by lia. Qed.

Lemma land_mod256 x y : Z.land x y mod 256 = Z.land (x mod 256) (y mod 256).
Proof.
  change 256 with (2 ^ 8). rewrite <-!Z.land_ones by lia.
  apply Z.bits_inj'. intros i _. rewrite !Z.land_spec.
  destruct (Z.testbit x i), (Z.testbit y i), (Z.testbit (Z.ones 8) i); done.
Qed.

Lemma val16_parts a b : byte a → byte b → (a * 256 + b) / 256 = a ∧ (a * 256 + b) mod 256 = b.
Proof.
  unfold byte. intros Ha Hb. rewrite Z.div_add_l, Z.div_small by lia.
  split; [lia|]. rewrite Z.add_comm, Z.mod_add, Z.mod_small by lia. done.
Qed.
End reparse.

(** ** Properties *)
Section properties.
Context `{!BigEndian}.

Lemma val16_encoding h rest (i : nat) v :
  nth i (encoding h ++ rest) 0 = v / 256 → nth (S i) (encoding h ++ rest) 0 = v mod 256 →
  val16 (encoding h ++ rest) i = v.
Proof. intros E1 E2. unfold val16. rewrite E1, E2. pose proof (Z.div_mod v 256). lia. Qed.

(** [Header::parse] on any byte string: shorter than twelve bytes it is the
    error [HeaderTooShort], with the reserved bit set the error
    [ReservedBitsAreNonZero], and otherwise a header whose fields are in range.
    It never panics, although decoding a response code can. *)
Theorem header_parse_total (data : list Z) : bytes data →
  if decide (length data < 12)%nat then Header.parse data = Err HeaderTooShort
  else if Z.testbit (val16 data 2) 6 then Header.parse data = Err ReservedBitsAreNonZero
  else ∃ h, Header.parse data = Ok h ∧ Header.wf h ∧
    Header.id h = val16 data 0 ∧ Header.query h = negb (Z.testbit (val16 data 2) 15) ∧
    Header.questions h = val16 data 4 ∧ Header.answers h = val16 data 6 ∧
    Header.nameservers h = val16 data 8 ∧ Header.additional h = val16 data 10.
Proof.
  intros Hb. case_decide as Hn; [by apply parse_short|].
  rewrite <-has_testbit by lia. change (2 ^ 6) with flag.RESERVED_MASK.
  destruct (has _ _) eqn:Hres; [apply parse_reserved; (done || lia)|].
  destruct (rcode_from_Ok (E:=Error) _ (rcode_field_bound (val16 data 2))) as (rc & Hrc & Hwf & _).
  eexists. split; [eapply parse_long; eauto with lia|].
  split; [apply decode_wf; auto using val16_u16|]. split_and!; try done.
  cbn [decode Header.query]. rewrite <-has_testbit by lia. unfold has. by rewrite negb_involutive.
Qed.

Lemma parse_encoding (h : Header.t) (rest : list Z) :
  Header.wf h → bytes rest →
  Header.parse (encoding h ++ rest) = Ok (Header.without_ad_cd h).
Proof.
  intros Hwf Hrest. pose proof Hwf as (_ & Ho & Hr & _).
  assert (val16 (encoding h ++ rest) 2 = Header.write_flags h) as Hw
    by (by apply val16_encoding).
  destruct (rcode_into_from (E:=Error) _ Hr) as [Hrb Hrc].
  pose proof (λ k, write_flags_bit h k Hwf) as Hbit.
  erewrite parse_long.
  - rewrite Hw, !(val16_encoding h rest 0 (Header.id h)),
      !(val16_encoding h rest 4 (Header.questions h)),
      !(val16_encoding h rest 6 (Header.answers h)),
      !(val16_encoding h rest 8 (Header.nameservers h)),
      !(val16_encoding h rest 10 (Header.additional h)) by done.
    f_equal. unfold decode, Header.without_ad_cd. f_equal.
    + pose proof (Hbit 15 ltac:(repeat constructor)) as H15. unfold has in H15.
      change (2 ^ 15) with flag.QUERY in H15. by apply (f_equal negb) in H15;
        rewrite !negb_involutive in H15.
    + rewrite write_flags_opcode by done. by apply opcode_from_into.
    + apply (Hbit 10). repeat constructor.
    + apply (Hbit 9). repeat constructor.
    + apply (Hbit 8). repeat constructor.
    + apply (Hbit 7). repeat constructor.
    + apply (Hbit 5). repeat constructor.
    + apply (Hbit 4). repeat constructor.
  - apply bytes_app. auto using encoding_bytes.
  - rewrite length_app. cbn. lia.
  - rewrite Hw. apply (Hbit 6). repeat constructor.
  - rewrite Hw, write_flags_rcode by done. exact Hrc.
Qed.

(** C39. Writing a header and parsing the packet that starts with it gives the
    header back, except that the AD and CD flags are lost: [write] does not
    encode them. *)
Theorem header_roundtrip (h : Header.t) (buf rest d : list Z) :
  Header.wf h → length buf = 12%nat → bytes rest →
  Header.write h buf = Ok d →
  Header.parse (d ++ rest) = Ok (Header.without_ad_cd h).
Proof.
  intros Hwf Hn Hrest Hd. rewrite write_encoding in Hd by done. injection Hd as <-.
  by apply parse_encoding.
Qed.

(** Parsing a header and writing it again reproduces its twelve bytes, with
    the two flags AD and CD of byte 3 cleared and nothing else changed. *)
Theorem header_rewrite (data buf : list Z) (h : Header.t) :
  bytes data → length buf = 12%nat → Header.parse data = Ok h →
  Header.write h buf = Ok (take 3 data ++ [Z.land (nth 3 data 0) 0xCF] ++ take 8 (drop 4 data)).
Proof.
  intros Hb Hn Hp. rewrite write_encoding by eauto using parse_Ok_wf.
  destruct (parse_Ok_inv _ _ Hb Hp) as (Hlen & Hres & rc & Hrc & Hi & ->).
  unfold encoding. rewrite write_flags_decode by auto using val16_u16.
  cbn [decode Header.id Header.questions Header.answers Header.nameservers Header.additional].
  do 12 (destruct data as [|? data]; [cbn in Hlen; lia|]).
  rewrite !bytes_cons in Hb. destruct_and!.
  unfold val16. cbn [nth Nat.add take drop app].
  rewrite land_div256, land_mod256.
  repeat match goal with
  | |- context [(?a * 256 + ?b) / 256] => rewrite (proj1 (val16_parts a b ltac:(done) ltac:(done)))
  | |- context [(?a * 256 + ?b) mod 256] => rewrite (proj2 (val16_parts a b ltac:(done) ltac:(done)))
  end.
  change (0xFFCF / 256) with (Z.ones 8). change (0xFFCF mod 256) with 0xCF.
  rewrite Z.land_ones, Z.mod_small by (unfold byte in *; lia). done.
Qed.

(** [Header::set_truncated] never sets the truncation flag: it masks the
    flag word with [TRUNCATED] instead of adding it, so the flag keeps its old
    value and every other flag, the opcode and the response code are cleared. *)
Theorem set_truncated_clears (data : list Z) : bytes data → (4 ≤ length data)%nat →
  ∃ d, Header.set_truncated data = Ok d ∧ length d = length data ∧
    has (val16 d 2) flag.TRUNCATED = has (val16 data 2) flag.TRUNCATED ∧
    ∀ k, 0 ≤ k → k ≠ 9 → Z.testbit (val16 d 2) k = false.
Proof.
  intros Hb Hn. unfold Header.set_truncated. io_step.
  assert (u16 (Z.land (val16 data 2) flag.TRUNCATED)) as Hu.
  { apply (land_low_bound _ _ 16); unfold flag.TRUNCATED; lia. }
  rewrite put16_val by (done || lia). eexists. split; [done|].
  rewrite val16_put by lia. split.
  { rewrite !length_app, length_take, length_drop. cbn [length]. lia. }
  change flag.TRUNCATED with (2 ^ 9). split.
  - by rewrite !has_testbit, Z.land_spec, Z.pow2_bits_true, andb_true_r by lia.
  - intros k Hk Hne. rewrite Z.land_spec, Z.pow2_bits_false by lia. apply andb_false_r.
Qed.
End properties.

(** ** Witnesses *)
Lemma header_parse_total_witness :
  ∃ h, Header.parse [6; 37; 1; 0; 0; 1; 0; 0; 0; 0; 0; 0] = Ok h ∧ Header.wf h ∧
    Header.id h = 1573 ∧ Header.query h = true ∧ Header.questions h = 1.
Proof.
  pose proof (header_parse_total [6; 37; 1; 0; 0; 1; 0; 0; 0; 0; 0; 0]) as Ht.
  destruct Ht as (h & H1 & H2 & H3 & H4 & H5 & _).
  { repeat constructor; lia. }
  exists h. auto.
Defined.

Definition example_header : Header.t :=
  Header.mk 1573 true Opcode.StandardQuery false false true false true false
    ResponseCode.NoError 1 0 0 0.

Lemma header_roundtrip_witness :
  Header.parse ([6; 37; 1; 0; 0; 1; 0; 0; 0; 0; 0; 0] ++ [7]) =
    Ok (Header.without_ad_cd example_header).
Proof.
  apply (header_roundtrip example_header (repeat 0 12) [7]).
  - repeat split; cbn; (done || lia).
  - reflexivity.
  - repeat constructor; lia.
  - vm_compute. reflexivity.
Defined.

Lemma header_rewrite_witness :
  ∃ h, Header.parse [6; 37; 129; 176; 0; 1; 0; 1; 0; 0; 0; 0; 7] = Ok h ∧
    Header.write h (repeat 0 12) = Ok [6; 37; 129; 128; 0; 1; 0; 1; 0; 0; 0; 0].
Proof.
  eexists. split; [vm_compute; reflexivity|].
  apply (header_rewrite [6; 37; 129; 176; 0; 1; 0; 1; 0; 0; 0; 0; 7] (repeat 0 12)).
  - repeat constructor; lia.
  - reflexivity.
  - vm_compute. reflexivity.
Defined.

Lemma set_truncated_clears_witness :
  ∃ d, Header.set_truncated [6; 37; 129; 128; 0; 1; 0; 1; 0; 0; 0; 0] = Ok d ∧
    has (val16 d 2) flag.TRUNCATED = false.
Proof.
  destruct (set_truncated_clears [6; 37; 129; 128; 0; 1; 0; 1; 0; 0; 0; 0])
    as (d & H1 & _ & H2 & _).
  - repeat constructor; lia.
  - cbn. lia.
  - exists d. split; [exact H1|]. rewrite H2. vm_compute. reflexivity.
Defined.
