(* ===== verification/DnsName.v ===== *)
(** * DnsName: compressed domain names, [dns_parser/name.rs]

    [Name.scan] validates the name that starts at the front of a slice, follows
    compression pointers into the whole packet, and returns the slice of the
    bytes the name occupies in place.  [Name.fmt] is the [Display]
    implementation, which follows the pointers again and writes the labels
    separated by dots.

    The specification is the grammar [name_at]: which label sequences a position
    of a packet denotes, when every pointer must point before the previous one.
    [scan] decides the grammar and [fmt] prints what it denotes. *)
From S2P Require Import Prelude Utf8 ByteOrder DnsEnums.

(** The byte of ['.'] *)
Definition DOT : Z := 46.

Module Name.
Record t := mk { labels : list Z; original : list Z }.

Section ops.
Context `{!BigEndian}.

(** [(BigEndian::read_u16(&d[pos..pos+2]) & !0b1100_0000_0000_0000) as usize] *)
Definition pointer {E} (d : list Z) (pos : nat) : outcome E nat :=
  u ← be16 d pos (pos + 2);
  Ok (Z.to_nat (Z.land u (Z.lxor 0xFFFF 0xC000))).

(** The [while byte != 0] loop of [scan]; it ends with the final [pos] and
    [return_pos]. *)
Fixpoint scan_loop (fuel : nat) (original parse_data : list Z)
    (pos largest_pos : nat) (return_pos : option nat) (byte : Z)
    : outcome Error (nat * option nat) :=
  match fuel with
  | O => OutOfFuel
  | S fuel =>
    if (byte =? 0)%Z then Ok (pos, return_pos) else
    if decide (length parse_data ≤ pos) then Err UnexpectedEOF else
    if (Z.land byte 0xC0 =? 0xC0)%Z then
      if decide (length parse_data < pos + 2) then Err UnexpectedEOF else
      off ← pointer parse_data pos;
      if decide (length original ≤ off) then Err UnexpectedEOF else
      let return_pos :=
        match return_pos with None => Some pos | Some p => Some p end in
      if decide (largest_pos ≤ off) then Err BadPointer else
      parse_data ← slice_from original off;
      byte ← index parse_data 0;
      scan_loop fuel original parse_data 0 off return_pos byte
    else if (Z.land byte 0xC0 =? 0)%Z then
      let end_ := pos + Z.to_nat byte + 1 in
      if decide (length parse_data < end_) then Err UnexpectedEOF else
      label ← slice parse_data (pos + 1) end_;
      if negb (is_ascii label) then Err LabelIsNotAscii else
      if decide (length parse_data ≤ end_) then Err UnexpectedEOF else
      byte ← index parse_data end_;
      scan_loop fuel original parse_data end_ largest_pos return_pos byte
    else Err UnknownLabelFormat
  end.

(** Enough iterations: each one moves forward in the current slice or jumps to
    a smaller offset of [original]. *)
Definition steps (original : list Z) (bound rest : nat) : nat :=
  bound * S (length original) + rest.
Definition scan_fuel (data original : list Z) : nat :=
  S (steps original (length original) (length data)).

Definition scan (data original : list Z) : outcome Error t :=
  if decide (length data ≤ 0) then Err UnexpectedEOF else
  byte ← index data 0;
  r ← scan_loop (scan_fuel data original) original data 0 (length original) None byte;
  match r.2 with
  | Some return_pos => labels ← slice_to data (return_pos + 2); Ok (mk labels original)
  | None => labels ← slice_to data (r.1 + 1); Ok (mk labels original)
  end.

Definition byte_len (n : t) : nat := length (labels n).

(** [impl Display for Name], writing into a [String] (which never fails): the
    bytes the loop writes from position [pos] of [data] on.  The recursive call
    on a pointer is [Display::fmt] of the name scanned there. *)
Fixpoint fmt (fuel : nat) (original data : list Z) (pos : nat) : outcome Error (list Z) :=
  match fuel with
  | O => OutOfFuel
  | S fuel =>
    byte ← index data pos;
    if (byte =? 0)%Z then Ok []
    else if (Z.land byte 0xC0 =? 0xC0)%Z then
      off ← pointer data pos;
      let dot := if decide (pos = 0) then [] else [DOT] in
      target ← slice_from original off;
      n ← unwrap (scan target original);
      s ← fmt fuel original (labels n) 0;
      Ok (dot ++ s)
    else if (Z.land byte 0xC0 =? 0)%Z then
      let dot := if decide (pos = 0) then [] else [DOT] in
      let end_ := pos + Z.to_nat byte + 1 in
      label ← slice data (pos + 1) end_;
      label ← unwrap (from_utf8 label);
      s ← fmt fuel original data end_;
      Ok (dot ++ label ++ s)
    else Panic
  end.

Definition to_string (n : t) : outcome Error (list Z) :=
  fmt (scan_fuel (labels n) (original n)) (original n) (labels n) 0.
End ops.
End Name.

(** ** The grammar of compressed names

    [name_at original data pos bound ls dot e]: at position [pos] of [data]
    stands a name with the labels [ls]; it occupies [data] up to [e]; the first
    pointer on the way is below [bound] and every later one below the one
    before.  [dot] records that a pointer after at least one label leads to the
    bare root, which [fmt] prints as a final dot. *)
Inductive name_at (original : list Z) :
    list Z → nat → nat → list (list Z) → bool → nat → Prop :=
| name_root data pos bound :
    data !! pos = Some 0%Z →
    name_at original data pos bound [] false (pos + 1)
| name_label data pos bound b ls dot e :
    data !! pos = Some b → (0 < b < 64)%Z →
    is_ascii (take (Z.to_nat b) (drop (pos + 1) data)) = true →
    name_at original data (pos + Z.to_nat b + 1) bound ls dot e →
    name_at original data pos bound
      (take (Z.to_nat b) (drop (pos + 1) data) :: ls) dot e
| name_pointer data pos bound b0 b1 off ls dot e :
    data !! pos = Some b0 → data !! (pos + 1) = Some b1 → (192 ≤ b0)%Z →
    off = Z.to_nat ((b0 - 192) * 256 + b1) →
    off < length original → off < bound →
    name_at original (drop off original) 0 off ls dot e →
    name_at original data pos bound ls
      (dot || (bool_decide (pos ≠ 0) && bool_decide (ls = []))) (pos + 2).

(** The text of a name: its labels joined with dots. *)
Fixpoint dotted (ls : list (list Z)) : list Z :=
  match ls with
  | [] => []
  | [l] => l
  | l :: ls => l ++ DOT :: dotted ls
  end.

Definition name_text (ls : list (list Z)) (dot : bool) : list Z :=
  dotted ls ++ (if dot then [DOT] else []).

(** ** Facts about bytes and pointers *)

Lemma mask_c0 b : byte b →
  (Z.land b 0xC0 =? 0xC0)%Z = bool_decide (192 ≤ b)%Z ∧
  (Z.land b 0xC0 =? 0)%Z = bool_decide (b < 64)%Z.
Proof.
  intros Hb. unfold byte in Hb.
  pose (check := λ n, let b := Z.of_nat n in
    eqb (Z.land b 0xC0 =? 0xC0)%Z (192 <=? b)%Z && eqb (Z.land b 0xC0 =? 0)%Z (b <? 64)%Z).
  assert (forallb check (seq 0 256) = true) as Hall by (vm_compute; reflexivity).
  rewrite forallb_forall in Hall. specialize (Hall (Z.to_nat b)).
  rewrite in_seq in Hall. specialize (Hall ltac:(lia)). unfold check in Hall.
  rewrite Z2Nat.id in Hall by lia.
  apply andb_true_iff in Hall as [E1 E2]. apply eqb_prop in E1, E2. rewrite E1, E2.
  split; case_bool_decide; lia.
Qed.

Section pointer.
Context `{!BigEndian}.

Lemma val16_lookup data a b0 b1 : data !! a = Some b0 → data !! (a + 1) = Some b1 →
  val16 data a = (b0 * 256 + b1)%Z.
Proof.
  intros H0 H1. unfold val16. rewrite !nth_lookup, H0.
  replace (S a) with (a + 1) by lia. by rewrite H1.
Qed.

Lemma pointer_val {E} d pos b0 b1 : bytes d →
  d !! pos = Some b0 → d !! (pos + 1) = Some b1 → (192 ≤ b0)%Z →
  Name.pointer (E:=E) d pos = Ok (Z.to_nat ((b0 - 192) * 256 + b1)).
Proof.
  intros Hb H0 H1 Hge. unfold Name.pointer.
  pose proof (lookup_lt_Some _ _ _ H1).
  rewrite be16_val by (done || lia). mstep. rewrite (val16_lookup _ _ b0 b1) by done.
  change (Z.lxor 0xFFFF 0xC000) with (Z.ones 14). rewrite Z.land_ones by lia.
  pose proof (bytes_lookup _ _ _ Hb H0). pose proof (bytes_lookup _ _ _ Hb H1).
  unfold byte in *. do 2 f_equal.
  replace (b0 * 256 + b1)%Z with ((b0 - 192) * 256 + b1 + 3 * 2 ^ 14)%Z by lia.
  rewrite Z.mod_add, Z.mod_small by lia. done.
Qed.
End pointer.

(** ** Facts about the grammar *)
Section grammar.
Implicit Types original data : list Z.

Lemma name_at_end original data pos bound ls dot e :
  name_at original data pos bound ls dot e → pos < e ≤ length data.
Proof.
  induction 1 as [??? H0|data pos bound b ls dot e Hb ?? _ IH
    |data pos bound b0 b1 off ls dot e H0 H1 _ _ _ _ _ IH].
  - apply lookup_lt_Some in H0. lia.
  - lia.
  - apply lookup_lt_Some in H1. lia.
Qed.

(** A later bound only matters for the first pointer. *)
Lemma name_at_weaken original data pos bound bound' ls dot e :
  name_at original data pos bound ls dot e → bound ≤ bound' →
  name_at original data pos bound' ls dot e.
Proof.
  intros H. revert bound'. induction H; intros bound' Hle.
  - by constructor.
  - econstructor; eauto.
  - econstructor; eauto. lia.
Qed.

Lemma name_at_fun original data pos bound bound' ls ls' dot dot' e e' :
  name_at original data pos bound ls dot e →
  name_at original data pos bound' ls' dot' e' →
  ls = ls' ∧ dot = dot' ∧ e = e'.
Proof.
  intros H. revert bound' ls' dot' e'.
  induction H as [??? H0|data pos bound b ls dot e Hb Hr Ha _ IH
    |data pos bound b0 b1 off ls dot e H0 H1 Hge -> Hlt Hbd _ IH];
    intros bound' ls' dot' e' H'; inversion H'; simplify_eq; try lia; try done.
  - edestruct IH as (-> & -> & ->); eauto.
  - edestruct IH as (-> & -> & ->); eauto.
Qed.

(** The grammar only looks at the bytes up to the end of the name. *)
Lemma name_at_take original data pos bound ls dot e n :
  name_at original data pos bound ls dot e → e ≤ n →
  name_at original (take n data) pos bound ls dot e.
Proof.
  intros H. revert n. induction H as [??? H0|data pos bound b ls dot e Hb Hr Ha Hn IH
    |data pos bound b0 b1 off ls dot e H0 H1 Hge -> Hlt Hbd Htgt _]; intros n Hle.
  - constructor. rewrite lookup_take_lt by lia. done.
  - pose proof (name_at_end _ _ _ _ _ _ _ Hn).
    assert (take (Z.to_nat b) (drop (pos + 1) data) =
            take (Z.to_nat b) (drop (pos + 1) (take n data))) as E.
    { rewrite skipn_firstn_comm, take_take. f_equal. lia. }
    rewrite E. econstructor; [by rewrite lookup_take_lt by lia|done|by rewrite <-E|by apply IH].
  - eapply (name_pointer _ _ _ _ b0 b1); try eassumption; try done; by rewrite lookup_take_lt by lia.
Qed.

(** Only the first segment of a name can carry the final dot. *)
Lemma name_at_root_dot original data bound dot e pos :
  name_at original data pos bound [] dot e → pos = 0 → dot = false.
Proof.
  intros H. remember [] as ls eqn:Els. revert Els. induction H; intros Els Hp; try done.
  subst pos. rewrite IHname_at by done. by case_bool_decide.
Qed.
End grammar.

(** ** [scan] decides the grammar *)
Section scan.
Context `{!BigEndian}.
Implicit Types original data : list Z.

(** The end of the name, from what the loop returns. *)
Definition name_end (r : nat * option nat) : nat :=
  match r.2 with Some q => q + 2 | None => r.1 + 1 end.

(** What the loop promises when it starts at [pos] with [return_pos] = [rp]. *)
Definition scan_loop_post original data pos bound (rp : option nat)
    (m : outcome Error (nat * option nat)) : Prop :=
  match m with
  | Ok r => ∃ ls dot e, name_at original data pos bound ls dot e ∧
      match rp with None => name_end r = e | Some q => r.2 = Some q end
  | Err _ => ∀ ls dot e, ¬ name_at original data pos bound ls dot e
  | Panic | OutOfFuel => False
  end.

Lemma scan_loop_label original data pos bound rp b m :
  data !! pos = Some b → (0 < b < 64)%Z →
  is_ascii (take (Z.to_nat b) (drop (pos + 1) data)) = true →
  scan_loop_post original data (pos + Z.to_nat b + 1) bound rp m →
  scan_loop_post original data pos bound rp m.
Proof.
  intros Hb Hr Ha. destruct m as [r|err| |]; cbn; try done.
  - intros (ls & dot & e & Hn & He). exists (take (Z.to_nat b) (drop (pos + 1) data) :: ls), dot, e.
    split; [by eapply name_label|done].
  - intros Hno ls dot e Hn. inversion Hn; simplify_eq; try lia. by eapply Hno.
Qed.

Lemma scan_loop_pointer original data pos bound (rp : option nat) b0 b1 m off :
  data !! pos = Some b0 → data !! (pos + 1) = Some b1 → (192 ≤ b0)%Z →
  off = Z.to_nat ((b0 - 192) * 256 + b1) → off < length original → off < bound →
  scan_loop_post original (drop off original) 0 off (Some (default pos rp)) m →
  scan_loop_post original data pos bound rp m.
Proof.
  intros H0 H1 Hge Hoff Hlt Hbd. destruct m as [r|err| |]; cbn; try done.
  - intros (ls & dot & e & Hn & He). do 3 eexists. split; [by eapply name_pointer|].
    unfold name_end. rewrite He. by destruct rp.
  - intros Hno ls dot e Hn. inversion Hn; simplify_eq; try lia. by eapply Hno.
Qed.

Lemma scan_loop_spec fuel original data pos bound rp b :
  bytes original → bytes data → data !! pos = Some b →
  Name.steps original bound (length data - pos) < fuel →
  scan_loop_post original data pos bound rp
    (Name.scan_loop fuel original data pos bound rp b).
Proof.
  intros Ho. revert data pos bound rp b.
  induction fuel as [|fuel IH]; intros data pos bound rp b Hd Hb Hf; [lia|].
  pose proof (lookup_lt_Some _ _ _ Hb) as Hpos.
  pose proof (bytes_lookup _ _ _ Hd Hb) as Hbyte.
  destruct (mask_c0 b Hbyte) as [Em1 Em2]. unfold byte in Hbyte.
  cbn [Name.scan_loop]. destruct (Z.eqb_spec b 0) as [->|Hb0].
  { exists [], false, (pos + 1). split; [by constructor|]. destruct rp; done. }
  rewrite decide_False, Em1, Em2 by lia. clear Em1 Em2. case_bool_decide as H192.
  - case_decide as Hshort.
    { intros ls dot e Hn. inversion Hn; simplify_eq; try lia.
      match goal with H : data !! (pos + 1) = Some _ |- _ => apply lookup_lt_Some in H end. lia. }
    destruct (lookup_lt_is_Some_2 data (pos + 1)) as [b1 Hb1]; [lia|].
    rewrite (pointer_val data pos b b1) by done. mstep.
    set (off := Z.to_nat ((b - 192) * 256 + b1)).
    case_decide as Hin.
    { intros ls dot e Hn. inversion Hn; simplify_eq; lia. }
    case_decide as Hback.
    { intros ls dot e Hn. inversion Hn; simplify_eq; lia. }
    rewrite slice_from_in by lia. mstep.
    destruct (index_lt (E:=Error) (drop off original) 0) as (b' & Hi & Hb'); [rewrite length_drop; lia|].
    rewrite Hi. mstep. eapply (scan_loop_pointer _ _ _ _ _ b b1); eauto with lia.
    replace (match rp with Some p => Some p | None => Some pos end)
      with (Some (default pos rp)) by (by destruct rp).
    apply IH; auto with easyfibers. unfold Name.steps in *. rewrite length_drop. nia.
  - case_bool_decide as H64.
    2:{ intros ls dot e Hn. inversion Hn; simplify_eq; lia. }
    assert (∀ ls dot e, name_at original data pos bound ls dot e →
      is_ascii (take (Z.to_nat b) (drop (pos + 1) data)) = true ∧
      pos + Z.to_nat b + 1 < length data) as Hinv.
    { intros ls dot e Hn. inversion Hn; clear Hn; simplify_eq; try lia. split; [done|].
      match goal with H : name_at _ _ _ _ _ _ _ |- _ => apply name_at_end in H end. lia. }
    case_decide as Hshort; [intros ls dot e Hn; apply Hinv in Hn as [_ Hn]; lia|].
    rewrite slice_in by lia. mstep.
    replace (pos + Z.to_nat b + 1 - (pos + 1)) with (Z.to_nat b) by lia.
    destruct (is_ascii _) eqn:Ha; cbn [negb].
    2:{ intros ls dot e Hn. apply Hinv in Hn as [Hn _]. congruence. }
    case_decide as Heof; [intros ls dot e Hn; apply Hinv in Hn as [_ Hn]; lia|].
    destruct (index_lt (E:=Error) data (pos + Z.to_nat b + 1)) as (b' & Hi & Hb'); [lia|].
    rewrite Hi. mstep. eapply scan_loop_label; eauto with lia.
    apply IH; auto. unfold Name.steps in *. lia.
Qed.
End scan.

(** ** Properties *)
Section properties.
Context `{!BigEndian}.
Implicit Types original data : list Z.

(** The name a scan returns: the bytes it occupies in place, and the packet. *)
Definition scanned original data e : Name.t := Name.mk (take e data) original.

Lemma scan_cases data original : bytes data → bytes original →
  match Name.scan data original with
  | Ok n => ∃ ls dot e, name_at original data 0 (length original) ls dot e ∧
      n = scanned original data e
  | Err _ => ∀ ls dot e, ¬ name_at original data 0 (length original) ls dot e
  | Panic | OutOfFuel => False
  end.
Proof.
  intros Hd Ho. unfold Name.scan. case_decide as Hn.
  { intros ls dot e Hat. apply name_at_end in Hat. lia. }
  destruct (index_lt (E:=Error) data 0) as (b & Hi & Hb); [lia|]. rewrite Hi. mstep.
  pose proof (scan_loop_spec (Name.scan_fuel data original) original data 0
    (length original) None b Ho Hd Hb) as Hloop.
  unfold Name.scan_fuel in Hloop. rewrite Nat.sub_0_r in Hloop.
  specialize (Hloop ltac:(lia)). fold (Name.scan_fuel data original) in Hloop.
  destruct (Name.scan_loop _ _ _ _ _ _ _) as [[p rp]|err| |]; try done.
  destruct Hloop as (ls & dot & e & Hat & He). mstep. unfold name_end in He. cbn [fst snd] in *.
  apply name_at_end in Hat as Hlen.
  destruct rp; rewrite slice_to_in by lia; mstep; exists ls, dot, e; subst e; done.
Qed.

Lemma name_at_scan original data pos bound ls dot e : bytes data → bytes original →
  name_at original data 0 bound ls dot e → bound ≤ length original → pos = 0 →
  Name.scan data original = Ok (scanned original data e).
Proof.
  intros Hd Ho Hat Hle _. apply (name_at_weaken _ _ _ _ (length original)) in Hat; [|done].
  pose proof (scan_cases data original Hd Ho) as Hs.
  destruct (Name.scan data original) as [n|err| |]; try done; [|by apply Hs in Hat].
  destruct Hs as (ls' & dot' & e' & Hat' & ->).
  by destruct (name_at_fun _ _ _ _ _ _ _ _ _ _ _ Hat Hat') as (_ & _ & ->).
Qed.

(** What [fmt] writes from a position inside a name: a dot first when labels
    came before and something follows. *)
Definition rendered (pos : nat) (ls : list (list Z)) (dot : bool) : list Z :=
  (if decide (pos = 0 ∨ ls = []) then [] else [DOT]) ++ name_text ls dot.

Lemma rendered_label pos l ls dot :
  rendered pos (l :: ls) dot =
    (if decide (pos = 0) then [] else [DOT]) ++ l ++ rendered (S pos) ls dot.
Proof.
  unfold rendered, name_text. destruct (decide (pos = 0)) as [->|].
  - rewrite !decide_True by auto. destruct ls as [|l' ls]; cbn -[decide].
    + by rewrite decide_True by auto.
    + rewrite decide_False by (by intros [?|?]). cbn. by rewrite <-app_assoc.
  - rewrite !decide_False by (by intros [?|?]). destruct ls as [|l' ls]; cbn -[decide].
    + by rewrite decide_True by auto.
    + rewrite decide_False by (by intros [?|?]). cbn. by rewrite <-app_assoc.
Qed.

Lemma rendered_pos pos pos' ls dot : pos ≠ 0 → pos' ≠ 0 →
  rendered pos ls dot = rendered pos' ls dot.
Proof. intros. unfold rendered. repeat case_decide; tauto. Qed.

Lemma rendered_pointer pos ls dot : (ls = [] → dot = false) →
  rendered pos ls (dot || (bool_decide (pos ≠ 0) && bool_decide (ls = []))) =
    (if decide (pos = 0) then [] else [DOT]) ++ rendered 0 ls dot.
Proof.
  intros Hdot. unfold rendered, name_text. rewrite (decide_True (P := 0 = 0 ∨ ls = [])) by auto.
  destruct (decide (ls = [])) as [->|Hls].
  - rewrite Hdot by done. rewrite decide_True by auto. cbn -[decide].
    by repeat case_decide; case_bool_decide.
  - rewrite (bool_decide_eq_false_2 (ls = [])), andb_false_r, orb_false_r by done.
    repeat case_decide; try done; tauto.
Qed.

Lemma fmt_spec original data pos bound ls dot e : bytes original → bytes data →
  name_at original data pos bound ls dot e → bound ≤ length original →
  ∀ n fuel, e ≤ n → Name.steps original bound (length data - pos) < fuel →
  Name.fmt fuel original (take n data) pos = Ok (rendered pos ls dot).
Proof.
  intros Ho Hd Hat. revert Hd.
  induction Hat as [data pos bound H0|data pos bound b ls dot e Hb Hr Ha Hn IH
    |data pos bound b0 b1 off ls dot e H0 H1 Hge Hoff Hlt Hbd Hn IH];
    intros Hd Hle n fuel Hen Hf; (destruct fuel as [|fuel]; [lia|]); cbn [Name.fmt].
  - rewrite (proj2 (index_Ok _ _ 0%Z)) by (by rewrite lookup_take_lt by lia). mstep. cbn [Z.eqb].
    unfold rendered. by rewrite decide_True by auto.
  - pose proof (name_at_end _ _ _ _ _ _ _ Hn).
    rewrite (proj2 (index_Ok _ _ b)) by (by rewrite lookup_take_lt by lia). mstep.
    destruct (mask_c0 b) as [-> ->]; [unfold byte; lia|].
    rewrite (proj2 (Z.eqb_neq b 0)), bool_decide_eq_false_2, bool_decide_eq_true_2 by lia.
    rewrite slice_in by (rewrite ?length_take; lia). mstep.
    replace (pos + Z.to_nat b + 1 - (pos + 1)) with (Z.to_nat b) by lia.
    rewrite skipn_firstn_comm, take_take, Nat.min_l by lia.
    rewrite from_utf8_ascii by done. mstep.
    rewrite IH by (done || lia || (unfold Name.steps in *; lia)). mstep.
    rewrite rendered_label. by rewrite (rendered_pos (S pos) (pos + Z.to_nat b + 1)) by lia.
  - pose proof (bytes_lookup _ _ _ Hd H0) as Hby.
    rewrite (proj2 (index_Ok _ _ b0)) by (by rewrite lookup_take_lt by lia). mstep.
    destruct (mask_c0 b0 Hby) as [-> _]. unfold byte in Hby.
    rewrite (proj2 (Z.eqb_neq b0 0)), bool_decide_eq_true_2 by lia.
    rewrite (pointer_val _ pos b0 b1), <-Hoff
      by (done || (by rewrite lookup_take_lt by lia) || auto with easyfibers). mstep.
    rewrite slice_from_in by lia. mstep.
    rewrite (name_at_scan original (drop off original) 0 off ls dot e)
      by (auto with easyfibers; lia). mstep. cbn [scanned Name.labels].
    rewrite IH; [|auto with easyfibers|lia|lia|unfold Name.steps in *; rewrite length_drop; nia].
    mstep. rewrite rendered_pointer; [done|].
    intros ->. by apply (name_at_root_dot _ _ _ _ _ _ Hn).
Qed.

Lemma to_string_name_at labels original ls dot : bytes labels → bytes original →
  name_at original labels 0 (length original) ls dot (length labels) →
  Name.to_string (Name.mk labels original) = Ok (name_text ls dot).
Proof.
  intros Hl Ho Hat. unfold Name.to_string. cbn [Name.labels Name.original].
  rewrite <-(take_ge labels (length labels)) at 2 by done.
  rewrite (fmt_spec original labels 0 (length original) ls dot (length labels)); try done.
  unfold Name.scan_fuel. rewrite Nat.sub_0_r. lia.
Qed.

(** C11. [Name::scan] decides the grammar of compressed names: on every byte
    string it returns (no panic, no endless pointer chase), it returns a name
    exactly when the bytes at the front of [data] are one, and the name it
    returns is the prefix of [data] the grammar consumes. *)
Theorem scan_decides data original : bytes data → bytes original →
  match Name.scan data original with
  | Ok n => ∃ ls dot e, name_at original data 0 (length original) ls dot e ∧
      Name.labels n = take e data ∧ Name.original n = original ∧
      0 < Name.byte_len n ≤ length data
  | Err _ => ∀ ls dot e, ¬ name_at original data 0 (length original) ls dot e
  | Panic | OutOfFuel => False
  end.
Proof.
  intros Hd Ho. pose proof (scan_cases data original Hd Ho) as Hs.
  destruct (Name.scan data original) as [n|err| |]; try done.
  destruct Hs as (ls & dot & e & Hat & ->). exists ls, dot, e.
  apply name_at_end in Hat as He. split_and!; try done; cbn;
    unfold Name.byte_len; cbn; rewrite length_take; lia.
Qed.

(** C27. Displaying a name that [Name::scan] returned never panics (neither the
    [unwrap] of the nested scan nor the UTF-8 [unwrap] nor [unreachable!()] is
    hit), terminates, and writes the labels the grammar gives, joined by dots. *)
Theorem to_string_scanned data original n ls dot e : bytes data → bytes original →
  Name.scan data original = Ok n →
  name_at original data 0 (length original) ls dot e →
  Name.to_string n = Ok (name_text ls dot).
Proof.
  intros Hd Ho Hs Hat. pose proof (scan_cases data original Hd Ho) as Hc. rewrite Hs in Hc.
  destruct Hc as (ls' & dot' & e' & Hat' & ->).
  destruct (name_at_fun _ _ _ _ _ _ _ _ _ _ _ Hat Hat') as (<- & <- & <-).
  pose proof (name_at_end _ _ _ _ _ _ _ Hat).
  apply to_string_name_at; [by apply bytes_take|done|].
  rewrite length_take, Nat.min_l by lia. by apply name_at_take.
Qed.
End properties.

(** ** Witnesses *)

(** The packet of the test [nested_names]: [xx], then [yy] and [zz] pointing back. *)
Definition nested_names : list Z :=
  [2; 120; 120; 0; 2; 121; 121; 192; 0; 2; 122; 122; 192; 4]%Z.

Ltac all_bytes := repeat constructor; unfold byte; lia.

Lemma scan_decides_witness :
  Name.scan (drop 9 nested_names) nested_names =
    Ok (Name.mk [2; 122; 122; 192; 4]%Z nested_names) ∧
  0 < Name.byte_len (Name.mk [2; 122; 122; 192; 4]%Z nested_names) ≤ 5.
Proof.
  pose proof (scan_decides (drop 9 nested_names) nested_names
    ltac:(all_bytes) ltac:(all_bytes)) as Ht.
  assert (Name.scan (drop 9 nested_names) nested_names =
    Ok (Name.mk [2; 122; 122; 192; 4]%Z nested_names)) as E by (vm_compute; reflexivity).
  rewrite E in Ht. destruct Ht as (ls & dot & e & _ & _ & _ & Hlen). split; [exact E|exact Hlen].
Defined.

Lemma to_string_scanned_witness :
  Name.to_string (Name.mk [2; 122; 122; 192; 4]%Z nested_names) =
    Ok [122; 122; 46; 121; 121; 46; 120; 120]%Z.
Proof.
  apply (to_string_scanned (drop 9 nested_names) nested_names _
    [[122; 122]; [121; 121]; [120; 120]]%Z false 5).
  - all_bytes.
  - all_bytes.
  - vm_compute. reflexivity.
  - pose (d9 := drop 9 nested_names). pose (d4 := drop 4 nested_names).
    pose (d0 := drop 0 nested_names).
    apply (name_label nested_names d9 0 14 2%Z [[121; 121]; [120; 120]]%Z); [done|lia|done|].
    apply (name_pointer nested_names d9 3 14 192%Z 4%Z 4 [[121; 121]; [120; 120]]%Z false 5);
      [done|done|lia|done|cbn; lia|lia|].
    apply (name_label nested_names d4 0 4 2%Z [[120; 120]]%Z); [done|lia|done|].
    apply (name_pointer nested_names d4 3 4 192%Z 0%Z 0 [[120; 120]]%Z false 4);
      [done|done|lia|done|cbn; lia|lia|].
    apply (name_label nested_names d0 0 0 2%Z []); [done|lia|done|].
    by apply (name_root nested_names d0 3).
Defined.
