(* ===== verification/DnsRData.v ===== *)
(** * DnsRData: resource data, [dns_parser/rrdata.rs] and the [SoaRecord] of
    [dns_parser/structs.rs]

    [RRData.parse] decodes the data part of a record by its type.  An
    [Ipv4Addr] is its 32-bit value, an [Ipv6Addr] its eight 16-bit segments, a
    [String] its bytes. *)
From S2P Require Import Prelude Utf8 ByteOrder DnsEnums DnsName.
Local Open Scope Z_scope.

Record SoaRecord := {
  primary_ns : Name.t;
  mailbox : Name.t;
  serial : Z;
  refresh : Z;
  retry : Z;
  expire : Z;
  minimum_ttl : Z;
}.

Module RRData.
Inductive t :=
| CNAME (n : Name.t)
| NS (n : Name.t)
| A (ip : Z)
| AAAA (ip : list Z)
| SRV (priority weight port : Z) (target : Name.t)
| SOA (soa : SoaRecord)
| PTR (n : Name.t)
| MX (preference : Z) (exchange : Name.t)
| TXT (text : list Z)
| Unknown (data : list Z).

Section ops.
Context `{!BigEndian}.

(** The loop of [Type::TXT]: character strings until the end of [rdata]. *)
Fixpoint parse_txt (fuel : nat) (rdata : list Z) (pos : nat) (ret_string : list Z)
    : outcome Error (list Z) :=
  match fuel with
  | O => OutOfFuel
  | S fuel =>
    if decide (pos < length rdata)%nat then
      b ← index rdata pos;
      let rdlen := Z.to_nat b in
      let pos := (pos + 1)%nat in
      if decide (length rdata < rdlen + pos)%nat then Err WrongRdataLength else
      s ← slice rdata pos (pos + rdlen);
      match from_utf8 s with
      | Ok val => parse_txt fuel rdata (pos + rdlen) (ret_string ++ val)
      | Err e => Err (TxtDataIsNotUTF8 e)
      | Panic => Panic
      | OutOfFuel => OutOfFuel
      end
    else Ok ret_string
  end.

Definition parse_soa (rdata original : list Z) : outcome Error t :=
  primary_name_server ← Name.scan rdata original;
  let pos := Name.byte_len primary_name_server in
  rest ← slice_from rdata pos;
  mailbox ← Name.scan rest original;
  let pos := (pos + Name.byte_len mailbox)%nat in
  rest ← slice_from rdata pos;
  if decide (length rest < 20)%nat then Err WrongRdataLength else
  serial ← be32 rdata pos (pos + 4);
  refresh ← be32 rdata (pos + 4) (pos + 8);
  retry ← be32 rdata (pos + 8) (pos + 12);
  expire ← be32 rdata (pos + 12) (pos + 16);
  minimum_ttl ← be32 rdata (pos + 16) (pos + 20);
  Ok (SOA {|
    primary_ns := primary_name_server; mailbox := mailbox; serial := serial;
    refresh := refresh; retry := retry; expire := expire; minimum_ttl := minimum_ttl
  |}).

Definition parse (typ : RRType.t) (rdata original : list Z) : outcome Error t :=
  match typ with
  | RRType.A =>
      if decide (length rdata ≠ 4%nat) then Err WrongRdataLength else
      ip ← expect (read_u32 rdata); Ok (A ip)
  | RRType.AAAA =>
      if decide (length rdata ≠ 16%nat) then Err WrongRdataLength else
      a ← be16 rdata 0 2; b ← be16 rdata 2 4; c ← be16 rdata 4 6; d ← be16 rdata 6 8;
      e ← be16 rdata 8 10; f ← be16 rdata 10 12; g ← be16 rdata 12 14; h ← be16 rdata 14 16;
      Ok (AAAA [a; b; c; d; e; f; g; h])
  | RRType.CNAME => n ← Name.scan rdata original; Ok (CNAME n)
  | RRType.NS => n ← Name.scan rdata original; Ok (NS n)
  | RRType.MX =>
      if decide (length rdata < 3)%nat then Err WrongRdataLength else
      preference ← be16 rdata 0 2;
      rest ← slice_from rdata 2;
      exchange ← Name.scan rest original;
      Ok (MX preference exchange)
  | RRType.PTR => n ← Name.scan rdata original; Ok (PTR n)
  | RRType.SOA => parse_soa rdata original
  | RRType.SRV =>
      if decide (length rdata < 7)%nat then Err WrongRdataLength else
      priority ← be16 rdata 0 2;
      weight ← be16 rdata 2 4;
      port ← be16 rdata 4 6;
      rest ← slice_from rdata 6;
      target ← Name.scan rest original;
      Ok (SRV priority weight port target)
  | RRType.TXT =>
      if decide (length rdata < 1)%nat then Err WrongRdataLength else
      ret_string ← parse_txt (S (length rdata)) rdata 0 [];
      Ok (TXT ret_string)
  | _ => Ok (Unknown rdata)
  end.
End ops.
End RRData.

(** ** Well-formed names and resource data *)

(** A name of the packet [original]: its bytes follow the grammar. *)
Definition name_of (original : list Z) (n : Name.t) : Prop :=
  Name.original n = original ∧ bytes (Name.labels n) ∧
  ∃ ls dot, name_at original (Name.labels n) 0 (length original) ls dot (Name.byte_len n).

(** The names and the integers of resource data are those of the wire. *)
Definition rdata_wf (original : list Z) (d : RRData.t) : Prop :=
  match d with
  | RRData.CNAME n | RRData.NS n | RRData.PTR n => name_of original n
  | RRData.A ip => u32 ip
  | RRData.AAAA ip => length ip = 8%nat ∧ Forall u16 ip
  | RRData.SRV priority weight port target =>
      u16 priority ∧ u16 weight ∧ u16 port ∧ name_of original target
  | RRData.SOA soa =>
      name_of original (primary_ns soa) ∧ name_of original (mailbox soa) ∧
      u32 (serial soa) ∧ u32 (refresh soa) ∧ u32 (retry soa) ∧ u32 (expire soa) ∧
      u32 (minimum_ttl soa)
  | RRData.MX preference exchange => u16 preference ∧ name_of original exchange
  | RRData.TXT _ => True
  | RRData.Unknown data => bytes data
  end.

Section wf.
Context `{!BigEndian}.
Implicit Types original data : list Z.

Lemma scan_ensures data original : bytes data → bytes original →
  ensures (Name.scan data original)
    (λ n, name_of original n ∧ (0 < Name.byte_len n ≤ length data)%nat).
Proof.
  intros Hd Ho. pose proof (scan_cases data original Hd Ho) as Hs.
  destruct (Name.scan data original) as [n|err| |]; try done.
  destruct Hs as (ls & dot & e & Hat & ->). cbn.
  apply name_at_end in Hat as He. unfold Name.byte_len. cbn. rewrite length_take.
  split; [|lia]. split_and!; [done|by apply bytes_take|].
  exists ls, dot. unfold Name.byte_len. cbn. rewrite length_take, Nat.min_l by lia.
  by apply name_at_take.
Qed.

(** A name of a packet displays. *)
Lemma name_of_to_string original n : bytes original → name_of original n →
  ∃ ls dot, name_at original (Name.labels n) 0 (length original) ls dot (Name.byte_len n) ∧
    Name.to_string n = Ok (name_text ls dot).
Proof.
  intros Ho (Eo & Hb & ls & dot & Hat). exists ls, dot. split; [done|].
  unfold Name.byte_len in Hat. destruct n as [lb og]; cbn in *; subst og.
  exact (to_string_name_at lb original ls dot Hb Ho Hat).
Qed.
End wf.

(** ** Parsing resource data *)
Section parse.
Context `{!BigEndian}.
Implicit Types original rdata : list Z.

#[local] Hint Resolve val16_u16 val32_u32 : easyfibers.

Lemma parse_txt_ensures fuel rdata pos acc : bytes rdata → (length rdata - pos < fuel)%nat →
  ensures (RRData.parse_txt fuel rdata pos acc) (λ _, True).
Proof.
  intros Hb. revert pos acc. induction fuel as [|fuel IH]; intros pos acc Hf; [lia|].
  cbn [RRData.parse_txt]. case_decide as Hpos; [|done].
  destruct (index_lt (E:=Error) rdata pos Hpos) as (b & -> & Hlook). mstep.
  case_decide; [done|]. rewrite slice_in by lia. mstep.
  pose proof (from_utf8_returns (take (pos + 1 + Z.to_nat b - (pos + 1)) (drop (pos + 1) rdata))) as Hu.
  destruct (from_utf8 _) as [val|e| |]; try done. apply IH. lia.
Qed.

(** Runs [Name::scan] on a slice of the packet inside [ensures]. *)
Ltac scan_step :=
  apply ensures_bind; eapply ensures_weaken;
  [by apply scan_ensures; auto with easyfibers|]; intros ? [? ?].

Lemma parse_soa_ensures rdata original : bytes rdata → bytes original →
  ensures (RRData.parse_soa rdata original) (rdata_wf original).
Proof.
  intros Hb Ho. unfold RRData.parse_soa. scan_step.
  rewrite slice_from_in by lia. mstep. scan_step. rewrite length_drop in *.
  rewrite slice_from_in by lia. mstep. rewrite length_drop. case_decide; [done|].
  repeat io_step. cbn. auto 10 with easyfibers.
Qed.

(** [RRData::parse] never panics, for any type, any resource data and any
    packet around it: out-of-range names, short data and bad UTF-8 are errors,
    and what it returns has valid names and integers in range. *)
Lemma rdata_parse_ensures (typ : RRType.t) rdata original : bytes rdata → bytes original →
  ensures (RRData.parse typ rdata original) (rdata_wf original).
Proof.
  intros Hb Ho. destruct typ; cbn [RRData.parse]; try done;
    try (by scan_step); try (case_decide; [done|]).
  - destruct (read_u32_total rdata) as (v & -> & Hv); [done|lia|]. done.
  - by apply parse_soa_ensures.
  - repeat io_step. rewrite slice_from_in by lia. mstep. scan_step. cbn. auto with easyfibers.
  - apply ensures_bind. eapply ensures_weaken; [apply parse_txt_ensures; [done|lia]|done].
  - repeat io_step. cbn. split; [done|]. repeat constructor; apply val16_u16; done.
  - repeat io_step. rewrite slice_from_in by lia. mstep. scan_step. cbn. auto 10 with easyfibers.
Qed.

(** A TXT record is a sequence of length-prefixed strings. *)
Definition txt_encoding (strings : list (list Z)) : list Z :=
  concat (map (λ s, Z.of_nat (length s) :: s) strings).

Lemma parse_txt_strings strings pre acc fuel :
  Forall (λ s, from_utf8 s = Ok s) strings → (length strings < fuel)%nat →
  RRData.parse_txt fuel (pre ++ txt_encoding strings) (length pre) acc =
    Ok (acc ++ concat strings).
Proof.
  intros Hs. revert pre acc fuel. induction Hs as [|s strings Hu Hs IH];
    intros pre acc fuel Hf; (destruct fuel as [|fuel]; [lia|]); cbn [RRData.parse_txt].
  { rewrite decide_False by (rewrite length_app; cbn; lia). cbn. by rewrite app_nil_r. }
  unfold txt_encoding. cbn [map concat app]. fold (txt_encoding strings).
  rewrite decide_True by (rewrite length_app; cbn; lia).
  assert (∀ E, index (E:=E) (pre ++ Z.of_nat (length s) :: s ++ txt_encoding strings) (length pre)
    = Ok (Z.of_nat (length s))) as ->.
  { intros E. apply index_Ok. by rewrite list_lookup_middle. }
  mstep. rewrite Nat2Z.id.
  rewrite decide_False by (rewrite length_app; cbn; rewrite length_app; lia).
  rewrite slice_in by (rewrite ?length_app; cbn; rewrite ?length_app; lia). mstep.
  replace (take _ (drop (length pre + 1) _)) with s.
  2:{ replace (length pre + 1 + length s - (length pre + 1))%nat with (length s) by lia.
      change (Z.of_nat (length s) :: s ++ txt_encoding strings) with
        ([Z.of_nat (length s)] ++ s ++ txt_encoding strings).
      rewrite app_assoc, drop_app_length' by (rewrite length_app; cbn; lia).
      by rewrite take_app_length. }
  rewrite Hu. cbn in Hf.
  replace (pre ++ Z.of_nat (length s) :: s ++ txt_encoding strings)
    with ((pre ++ Z.of_nat (length s) :: s) ++ txt_encoding strings) by (by rewrite <-app_assoc).
  replace (length pre + 1 + length s)%nat with (length (pre ++ Z.of_nat (length s) :: s))
    by (rewrite length_app; cbn; lia).
  rewrite IH by lia. by rewrite <-app_assoc.
Qed.

(** A TXT record made of any non-empty sequence of valid UTF-8 strings of
    at most 255 bytes is
    parsed to the concatenation of the strings. *)
Theorem txt_roundtrip (strings : list (list Z)) original :
  strings ≠ [] → Forall (λ s, length s ≤ 255 ∧ from_utf8 s = Ok s)%nat strings →
  RRData.parse RRType.TXT (txt_encoding strings) original = Ok (RRData.TXT (concat strings)).
Proof.
  intros Hne Hs. cbn [RRData.parse].
  assert (Forall (λ s, from_utf8 s = Ok s) strings) as Hu
    by (eapply Forall_impl; [exact Hs|]; cbn; intros ? []; done).
  assert (length strings ≤ length (txt_encoding strings))%nat as Hlen.
  { clear Hne Hs Hu. unfold txt_encoding. induction strings as [|s ss IH]; [done|].
    cbn. rewrite length_app. lia. }
  assert (length strings ≠ 0)%nat by (by destruct strings).
  rewrite decide_False by lia.
  pose proof (parse_txt_strings strings [] [] (S (length (txt_encoding strings))) Hu
    ltac:(lia)) as Hp. cbn [app length] in Hp. by rewrite Hp.
Qed.
End parse.

(** ** Witnesses *)
Lemma txt_roundtrip_witness :
  RRData.parse RRType.TXT [2; 104; 105; 1; 33] [] = Ok (RRData.TXT [104; 105; 33]).
Proof.
  apply (txt_roundtrip [[104; 105]; [33]] []); [done|].
  repeat constructor; cbn; lia.
Defined.
