(* ===== verification/DnsPacket.v ===== *)
(** * DnsPacket: whole packets, [dns_parser/parser.rs] and the structures of
    [dns_parser/structs.rs]

    [Packet.parse] is the entry point of the decoder.  The [offset: &mut usize]
    the Rust functions share is threaded through: every reader takes the offset
    and returns its value with the new offset. *)
From S2P Require Import Prelude Utf8 ByteOrder DnsEnums DnsHeader DnsName DnsRData.
Local Open Scope Z_scope.

Module Question.
Record t := mk {
  qname : Name.t;
  prefer_unicast : bool;
  qtype : QueryType.t;
  qclass : QueryClass.t;
}.
End Question.

Module ResourceRecord.
Record t := mk {
  name : Name.t;
  multicast_unique : bool;
  cls : RRClass.t;
  ttl : Z;
  data : RRData.t;
}.
End ResourceRecord.

Module OptRecord.
Record t := mk {
  udp : Z;
  extrcode : Z;
  version : Z;
  flags : Z;
  data : RRData.t;
}.
End OptRecord.

Section readers.
Context `{!BigEndian}.

Definition OPT_RR_START : list Z := [0; 0; 41].

Definition parse_qclass_code (value : Z) : outcome Error (bool * QueryClass.t) :=
  let prefer_unicast := Z.land value 0x8000 =? 0x8000 in
  let qclass_code := Z.land value 0x7FFF in
  qclass ← QueryClass.parse qclass_code;
  Ok (prefer_unicast, qclass).

Definition parse_class_code (value : Z) : outcome Error (bool * RRClass.t) :=
  let is_unique := Z.land value 0x8000 =? 0x8000 in
  let class_code := Z.land value 0x7FFF in
  cls ← RRClass.parse class_code;
  Ok (is_unique, cls).

(** The body of the [for _ in 0..header.questions] loop. *)
Definition parse_question (data : list Z) (offset : nat) : outcome Error (Question.t * nat) :=
  rest ← slice_from data offset;
  name ← Name.scan rest data;
  let offset := (offset + Name.byte_len name)%nat in
  if decide (length data < offset + 4)%nat then Err UnexpectedEOF else
  code ← be16 data offset (offset + 2);
  qtype ← QueryType.parse code;
  let offset := (offset + 2)%nat in
  code ← be16 data offset (offset + 2);
  '(prefer_unicast, qclass) ← parse_qclass_code code;
  let offset := (offset + 2)%nat in
  Ok (Question.mk name prefer_unicast qtype qclass, offset).

(** [i32::MAX as u32] *)
Definition I32_MAX : Z := 2147483647.

Definition parse_record (data : list Z) (offset : nat)
    : outcome Error (ResourceRecord.t * nat) :=
  rest ← slice_from data offset;
  name ← Name.scan rest data;
  let offset := (offset + Name.byte_len name)%nat in
  if decide (length data < offset + 10)%nat then Err UnexpectedEOF else
  code ← be16 data offset (offset + 2);
  typ ← RRType.parse code;
  let offset := (offset + 2)%nat in
  class_code ← be16 data offset (offset + 2);
  '(multicast_unique, cls) ← parse_class_code class_code;
  let offset := (offset + 2)%nat in
  ttl ← be32 data offset (offset + 4);
  let ttl := if I32_MAX <? ttl then 0 else ttl in
  let offset := (offset + 4)%nat in
  rdlen ← be16 data offset (offset + 2);
  let rdlen := Z.to_nat rdlen in
  let offset := (offset + 2)%nat in
  if decide (length data < offset + rdlen)%nat then Err UnexpectedEOF else
  rdata ← slice data offset (offset + rdlen);
  d ← RRData.parse typ rdata data;
  let offset := (offset + rdlen)%nat in
  Ok (ResourceRecord.mk name multicast_unique cls ttl d, offset).

Definition parse_opt_record (data : list Z) (offset : nat)
    : outcome Error (OptRecord.t * nat) :=
  if decide (length data < offset + 11)%nat then Err UnexpectedEOF else
  let offset := (offset + 1)%nat in
  code ← be16 data offset (offset + 2);
  typ ← RRType.parse code;
  if decide (typ ≠ RRType.OPT) then Err (InvalidType (RRType.code typ)) else
  let offset := (offset + 2)%nat in
  udp ← be16 data offset (offset + 2);
  let offset := (offset + 2)%nat in
  extrcode ← index data offset;
  let offset := (offset + 1)%nat in
  version ← index data offset;
  let offset := (offset + 1)%nat in
  flags ← be16 data offset (offset + 2);
  let offset := (offset + 2)%nat in
  rdlen ← be16 data offset (offset + 2);
  let rdlen := Z.to_nat rdlen in
  let offset := (offset + 2)%nat in
  if decide (length data < offset + rdlen)%nat then Err UnexpectedEOF else
  rdata ← slice data offset (offset + rdlen);
  d ← RRData.parse typ rdata data;
  let offset := (offset + rdlen)%nat in
  Ok (OptRecord.mk udp extrcode version flags d, offset).

(** [offset + 3 <= data.len() && data[offset..offset+3] == OPT_RR_START] *)
Definition at_opt (data : list Z) (offset : nat) : outcome Error bool :=
  if decide (offset + 3 ≤ length data)%nat then
    s ← slice data offset (offset + 3);
    Ok (bool_decide (s = OPT_RR_START))
  else Ok false.

(** The [for _ in 0..header.additional] loop, with the records pushed so far
    and the OPT record found so far. *)
Fixpoint parse_additional (data : list Z) (n offset : nat)
    (additional : list ResourceRecord.t) (opt : option OptRecord.t)
    : outcome Error (list ResourceRecord.t * option OptRecord.t) :=
  match n with
  | O => Ok (additional, opt)
  | S n =>
    is_opt ← at_opt data offset;
    if (is_opt : bool) then
      match opt with
      | None =>
        '(r, offset) ← parse_opt_record data offset;
        parse_additional data n offset additional (Some r)
      | Some _ => Err AdditionalOPT
      end
    else
      '(r, offset) ← parse_record data offset;
      parse_additional data n offset (additional ++ [r]) opt
  end.
End readers.

Module Packet.
Record t := mk {
  header : Header.t;
  questions : list Question.t;
  answers : list ResourceRecord.t;
  nameservers : list ResourceRecord.t;
  additional : list ResourceRecord.t;
  opt : option OptRecord.t;
}.

Section ops.
Context `{!BigEndian}.

Definition parse (data : list Z) : outcome Error t :=
  header ← Header.parse data;
  let offset := Header.size in
  '(questions, offset) ←
    for_n (parse_question data) (Z.to_nat (Header.questions header)) offset;
  '(answers, offset) ←
    for_n (parse_record data) (Z.to_nat (Header.answers header)) offset;
  '(nameservers, offset) ←
    for_n (parse_record data) (Z.to_nat (Header.nameservers header)) offset;
  '(additional, opt) ←
    parse_additional data (Z.to_nat (Header.additional header)) offset [] None;
  Ok (mk header questions answers nameservers additional opt).
End ops.
End Packet.

(** ** Well-formed packets *)
Definition question_wf (data : list Z) (q : Question.t) : Prop :=
  name_of data (Question.qname q).

Definition record_wf (data : list Z) (r : ResourceRecord.t) : Prop :=
  name_of data (ResourceRecord.name r) ∧ 0 ≤ ResourceRecord.ttl r ≤ I32_MAX ∧
  rdata_wf data (ResourceRecord.data r).

Definition opt_wf (data : list Z) (r : OptRecord.t) : Prop :=
  u16 (OptRecord.udp r) ∧ byte (OptRecord.extrcode r) ∧ byte (OptRecord.version r) ∧
  u16 (OptRecord.flags r) ∧ rdata_wf data (OptRecord.data r).

(** The sections have the sizes the header announces (an OPT record counts as
    one additional record) and everything in them is well formed. *)
Definition packet_wf (data : list Z) (p : Packet.t) : Prop :=
  Header.wf (Packet.header p) ∧
  Z.of_nat (length (Packet.questions p)) = Header.questions (Packet.header p) ∧
  Z.of_nat (length (Packet.answers p)) = Header.answers (Packet.header p) ∧
  Z.of_nat (length (Packet.nameservers p)) = Header.nameservers (Packet.header p) ∧
  Z.of_nat (length (Packet.additional p) + (if Packet.opt p is Some _ then 1 else 0)) =
    Header.additional (Packet.header p) ∧
  Forall (question_wf data) (Packet.questions p) ∧
  Forall (record_wf data) (Packet.answers p) ∧
  Forall (record_wf data) (Packet.nameservers p) ∧
  Forall (record_wf data) (Packet.additional p) ∧
  (∀ r, Packet.opt p = Some r → opt_wf data r).

(** ** Every reader keeps the offset in the buffer and returns good values *)
Section safety.
Context `{!BigEndian}.
Implicit Types data : list Z.

#[local] Hint Resolve val16_u16 val32_u32 bytes_nth : easyfibers.

(** What a reader started at [offset] promises about its result. *)
Definition advances {A} data (offset : nat) (P : A → Prop) (r : A * nat) : Prop :=
  (offset ≤ r.2 ≤ length data)%nat ∧ P r.1.

Lemma query_type_total c : ensures (QueryType.parse c) (λ _, True).
Proof. unfold QueryType.parse. z_cases c. Qed.
Lemma rrtype_total c : ensures (RRType.parse c) (λ _, True).
Proof. unfold RRType.parse. z_cases c. Qed.
Lemma query_class_total v : ensures (parse_qclass_code v) (λ _, True).
Proof.
  unfold parse_qclass_code, QueryClass.parse. apply ensures_bind.
  generalize (Z.land v 0x7FFF). intros c. z_cases c.
Qed.
Lemma class_total v : ensures (parse_class_code v) (λ _, True).
Proof.
  unfold parse_class_code, RRClass.parse. apply ensures_bind.
  generalize (Z.land v 0x7FFF). intros c. z_cases c.
Qed.

Tactic Notation "total_step" uconstr(L) :=
  apply ensures_bind; eapply ensures_weaken; [apply L|].

Ltac scan_at :=
  rewrite slice_from_in by lia; mstep; total_step scan_ensures;
  [by apply bytes_drop|done|]; rewrite length_drop.

Lemma parse_question_ensures data offset : bytes data → (offset ≤ length data)%nat →
  ensures (parse_question data offset) (advances data offset (question_wf data)).
Proof.
  intros Hb Ho. unfold parse_question. scan_at. intros name [Hname Hlen].
  case_decide; [done|]. io_step. total_step query_type_total. intros qtype _.
  io_step. total_step query_class_total. intros [pu qc] _. cbn. split; [cbn; lia|done].
Qed.

Lemma parse_record_ensures data offset : bytes data → (offset ≤ length data)%nat →
  ensures (parse_record data offset) (advances data offset (record_wf data)).
Proof.
  intros Hb Ho. unfold parse_record. scan_at. intros name [Hname Hlen].
  case_decide; [done|]. io_step. total_step rrtype_total. intros typ _.
  io_step. total_step class_total. intros [mu cls] _. io_step. io_step.
  case_decide; [done|]. rewrite slice_in by lia. mstep.
  total_step rdata_parse_ensures; [auto with easyfibers|done|]. intros d Hd.
  cbn -[Z.ltb I32_MAX]. split; [cbn; lia|]. split_and!; try done.
  all: cbn -[Z.ltb]; pose proof (val32_u32 data (offset + Name.byte_len name + 2 + 2) Hb);
    unfold u32, I32_MAX in *; destruct (Z.ltb_spec 2147483647
      (val32 data (offset + Name.byte_len name + 2 + 2))); lia.
Qed.

Lemma index_byte data i : bytes data → (i < length data)%nat →
  ∃ b, index (E:=Error) data i = Ok b ∧ byte b.
Proof.
  intros Hb Hi. destruct (index_lt (E:=Error) data i Hi) as (b & -> & Hl).
  eauto using bytes_lookup.
Qed.

Lemma parse_opt_ensures data offset : bytes data → (offset ≤ length data)%nat →
  ensures (parse_opt_record data offset) (advances data offset (opt_wf data)).
Proof.
  intros Hb Ho. unfold parse_opt_record. case_decide; [done|]. io_step.
  total_step rrtype_total. intros typ _. case_decide; [done|]. io_step.
  destruct (index_byte data (offset + 1 + 2 + 2)) as (ex & -> & Hex); [done|lia|]. mstep.
  destruct (index_byte data (offset + 1 + 2 + 2 + 1)) as (ver & -> & Hver); [done|lia|]. mstep.
  io_step. io_step. case_decide; [done|]. rewrite slice_in by lia. mstep.
  total_step rdata_parse_ensures; [auto with easyfibers|done|]. intros d Hd.
  split; [cbn; lia|]. split_and!; cbn; auto with easyfibers.
Qed.

Lemma at_opt_ensures data offset : ensures (at_opt data offset) (λ _, True).
Proof. unfold at_opt. case_decide; [|done]. by rewrite slice_in by lia. Qed.

Lemma parse_additional_ensures data n offset additional opt :
  bytes data → (offset ≤ length data)%nat →
  Forall (record_wf data) additional → (∀ r, opt = Some r → opt_wf data r) →
  ensures (parse_additional data n offset additional opt) (λ r,
    length r.1 + (if r.2 is Some _ then 1 else 0) =
      length additional + (if opt is Some _ then 1 else 0) + n ∧
    Forall (record_wf data) r.1 ∧ (∀ o, r.2 = Some o → opt_wf data o))%nat.
Proof.
  intros Hb. revert offset additional opt.
  induction n as [|n IH]; intros offset additional opt Ho Hadd Hopt; cbn [parse_additional].
  { cbn. auto with lia. }
  total_step at_opt_ensures. intros [] _.
  - destruct opt as [o|]; [done|]. total_step parse_opt_ensures; [done..|].
    intros [r o'] [? Hr]. cbn [fst snd] in *. eapply ensures_weaken.
    { apply IH; [lia|done|]. by intros ? [= <-]. }
    intros [adds oo]. cbn. intros (? & ? & ?). split_and!; auto with lia.
  - total_step parse_record_ensures; [done..|].
    intros [r o'] [? Hr]. cbn [fst snd] in *. eapply ensures_weaken.
    { apply IH; [lia| |done]. apply Forall_app_2; [done|]. by constructor. }
    intros [adds oo]. cbn. rewrite length_app. cbn. intros (? & ? & ?).
    split_and!; auto with lia.
Qed.

Lemma header_parse_ensures data : bytes data →
  ensures (Header.parse data) (λ h, Header.wf h ∧ 12 ≤ length data)%nat.
Proof.
  intros Hb. destruct (Header.parse data) as [h|err| |] eqn:E; cbn; try done.
  - split; [by eapply parse_Ok_wf|]. by apply parse_Ok_inv in E as [? _].
  - by destruct (header_parse_no_panic data Hb).
  - by destruct (header_parse_no_panic data Hb).
Qed.

Lemma packet_parse_ensures data : bytes data → ensures (Packet.parse data) (packet_wf data).
Proof.
  intros Hb. unfold Packet.parse. total_step header_parse_ensures; [done|].
  intros h [Hwf Hlen]. pose proof Hwf as (_ & _ & _ & Hq & Ha & Hn & Hd).
  unfold u16 in *. unfold Header.size.
  total_step for_n_ensures; [exact Hlen|intros o ?; by apply parse_question_ensures|].
  intros [qs o1] (Ho1 & Hqs & Fqs). cbn [fst snd] in *.
  total_step for_n_ensures; [apply Ho1|intros o ?; by apply parse_record_ensures|].
  intros [ans o2] (Ho2 & Hans & Fans). cbn [fst snd] in *.
  total_step for_n_ensures; [apply Ho2|intros o ?; by apply parse_record_ensures|].
  intros [nss o3] (Ho3 & Hnss & Fnss). cbn [fst snd] in *.
  total_step parse_additional_ensures; [done|lia|done|done|].
  intros [adds opt] (Hadds & Fadds & Fopt). cbn [fst snd length] in *.
  cbn [ensures]. unfold packet_wf. cbn [Packet.header Packet.questions Packet.answers
    Packet.nameservers Packet.additional Packet.opt].
  split_and!; auto with lia.
Qed.

(** C1. [Packet::parse] never panics and always terminates, whatever bytes come
    from the network: every index, slice and [unwrap] in the decoder is in
    range.  A packet it accepts has sections of the announced sizes (an OPT
    record counts as one additional record), valid names, integers in range and
    time-to-lives below 2{^31}. *)
Theorem packet_parse_safe data : bytes data → ensures (Packet.parse data) (packet_wf data).
Proof. apply packet_parse_ensures. Qed.
End safety.

(** ** What a record on the wire is *)

(** The top bit of a class code and the rest of it. *)
Lemma land_top v : u16 v → (Z.land v 0x8000 =? 0x8000) = bool_decide (32768 ≤ v).
Proof.
  unfold u16. intros Hv. change 0x8000 with (2 ^ 15).
  assert (Z.land v (2 ^ 15) = if Z.testbit v 15 then 2 ^ 15 else 0) as ->.
  { apply Z.bits_inj'. intros i Hi. rewrite Z.land_spec.
    destruct (decide (i = 15)) as [->|Hne].
    - rewrite Z.pow2_bits_true, andb_true_r by lia. destruct (Z.testbit v 15) eqn:E; done.
    - rewrite Z.pow2_bits_false, andb_false_r by lia.
      destruct (Z.testbit v 15); [by rewrite Z.pow2_bits_false by lia|by rewrite Z.bits_0]. }
  pose proof (Z.testbit_spec' v 15 ltac:(lia)) as Hbit.
  assert (v / 2 ^ 15 = if decide (32768 ≤ v) then 1 else 0) as E.
  { case_decide; [|by apply Z.div_small; lia].
    symmetry. apply (Z.div_unique v (2 ^ 15) 1 (v - 32768)); lia. }
  rewrite E in Hbit. destruct (decide (32768 ≤ v)) as [Hle|Hle], (Z.testbit v 15);
    cbn in Hbit; try lia; case_bool_decide; (done || lia).
Qed.

Lemma land_rest v : Z.land v 0x7FFF = v mod 32768.
Proof. change 0x7FFF with (Z.ones 15). by rewrite Z.land_ones by lia. Qed.

Section wire.
Context `{!BigEndian}.
Implicit Types data : list Z.

(** [record_at data offset r offset']: from [offset] to [offset'] the packet
    holds the resource record [r]: a name, the type, the class with its top bit
    saying whether the record set is unique, the time-to-live (a value above
    2{^31} - 1 counts as 0), the length of the resource data, and the data. *)
Definition record_at data (offset : nat) (r : ResourceRecord.t) (offset' : nat) : Prop :=
  ∃ ls dot e typ,
    name_at data (drop offset data) 0 (length data) ls dot e ∧
    ResourceRecord.name r = Name.mk (take e (drop offset data)) data ∧
    let p := (offset + e)%nat in
    (p + 10 ≤ length data)%nat ∧
    RRType.code typ = val16 data p ∧
    RRClass.code (ResourceRecord.cls r) = val16 data (p + 2) mod 32768 ∧
    ResourceRecord.multicast_unique r = bool_decide (32768 ≤ val16 data (p + 2)) ∧
    ResourceRecord.ttl r =
      (if bool_decide (val32 data (p + 4) < 2 ^ 31) then val32 data (p + 4) else 0) ∧
    let rdlen := Z.to_nat (val16 data (p + 8)) in
    (p + 10 + rdlen ≤ length data)%nat ∧
    RRData.parse typ (take rdlen (drop (p + 10) data)) data = Ok (ResourceRecord.data r) ∧
    offset' = (p + 10 + rdlen)%nat.

Lemma parse_class_code_iff v mu cls : u16 v →
  parse_class_code v = Ok (mu, cls) ↔
    RRClass.code cls = v mod 32768 ∧ mu = bool_decide (32768 ≤ v).
Proof.
  intros Hv. unfold parse_class_code. rewrite land_top, land_rest by done.
  rewrite <-rrclass_parse_iff, bind_Ok. split.
  - intros (c & Hc & [= -> ->]). done.
  - intros [Hc ->]. by exists cls.
Qed.

Lemma scan_name_iff data offset n : bytes data → (offset ≤ length data)%nat →
  Name.scan (drop offset data) data = Ok n ↔
  ∃ ls dot e, name_at data (drop offset data) 0 (length data) ls dot e ∧
    n = Name.mk (take e (drop offset data)) data.
Proof.
  intros Hb Ho. split.
  - intros Hs. pose proof (scan_cases (drop offset data) data) as Hc. rewrite Hs in Hc.
    apply Hc; auto with easyfibers.
  - intros (ls & dot & e & Hat & ->).
    apply (name_at_scan data _ 0 (length data) ls dot e); auto with easyfibers.
Qed.

(** A record whose name is known, without the bounds checks that succeed. *)
Lemma parse_record_named data offset ls dot e : bytes data →
  name_at data (drop offset data) 0 (length data) ls dot e →
  let p := (offset + e)%nat in
  (p + 10 ≤ length data)%nat →
  parse_record data offset =
    (typ ← RRType.parse (val16 data p);
     '(mu, cls) ← parse_class_code (val16 data (p + 2));
     let ttl := val32 data (p + 4) in
     let rdlen := Z.to_nat (val16 data (p + 8)) in
     if decide (length data < p + 10 + rdlen)%nat then Err UnexpectedEOF else
     d ← RRData.parse typ (take rdlen (drop (p + 10) data)) data;
     Ok (ResourceRecord.mk (Name.mk (take e (drop offset data)) data) mu cls
           (if I32_MAX <? ttl then 0 else ttl) d, (p + 10 + rdlen)%nat)).
Proof.
  intros Hb Hat p Hp. subst p. unfold parse_record. rewrite slice_from_in by lia. mstep.
  rewrite (proj2 (scan_name_iff data offset _ Hb ltac:(lia))) by eauto. mstep.
  apply name_at_end in Hat as He. rewrite length_drop in He.
  unfold Name.byte_len. cbn [Name.labels]. rewrite length_take, length_drop, Nat.min_l by lia.
  rewrite decide_False by lia. io_step.
  destruct (RRType.parse _) as [typ|err| |]; try done. mstep. io_step.
  destruct (parse_class_code _) as [[mu cls]|err| |]; try done. mstep. io_step. io_step.
  replace (offset + e + 2 + 2 + 4 + 2)%nat with (offset + e + 10)%nat by lia.
  replace (offset + e + 2 + 2 + 4)%nat with (offset + e + 8)%nat by lia.
  replace (offset + e + 2 + 2)%nat with (offset + e + 4)%nat by lia.
  case_decide; [done|]. rewrite slice_in by lia. mstep.
  by replace (offset + e + 10 + Z.to_nat (val16 data (offset + e + 8)) - (offset + e + 10))%nat
    with (Z.to_nat (val16 data (offset + e + 8))) by lia.
Qed.

Lemma ttl_clamp ttl : (if I32_MAX <? ttl then 0 else ttl) =
  (if bool_decide (ttl < 2 ^ 31) then ttl else 0).
Proof. unfold I32_MAX. destruct (Z.ltb_spec 2147483647 ttl); case_bool_decide; lia. Qed.

(** C24. [parse_record] implements the wire format exactly: it returns a record
    and the next offset if and only if the bytes at the offset are that record. *)
Theorem parse_record_iff data offset r offset' : bytes data → (offset ≤ length data)%nat →
  parse_record data offset = Ok (r, offset') ↔ record_at data offset r offset'.
Proof.
  intros Hb Ho. split.
  - intros Hp. pose proof Hp as Hp'. unfold parse_record in Hp.
    rewrite slice_from_in in Hp by lia. cbn [mbind outcome_bind] in Hp.
    apply bind_Ok in Hp as (n & Hs & Hp). apply scan_name_iff in Hs as (ls & dot & e & Hat & ->); [|done..].
    apply name_at_end in Hat as He. rewrite length_drop in He.
    unfold Name.byte_len in Hp. cbn [Name.labels] in Hp.
    rewrite length_take, length_drop, Nat.min_l in Hp by lia.
    case_decide as Hlen; [done|]. clear Hp.
    rewrite (parse_record_named data offset ls dot e) in Hp' by (done || lia).
    apply bind_Ok in Hp' as (typ & Htyp & Hp). apply rrtype_parse_iff in Htyp.
    apply bind_Ok in Hp as ([mu cls] & Hcls & Hp).
    apply parse_class_code_iff in Hcls as [Hcls ->]; [|by apply val16_u16].
    cbv beta iota zeta in Hp. case_decide as Hrd; [done|]. apply bind_Ok in Hp as (d & Hd & [= <- <-]).
    exists ls, dot, e, typ. cbv zeta. cbn [ResourceRecord.name ResourceRecord.cls
      ResourceRecord.multicast_unique ResourceRecord.ttl ResourceRecord.data].
    split_and!; (done || lia || apply ttl_clamp).
  - intros (ls & dot & e & typ & Hat & Hname & Hlen & Htyp & Hcls & Hmu & Httl & Hrd & Hd & ->).
    rewrite (parse_record_named data offset ls dot e) by (done || lia).
    rewrite (proj2 (rrtype_parse_iff _ _) Htyp). mstep.
    rewrite (proj2 (parse_class_code_iff _ _ _ (val16_u16 data _ Hb)) (conj Hcls Hmu)). mstep.
    rewrite decide_False by lia. rewrite Hd. mstep.
    destruct r as [nm mu cls ttl d]. cbn in *. subst. by rewrite ttl_clamp.
Qed.
End wire.

(** ** Witnesses *)

(** The packets of the tests [parse_example_response] and
    [parse_example_query_edns] of the source. *)
Definition example_response : list Z :=
  [6; 37; 129; 128; 0; 1; 0; 1; 0; 0; 0; 0; 7; 101; 120; 97; 109; 112; 108; 101; 3; 99; 111; 109; 0; 0; 1; 0; 1; 192; 12; 0; 1; 0; 1; 0; 0; 4; 248; 0; 4; 93; 184; 216; 34].
Definition example_query_edns : list Z :=
  [149; 206; 1; 0; 0; 1; 0; 0; 0; 0; 0; 1; 6; 103; 111; 111; 103; 108; 101; 3; 99; 111; 109; 0; 0; 1; 0; 1; 0; 0; 41; 16; 0; 0; 0; 0; 0; 0; 0].

Example example_response_parsed :
  match Packet.parse example_response with
  | Ok p => map (λ r, (Name.to_string (ResourceRecord.name r), ResourceRecord.ttl r,
                       ResourceRecord.data r)) (Packet.answers p)
  | _ => []
  end = [(Ok [101; 120; 97; 109; 112; 108; 101; 46; 99; 111; 109], 1272,
          RRData.A (((93 * 256 + 184) * 256 + 216) * 256 + 34))].
Proof. vm_compute. reflexivity. Qed.

Example example_edns_parsed :
  match Packet.parse example_query_edns with Ok p => Packet.opt p | _ => None end =
    Some (OptRecord.mk 4096 0 0 0 (RRData.Unknown [])).
Proof. vm_compute. reflexivity. Qed.

Lemma packet_parse_safe_witness :
  ensures (Packet.parse example_response) (packet_wf example_response) ∧
  Packet.parse [6; 37; 129] = Err HeaderTooShort.
Proof.
  split; [|vm_compute; reflexivity].
  apply (packet_parse_safe example_response). all_bytes.
Defined.

Lemma parse_record_iff_witness :
  ∃ r, record_at example_response 29 r 45 ∧
    ResourceRecord.data r = RRData.A ((((93 * 256 + 184) * 256 + 216) * 256) + 34).
Proof.
  eexists. split.
  - apply (parse_record_iff example_response 29); [all_bytes|cbn; lia|].
    vm_compute. reflexivity.
  - reflexivity.
Defined.
