(* ===== verification/DnsBuilder.v ===== *)
(** * DnsBuilder: building a query, [dns_parser/builder.rs]

    The builder writes into a borrowed buffer.  Its methods return
    [Result<(), ()>] and change the buffer even when they fail, so each is
    modelled by the state it leaves and its status; a panic is the outcome
    [Panic].  A domain name is the list of its bytes. *)
From S2P Require Import Prelude Utf8 ByteOrder DnsEnums DnsHeader DnsName DnsRData DnsPacket.
Local Open Scope Z_scope.

(** [Result<(), ()>] *)
Inductive status := Done | Failed.

(** [name.split('.')]: there is always at least one part. *)
Fixpoint split_dot (name : list Z) : list (list Z) :=
  match name with
  | [] => [[]]
  | c :: name =>
    if c =? DOT then [] :: split_dot name
    else match split_dot name with
         | part :: parts => (c :: part) :: parts
         | [] => [[c]]
         end
  end.

Module Builder.
Record t := mk { buf : list Z; off : nat }.

Section ops.
Context `{!BigEndian}.

Definition new (buf : list Z) : t := mk buf 0.

Definition start (b : t) (id : Z) (recursion : bool) : outcome Error (t * status) :=
  if decide (length (buf b) ≤ 12)%nat then Ok (b, Failed) else
  let head := Header.mk id true Opcode.StandardQuery false false recursion false
    false false ResponseCode.NoError 0 0 0 0 in
  front ← slice_to (buf b) 12;
  front ← Header.write head front;
  buf ← copy_at (buf b) 0 front;
  Ok (mk buf 12, Done).

(** The [for part in name.split('.')] loop and the final zero: the buffer and
    the new offset, [None] for [Err(())]. *)
Fixpoint write_parts (buf : list Z) (off : nat) (parts : list (list Z))
    : outcome Error (list Z * option nat) :=
  match parts with
  | [] =>
    buf ← store buf off 0;
    Ok (buf, Some (off + 1)%nat)
  | part :: parts =>
    if decide (63 ≤ length part ∨ length buf < length part + off + 1)%nat
    then Ok (buf, None) else
    buf ← store buf off (Z.of_nat (length part) mod 256);
    let off := (off + 1)%nat in
    buf ← copy_at buf off part;
    write_parts buf (off + length part)%nat parts
  end.

Definition write_name (buf : list Z) (off : nat) (name : list Z)
    : outcome Error (list Z * option nat) :=
  write_parts buf off (split_dot name).

Definition add_question (b : t) (qname : list Z) (qtype : QueryType.t)
    (qclass : QueryClass.t) : outcome Error (t * status) :=
  counts ← slice (buf b) 6 12;
  if decide (counts ≠ [0; 0; 0; 0; 0; 0]) then Ok (b, Failed) else
  '(buf, ns) ← write_name (buf b) (off b) qname;
  match ns with
  | None => Ok (mk buf (off b), Failed)
  | Some off =>
    buf ← put16_from buf off (QueryType.code qtype);
    let off := (off + 2)%nat in
    buf ← put16_from buf off (QueryClass.code qclass);
    let off := (off + 2)%nat in
    oldq ← be16 buf 4 6;
    if oldq =? 65535 then Ok (mk buf off, Failed) else
    buf ← put16 buf 4 6 (oldq + 1);
    Ok (mk buf off, Done)
  end.

Definition finish (b : t) : nat := off b.
End ops.
End Builder.

(** ** Names on the wire *)

(** The uncompressed encoding of a list of labels, without the final zero. *)
Definition labels_encoding (ls : list (list Z)) : list Z :=
  concat (map (λ l, Z.of_nat (length l) :: l) ls).

Lemma labels_encoding_cons l ls :
  labels_encoding (l :: ls) = Z.of_nat (length l) :: l ++ labels_encoding ls.
Proof. done. Qed.

Lemma length_labels_encoding ls :
  length (labels_encoding ls) = (length (concat ls) + length ls)%nat.
Proof.
  induction ls as [|l ls IH]; [done|]. rewrite labels_encoding_cons. cbn.
  rewrite !length_app, IH. lia.
Qed.

(** A label the builder accepts and the decoder reads back. *)
Definition good_label (l : list Z) : Prop :=
  (0 < length l < 63)%nat ∧ bytes l ∧ is_ascii l = true ∧ Forall (λ c, c ≠ DOT) l.

Lemma dotted_length ls : ls ≠ [] →
  (S (length (dotted ls)) = length (labels_encoding ls))%nat.
Proof.
  intros Hne. induction ls as [|l [|l' ls] IH]; [done| |].
  - cbn. rewrite length_app. cbn. lia.
  - rewrite labels_encoding_cons. cbn [length]. rewrite length_app, <-IH by done.
    cbn [dotted]. rewrite length_app. cbn [length]. lia.
Qed.

Lemma split_dot_label l name : Forall (λ c, c ≠ DOT) l →
  split_dot (l ++ DOT :: name) = l :: split_dot name ∧ split_dot l = [l].
Proof.
  induction 1 as [|c l Hc Hl [IH1 IH2]]; [done|].
  cbn. rewrite IH1, IH2. by destruct (Z.eqb_spec c DOT).
Qed.

Lemma split_dot_dotted ls : ls ≠ [] → Forall (λ l, Forall (λ c, c ≠ DOT) l) ls →
  split_dot (dotted ls) = ls.
Proof.
  intros Hne Hls. induction Hls as [|l ls Hl Hls IH]; [done|].
  destruct ls as [|l' ls]; [by apply split_dot_label|].
  cbn [dotted]. rewrite (proj1 (split_dot_label l _ Hl)). f_equal. by apply IH.
Qed.

Lemma split_dot_trailing ls : ls ≠ [] → Forall (λ l, Forall (λ c, c ≠ DOT) l) ls →
  split_dot (dotted ls ++ [DOT]) = ls ++ [[]].
Proof.
  intros Hne Hls. induction Hls as [|l ls Hl Hls IH]; [done|].
  destruct ls as [|l' ls]; [apply (proj1 (split_dot_label l [] Hl))|].
  cbn [dotted]. rewrite <-app_assoc. cbn [app].
  rewrite (proj1 (split_dot_label l _ Hl)). cbn [app]. f_equal. by apply IH.
Qed.

(** The grammar reads the encoding back. *)
Lemma name_at_encoding original pre ls post bound : Forall good_label ls →
  name_at original (pre ++ labels_encoding ls ++ 0 :: post) (length pre) bound ls false
    (length pre + length (labels_encoding ls) + 1).
Proof.
  intros Hls. revert pre. induction Hls as [|l ls (Hl & _ & Ha & _) Hls IH]; intros pre.
  - change (labels_encoding []) with (@nil Z). cbn [length app]. rewrite Nat.add_0_r.
    apply name_root. by rewrite list_lookup_middle.
  - rewrite labels_encoding_cons. cbn [app length]. rewrite <-app_assoc.
    set (b := Z.of_nat (length l)).
    assert (take (Z.to_nat b) (drop (length pre + 1)
      (pre ++ b :: l ++ labels_encoding ls ++ 0 :: post)) = l) as El.
    { change (b :: l ++ labels_encoding ls ++ 0 :: post) with
        ([b] ++ l ++ labels_encoding ls ++ 0 :: post).
      rewrite app_assoc, drop_app_length' by (rewrite length_app; cbn; lia).
      subst b. by rewrite Nat2Z.id, take_app_length. }
    rewrite <-El at 2. apply name_label; [by rewrite list_lookup_middle|lia|by rewrite El|].
    specialize (IH (pre ++ b :: l)). rewrite <-app_assoc in IH. cbn [app] in IH.
    rewrite length_app in IH. cbn [length] in IH. subst b. rewrite Nat2Z.id in *.
    rewrite length_app.
    replace (length pre + length l + 1)%nat with (length pre + S (length l))%nat by lia.
    replace (length pre + S (length l + length (labels_encoding ls)) + 1)%nat
      with (length pre + S (length l) + length (labels_encoding ls) + 1)%nat by lia.
    exact IH.
Qed.

(** ** What the operations write *)
Section ops_spec.
Context `{!BigEndian}.
Implicit Types pre rest : list Z.

Lemma store_middle pre rest v : (0 < length rest)%nat →
  store (E:=Error) (pre ++ rest) (length pre) v = Ok (pre ++ v :: drop 1 rest).
Proof.
  intros Hr. destruct rest as [|x rest]; [cbn in Hr; lia|].
  rewrite store_in by (rewrite length_app; cbn; lia).
  rewrite skipn_cons, drop_0. f_equal.
  replace (length pre) with (length pre + 0)%nat by lia. by rewrite insert_app_r.
Qed.

Lemma copy_middle pre rest src : (length src ≤ length rest)%nat →
  copy_at (E:=Error) (pre ++ rest) (length pre) src = Ok (pre ++ src ++ drop (length src) rest).
Proof.
  intros Hs. rewrite copy_at_in by (rewrite length_app; lia). f_equal.
  rewrite take_app_length. do 2 f_equal. by rewrite drop_app_add.
Qed.

(** One iteration of the loop that fits. *)
Lemma write_parts_step part parts pre rest :
  (length part < 63)%nat → (length part < length rest)%nat →
  Builder.write_parts (pre ++ rest) (length pre) (part :: parts) =
    let pre' := pre ++ Z.of_nat (length part) :: part in
    Builder.write_parts (pre' ++ drop (S (length part)) rest) (length pre') parts.
Proof.
  intros Hlen Hr. cbn [Builder.write_parts]. rewrite decide_False by (rewrite length_app; lia).
  rewrite store_middle by lia. mstep. rewrite Z.mod_small by lia.
  set (v := Z.of_nat (length part)). cbv zeta.
  replace (length pre + 1)%nat with (length (pre ++ [v])) by (rewrite length_app; done).
  replace (pre ++ v :: drop 1 rest) with ((pre ++ [v]) ++ drop 1 rest) by (by rewrite <-app_assoc).
  rewrite copy_middle by (rewrite length_drop; lia). mstep.
  rewrite drop_drop, app_assoc, <-length_app. by rewrite <-(app_assoc pre [v] part).
Qed.

(** Where [write_name] ends, for parts of a length the builder accepts: a name
    that fits is written with its final zero; a name whose last label ends
    exactly at the end of the buffer panics on the zero; a longer one is
    refused, and what stood before the name is still there. *)
Definition write_parts_post pre rest parts
    (m : outcome Error (list Z * option nat)) : Prop :=
  let e := length (labels_encoding parts) in
  if decide (e < length rest)%nat then
    m = Ok (pre ++ labels_encoding parts ++ 0 :: drop (e + 1) rest,
            Some (length pre + e + 1)%nat)
  else if decide (e = length rest) then m = Panic
  else ∃ buf, m = Ok (buf, None) ∧ take (length pre) buf = pre ∧
    length buf = length (pre ++ rest).

Lemma write_parts_spec parts pre rest : Forall (λ p, length p < 63)%nat parts →
  write_parts_post pre rest parts (Builder.write_parts (pre ++ rest) (length pre) parts).
Proof.
  intros Hp. revert pre rest.
  induction Hp as [|part parts Hlen Hp IH]; intros pre rest.
  - unfold write_parts_post. change (labels_encoding []) with (@nil Z). cbn.
    case_decide as H0.
    + rewrite store_middle by done. mstep. by rewrite Nat.add_0_r.
    + rewrite decide_True by lia. unfold store. by rewrite decide_False by (rewrite length_app; lia).
  - destruct (decide (length part < length rest)%nat) as [Hfit|Hfit].
    + rewrite write_parts_step by done. cbv zeta.
      specialize (IH (pre ++ Z.of_nat (length part) :: part) (drop (S (length part)) rest)).
      unfold write_parts_post in *. cbv zeta in *.
      rewrite labels_encoding_cons. cbn [length]. rewrite length_app.
      rewrite length_drop in IH. case_decide; [|case_decide].
      * rewrite decide_True by lia. rewrite IH, drop_drop, !length_app, <-!app_assoc.
        cbn [length app]. rewrite <-app_assoc.
        do 3 f_equal; [|lia]. do 5 f_equal. lia.
      * by rewrite decide_False, decide_True by lia.
      * rewrite !decide_False by lia. destruct IH as (buf & -> & Ht & Hl).
        exists buf. split_and!; [done| |].
        { apply (f_equal (take (length pre))) in Ht. rewrite take_take in Ht.
          rewrite Nat.min_l in Ht by (rewrite !length_app; lia). rewrite Ht.
          by rewrite take_app_length. }
        rewrite Hl, !length_app, length_drop. cbn [length]. lia.
    + unfold write_parts_post. cbn [Builder.write_parts]. rewrite labels_encoding_cons.
      cbn [length]. rewrite length_app. rewrite !decide_False by lia.
      rewrite decide_True by (rewrite length_app; lia).
      exists (pre ++ rest). by rewrite take_app_length, length_app.
Qed.

(** The header of a query with [n] questions. *)
Definition query_head (id : Z) (recursion : bool) (n : Z) : Header.t :=
  Header.mk id true Opcode.StandardQuery false false recursion false
    false false ResponseCode.NoError n 0 0 0.

Lemma query_head_wf id recursion n : u16 id → u16 n → Header.wf (query_head id recursion n).
Proof. intros. unfold u16 in *. repeat split; cbn; (done || lia). Qed.

Lemma start_spec buf id recursion : u16 id → (12 < length buf)%nat →
  Builder.start (Builder.new buf) id recursion =
    Ok (Builder.mk (encoding (query_head id recursion 0) ++ drop 12 buf) 12, Done).
Proof.
  intros Hid Hn. unfold Builder.start, Builder.new. cbn [Builder.buf].
  rewrite decide_False by lia. rewrite slice_to_in by lia. mstep.
  rewrite write_encoding; [|apply query_head_wf; (done || (unfold u16; lia))|rewrite length_take; lia].
  mstep. rewrite copy_at_in by (cbn; lia). mstep. done.
Qed.

Lemma length_split_dot name :
  length (labels_encoding (split_dot name)) = S (length name) ∧ split_dot name ≠ [].
Proof.
  rewrite length_labels_encoding.
  induction name as [|c name [IH Hne]]; [done|].
  cbn [split_dot]. destruct (c =? DOT); [cbn; split; [lia|done]|].
  destruct (split_dot name) as [|part parts]; [done|]. cbn in *. split; [lia|done].
Qed.

(** A question as the builder writes it. *)
Definition question_encoding (name : list Z) (qt : QueryType.t) (qc : QueryClass.t) : list Z :=
  labels_encoding (split_dot name) ++
  [0; QueryType.code qt / 256; QueryType.code qt mod 256;
   QueryClass.code qc / 256; QueryClass.code qc mod 256].

Lemma length_question_encoding name qt qc :
  length (question_encoding name qt qc) = (length name + 6)%nat.
Proof.
  unfold question_encoding. rewrite length_app, (proj1 (length_split_dot name)). cbn. lia.
Qed.

Lemma query_type_u16 qt : u16 (QueryType.code qt).
Proof. unfold u16. destruct qt; cbn; lia. Qed.
Lemma query_class_u16 qc : u16 (QueryClass.code qc).
Proof. unfold u16. destruct qc; cbn; lia. Qed.

(** The state after [k] bytes of questions: header, questions, free room. *)
Definition query_state id recursion n (mid rest : list Z) : Builder.t :=
  Builder.mk (encoding (query_head id recursion n) ++ mid ++ rest) (12 + length mid).

Lemma query_state_counts id recursion n tail :
  slice (E:=Error) (encoding (query_head id recursion n) ++ tail) 6 12 = Ok [0; 0; 0; 0; 0; 0].
Proof. rewrite slice_in by (rewrite ?length_app; cbn; lia). done. Qed.

Lemma put16_middle pre rest v : u16 v → (2 ≤ length rest)%nat →
  put16_from (E:=Error) (pre ++ rest) (length pre) v =
    Ok ((pre ++ [v / 256; v mod 256]) ++ drop 2 rest).
Proof.
  intros Hv Hn. rewrite put16_from_val by (rewrite ?length_app; (done || lia)).
  by rewrite take_app_length, drop_app_add, <-app_assoc.
Qed.

Lemma query_state_count id recursion n tail : u16 n →
  be16 (E:=Error) (encoding (query_head id recursion n) ++ tail) 4 6 = Ok n.
Proof.
  intros Hn. unfold be16. rewrite slice_in by (rewrite ?length_app; cbn; lia). mstep.
  change (take (6 - 4) (drop 4 (encoding (query_head id recursion n) ++ tail)))
    with [n / 256; n mod 256]. by rewrite read_write_u16.
Qed.

Lemma query_state_set_count id recursion n m tail : u16 m →
  put16 (E:=Error) (encoding (query_head id recursion n) ++ tail) 4 6 m =
    Ok (encoding (query_head id recursion m) ++ tail).
Proof. intros Hm. by rewrite put16_val by (rewrite ?length_app; (done || (cbn; lia))). Qed.

(** Unfolds [add_question] up to the call of [write_name]. *)
Lemma add_question_named id recursion n mid rest name qt qc :
  Builder.add_question (query_state id recursion n mid rest) name qt qc =
    let pre := encoding (query_head id recursion n) ++ mid in
    '(buf, ns) ← Builder.write_parts (pre ++ rest) (length pre) (split_dot name);
    match ns with
    | None => Ok (Builder.mk buf (12 + length mid), Failed)
    | Some off =>
      buf ← put16_from buf off (QueryType.code qt);
      buf ← put16_from buf (off + 2) (QueryClass.code qc);
      oldq ← be16 buf 4 6;
      if oldq =? 65535 then Ok (Builder.mk buf (off + 2 + 2), Failed) else
      buf ← put16 buf 4 6 (oldq + 1);
      Ok (Builder.mk buf (off + 2 + 2), Done)
    end.
Proof.
  unfold Builder.add_question, query_state, Builder.write_name. cbn [Builder.buf Builder.off].
  rewrite query_state_counts. mstep. rewrite decide_False by tauto. cbv zeta.
  by rewrite <-app_assoc, length_app.
Qed.

Lemma add_question_fits id recursion n mid rest name qt qc : 0 ≤ n < 65535 →
  Forall (λ p, length p < 63)%nat (split_dot name) → (length name + 6 ≤ length rest)%nat →
  Builder.add_question (query_state id recursion n mid rest) name qt qc =
    Ok (query_state id recursion (n + 1) (mid ++ question_encoding name qt qc)
          (drop (length name + 6) rest), Done).
Proof.
  intros Hn Hp Hfit. rewrite add_question_named. cbv zeta.
  set (pre := encoding (query_head id recursion n) ++ mid).
  pose proof (write_parts_spec (split_dot name) pre rest Hp) as Hw.
  unfold write_parts_post in Hw. rewrite (proj1 (length_split_dot name)) in Hw. cbv zeta in Hw.
  rewrite decide_True in Hw by lia. rewrite Hw. mstep.
  set (enc := labels_encoding (split_dot name)).
  replace (pre ++ enc ++ 0 :: drop (S (length name) + 1) rest)
    with ((pre ++ enc ++ [0]) ++ drop (S (length name) + 1) rest) by (by rewrite <-!app_assoc).
  replace (length pre + S (length name) + 1)%nat with (length (pre ++ enc ++ [0])).
  2:{ rewrite !length_app. subst enc. rewrite (proj1 (length_split_dot name)). cbn. lia. }
  rewrite put16_middle by (apply query_type_u16 || (rewrite length_drop; lia)). mstep.
  rewrite drop_drop. set (pre1 := (pre ++ enc ++ [0]) ++ _).
  replace (length (pre ++ enc ++ [0%Z]) + 2)%nat with (length pre1)
    by (subst pre1; rewrite (length_app (pre ++ _)); done).
  rewrite put16_middle by (apply query_class_u16 || (rewrite length_drop; lia)). mstep.
  rewrite drop_drop. subst pre1 pre. rewrite <-!app_assoc. cbn [app].
  rewrite query_state_count by (unfold u16; lia). mstep.
  rewrite (proj2 (Z.eqb_neq n 65535)) by lia.
  rewrite query_state_set_count by (unfold u16; lia). mstep.
  unfold query_state, question_encoding. fold enc. do 2 f_equal. f_equal.
  - rewrite <-!app_assoc. cbn [app].
    by replace (S (length name) + 1 + 2 + 2)%nat with (length name + 6)%nat by lia.
  - rewrite !length_app. unfold encoding. cbn [length]. lia.
Qed.

Lemma add_question_overflow id recursion n mid rest name qt qc :
  Forall (λ p, length p < 63)%nat (split_dot name) → (length name + 1 ≤ length rest)%nat →
  (length rest < length name + 6)%nat →
  Builder.add_question (query_state id recursion n mid rest) name qt qc = Panic.
Proof.
  intros Hp Hlo Hhi. rewrite add_question_named. cbv zeta.
  set (pre := encoding (query_head id recursion n) ++ mid).
  pose proof (write_parts_spec (split_dot name) pre rest Hp) as Hw.
  unfold write_parts_post in Hw. rewrite (proj1 (length_split_dot name)) in Hw. cbv zeta in Hw.
  case_decide as Hlt; [|rewrite decide_True in Hw by lia; by rewrite Hw].
  rewrite Hw. mstep.
  set (enc := labels_encoding (split_dot name)).
  assert (length enc = S (length name)) as Henc by apply length_split_dot.
  replace (pre ++ enc ++ 0 :: drop (S (length name) + 1) rest)
    with ((pre ++ enc ++ [0]) ++ drop (S (length name) + 1) rest) by (by rewrite <-!app_assoc).
  replace (length pre + S (length name) + 1)%nat with (length (pre ++ enc ++ [0]))
    by (rewrite !length_app; cbn; lia).
  destruct (decide (length name + 4 ≤ length rest)%nat).
  - rewrite put16_middle by (apply query_type_u16 || (rewrite length_drop; lia)). mstep.
    rewrite put16_from_short; [done|]. rewrite !length_app, !length_drop. cbn. lia.
  - rewrite put16_from_short; [done|]. rewrite !length_app, !length_drop. cbn. lia.
Qed.

Lemma add_question_refused id recursion n mid rest name qt qc :
  Forall (λ p, length p < 63)%nat (split_dot name) → (length rest < length name + 1)%nat →
  ∃ buf, Builder.add_question (query_state id recursion n mid rest) name qt qc =
    Ok (Builder.mk buf (12 + length mid), Failed) ∧
    take (12 + length mid) buf = encoding (query_head id recursion n) ++ mid.
Proof.
  intros Hp Hlo. rewrite add_question_named. cbv zeta.
  set (pre := encoding (query_head id recursion n) ++ mid).
  pose proof (write_parts_spec (split_dot name) pre rest Hp) as Hw.
  unfold write_parts_post in Hw. rewrite (proj1 (length_split_dot name)) in Hw. cbv zeta in Hw.
  rewrite !decide_False in Hw by lia. destruct Hw as (buf & Hw & Ht & _).
  exists buf. rewrite Hw. split; [done|]. subst pre. rewrite length_app in Ht. exact Ht.
Qed.
End ops_spec.

(** ** Parsing what was built *)
Section parse_query.
Context `{!BigEndian}.

Lemma labels_encoding_bytes ls : Forall good_label ls → bytes (labels_encoding ls).
Proof.
  induction 1 as [|l ls (Hl & Hb & _) Hls IH]; [by constructor|].
  rewrite labels_encoding_cons, bytes_cons, bytes_app. split_and!; [|done..].
  unfold byte. lia.
Qed.

Lemma good_no_dot ls : Forall good_label ls → Forall (λ l, Forall (λ c, c ≠ DOT) l) ls.
Proof. intros Hls. eapply Forall_impl; [exact Hls|]. intros l (_ & _ & _ & Hd). done. Qed.

Lemma good_short ls : Forall good_label ls → Forall (λ p, length p < 63)%nat ls.
Proof. intros Hls. eapply Forall_impl; [exact Hls|]. intros l ([] & _). done. Qed.

(** A name in the middle of a packet. *)
Lemma name_in_middle head ls post : Forall good_label ls →
  let data := head ++ labels_encoding ls ++ 0 :: post in
  name_at data (drop (length head) data) 0 (length data) ls false
    (length (labels_encoding ls) + 1) ∧
  take (length (labels_encoding ls) + 1) (drop (length head) data) = labels_encoding ls ++ [0].
Proof.
  intros Hls. cbv zeta. rewrite drop_app_length. split.
  - apply (name_at_encoding _ [] ls _ _ Hls).
  - by rewrite take_app_add.
Qed.

(** [parse_question] at such a name, up to the two words after it. *)
Lemma parse_question_middle head ls post : Forall good_label ls → (4 ≤ length post)%nat →
  let data := head ++ labels_encoding ls ++ 0 :: post in
  let p := (length head + (length (labels_encoding ls) + 1))%nat in
  bytes data →
  parse_question data (length head) =
    (qtype ← QueryType.parse (val16 data p);
     '(prefer_unicast, qclass) ← parse_qclass_code (val16 data (p + 2));
     Ok (Question.mk (Name.mk (labels_encoding ls ++ [0]) data) prefer_unicast qtype qclass,
         (p + 4)%nat)).
Proof.
  intros Hls Hpost. cbv zeta. set (data := head ++ _). intros Hb.
  destruct (name_in_middle head ls post Hls) as [Hat Htake]. fold data in Hat, Htake.
  assert (length data = length head + length (labels_encoding ls) + 1 + length post)%nat as Hlen.
  { subst data. rewrite !length_app. cbn. lia. }
  unfold parse_question. rewrite slice_from_in by lia. mstep.
  rewrite (proj2 (scan_name_iff data (length head) _ Hb ltac:(lia))) by eauto. mstep.
  rewrite Htake. unfold Name.byte_len. cbn [Name.labels]. rewrite length_app. cbn [length].
  rewrite decide_False by lia. io_step.
  destruct (QueryType.parse _) as [qt|err| |]; try done. mstep. io_step.
  destruct (parse_qclass_code _) as [[pu qc]|err| |]; try done. mstep.
  do 2 f_equal. lia.
Qed.

(** The question part of a packet: a name, then two words. *)
Lemma parse_question_encoding head ls qt qc tail :
  bytes (head ++ labels_encoding ls ++ 0 :: QueryType.code qt / 256 ::
    QueryType.code qt mod 256 :: QueryClass.code qc / 256 :: QueryClass.code qc mod 256 :: tail) →
  Forall good_label ls →
  let data := head ++ labels_encoding ls ++ 0 :: QueryType.code qt / 256 ::
    QueryType.code qt mod 256 :: QueryClass.code qc / 256 :: QueryClass.code qc mod 256 :: tail in
  let p := (length head + length (labels_encoding ls) + 5)%nat in
  let name := Name.mk (labels_encoding ls ++ [0]) data in
  parse_question data (length head) = Ok (Question.mk name false qt qc, p) ∧
  Name.to_string name = Ok (dotted ls).
Proof.
  intros Hb Hls. cbv zeta.
  destruct (name_in_middle head ls (QueryType.code qt / 256 :: QueryType.code qt mod 256 ::
    QueryClass.code qc / 256 :: QueryClass.code qc mod 256 :: tail) Hls) as [Hat Htake].
  rewrite parse_question_middle by (done || (cbn; lia)).
  set (data := head ++ _) in *.
  set (pre := head ++ labels_encoding ls ++ [0]).
  replace (length head + (length (labels_encoding ls) + 1))%nat with (length pre)
    by (subst pre; rewrite !length_app; cbn; lia).
  assert (val16 data (length pre) = QueryType.code qt) as ->.
  { etrans; [|apply (val16_middle pre (QueryType.code qt)
      (QueryClass.code qc / 256 :: QueryClass.code qc mod 256 :: tail))].
    subst data pre. by rewrite <-!app_assoc. }
  set (pre2 := pre ++ [QueryType.code qt / 256; QueryType.code qt mod 256]).
  replace (length pre + 2)%nat with (length pre2) by (subst pre2; by rewrite length_app).
  assert (val16 data (length pre2) = QueryClass.code qc) as ->.
  { etrans; [|apply (val16_middle pre2 (QueryClass.code qc) tail)]. subst data pre2 pre.
    by rewrite <-!app_assoc. }
  rewrite (proj2 (query_type_parse_iff _ _) eq_refl). mstep.
  assert (parse_qclass_code (QueryClass.code qc) = Ok (false, qc)) as -> by (by destruct qc).
  mstep. split.
  - do 2 f_equal. subst pre. rewrite !length_app. cbn. lia.
  - rewrite (to_string_name_at _ _ ls false); [unfold name_text; by rewrite app_nil_r|..].
    + rewrite <-Htake. auto with easyfibers.
    + done.
    + rewrite <-Htake, length_take, length_drop, Nat.min_l; [by apply name_at_take|].
      subst data. rewrite !length_app. cbn. lia.
Qed.
End parse_query.

(** ** Properties *)
Section properties.
Context `{!BigEndian}.

(** Everything a query built for [name] contains. *)
Definition built_query id recursion name qt qc : list Z :=
  encoding (query_head id recursion 1) ++ question_encoding name qt qc.

Lemma build_query buf id recursion name qt qc : u16 id →
  Forall (λ p, length p < 63)%nat (split_dot name) → (length name + 18 ≤ length buf)%nat →
  ∃ b1 b2, Builder.start (Builder.new buf) id recursion = Ok (b1, Done) ∧
    Builder.add_question b1 name qt qc = Ok (b2, Done) ∧
    Builder.finish b2 = (length name + 18)%nat ∧
    take (Builder.finish b2) (Builder.buf b2) = built_query id recursion name qt qc.
Proof.
  intros Hid Hp Hfit. eexists _, _. rewrite start_spec by (done || lia). split; [done|].
  pose proof (add_question_fits id recursion 0 [] (drop 12 buf) name qt qc ltac:(lia) Hp) as Ha.
  rewrite length_drop in Ha. specialize (Ha ltac:(lia)).
  unfold query_state in Ha. cbn [app length] in Ha. rewrite Nat.add_0_r in Ha.
  split; [exact Ha|]. unfold Builder.finish. cbn [Builder.buf Builder.off].
  rewrite length_question_encoding. split; [lia|].
  unfold built_query. rewrite app_assoc. apply take_app_length'.
  rewrite length_app, length_question_encoding. unfold encoding. cbn [length]. lia.
Qed.

Lemma built_query_shape id recursion ls qt qc name : split_dot name = ls →
  built_query id recursion name qt qc =
    encoding (query_head id recursion 1) ++ labels_encoding ls ++
    0 :: QueryType.code qt / 256 :: QueryType.code qt mod 256 ::
    QueryClass.code qc / 256 :: QueryClass.code qc mod 256 :: [].
Proof. intros <-. done. Qed.

(** C12. A query survives the trip through the wire: for any host made of labels
    of 1 to 62 ASCII bytes without dots that fits the buffer, the builder
    succeeds, and parsing exactly the bytes it reports gives back the identifier
    and the recursion flag, one question of the requested type and class whose
    name displays as the host, and no records. *)
Theorem query_roundtrip buf id recursion ls qt qc : u16 id →
  ls ≠ [] → Forall good_label ls → (length (dotted ls) + 18 ≤ length buf)%nat →
  ∃ b1 b2 p q,
    Builder.start (Builder.new buf) id recursion = Ok (b1, Done) ∧
    Builder.add_question b1 (dotted ls) qt qc = Ok (b2, Done) ∧
    Builder.finish b2 = (length (dotted ls) + 18)%nat ∧
    Packet.parse (take (Builder.finish b2) (Builder.buf b2)) = Ok p ∧
    Packet.header p = query_head id recursion 1 ∧
    Packet.questions p = [q] ∧ Name.to_string (Question.qname q) = Ok (dotted ls) ∧
    Question.qtype q = qt ∧ Question.qclass q = qc ∧ Question.prefer_unicast q = false ∧
    Packet.answers p = [] ∧ Packet.nameservers p = [] ∧ Packet.additional p = [] ∧
    Packet.opt p = None.
Proof.
  intros Hid Hne Hls Hfit.
  pose proof (split_dot_dotted ls Hne (good_no_dot ls Hls)) as Hsplit.
  destruct (build_query buf id recursion (dotted ls) qt qc Hid) as (b1 & b2 & H1 & H2 & H3 & H4);
    [rewrite Hsplit; by apply good_short|done|].
  rewrite (built_query_shape _ _ ls) in H4 by done.
  assert (Header.wf (query_head id recursion 1)) as Hwf by (apply query_head_wf; [done|unfold u16; lia]).
  assert (bytes (0 :: QueryType.code qt / 256 :: QueryType.code qt mod 256 ::
    QueryClass.code qc / 256 :: QueryClass.code qc mod 256 :: [])) as Htail.
  { rewrite !bytes_cons. split_and!; auto using u16_hi, u16_lo, query_type_u16, query_class_u16;
      [unfold byte; lia|constructor]. }
  destruct (parse_question_encoding (encoding (query_head id recursion 1)) ls qt qc [])
    as [Hq Hs]; [|done|].
  { rewrite !bytes_app. auto using encoding_bytes, labels_encoding_bytes. }
  rewrite <-H4 in Hq, Hs. eexists b1, b2, _, _. do 3 (split; [done|]).
  split.
  - unfold Packet.parse. rewrite H4 at 1.
    rewrite parse_encoding; [|done|rewrite bytes_app; auto using labels_encoding_bytes].
    mstep. cbn [Header.questions Header.without_ad_cd query_head Header.answers
      Header.nameservers Header.additional].
    change (Z.to_nat 1) with 1%nat. change (Z.to_nat 0) with 0%nat. cbn [for_n parse_additional].
    change Header.size with (length (encoding (query_head id recursion 1))).
    rewrite Hq. mstep. reflexivity.
  - cbn. by split_and!.
Qed.

(** What [add_question] does at the end of the buffer, for a host whose
    labels are short enough, after [start]: with six free bytes more than the
    host the question is added; with less room than the host plus one byte it is
    refused and the offset stays; in between it panics, because the final zero,
    the type and the class are written without a check. *)
Theorem add_question_capacity buf id recursion name qt qc : u16 id →
  (12 < length buf)%nat → Forall (λ p, length p < 63)%nat (split_dot name) →
  ∃ b1, Builder.start (Builder.new buf) id recursion = Ok (b1, Done) ∧
    if decide (length name + 18 ≤ length buf)%nat then
      ∃ b2, Builder.add_question b1 name qt qc = Ok (b2, Done) ∧
        Builder.finish b2 = (length name + 18)%nat
    else if decide (length buf < length name + 13)%nat then
      ∃ b2, Builder.add_question b1 name qt qc = Ok (b2, Failed) ∧
        Builder.finish b2 = 12%nat
    else Builder.add_question b1 name qt qc = Panic.
Proof.
  intros Hid Hn Hp. eexists. rewrite start_spec by done. split; [done|].
  assert (Builder.mk (encoding (query_head id recursion 0) ++ drop 12 buf) 12 =
    query_state id recursion 0 [] (drop 12 buf)) as -> by done.
  case_decide; [|case_decide].
  - eexists. rewrite add_question_fits by (try rewrite length_drop; done || lia).
    split; [done|]. cbn [query_state Builder.finish Builder.off app].
    unfold Builder.finish, query_state. cbn [Builder.off app].
    rewrite length_question_encoding. lia.
  - destruct (add_question_refused id recursion 0 [] (drop 12 buf) name qt qc Hp)
      as (b & Ha & _); [rewrite length_drop; lia|].
    eexists. by rewrite Ha.
  - by rewrite add_question_overflow by (try rewrite length_drop; done || lia).
Qed.

(** C37. A host written with a final dot (a fully qualified name) gives a
    malformed query: the empty last part ends the name early, and the decoder
    reads a type of zero where the question type should be. *)
Theorem trailing_dot_query buf id recursion ls qt qc : u16 id →
  ls ≠ [] → Forall good_label ls → (length (dotted ls) + 19 ≤ length buf)%nat →
  ∃ b1 b2,
    Builder.start (Builder.new buf) id recursion = Ok (b1, Done) ∧
    Builder.add_question b1 (dotted ls ++ [DOT]) qt qc = Ok (b2, Done) ∧
    Packet.parse (take (Builder.finish b2) (Builder.buf b2)) = Err (InvalidQueryType 0).
Proof.
  intros Hid Hne Hls Hfit.
  pose proof (split_dot_trailing ls Hne (good_no_dot ls Hls)) as Hsplit.
  destruct (build_query buf id recursion (dotted ls ++ [DOT]) qt qc Hid)
    as (b1 & b2 & H1 & H2 & _ & H4).
  { rewrite Hsplit. apply Forall_app. split; [by apply good_short|].
    by repeat constructor; cbn; lia. }
  { rewrite length_app. cbn. lia. }
  exists b1, b2. split; [done|]. split; [done|]. rewrite H4.
  rewrite (built_query_shape _ _ (ls ++ [[]])) by done.
  assert (labels_encoding (ls ++ [[]]) = labels_encoding ls ++ [0]) as ->.
  { unfold labels_encoding. by rewrite map_app, concat_app. }
  rewrite <-app_assoc. cbn [app].
  assert (Header.wf (query_head id recursion 1)) as Hwf by (apply query_head_wf; [done|unfold u16; lia]).
  assert (bytes (labels_encoding ls ++ 0 :: 0 :: QueryType.code qt / 256 ::
    QueryType.code qt mod 256 :: QueryClass.code qc / 256 :: QueryClass.code qc mod 256 :: [])) as Hb.
  { rewrite bytes_app, !bytes_cons. split_and!; auto using labels_encoding_bytes, u16_hi, u16_lo,
      query_type_u16, query_class_u16; try (unfold byte; lia). constructor. }
  unfold Packet.parse. rewrite parse_encoding by done. mstep.
  cbn [Header.questions Header.without_ad_cd query_head].
  change (Z.to_nat 1) with 1%nat. cbn [for_n].
  change Header.size with (length (encoding (query_head id recursion 1))).
  rewrite parse_question_middle by
    (done || (cbn; lia) || (apply bytes_app; split; [by apply encoding_bytes|done])).
  set (head := encoding (query_head id recursion 1)).
  set (pre := head ++ labels_encoding ls ++ [0]).
  replace (length head + (length (labels_encoding ls) + 1))%nat with (length pre)
    by (subst pre; rewrite !length_app; cbn; lia).
  assert (val16 (head ++ labels_encoding ls ++ 0 :: 0 :: QueryType.code qt / 256 ::
    QueryType.code qt mod 256 :: QueryClass.code qc / 256 :: QueryClass.code qc mod 256 :: [])
    (length pre) = 0) as ->; [|done].
  etrans; [|apply (val16_middle pre 0 (QueryType.code qt mod 256 ::
    QueryClass.code qc / 256 :: QueryClass.code qc mod 256 :: []))].
  subst pre. rewrite <-!app_assoc. cbn [app]. by destruct qt.
Qed.
End properties.

(** ** Witnesses *)

(** [example.com] *)
Definition example_labels : list (list Z) :=
  [[101; 120; 97; 109; 112; 108; 101]; [99; 111; 109]].

Lemma example_labels_good : Forall good_label example_labels.
Proof. repeat constructor; cbn; try lia; done. Defined.

Lemma query_roundtrip_witness :
  ∃ b1 b2 p, Builder.start (Builder.new (repeat 7 40)) 1573 true = Ok (b1, Done) ∧
    Builder.add_question b1 (dotted example_labels) QueryType.A QueryClass.IN = Ok (b2, Done) ∧
    Builder.finish b2 = 29%nat ∧
    Packet.parse (take 29 (Builder.buf b2)) = Ok p ∧
    Packet.header p = query_head 1573 true 1.
Proof.
  destruct (query_roundtrip (repeat 7 40) 1573 true example_labels QueryType.A QueryClass.IN)
    as (b1 & b2 & p & q & H1 & H2 & H3 & H4 & H5 & _).
  - unfold u16. lia.
  - done.
  - exact example_labels_good.
  - cbn. lia.
  - exists b1, b2, p. rewrite H3 in H4. auto 10.
Defined.

(** A host of 495 bytes, [a.a. ... .a], for the 512-byte buffer of the resolver. *)
Definition long_host : list Z := concat (repeat [97; DOT] 247) ++ [97].

Lemma add_question_capacity_witness :
  ∃ b1, Builder.start (Builder.new (repeat 0 512)) 1 true = Ok (b1, Done) ∧
    Builder.add_question b1 long_host QueryType.A QueryClass.IN = Panic.
Proof.
  destruct (add_question_capacity (repeat 0 512) 1 true long_host QueryType.A QueryClass.IN)
    as (b1 & H1 & H2).
  - unfold u16. lia.
  - rewrite repeat_length. lia.
  - apply (bool_decide_unpack _). vm_compute. exact I.
  - exists b1. split; [exact H1|].
    assert (length long_host = 495%nat) as El by (vm_compute; reflexivity).
    rewrite El, repeat_length in H2. rewrite !decide_False in H2 by lia. exact H2.
Defined.

Lemma trailing_dot_query_witness :
  ∃ b1 b2, Builder.start (Builder.new (repeat 0 512)) 1 true = Ok (b1, Done) ∧
    Builder.add_question b1 (dotted example_labels ++ [DOT]) QueryType.A QueryClass.IN
      = Ok (b2, Done) ∧
    Packet.parse (take (Builder.finish b2) (Builder.buf b2)) = Err (InvalidQueryType 0).
Proof.
  apply (trailing_dot_query (repeat 0 512) 1 true example_labels).
  - unfold u16. lia.
  - done.
  - exact example_labels_good.
  - rewrite repeat_length. cbn. lia.
Defined.
