(* ===== verification/Clock.v ===== *)
(** * The standard library's clock

    What the timer code uses of [std::time], for a 64-bit target.  A [Duration]
    is its number of nanoseconds, below 2{^64} seconds; an [Instant] is its
    number of nanoseconds on the monotonic clock, whose seconds are an [i64].
    The operations panic where the standard library documents a panic: on
    overflow, and on the difference of an instant and a later one. *)
From S2P Require Import Prelude.
Local Open Scope Z_scope.

Definition U32_MAX : Z := 2 ^ 32 - 1.
Definition U64_MAX : Z := 2 ^ 64 - 1.
Definition USIZE_MAX : Z := 2 ^ 64 - 1.
Definition I64_MAX : Z := 2 ^ 63 - 1.

(** [x as u32] of an unsigned integer *)
Definition as_u32 (x : Z) : Z := x mod 2 ^ 32.

(** [a + b], [a - b] and [a / b] of [u64] or [usize] values, with the overflow
    checks of the debug profile. *)
Definition add64 {E} (a b : Z) : outcome E Z :=
  if decide (a + b ≤ U64_MAX) then Ok (a + b) else Panic.
Definition sub64 {E} (a b : Z) : outcome E Z :=
  if decide (b ≤ a) then Ok (a - b) else Panic.
Definition div64 {E} (a b : Z) : outcome E Z :=
  if decide (b = 0) then Panic else Ok (a / b).

(** [u64::checked_mul], [checked_add], [saturating_mul], [saturating_add] *)
Definition checked (x : Z) : option Z :=
  if decide (x ≤ U64_MAX) then Some x else None.
Definition saturated (x : Z) : Z := Z.min x U64_MAX.

Module Duration.
Definition NANOS_PER_SEC : Z := 1000000000.
Definition NANOS_PER_MILLI : Z := 1000000.

(** The values a [Duration] can hold *)
Definition valid (d : Z) : Prop := 0 ≤ d < 2 ^ 64 * NANOS_PER_SEC.

Definition as_secs (d : Z) : Z := d / NANOS_PER_SEC.
Definition subsec_nanos (d : Z) : Z := d mod NANOS_PER_SEC.
Definition from_millis (ms : Z) : Z := ms * NANOS_PER_MILLI.

(** [d * n] for [n : u32] *)
Definition mul {E} (d n : Z) : outcome E Z :=
  if decide (as_secs (d * n) ≤ U64_MAX) then Ok (d * n) else Panic.
End Duration.

Module Instant.
(** [t - u], a [Duration] *)
Definition sub {E} (t u : Z) : outcome E Z := if decide (u ≤ t) then Ok (t - u) else Panic.

(** [t + d] for a [Duration] [d] *)
Definition add {E} (t d : Z) : outcome E Z :=
  if decide (Duration.as_secs (t + d) ≤ I64_MAX) then Ok (t + d) else Panic.
End Instant.

(** A duration in whole milliseconds, from its seconds and nanoseconds. *)
Lemma whole_millis d :
  Duration.as_secs d * 1000 + Duration.subsec_nanos d / 1000000 = d / 1000000.
Proof.
  unfold Duration.as_secs, Duration.subsec_nanos, Duration.NANOS_PER_SEC.
  change 1000000000 with (1000000 * 1000).
  rewrite Z.rem_mul_r, <- Z.div_div by lia.
  rewrite (Z.mul_comm 1000000 (_ mod 1000)), Z.div_add by lia.
  rewrite (Z.div_small (d mod 1000000)) by (apply Z.mod_pos_bound; lia).
  pose proof (Z.div_mod (d / 1000000) 1000). lia.
Qed.

Lemma add64_in {E} a b : a + b ≤ U64_MAX → add64 (E:=E) a b = Ok (a + b).
Proof. intros. unfold add64. by rewrite decide_True. Qed.

Lemma sub64_in {E} a b : b ≤ a → sub64 (E:=E) a b = Ok (a - b).
Proof. intros. unfold sub64. by rewrite decide_True. Qed.

Lemma checked_in x : x ≤ U64_MAX → checked x = Some x.
Proof. intros. unfold checked. by rewrite decide_True. Qed.

(** A mask of one bit less than a power of two takes the remainder. *)
Lemma land_mask x p : 0 ≤ p → Z.land x (2 ^ p - 1) = x mod 2 ^ p.
Proof. intros. rewrite <- Z.land_ones by done. by rewrite Z.ones_equiv. Qed.
