(* ===== verification/TimerConfig.v ===== *)
(** * The timer's configuration (src/builder.rs)

    [Builder] collects optional settings; a getter gives the default of a
    setting that was not made.  [Wheel::new] reads the tick duration, the number
    of slots and the two capacities. *)
From stdpp Require Import strings.
From S2P Require Import Prelude Clock.
Local Open Scope Z_scope.

Module Builder.
Record t := mk {
  tick_duration_ : option Z;
  num_slots_ : option Z;
  initial_capacity_ : option Z;
  max_capacity_ : option Z;
  max_timeout_ : option Z;
  channel_capacity_ : option Z;
  thread_name_ : option string
}.

Definition new : t := mk None None None None None None None.

Definition get_tick_duration (b : t) : Z :=
  default (Duration.from_millis 100) (tick_duration_ b).

Definition tick_duration (b : t) (d : Z) : t :=
  mk (Some d) (num_slots_ b) (initial_capacity_ b) (max_capacity_ b) (max_timeout_ b)
     (channel_capacity_ b) (thread_name_ b).

Definition get_num_slots (b : t) : Z := default 4096 (num_slots_ b).

Definition num_slots (b : t) (n : Z) : t :=
  mk (tick_duration_ b) (Some n) (initial_capacity_ b) (max_capacity_ b) (max_timeout_ b)
     (channel_capacity_ b) (thread_name_ b).

Definition get_channel_capacity (b : t) : Z := default 128 (channel_capacity_ b).

Definition get_initial_capacity (b : t) : Z :=
  Z.max (default 256 (initial_capacity_ b)) (get_channel_capacity b).

Definition initial_capacity (b : t) (n : Z) : t :=
  mk (tick_duration_ b) (num_slots_ b) (Some n) (max_capacity_ b) (max_timeout_ b)
     (channel_capacity_ b) (thread_name_ b).

Definition get_max_capacity (b : t) : Z := default 4194304 (max_capacity_ b).

Definition max_capacity (b : t) (n : Z) : t :=
  mk (tick_duration_ b) (num_slots_ b) (initial_capacity_ b) (Some n) (max_timeout_ b)
     (channel_capacity_ b) (thread_name_ b).

(** The default is computed before [unwrap_or] chooses, so that its overflow
    panics whatever the setting is. *)
Definition get_max_timeout {E} (b : t) : outcome E Z :=
  dflt ← Duration.mul (get_tick_duration b) (as_u32 (get_num_slots b));
  Ok (default dflt (max_timeout_ b)).

Definition max_timeout (b : t) (d : Z) : t :=
  mk (tick_duration_ b) (num_slots_ b) (initial_capacity_ b) (max_capacity_ b) (Some d)
     (channel_capacity_ b) (thread_name_ b).

Definition channel_capacity (b : t) (n : Z) : t :=
  mk (tick_duration_ b) (num_slots_ b) (initial_capacity_ b) (max_capacity_ b)
     (max_timeout_ b) (Some n) (thread_name_ b).
End Builder.

(** The operations that set one option; the configuration they denote is the
    list of the settings in the order they are made. *)
Inductive setting :=
| TickDuration (d : Z)
| NumSlots (n : Z)
| InitialCapacity (n : Z)
| MaxCapacity (n : Z)
| MaxTimeout (d : Z)
| ChannelCapacity (n : Z).

Definition apply (b : Builder.t) (s : setting) : Builder.t :=
  match s with
  | TickDuration d => Builder.tick_duration b d
  | NumSlots n => Builder.num_slots b n
  | InitialCapacity n => Builder.initial_capacity b n
  | MaxCapacity n => Builder.max_capacity b n
  | MaxTimeout d => Builder.max_timeout b d
  | ChannelCapacity n => Builder.channel_capacity b n
  end.

Definition configure (ss : list setting) : Builder.t := foldl apply Builder.new ss.

(** The last setting of a kind, among [ss], read by [pick]. *)
Definition latest {A} (pick : setting → option A) (ss : list setting) : option A :=
  foldl (λ o s, match pick s with Some x => Some x | None => o end) None ss.

Definition pick_tick s := match s with TickDuration d => Some d | _ => None end.
Definition pick_slots s := match s with NumSlots n => Some n | _ => None end.
Definition pick_initial s := match s with InitialCapacity n => Some n | _ => None end.
Definition pick_max s := match s with MaxCapacity n => Some n | _ => None end.
Definition pick_channel s := match s with ChannelCapacity n => Some n | _ => None end.

Lemma configure_snoc ss s : configure (ss ++ [s]) = apply (configure ss) s.
Proof. unfold configure. by rewrite foldl_app. Qed.

Lemma latest_snoc {A} (pick : setting → option A) ss s :
  latest pick (ss ++ [s]) = match pick s with Some x => Some x | None => latest pick ss end.
Proof. unfold latest. by rewrite foldl_app. Qed.

(** Whatever settings are chained on a new [Builder], in whatever order,
    each getter returns the last value set for its option and the documented
    default when there is none: 100 ms ticks, 4096 slots, a maximal capacity of
    4,194,304; the initial capacity is the greater of the one set (256 by
    default) and of the channel's capacity (128 by default), so it never is
    below the channel's. *)
Theorem configure_getters ss :
  let b := configure ss in
  Builder.get_tick_duration b = default 100000000 (latest pick_tick ss)
  ∧ Builder.get_num_slots b = default 4096 (latest pick_slots ss)
  ∧ Builder.get_max_capacity b = default 4194304 (latest pick_max ss)
  ∧ Builder.get_initial_capacity b =
      Z.max (default 256 (latest pick_initial ss)) (default 128 (latest pick_channel ss)).
Proof.
  cbv zeta.
  unfold Builder.get_tick_duration, Builder.get_num_slots, Builder.get_max_capacity,
    Builder.get_initial_capacity, Builder.get_channel_capacity.
  change (Duration.from_millis 100) with 100000000.
  assert (Builder.tick_duration_ (configure ss) = latest pick_tick ss
    ∧ Builder.num_slots_ (configure ss) = latest pick_slots ss
    ∧ Builder.max_capacity_ (configure ss) = latest pick_max ss
    ∧ Builder.initial_capacity_ (configure ss) = latest pick_initial ss
    ∧ Builder.channel_capacity_ (configure ss) = latest pick_channel ss)
    as (-> & -> & -> & -> & ->); [|done].
  induction ss as [|s ss IH] using rev_ind; [done|].
  rewrite configure_snoc, !latest_snoc.
  destruct_and!. by destruct s.
Qed.
