(* ===== verification/Slab.v ===== *)
(** * The slab the timer wheel stores its entries in

    [slab::Slab] (version 0.3) is third-party code: [SlabOps] lists the operations
    the wheel calls and [SlabLaws] what their documentation promises.  The wheel
    is defined and proved against these classes; [VecSlab] is an instance, so the
    laws can hold, and the witnesses run on it.

    A slab is seen through [get]: the value stored under a key.  Keys are
    positions of a vector, whose capacity is at most [isize::MAX], so they are below
    [usize::MAX]. *)
From S2P Require Import Prelude Clock.
Local Open Scope Z_scope.

Class SlabOps (A S : Type) := {
  with_capacity : Z → S;
  get : S → Z → option A;
  len : S → Z;
  available : S → Z;
  vacant_entry : S → option Z;
  (** [None] stands for [Err(value)]: the slab is full *)
  insert : S → A → option (Z * S);
  (** the value that was stored under the key, and the slab without it *)
  remove : S → Z → option A * S;
  (** the assignment through [get_mut] or [slab[key]] to a key that is stored *)
  set : S → Z → A → S;
  reserve_exact : S → Z → S
}.

Class SlabLaws A S `{SlabOps A S} := {
  get_with_capacity : ∀ n k, get (with_capacity n) k = None;
  len_with_capacity : ∀ n, len (with_capacity n) = 0;
  available_with_capacity : ∀ n, 0 ≤ n ≤ I64_MAX → available (with_capacity n) = n;
  get_range : ∀ s k a, get s k = Some a → 0 ≤ k < USIZE_MAX;
  len_nonneg : ∀ s, 0 ≤ len s;
  len_keys : ∀ s ks, NoDup ks → (∀ k, k ∈ ks → is_Some (get s k)) →
    Z.of_nat (length ks) ≤ len s;
  available_nonneg : ∀ s, 0 ≤ available s;
  vacant_entry_full : ∀ s, vacant_entry s = None ↔ available s = 0;
  insert_full : ∀ s a, insert s a = None ↔ available s = 0;
  insert_get : ∀ s a k s', insert s a = Some (k, s') →
    get s k = None ∧ (∀ j, get s' j = if decide (j = k) then Some a else get s j);
  insert_len : ∀ s a k s', insert s a = Some (k, s') → len s' = len s + 1;
  remove_value : ∀ s k, (remove s k).1 = get s k;
  remove_get : ∀ s k j, get (remove s k).2 j = if decide (j = k) then None else get s j;
  remove_len : ∀ s k,
    len (remove s k).2 = match get s k with Some _ => len s - 1 | None => len s end;
  set_get : ∀ s k a j, is_Some (get s k) →
    get (set s k a) j = if decide (j = k) then Some a else get s j;
  set_len : ∀ s k a, is_Some (get s k) → len (set s k a) = len s;
  reserve_get : ∀ s n k, get (reserve_exact s n) k = get s k;
  reserve_len : ∀ s n, len (reserve_exact s n) = len s;
  reserve_available : ∀ s n, 0 ≤ n → len s + n ≤ I64_MAX → n ≤ available (reserve_exact s n)
}.

(** A slab as the vector of its entries, vacant ones included: a value goes to
    the first vacant entry. *)
Module VecSlab.

Section ops.
Context {A : Type}.
Implicit Types (s : list (option A)) (k : Z).

Definition cap s : Z := Z.min (Z.of_nat (length s)) I64_MAX.
Definition get s k : option A :=
  if decide (0 ≤ k < cap s) then mjoin (s !! Z.to_nat k) else None.
Definition positions s : list Z := seqZ 0 (cap s).
Definition keys s : list Z := filter (λ k, is_Some (get s k)) (positions s).
Definition len s : Z := Z.of_nat (length (keys s)).
Definition available s : Z := cap s - len s.
Definition vacant_entry s : option Z :=
  snd <$> list_find (λ k, ¬ is_Some (get s k)) (positions s).
Definition set s k (a : A) : list (option A) := <[Z.to_nat k := Some a]> s.
Definition insert s (a : A) : option (Z * list (option A)) :=
  (λ k, (k, set s k a)) <$> vacant_entry s.
Definition remove s k : option A * list (option A) :=
  (get s k, if decide (0 ≤ k < cap s) then <[Z.to_nat k := None]> s else s).
Definition reserve_exact s (n : Z) : list (option A) :=
  s ++ replicate (Z.to_nat (n - available s)) None.
Definition with_capacity (n : Z) : list (option A) := replicate (Z.to_nat n) None.

Lemma positions_elem s k : k ∈ positions s ↔ 0 ≤ k < cap s.
Proof. unfold positions. rewrite elem_of_seqZ. lia. Qed.

Lemma positions_NoDup s : NoDup (positions s).
Proof. apply NoDup_seqZ. Qed.

Lemma length_positions s : Z.of_nat (length (positions s)) = cap s.
Proof. unfold positions, cap, I64_MAX. rewrite length_seqZ. lia. Qed.

Lemma get_Some_range s k : is_Some (get s k) → 0 ≤ k < cap s.
Proof. unfold get. case_decide; [done|]. intros [? [=]]. Qed.

Lemma keys_elem s k : k ∈ keys s ↔ is_Some (get s k).
Proof.
  unfold keys. rewrite list_elem_of_filter, positions_elem.
  split; [tauto|]. auto using get_Some_range.
Qed.

Lemma keys_NoDup s : NoDup (keys s).
Proof. apply list.NoDup_filter, positions_NoDup. Qed.

Lemma len_keys s ks : NoDup ks → (∀ k, k ∈ ks → is_Some (get s k)) →
  Z.of_nat (length ks) ≤ len s.
Proof.
  intros Hnd Hks. unfold len. apply inj_le, submseteq_length, NoDup_submseteq; [done|].
  intros k. rewrite keys_elem. auto.
Qed.

Lemma cap_lookup s k : 0 ≤ k < cap s → (Z.to_nat k < length s)%nat.
Proof. unfold cap, I64_MAX. lia. Qed.

Lemma cap_insert (s : list (option A)) (i : nat) o : cap (<[i := o]> s) = cap s.
Proof. unfold cap. by rewrite length_insert. Qed.

(** Reading after a write to a position of the vector. *)
Lemma get_insert s k j o : 0 ≤ k < cap s →
  get (<[Z.to_nat k := o]> s) j = if decide (j = k) then o else get s j.
Proof.
  intros Hk. unfold get. rewrite cap_insert. destruct (decide (j = k)) as [->|Hne].
  - rewrite decide_True, list_lookup_insert_eq by (done || by apply cap_lookup). by destruct o.
  - case_decide; [|done]. rewrite list_lookup_insert_ne; [done|]. lia.
Qed.

(** Two slabs that differ by one key. *)
Lemma len_more s s' k : get s k = None → is_Some (get s' k) →
  (∀ j, j ≠ k → get s' j = get s j) → len s' = len s + 1.
Proof.
  intros Hk Hk' Heq. unfold len.
  assert (keys s' ≡ₚ k :: keys s) as ->; [|cbn; lia].
  apply NoDup_Permutation; [apply keys_NoDup| |].
  - constructor; [|apply keys_NoDup]. rewrite keys_elem, Hk. by intros [? [=]].
  - intros j. rewrite elem_of_cons, !keys_elem. destruct (decide (j = k)) as [->|Hne].
    + split; auto.
    + rewrite Heq by done. split; [auto|]. by intros [?|?].
Qed.

Lemma len_same s s' : (∀ j, is_Some (get s' j) ↔ is_Some (get s j)) → len s' = len s.
Proof.
  intros Heq. unfold len. apply inj_eq, Permutation_length, NoDup_Permutation;
    [apply keys_NoDup..|]. intros j. by rewrite !keys_elem.
Qed.

Lemma len_le_cap s : len s ≤ cap s.
Proof.
  rewrite <- length_positions. unfold len. apply inj_le, submseteq_length, NoDup_submseteq.
  - apply keys_NoDup.
  - intros k. rewrite keys_elem, positions_elem. apply get_Some_range.
Qed.

Lemma vacant_entry_full s : vacant_entry s = None ↔ available s = 0.
Proof.
  unfold vacant_entry, available. rewrite fmap_None, list_find_None, list.Forall_forall.
  pose proof (len_le_cap s). rewrite <- length_positions in *. split.
  - intros Hall. enough (length (positions s) ≤ length (keys s))%nat by (unfold len in *; lia).
    apply submseteq_length, NoDup_submseteq; [apply positions_NoDup|].
    intros k Hk. rewrite keys_elem. apply dec_stable. by apply Hall.
  - intros Hfull k Hk Hn. apply Hn. rewrite <- keys_elem.
    assert (keys s ≡ₚ positions s) as ->; [|done].
    apply submseteq_length_Permutation; [|unfold len in *; lia].
    apply NoDup_submseteq; [apply keys_NoDup|].
    intros j. rewrite keys_elem, positions_elem. apply get_Some_range.
Qed.

Lemma vacant_entry_vacant s k : vacant_entry s = Some k → 0 ≤ k < cap s ∧ get s k = None.
Proof.
  unfold vacant_entry. rewrite fmap_Some. intros ([i j] & Hf & ->).
  apply list_find_Some in Hf as (Hi & Hn & _). apply list_elem_of_lookup_2 in Hi.
  cbn. rewrite <- positions_elem, eq_None_not_Some. done.
Qed.

Lemma get_replicate n k : get (replicate n None) k = None.
Proof.
  unfold get. case_decide; [|done].
  destruct (replicate n None !! Z.to_nat k) eqn:E; [|done].
  apply lookup_replicate in E as [-> _]. done.
Qed.

Lemma get_grown s n k : get (s ++ replicate n None) k = get s k.
Proof.
  unfold get. destruct (decide (0 ≤ k < cap s)) as [Hk|Hk].
  - pose proof (cap_lookup s k Hk). rewrite decide_True.
    + by rewrite lookup_app_l.
    + unfold cap in *. rewrite length_app. lia.
  - case_decide as Hk'; [|done]. unfold cap in *.
    rewrite lookup_app_r by lia. destruct (_ !! _) eqn:E; [|done].
    apply lookup_replicate in E as [-> _]. done.
Qed.

Lemma len_with_capacity n : len (with_capacity n) = 0.
Proof.
  unfold len. destruct (keys (with_capacity n)) as [|k ks] eqn:E; [done|].
  assert (k ∈ keys (with_capacity n)) as Hk by (rewrite E; left).
  rewrite keys_elem in Hk. unfold with_capacity in Hk. rewrite get_replicate in Hk. by destruct Hk.
Qed.

Lemma insert_Some s a k s' : insert s a = Some (k, s') →
  0 ≤ k < cap s ∧ get s k = None ∧ s' = set s k a.
Proof.
  unfold insert. rewrite fmap_Some. intros (k' & Hv & [= -> ->]).
  by apply vacant_entry_vacant in Hv as [? ?].
Qed.

Lemma insert_len s a k s' : insert s a = Some (k, s') → len s' = len s + 1.
Proof.
  intros (Hr & Hn & ->)%insert_Some. apply len_more with k; [done| |]; unfold set.
  - rewrite get_insert, decide_True by done. eauto.
  - intros. by rewrite get_insert, decide_False.
Qed.

Lemma remove_len s k :
  len (remove s k).2 = match get s k with Some _ => len s - 1 | None => len s end.
Proof.
  unfold remove. cbn. destruct (get s k) as [a|] eqn:Hk.
  2: { apply len_same. intros j. case_decide; [|done].
       rewrite get_insert by done. case_decide; [subst; by rewrite Hk|done]. }
  assert (is_Some (get s k)) as Hs by eauto.
  pose proof (get_Some_range _ _ Hs) as Hr. rewrite decide_True by done.
  enough (len s = len (<[Z.to_nat k := None]> s) + 1) by lia.
  apply len_more with k; [|done|].
  - by rewrite get_insert, decide_True.
  - intros. by rewrite get_insert, decide_False.
Qed.

Lemma reserve_len s n : len (reserve_exact s n) = len s.
Proof. apply len_same. intros. unfold reserve_exact. by rewrite get_grown. Qed.
End ops.
End VecSlab.

#[export] Instance vec_slab_ops A : SlabOps A ((list (option A))) := {
  with_capacity := VecSlab.with_capacity;
  get := VecSlab.get;
  len := VecSlab.len;
  available := VecSlab.available;
  vacant_entry := VecSlab.vacant_entry;
  insert := VecSlab.insert;
  remove := VecSlab.remove;
  set := VecSlab.set;
  reserve_exact := VecSlab.reserve_exact
}.

#[export] Instance vec_slab_laws A : SlabLaws A ((list (option A))).
Proof.
  split; cbn.
  - intros. apply VecSlab.get_replicate.
  - apply VecSlab.len_with_capacity.
  - intros n Hn. unfold VecSlab.available. rewrite VecSlab.len_with_capacity.
    unfold VecSlab.cap, VecSlab.with_capacity. rewrite length_replicate.
    unfold I64_MAX in *. lia.
  - intros s k a Hk. assert (0 ≤ k < VecSlab.cap s) by (apply VecSlab.get_Some_range; eauto).
    unfold VecSlab.cap, I64_MAX, USIZE_MAX in *. lia.
  - intros. unfold VecSlab.len. lia.
  - apply VecSlab.len_keys.
  - intros s. unfold VecSlab.available. pose proof (VecSlab.len_le_cap s). lia.
  - apply VecSlab.vacant_entry_full.
  - intros s a. unfold VecSlab.insert. rewrite fmap_None. apply VecSlab.vacant_entry_full.
  - intros s a k s' (Hr & Hn & ->)%VecSlab.insert_Some. split; [done|].
    intros. by apply VecSlab.get_insert.
  - apply VecSlab.insert_len.
  - done.
  - intros s k j. unfold VecSlab.remove. cbn. case_decide as Hr.
    + by apply VecSlab.get_insert.
    + case_decide as Hj; [subst|done]. unfold VecSlab.get. by rewrite decide_False.
  - apply VecSlab.remove_len.
  - intros s k a j Hk. apply VecSlab.get_insert, VecSlab.get_Some_range, Hk.
  - intros s k a Hk. apply VecSlab.len_same. intros j. unfold VecSlab.set.
    rewrite VecSlab.get_insert by apply VecSlab.get_Some_range, Hk.
    case_decide; [subst|done]. split; eauto.
  - intros. apply VecSlab.get_grown.
  - apply VecSlab.reserve_len.
  - intros s n Hn Hmax. unfold VecSlab.available at 1. rewrite VecSlab.reserve_len.
    unfold VecSlab.reserve_exact, VecSlab.available, VecSlab.cap in *.
    rewrite length_app, length_replicate. lia.
Qed.
