(* ===== verification/Wheel.v ===== *)
(** * The timer wheel (src/wheel.rs)

    The state is [Wheel.t]: the vector of slots, the slab of entries, the start
    instant, the cursor ([cur_wheel_tick], [cur_slab_idx]) and the configuration.
    Each slot holds a doubly linked list of timeouts threaded through the slab by
    their [prev] and [next] keys.  The methods are state transformers in
    [outcome]; none of them returns a [Result], so the error type is empty.

    A [usize] that may be [EMPTY] is a [Z]; positions in the vector of slots are
    [nat].  The target has 64-bit words, so that [as usize] is the identity. *)
From S2P Require Import Prelude Clock TimerConfig Slab.
Local Open Scope Z_scope.

Module Token.
Definition t : Type := Z.
(** [From<usize> for Token] and back *)
Definition from_usize (src : Z) : t := src.
Definition into_usize (src : t) : Z := src.
End Token.

Definition Task : Type := Z.

Definition EMPTY : Token.t := USIZE_MAX.

Module Slot.
Record t := mk { head : Token.t; next_timeout : option Z }.
End Slot.

Module Timeout.
Record t := mk {
  task : Task;
  when : Z;
  wheel_idx : nat;
  prev : Token.t;
  next : Token.t
}.
End Timeout.

Module Entry.
Inductive t := Reserved | Timeout (v : Timeout.t).

(** [timeout] and [timeout_mut]: the timeout of an entry, or a panic *)
Definition timeout (e : t) : outcome Empty_set Timeout.t :=
  match e with Timeout v => Ok v | Reserved => Panic end.
End Entry.

(** Milliseconds of a duration, rounded up and saturating at [u64::MAX]. *)
Definition millis (duration : Z) : Z :=
  let NANOS_PER_MILLI := 1000000 in
  let MILLIS_PER_SEC := 1000 in
  let ms := (Duration.subsec_nanos duration + NANOS_PER_MILLI - 1) / NANOS_PER_MILLI in
  saturated (saturated (Duration.as_secs duration * MILLIS_PER_SEC) + ms).

Module Wheel.
Record t (S : Type) := mk {
  wheel : list Slot.t;
  slab : S;
  start : Z;
  cur_wheel_tick : Z;
  cur_slab_idx : Token.t;
  max_capacity : Z;
  tick_ms : Z;
  mask : Z
}.
Arguments mk {S} _ _ _ _ _ _ _ _.
Arguments wheel {S} _.
Arguments slab {S} _.
Arguments start {S} _.
Arguments cur_wheel_tick {S} _.
Arguments cur_slab_idx {S} _.
Arguments max_capacity {S} _.
Arguments tick_ms {S} _.
Arguments mask {S} _.

Section ops.
Context {S : Type} `{SlabOps Entry.t S}.
Implicit Types (w : t S).

(** Assignments to one field. *)
Definition set_wheel w x : t S :=
  mk x (slab w) (start w) (cur_wheel_tick w) (cur_slab_idx w) (max_capacity w) (tick_ms w) (mask w).
Definition set_slab w x : t S :=
  mk (wheel w) x (start w) (cur_wheel_tick w) (cur_slab_idx w) (max_capacity w) (tick_ms w) (mask w).
Definition set_cur_wheel_tick w x : t S :=
  mk (wheel w) (slab w) (start w) x (cur_slab_idx w) (max_capacity w) (tick_ms w) (mask w).
Definition set_cur_slab_idx w x : t S :=
  mk (wheel w) (slab w) (start w) (cur_wheel_tick w) x (max_capacity w) (tick_ms w) (mask w).

(** [Instant::now()] is the argument [now]. *)
Definition new (builder : Builder.t) (now : Z) : outcome Empty_set (t S) :=
  let num_slots := Builder.get_num_slots builder in
  mask ← sub64 num_slots 1;
  if decide (Z.land num_slots mask = 0) then
    Ok (mk (replicate (Z.to_nat num_slots) (Slot.mk EMPTY None))
           (with_capacity (Builder.get_initial_capacity builder))
           now 0 EMPTY (Builder.get_max_capacity builder)
           (millis (Builder.get_tick_duration builder)) mask)
  else Panic.

Definition available w : Z := Slab.available (slab w).

Definition reserve w : outcome Empty_set (option Token.t * t S) :=
  let insert_reserved w :=
    match insert (slab w) Entry.Reserved with
    | Some (k, s) => Ok (Some k, set_slab w s)
    | None => Ok (None, w)
    end in
  match vacant_entry (slab w) with
  | Some _ => insert_reserved w
  | None =>
    let amt := len (slab w) in
    room ← sub64 (max_capacity w) amt;
    let amt := Z.min amt room in
    if decide (amt = 0) then Ok (None, w)
    else insert_reserved (set_slab w (reserve_exact (slab w) amt))
  end.

Definition release w (token : Token.t) : t S := set_slab w (remove (slab w) token).2.

Definition time_to_ticks w (time : Z) : outcome Empty_set Z :=
  dur ← Instant.sub time (start w);
  let ms := Duration.subsec_nanos dur / 1000000 in
  ms ← expect (m ← checked (Duration.as_secs dur * 1000); checked (m + ms));
  div64 ms (tick_ms w).

Definition ticks_to_wheel_idx w (ticks : Z) : nat := Z.to_nat (Z.land ticks (mask w)).

(** [self.slab[key]], which panics when nothing is stored under the key *)
Definition at_key (s : S) (k : Token.t) : outcome Empty_set Entry.t := expect (get s k).

(** [self.slab[key].timeout_mut()] followed by the assignments of [f] *)
Definition update_timeout (s : S) (k : Token.t) (f : Timeout.t → Timeout.t)
    : outcome Empty_set S :=
  e ← at_key s k;
  v ← Entry.timeout e;
  Ok (set s k (Entry.Timeout (f v))).

Definition set_prev (p : Token.t) (v : Timeout.t) : Timeout.t :=
  Timeout.mk (Timeout.task v) (Timeout.when v) (Timeout.wheel_idx v) p (Timeout.next v).
Definition set_next (n : Token.t) (v : Timeout.t) : Timeout.t :=
  Timeout.mk (Timeout.task v) (Timeout.when v) (Timeout.wheel_idx v) (Timeout.prev v) n.
Definition set_task (x : Task) (v : Timeout.t) : Timeout.t :=
  Timeout.mk x (Timeout.when v) (Timeout.wheel_idx v) (Timeout.prev v) (Timeout.next v).

Definition set_timeout w (token : Token.t) (at_ : Z) (task : Task)
    : outcome Empty_set (t S) :=
  tick ← time_to_ticks w at_;
  tick ← (if decide (tick ≤ cur_wheel_tick w) then add64 (cur_wheel_tick w) 1 else Ok tick);
  let wheel_idx := ticks_to_wheel_idx w tick in
  delay ← Duration.mul (Duration.from_millis (tick_ms w)) (as_u32 tick);
  at_ ← Instant.add (start w) delay;
  slot ← index (wheel w) wheel_idx;
  let prev_head := Slot.head slot in
  let slot := Slot.mk token (Slot.next_timeout slot) in
  _ ← at_key (slab w) token;
  let slab1 := set (slab w) token
    (Entry.Timeout (Timeout.mk task at_ wheel_idx EMPTY prev_head)) in
  slab2 ← (if decide (prev_head ≠ EMPTY)
           then update_timeout slab1 prev_head (set_prev (Slot.head slot))
           else Ok slab1);
  let slot :=
    if decide (at_ ≤ default at_ (Slot.next_timeout slot))
    then Slot.mk (Slot.head slot) (Some at_) else slot in
  slots ← store (wheel w) wheel_idx slot;
  Ok (set_slab (set_wheel w slots) slab2).

Definition remove_slab w (slab_idx : Token.t) : outcome Empty_set (option Entry.t * t S) :=
  let '(removed, s) := remove (slab w) slab_idx in
  let w := set_slab w s in
  match removed with
  | None => Ok (None, w)
  | Some Entry.Reserved => Ok (Some Entry.Reserved, w)
  | Some (Entry.Timeout entry) =>
    w ← (if decide (Timeout.prev entry = EMPTY) then
           slot ← index (wheel w) (Timeout.wheel_idx entry);
           slots ← store (wheel w) (Timeout.wheel_idx entry)
                     (Slot.mk (Timeout.next entry) (Slot.next_timeout slot));
           Ok (set_wheel w slots)
         else
           s ← update_timeout (slab w) (Timeout.prev entry) (set_next (Timeout.next entry));
           Ok (set_slab w s));
    w ← (if decide (Timeout.next entry ≠ EMPTY) then
           s ← update_timeout (slab w) (Timeout.next entry) (set_prev (Timeout.prev entry));
           Ok (set_slab w s)
         else Ok w);
    let w := if decide (cur_slab_idx w = slab_idx)
             then set_cur_slab_idx w (Timeout.next entry) else w in
    Ok (Some (Entry.Timeout entry), w)
  end.

Definition set_next_timeout w (idx : nat) (o : option Z) : outcome Empty_set (t S) :=
  slot ← index (wheel w) idx;
  slots ← store (wheel w) idx (Slot.mk (Slot.head slot) o);
  Ok (set_wheel w slots).

(** The two ways an iteration of the loop of [poll] ends: it returns, or it
    goes on with the next iteration. *)
Inductive step := Return (r : option Task) (w : t S) | Continue (w : t S).

(** The body of the [while] loop, entered when [cur_wheel_tick <= wheel_tick] *)
Definition poll_body w (at_ : Z) : outcome Empty_set step :=
  let head := cur_slab_idx w in
  let idx := ticks_to_wheel_idx w (cur_wheel_tick w) in
  if decide (head = EMPTY) then
    slot ← index (wheel w) idx;
    w ← (if decide (head = Slot.head slot) then set_next_timeout w idx None else Ok w);
    tick ← add64 (cur_wheel_tick w) 1;
    let w := set_cur_wheel_tick w tick in
    slot ← index (wheel w) (ticks_to_wheel_idx w (cur_wheel_tick w));
    Ok (Continue (set_cur_slab_idx w (Slot.head slot)))
  else
    slot ← index (wheel w) idx;
    w ← (if decide (head = Slot.head slot) then set_next_timeout w idx None else Ok w);
    e ← at_key (slab w) head;
    timeout ← Entry.timeout e;
    let w := set_cur_slab_idx w (Timeout.next timeout) in
    let head_timeout := Timeout.when timeout in
    ht ← time_to_ticks w head_timeout;
    now ← time_to_ticks w at_;
    if decide (ht ≤ now) then
      '(removed, w) ← remove_slab w head;
      Ok (Return (match removed with
                  | Some (Entry.Timeout v) => Some (Timeout.task v)
                  | _ => None
                  end) w)
    else
      slot ← index (wheel w) idx;
      let next := default head_timeout (Slot.next_timeout slot) in
      w ← (if decide (head_timeout ≤ next)
           then set_next_timeout w idx (Some head_timeout) else Ok w);
      Ok (Continue w).

Fixpoint poll_loop (fuel : nat) w (at_ wheel_tick : Z) : outcome Empty_set (option Task * t S) :=
  if decide (cur_wheel_tick w ≤ wheel_tick) then
    match fuel with
    | O => OutOfFuel
    | Datatypes.S fuel =>
      r ← poll_body w at_;
      match r with
      | Return task w => Ok (task, w)
      | Continue w => poll_loop fuel w at_ wheel_tick
      end
    end
  else Ok (None, w).

(** Fuel for the loop: for each tick up to [wheel_tick], at most one iteration
    per entry of the slab and one to move on, and one per entry of the slot the
    cursor is in. *)
Definition poll_fuel w (wheel_tick : Z) : nat :=
  Z.to_nat ((wheel_tick + 1 - cur_wheel_tick w) * (len (slab w) + 1) + len (slab w)).

Definition poll w (at_ : Z) : outcome Empty_set (option Task * t S) :=
  wheel_tick ← time_to_ticks w at_;
  poll_loop (poll_fuel w wheel_tick) w at_ wheel_tick.

Definition next_timeout w : option Z :=
  foldl (λ min a,
    match min with
    | Some b => if decide (b < a) then min else Some a
    | None => Some a
    end) None (omap Slot.next_timeout (wheel w)).

Definition move_timeout w (token : Token.t) (when : Z) (task : Task) : t S :=
  match get (slab w) token with
  | Some (Entry.Timeout e) =>
    if decide (Timeout.when e = when)
    then set_slab w (set (slab w) token (Entry.Timeout (set_task task e))) else w
  | _ => w
  end.

Definition cancel w (token : Token.t) : outcome Empty_set (t S) :=
  '(_, w) ← remove_slab w token;
  Ok w.
End ops.
Arguments step : clear implicits.
End Wheel.

(** Whole milliseconds as nanoseconds. *)
Definition ms (n : Z) : Z := Duration.from_millis n.
