(* ===== verification/WheelInv.v ===== *)
(** * The invariant of the timer wheel

    The slab entries of a slot form a doubly linked list ([linked]); [inv] says
    that the lists of the slots partition the pending timeouts, that each of them
    lies in the slot of its tick and is not overdue ([timed]), and that the
    [next_timeout] of a slot bounds the timeouts that the cursor has passed
    ([covered]).  Every operation of [Wheel] is specified and preserves it. *)
From S2P Require Import Prelude Clock TimerConfig Slab Wheel.
Local Open Scope Z_scope.

(** ** Doubly linked lists in a slab *)

(** The first and the last key of a list, or the given neighbour. *)
Definition first (l : list Z) (n : Z) : Z := match l with [] => n | t :: _ => t end.
Definition final (p : Z) (l : list Z) : Z := default p (last l).

(** The keys [l] form a segment of the list of slot [i], between [p] and [n]. *)
Fixpoint linked (g : Z → option Entry.t) (i : nat) (p : Z) (l : list Z) (n : Z) : Prop :=
  match l with
  | [] => True
  | t :: l' =>
    (∃ v, g t = Some (Entry.Timeout v) ∧ Timeout.wheel_idx v = i
       ∧ Timeout.prev v = p ∧ Timeout.next v = first l' n)
    ∧ linked g i t l' n
  end.

(** Removing a key. *)
Definition without (t : Z) (l : list Z) : list Z := filter (λ x, x ≠ t) l.

Lemma without_notin t l : t ∉ l → without t l = l.
Proof.
  unfold without. induction l as [|a l IH]; [done|].
  rewrite not_elem_of_cons, filter_cons. intros [Hne Hin]. rewrite decide_True by done.
  by rewrite IH.
Qed.

Lemma without_middle t l1 l2 : NoDup (l1 ++ t :: l2) → without t (l1 ++ t :: l2) = l1 ++ l2.
Proof.
  rewrite NoDup_app, NoDup_cons. intros (_ & H1 & Ht & _).
  unfold without. rewrite filter_app, filter_cons, decide_False by tauto.
  fold (without t l1) (without t l2). rewrite !without_notin; [done..|].
  intros Hin. apply (H1 t Hin). left.
Qed.

Lemma without_elem t x l : x ∈ without t l ↔ x ≠ t ∧ x ∈ l.
Proof. unfold without. by rewrite list_elem_of_filter. Qed.

Lemma without_NoDup t l : NoDup l → NoDup (without t l).
Proof. apply list.NoDup_filter. Qed.

Lemma first_app l1 l2 n : first (l1 ++ l2) n = first l1 (first l2 n).
Proof. by destruct l1. Qed.

Lemma final_cons p a l : final p (a :: l) = final a l.
Proof. unfold final. rewrite last_cons. by destruct (last l). Qed.

Lemma final_snoc p l a : final p (l ++ [a]) = a.
Proof. unfold final. by rewrite last_snoc. Qed.

Lemma linked_app g i p l1 l2 n :
  linked g i p (l1 ++ l2) n ↔ linked g i p l1 (first l2 n) ∧ linked g i (final p l1) l2 n.
Proof.
  revert p. induction l1 as [|a l1 IH]; intros p; cbn [app linked].
  { cbn. tauto. }
  rewrite IH, final_cons, first_app. tauto.
Qed.

Lemma linked_ext g g' i p l n :
  (∀ x, x ∈ l → g' x = g x) → linked g i p l n → linked g' i p l n.
Proof.
  revert p. induction l as [|a l IH]; intros p Hg; [done|]. cbn [linked].
  rewrite Hg by left. intros [? ?]. split; [done|]. apply IH; [|done].
  intros. apply Hg. by right.
Qed.

Lemma linked_elem g i p l n x : linked g i p l n → x ∈ l →
  ∃ v, g x = Some (Entry.Timeout v) ∧ Timeout.wheel_idx v = i.
Proof.
  revert p. induction l as [|a l IH]; intros p; [by rewrite elem_of_nil|].
  cbn [linked]. intros [(v & Hv & Hi & _) Hl] [->|Hx]%elem_of_cons; [|by eapply IH].
  by exists v.
Qed.

(** Changing the neighbour at the left end. *)
Lemma linked_set_prev g g' i p p' b l n v : linked g i p (b :: l) n → b ∉ l →
  g b = Some (Entry.Timeout v) → g' b = Some (Entry.Timeout (Wheel.set_prev p' v)) →
  (∀ x, x ∈ l → g' x = g x) → linked g' i p' (b :: l) n.
Proof.
  intros [(v' & Hv & Hi & _ & Hn) Hl] Hb Hgb Hgb' Hg. simplify_eq. split.
  - by eexists; split_and!.
  - by eapply linked_ext.
Qed.

(** Changing the neighbour at the right end. *)
Lemma linked_set_next g g' i p l a n n' v : linked g i p (l ++ [a]) n → a ∉ l →
  g a = Some (Entry.Timeout v) → g' a = Some (Entry.Timeout (Wheel.set_next n' v)) →
  (∀ x, x ∈ l → g' x = g x) → linked g' i p (l ++ [a]) n'.
Proof.
  rewrite !linked_app. intros [Hl [(v' & Hv & Hi & Hp & _) _]] Ha Hga Hga' Hg.
  simplify_eq. split; [by eapply linked_ext|]. split; [|done].
  by eexists; split_and!.
Qed.

(** Taking a key out: its neighbours, when it has them, point to each other. *)
Lemma linked_unlink g g' i l1 t l2 v :
  linked g i EMPTY (l1 ++ t :: l2) EMPTY → NoDup (l1 ++ t :: l2) → g t = Some (Entry.Timeout v) →
  (∀ a u, last l1 = Some a → g a = Some (Entry.Timeout u) →
     g' a = Some (Entry.Timeout (Wheel.set_next (first l2 EMPTY) u))) →
  (∀ b u, head l2 = Some b → g b = Some (Entry.Timeout u) →
     g' b = Some (Entry.Timeout (Wheel.set_prev (final EMPTY l1) u))) →
  (∀ x, x ≠ t → last l1 ≠ Some x → head l2 ≠ Some x → g' x = g x) →
  linked g' i EMPTY (l1 ++ l2) EMPTY.
Proof.
  intros Hl Hnd Ht Hprev Hnext Hother.
  apply NoDup_app in Hnd as (Hnd1 & Hdis & [Ht2 Hnd2]%NoDup_cons).
  apply linked_app in Hl as [Hl1 [_ Hl2]]. cbn [first] in Hl1.
  assert (∀ x, x ∈ l1 → x ≠ t ∧ x ∉ l2) as Hx1.
  { intros x Hx. pose proof (Hdis x Hx) as Hn. rewrite not_elem_of_cons in Hn. done. }
  apply linked_app. split.
  - destruct l1 as [|a l1' _] using rev_ind; [done|].
    apply NoDup_app in Hnd1 as (_ & Hd & _).
    assert (a ∉ l1') as Ha by (intros Hin; apply (Hd a Hin); left).
    destruct (linked_elem _ _ _ _ _ a Hl1) as (u & Hu & _); [set_solver|].
    eapply linked_set_next; [done..| |].
    + apply Hprev; [apply last_snoc|done].
    + intros x Hx. apply Hother; [apply Hx1; set_solver| |].
      * rewrite last_snoc. by intros [= ->].
      * intros Hh%head_Some_elem_of. by apply (Hx1 x); [set_solver|].
  - destruct l2 as [|b l2]; [done|]. apply NoDup_cons in Hnd2 as [Hb _].
    destruct (linked_elem _ _ _ _ _ b Hl2) as (u & Hu & _); [left|].
    eapply linked_set_prev; [done..| |].
    + by apply Hnext.
    + intros x Hx. apply Hother; [set_solver| |].
      * intros Hl%last_Some_elem_of. apply (Hx1 x Hl). by right.
      * cbn. by intros [= ->].
Qed.

Lemma linked_neighbours g i l1 t l2 v :
  linked g i EMPTY (l1 ++ t :: l2) EMPTY → g t = Some (Entry.Timeout v) →
  Timeout.prev v = final EMPTY l1 ∧ Timeout.next v = first l2 EMPTY ∧ Timeout.wheel_idx v = i.
Proof.
  rewrite linked_app. intros [_ [(v' & Hv & ? & ? & ?) _]] Ht. by simplify_eq.
Qed.

(** ** Ticks and instants *)
Section ticks.
Context {S : Type} `{SlabOps Entry.t S}.
Implicit Types (w : Wheel.t S).

(** The tick of an instant and the instant of a tick. *)
Definition tick_of w (at_ : Z) : Z := (at_ - Wheel.start w) / 1000000 / Wheel.tick_ms w.
Definition instant_of w (k : Z) : Z := Wheel.start w + Wheel.tick_ms w * 1000000 * k.

(** The clock is not before the wheel's start, nor 2{^63} milliseconds after. *)
Definition sane w (at_ : Z) : Prop :=
  Wheel.start w ≤ at_ < Wheel.start w + 2 ^ 63 * 1000000.

(** What [new] establishes and no operation changes: a power of two of slots,
    a tick of at most 2{^31} ms, a clock that has run less than 2{^62} seconds. *)
Record config w : Prop := {
  config_mask : ∃ p, 0 ≤ p < 63 ∧ Wheel.mask w = 2 ^ p - 1
    ∧ length (Wheel.wheel w) = Z.to_nat (2 ^ p);
  config_tick : 0 < Wheel.tick_ms w < 2 ^ 31;
  config_start : 0 ≤ Wheel.start w < 2 ^ 62 * Duration.NANOS_PER_SEC
}.

Lemma tick_of_bounds w at_ : config w → sane w at_ → 0 ≤ tick_of w at_ < 2 ^ 63.
Proof.
  intros [_ Ht _] [H1 H2]. unfold tick_of.
  assert (0 ≤ (at_ - Wheel.start w) / 1000000 < 2 ^ 63) as [? ?].
  { split; [apply Z.div_pos; lia|]. apply Z.div_lt_upper_bound; lia. }
  split; [apply Z.div_pos; lia|]. apply Z.div_lt_upper_bound; [lia|]. nia.
Qed.

Lemma time_to_ticks_in w at_ : config w → sane w at_ →
  Wheel.time_to_ticks w at_ = Ok (tick_of w at_).
Proof.
  intros [_ Ht _] [H1 H2]. unfold Wheel.time_to_ticks, Instant.sub, tick_of.
  rewrite decide_True by done. mstep. set (d := at_ - Wheel.start w) in *.
  pose proof (whole_millis d) as Hw.
  assert (d / 1000000 < 2 ^ 63) by (apply Z.div_lt_upper_bound; lia).
  assert (0 ≤ Duration.subsec_nanos d / 1000000).
  { apply Z.div_pos; [|lia]. apply Z.mod_pos_bound. done. }
  rewrite (checked_in (Duration.as_secs d * 1000)) by (unfold U64_MAX; lia). cbn [mbind option_bind].
  rewrite Hw, checked_in by (unfold U64_MAX; lia). mstep.
  unfold div64. by rewrite decide_False by lia.
Qed.

Lemma tick_of_instant w k : config w → tick_of w (instant_of w k) = k.
Proof.
  intros [_ Ht _]. unfold tick_of, instant_of.
  replace (_ + _ - _) with (Wheel.tick_ms w * k * 1000000) by lia.
  rewrite Z.div_mul by lia. rewrite Z.mul_comm. apply Z.div_mul. lia.
Qed.

Lemma instant_of_mono w k k' : config w → instant_of w k ≤ instant_of w k' ↔ k ≤ k'.
Proof. intros [_ Ht _]. unfold instant_of. nia. Qed.

Lemma instant_of_sane w k : config w → 0 ≤ k < 2 ^ 32 → sane w (instant_of w k).
Proof. intros [_ Ht _] Hk. unfold sane, instant_of. nia. Qed.

Lemma slot_of_lt w k : config w → 0 ≤ k →
  (Wheel.ticks_to_wheel_idx w k < length (Wheel.wheel w))%nat.
Proof.
  intros [(p & Hp & Hm & Hl) _ _] Hk. unfold Wheel.ticks_to_wheel_idx.
  rewrite Hm, Hl, land_mask by lia. pose proof (Z.mod_pos_bound k (2 ^ p)). lia.
Qed.

(** The [when] of [set_timeout]: no overflow below 2{^32} ticks. *)
Lemma scheduled_instant w k : config w → 0 ≤ k < 2 ^ 32 →
  (delay ← Duration.mul (Duration.from_millis (Wheel.tick_ms w)) (as_u32 k);
   Instant.add (Wheel.start w) delay) = Ok (E:=Empty_set) (instant_of w k).
Proof.
  intros [_ Ht Hs] Hk. unfold Duration.mul, Instant.add, Duration.as_secs, Duration.from_millis,
    Duration.NANOS_PER_MILLI, Duration.NANOS_PER_SEC, as_u32, instant_of in *.
  rewrite Z.mod_small by lia.
  assert (Wheel.tick_ms w * 1000000 * k < 2 ^ 63 * 1000000) by nia.
  rewrite decide_True by (apply Z.div_le_upper_bound; unfold U64_MAX; lia). mstep.
  rewrite decide_True; [done|]. apply Z.div_le_upper_bound; unfold I64_MAX; lia.
Qed.
End ticks.

(** ** The invariant *)

(** What the list operations never change of an entry: [None] for a reserved
    one, the task, the instant and the slot of a timeout. *)
Definition payload_of (e : Entry.t) : option (Task * Z * nat) :=
  match e with
  | Entry.Reserved => None
  | Entry.Timeout v => Some (Timeout.task v, Timeout.when v, Timeout.wheel_idx v)
  end.

Section inv.
Context {S : Type} `{SlabOps Entry.t S, !SlabLaws Entry.t S}.
Implicit Types (w : Wheel.t S) (ls : nat → list Z) (rem : list Z).

Definition payload w (t : Z) : option (option (Task * Z * nat)) :=
  payload_of <$> get (Wheel.slab w) t.

(** The entry of [t] is a timeout. *)
Definition timer w (t : Z) (task : Task) (when : Z) (i : nat) : Prop :=
  payload w t = Some (Some (task, when, i)).

(** The settings [w] and [w'] share. *)
Record same_config w w' : Prop := {
  same_start : Wheel.start w' = Wheel.start w;
  same_tick_ms : Wheel.tick_ms w' = Wheel.tick_ms w;
  same_mask : Wheel.mask w' = Wheel.mask w;
  same_max : Wheel.max_capacity w' = Wheel.max_capacity w;
  same_slots : length (Wheel.wheel w') = length (Wheel.wheel w)
}.

(** [ls i] is the list of slot [i], [rem] the part of the current slot's list
    that the cursor has not visited. *)
Record core w ls rem : Prop := {
  core_config : config w;
  core_cur : 0 ≤ Wheel.cur_wheel_tick w;
  core_slots : ∀ i s, Wheel.wheel w !! i = Some s →
    Slot.head s = first (ls i) EMPTY
    ∧ linked (get (Wheel.slab w)) i EMPTY (ls i) EMPTY ∧ NoDup (ls i);
  core_timed : ∀ t task when i, timer w t task when i →
    ∃ k, when = instant_of w k ∧ 0 ≤ k < 2 ^ 32 ∧ i = Wheel.ticks_to_wheel_idx w k
      ∧ t ∈ ls i ∧ Wheel.cur_wheel_tick w ≤ k ∧ (k = Wheel.cur_wheel_tick w → t ∈ rem);
  core_suffix : ∃ pre, ls (Wheel.ticks_to_wheel_idx w (Wheel.cur_wheel_tick w)) = pre ++ rem;
  core_covered : ∀ t task when i, timer w t task when i → t ∉ rem →
    ∃ s m, Wheel.wheel w !! i = Some s ∧ Slot.next_timeout s = Some m ∧ m ≤ when
}.

Record inv w ls rem : Prop := {
  inv_core : core w ls rem;
  inv_cursor : Wheel.cur_slab_idx w = first rem EMPTY
}.

#[export] Instance same_config_refl : Reflexive same_config.
Proof. by split. Qed.

#[export] Instance same_config_trans : Transitive same_config.
Proof. intros ??? [????? ] [?????]. split; congruence. Qed.

Lemma same_config_config w w' : same_config w w' → config w → config w'.
Proof.
  intros [Hs Ht Hm _ Hl] [(p & Hp) Hc Hst]. split; rewrite ?Hs, ?Ht, ?Hm, ?Hl; eauto.
Qed.

Lemma same_config_tick w w' at_ : same_config w w' → tick_of w' at_ = tick_of w at_.
Proof. intros [Hs Ht _ _ _]. unfold tick_of. by rewrite Hs, Ht. Qed.

Lemma same_config_instant w w' k : same_config w w' → instant_of w' k = instant_of w k.
Proof. intros [Hs Ht _ _ _]. unfold instant_of. by rewrite Hs, Ht. Qed.

Lemma same_config_slot w w' k : same_config w w' →
  Wheel.ticks_to_wheel_idx w' k = Wheel.ticks_to_wheel_idx w k.
Proof. intros [_ _ Hm _ _]. unfold Wheel.ticks_to_wheel_idx. by rewrite Hm. Qed.

Lemma same_config_sane w w' at_ : same_config w w' → sane w at_ → sane w' at_.
Proof. intros [Hs _ _ _ _]. unfold sane. by rewrite Hs. Qed.

Lemma timer_get w t task when i : timer w t task when i ↔
  ∃ v, get (Wheel.slab w) t = Some (Entry.Timeout v)
    ∧ Timeout.task v = task ∧ Timeout.when v = when ∧ Timeout.wheel_idx v = i.
Proof.
  unfold timer, payload. split.
  - destruct (get _ t) as [[|v]|]; cbn; intros [=]. by exists v.
  - intros (v & -> & <- & <- & <-). done.
Qed.

Lemma get_not_EMPTY (s : S) t e : get s t = Some e → t ≠ EMPTY.
Proof. intros Ht%get_range. unfold EMPTY. lia. Qed.

Lemma EMPTY_get (s : S) : get s EMPTY = None.
Proof. destruct (get s EMPTY) eqn:E; [|done]. by apply get_not_EMPTY in E. Qed.

(** The members of the list of a slot are its timers. *)
Lemma core_member w ls rem i t : core w ls rem → (i < length (Wheel.wheel w))%nat →
  t ∈ ls i → ∃ v, get (Wheel.slab w) t = Some (Entry.Timeout v) ∧ Timeout.wheel_idx v = i.
Proof.
  intros Hc Hi Ht. destruct (lookup_lt_is_Some_2 _ _ Hi) as [s Hs].
  destruct (core_slots _ _ _ Hc i s Hs) as (_ & Hl & _). by eapply linked_elem.
Qed.

Lemma core_slot_lt w ls rem t task when i : core w ls rem → timer w t task when i →
  (i < length (Wheel.wheel w))%nat.
Proof.
  intros Hc Ht. destruct (core_timed _ _ _ Hc _ _ _ _ Ht) as (k & _ & Hk & -> & _).
  apply slot_of_lt; [apply Hc|lia].
Qed.

Lemma core_current_lt w ls rem : core w ls rem →
  (Wheel.ticks_to_wheel_idx w (Wheel.cur_wheel_tick w) < length (Wheel.wheel w))%nat.
Proof. intros Hc. apply slot_of_lt; apply Hc. Qed.

Lemma core_current w ls rem : core w ls rem →
  ∃ s, Wheel.wheel w !! Wheel.ticks_to_wheel_idx w (Wheel.cur_wheel_tick w) = Some s.
Proof. intros Hc. apply lookup_lt_is_Some_2. by eapply core_current_lt. Qed.

Lemma core_rem w ls rem t : core w ls rem → t ∈ rem → ∃ v,
  get (Wheel.slab w) t = Some (Entry.Timeout v)
  ∧ Timeout.wheel_idx v = Wheel.ticks_to_wheel_idx w (Wheel.cur_wheel_tick w).
Proof.
  intros Hc Ht. destruct (core_suffix _ _ _ Hc) as [pre Hpre].
  eapply core_member; [done|by eapply core_current_lt|]. rewrite Hpre. set_solver.
Qed.

Lemma core_rem_NoDup w ls rem : core w ls rem → NoDup rem.
Proof.
  intros Hc. destruct (core_suffix _ _ _ Hc) as [pre Hpre].
  destruct (core_current _ _ _ Hc) as [s Hs].
  destruct (core_slots _ _ _ Hc _ _ Hs) as (_ & _ & Hnd). rewrite Hpre in Hnd.
  by apply NoDup_app in Hnd as (_ & _ & ?).
Qed.

Lemma core_rem_len w ls rem : core w ls rem →
  Z.of_nat (length rem) ≤ len (Wheel.slab w).
Proof.
  intros Hc. apply len_keys; [by eapply core_rem_NoDup|].
  intros t Ht. destruct (core_rem _ _ _ _ Hc Ht) as (v & -> & _). eauto.
Qed.

(** ** Steps that keep the invariant *)

(** The entries that are not timeouts may change. *)
Lemma core_set_slab w s ls rem :
  (∀ t v, get s t = Some (Entry.Timeout v) ↔ get (Wheel.slab w) t = Some (Entry.Timeout v)) →
  core w ls rem → core (Wheel.set_slab w s) ls rem.
Proof.
  intros Heq Hc.
  assert (∀ t task when i, timer (Wheel.set_slab w s) t task when i ↔ timer w t task when i)
    as Htm by (intros; rewrite !timer_get; cbn; by setoid_rewrite Heq).
  pose proof Hc as [Hcf Hcur Hsl Htd Hsf Hcv]. split; try done.
  - by apply (same_config_config w); [split|].
  - intros i sl Hs. destruct (Hsl i sl Hs) as (Hh & Hl & Hnd). split_and!; [done| |done].
    eapply linked_ext; [|done]. intros x Hx.
    destruct (linked_elem _ _ _ _ _ _ Hl Hx) as (v & Hv & _).
    cbn. rewrite Hv. by apply Heq.
  - intros t task when i Ht. rewrite Htm in Ht. by apply (Htd _ _ _ _ Ht).
  - intros t task when i Ht. rewrite Htm in Ht. by apply (Hcv _ _ _ _ Ht).
Qed.

Lemma same_config_store w i s : same_config w (Wheel.set_wheel w (<[i := s]> (Wheel.wheel w))).
Proof. split; cbn; rewrite ?length_insert; done. Qed.

(** The [next_timeout] of a slot may change as long as it covers the slot. *)
Lemma core_set_next w ls rem i sl o : core w ls rem → Wheel.wheel w !! i = Some sl →
  (∀ t task when, timer w t task when i → t ∉ rem → ∃ m, o = Some m ∧ m ≤ when) →
  core (Wheel.set_wheel w (<[i := Slot.mk (Slot.head sl) o]> (Wheel.wheel w))) ls rem.
Proof.
  intros [Hcf Hcur Hsl Htd Hsf Hcv] Hi Ho.
  pose proof (lookup_lt_Some _ _ _ Hi). split; try done.
  - eapply same_config_config; [apply same_config_store|done].
  - intros j s. cbn. rewrite list_lookup_insert_Some. intros [(<- & <- & _)|[_ Hj]].
    + exact (Hsl _ _ Hi).
    + by apply Hsl.
  - intros t task when j Ht Hrem. cbn. destruct (decide (j = i)) as [->|Hne].
    + destruct (Ho t task when Ht Hrem) as (m & -> & Hm).
      rewrite list_lookup_insert_eq by done. by eexists _, m.
    + rewrite list_lookup_insert_ne by done. by eapply Hcv.
Qed.

(** The cursor passes a timer that is not due. *)
Lemma core_pass w ls t rem task when i : core w ls (t :: rem) → timer w t task when i →
  when ≠ instant_of w (Wheel.cur_wheel_tick w) →
  (∃ s m, Wheel.wheel w !! i = Some s ∧ Slot.next_timeout s = Some m ∧ m ≤ when) →
  core w ls rem.
Proof.
  intros [Hcf Hcur Hsl Htd Hsf Hcv] Ht Hw Hn. split; try done.
  - intros t' task' when' j Ht'. destruct (Htd _ _ _ _ Ht') as (k & -> & Hk & Hj & Hin & Hle & Hr).
    exists k. split_and!; try done; try lia. intros ->.
    destruct (decide (t' = t)) as [->|Hne].
    + unfold timer in *. simplify_eq.
    + specialize (Hr eq_refl). set_solver.
  - destruct Hsf as [pre Hpre]. exists (pre ++ [t]). rewrite Hpre. by rewrite <- app_assoc.
  - intros t' task' when' j Ht' Hr. destruct (decide (t' = t)) as [->|Hne].
    + unfold timer in *. simplify_eq. done.
    + eapply Hcv; [done|]. set_solver.
Qed.

(** The cursor moves to the list of the next tick. *)
Lemma core_advance w ls : core w ls [] →
  core (Wheel.set_cur_wheel_tick w (Wheel.cur_wheel_tick w + 1)) ls
    (ls (Wheel.ticks_to_wheel_idx w (Wheel.cur_wheel_tick w + 1))).
Proof.
  intros [Hcf Hcur Hsl Htd Hsf Hcv]. split; cbn; try done.
  - by apply (same_config_config w); [split|].
  - lia.
  - intros t task when i Ht. destruct (Htd _ _ _ _ Ht) as (k & -> & Hk & -> & Hin & Hle & Hr).
    exists k. assert (k ≠ Wheel.cur_wheel_tick w) by set_solver.
    split_and!; try done; try lia. by intros ->.
  - by exists [].
  - intros t task when i Ht Hr. eapply Hcv; [done|]. set_solver.
Qed.

(** *** Unlinking a timer *)

Definition relink (f : Timeout.t → Timeout.t) (o : option Entry.t) : option Entry.t :=
  match o with Some (Entry.Timeout v) => Some (Entry.Timeout (f v)) | _ => o end.

Lemma update_timeout_spec (s : S) k f v : get s k = Some (Entry.Timeout v) →
  ∃ s', Wheel.update_timeout s k f = Ok s' ∧ len s' = len s
    ∧ ∀ j, get s' j = if decide (j = k) then Some (Entry.Timeout (f v)) else get s j.
Proof.
  intros Hk. unfold Wheel.update_timeout, Wheel.at_key. rewrite Hk. mstep. cbn.
  eexists. split_and!; [done|by apply set_len|]. intros. by apply set_get.
Qed.

(** What the slab holds once [t] is out and its neighbours are joined. *)
Record unlinked (s s' : S) (l1 : list Z) (t : Z) (l2 : list Z) : Prop := {
  unlinked_gone : get s' t = None;
  unlinked_prev : ∀ a u, last l1 = Some a → get s a = Some (Entry.Timeout u) →
    get s' a = Some (Entry.Timeout (Wheel.set_next (first l2 EMPTY) u));
  unlinked_next : ∀ b u, head l2 = Some b → get s b = Some (Entry.Timeout u) →
    get s' b = Some (Entry.Timeout (Wheel.set_prev (final EMPTY l1) u));
  unlinked_other : ∀ x, x ≠ t → last l1 ≠ Some x → head l2 ≠ Some x → get s' x = get s x;
  unlinked_len : len s' = len s - 1
}.

(** The two branches of [remove_slab] on [prev] and [next]. *)
Lemma unlink_prev (s : S) i l1 t l2 : linked (get s) i EMPTY (l1 ++ t :: l2) EMPTY →
  NoDup (l1 ++ t :: l2) → (final EMPTY l1 = EMPTY ∧ l1 = [])
  ∨ (∃ a u, last l1 = Some a ∧ final EMPTY l1 = a ∧ a ≠ EMPTY ∧ a ≠ t ∧ head l2 ≠ Some a
      ∧ get s a = Some (Entry.Timeout u)).
Proof.
  intros Hl Hnd. destruct l1 as [|a l1 _] using rev_ind; [by left|]. right.
  destruct (linked_elem _ _ _ _ _ a Hl) as (u & Hu & _); [set_solver|].
  exists a, u. rewrite last_snoc, final_snoc. apply NoDup_app in Hnd as (_ & Hd & _).
  assert (a ∉ t :: l2) as Ha by (apply Hd; set_solver).
  split_and!; try done; [by eapply get_not_EMPTY|set_solver|].
  intros Hh%head_Some_elem_of. set_solver.
Qed.

Lemma unlink_next (s : S) i l1 t l2 : linked (get s) i EMPTY (l1 ++ t :: l2) EMPTY →
  NoDup (l1 ++ t :: l2) → l2 = []
  ∨ (∃ b u, head l2 = Some b ∧ first l2 EMPTY = b ∧ b ≠ EMPTY ∧ b ≠ t
      ∧ get s b = Some (Entry.Timeout u)).
Proof.
  intros Hl Hnd. destruct l2 as [|b l2]; [by left|]. right.
  destruct (linked_elem _ _ _ _ _ b Hl) as (u & Hu & _); [set_solver|].
  exists b, u. apply NoDup_app in Hnd as (_ & _ & [Ht _]%NoDup_cons).
  split_and!; try done; [by eapply get_not_EMPTY|set_solver].
Qed.

(** The slots after [remove_slab]: the head moves when the key was the head. *)
Definition unlinked_slots w (v : Timeout.t) (sl : Slot.t) : list Slot.t :=
  if decide (Timeout.prev v = EMPTY)
  then <[Timeout.wheel_idx v := Slot.mk (Timeout.next v) (Slot.next_timeout sl)]> (Wheel.wheel w)
  else Wheel.wheel w.

(** [remove_slab] gives the previous entry its new [next] ... *)
Lemma unlink_prev_run w s1 i sl l1 t l2 v :
  linked (get (Wheel.slab w)) i EMPTY (l1 ++ t :: l2) EMPTY → NoDup (l1 ++ t :: l2) →
  Wheel.wheel w !! i = Some sl → Timeout.prev v = final EMPTY l1 →
  Timeout.next v = first l2 EMPTY → Timeout.wheel_idx v = i →
  (∀ x, get s1 x = if decide (x = t) then None else get (Wheel.slab w) x) →
  ∃ s2, (if decide (Timeout.prev v = EMPTY) then
           slot ← index (Wheel.wheel w) (Timeout.wheel_idx v);
           slots ← store (Wheel.wheel w) (Timeout.wheel_idx v)
                     (Slot.mk (Timeout.next v) (Slot.next_timeout slot));
           Ok (Wheel.set_wheel (Wheel.set_slab w s1) slots)
         else
           s ← Wheel.update_timeout s1 (Timeout.prev v) (Wheel.set_next (Timeout.next v));
           Ok (Wheel.set_slab (Wheel.set_slab w s1) s))
        = Ok (E:=Empty_set) (Wheel.set_slab (Wheel.set_wheel w (unlinked_slots w v sl)) s2)
    ∧ len s2 = len s1
    ∧ ∀ x, get s2 x = if decide (x = t) then None
        else if decide (last l1 = Some x)
        then relink (Wheel.set_next (first l2 EMPTY)) (get (Wheel.slab w) x)
        else get (Wheel.slab w) x.
Proof.
  intros Hl Hnd Hsl Hp Hn Hi Hg. unfold unlinked_slots. rewrite Hi, Hp, Hn.
  pose proof (lookup_lt_Some _ _ _ Hsl) as Hlt.
  destruct (unlink_prev _ _ _ _ _ Hl Hnd) as [[Hp0 ->]|(a & u & Ha & -> & Hane & Hat & _ & Hua)].
  - rewrite Hp0, decide_True by done.
    rewrite (proj2 (index_Ok _ _ _) Hsl). mstep. rewrite store_in by done. mstep.
    exists s1. split_and!; try done.
  - rewrite !(decide_False (P:=a = EMPTY)) by done.
    destruct (update_timeout_spec s1 a (Wheel.set_next (first l2 EMPTY)) u) as (s2 & -> & Hlen & Hg2).
    { by rewrite Hg, decide_False. }
    mstep. exists s2. split_and!; try done. intros x. rewrite Hg2, Hg, Ha.
    destruct (decide (x = a)) as [->|Hxa].
    + rewrite decide_False, decide_True, Hua by done. done.
    + case_decide; [done|]. rewrite decide_False; [done|]. congruence.
Qed.

(** ... and the next one its new [prev]. *)
Lemma unlink_next_run w s2 i l1 t l2 p :
  linked (get (Wheel.slab w)) i EMPTY (l1 ++ t :: l2) EMPTY → NoDup (l1 ++ t :: l2) →
  (∀ x, x ≠ t → last l1 ≠ Some x → get s2 x = get (Wheel.slab w) x) →
  ∃ s3, (if decide (first l2 EMPTY ≠ EMPTY) then
           s ← Wheel.update_timeout s2 (first l2 EMPTY) (Wheel.set_prev p);
           Ok (Wheel.set_slab (Wheel.set_slab w s2) s)
         else Ok (Wheel.set_slab w s2)) = Ok (E:=Empty_set) (Wheel.set_slab w s3)
    ∧ len s3 = len s2
    ∧ ∀ x, get s3 x = if decide (head l2 = Some x)
        then relink (Wheel.set_prev p) (get (Wheel.slab w) x) else get s2 x.
Proof.
  intros Hl Hnd Hg. destruct (unlink_next _ _ _ _ _ Hl Hnd) as [->|(b & u & Hb & -> & Hbne & Hbt & Hub)].
  - cbn. rewrite decide_False by tauto. exists s2. split_and!; done.
  - rewrite decide_True by done.
    assert (get s2 b = Some (Entry.Timeout u)) as Hb2.
    { rewrite Hg; [done..|]. intros Hlast.
      destruct (unlink_prev _ _ _ _ _ Hl Hnd) as [[_ ->]|(a & ? & Ha & _ & _ & _ & Hab & _)];
        [done|]. congruence. }
    destruct (update_timeout_spec s2 b (Wheel.set_prev p) u Hb2) as (s3 & -> & Hlen & Hg3).
    mstep. exists s3. split_and!; try done. intros x. rewrite Hg3, Hb.
    destruct (decide (x = b)) as [->|Hxb].
    + rewrite decide_True, Hub by done. done.
    + rewrite decide_False; [done|]. congruence.
Qed.

Lemma remove_slab_run w i sl l1 t l2 v :
  linked (get (Wheel.slab w)) i EMPTY (l1 ++ t :: l2) EMPTY → NoDup (l1 ++ t :: l2) →
  get (Wheel.slab w) t = Some (Entry.Timeout v) → Wheel.wheel w !! i = Some sl →
  ∃ s', unlinked (Wheel.slab w) s' l1 t l2 ∧ Wheel.remove_slab w t =
    Ok (Some (Entry.Timeout v),
        let w' := Wheel.set_slab (Wheel.set_wheel w (unlinked_slots w v sl)) s' in
        if decide (Wheel.cur_slab_idx w = t)
        then Wheel.set_cur_slab_idx w' (Timeout.next v) else w').
Proof.
  intros Hl Hnd Ht Hsl. destruct (linked_neighbours _ _ _ _ _ _ Hl Ht) as (Hp & Hn & Hi).
  unfold Wheel.remove_slab, unlinked_slots.
  pose proof (remove_value (Wheel.slab w) t) as Hv.
  pose proof (remove_get (Wheel.slab w) t) as Hg.
  pose proof (remove_len (Wheel.slab w) t) as Hlen. rewrite Ht in Hlen.
  destruct (remove (Wheel.slab w) t) as [removed s1]. cbn [fst snd] in *.
  subst removed. rewrite Ht.
  destruct (unlink_prev_run w s1 i sl l1 t l2 v) as (s2 & Hrun2 & Hlen2 & Hg2); [done..|].
  destruct (unlink_next_run (Wheel.set_wheel w (unlinked_slots w v sl)) s2 i l1 t l2
    (Timeout.prev v)) as (s3 & Hrun3 & Hlen3 & Hg3); [done..| |].
  { intros x Hx1 Hx2. rewrite Hg2. by rewrite !decide_False. }
  exists s3. split; [split|].
  - rewrite Hg3, Hg2. destruct (unlink_next _ _ _ _ _ Hl Hnd) as [->|(b & u & -> & _ & _ & Hbt & _)].
    + rewrite decide_False by done. by rewrite decide_True.
    + rewrite decide_False by congruence. by rewrite decide_True.
  - intros a u Ha Hu. destruct (unlink_prev _ _ _ _ _ Hl Hnd) as [[_ ->]|(a' & u' & Ha' & Hrest)];
      [done|]. simplify_eq. destruct Hrest as (_ & _ & Hat & Hab & _).
    rewrite Hg3, Hg2. rewrite (decide_False (P:=head l2 = Some a)) by done.
    rewrite decide_False, decide_True, Hu by done. done.
  - intros b u Hb Hu. rewrite Hg3, decide_True by done. cbn. rewrite Hu, Hp. done.
  - intros x Hxt Hx1 Hx2. rewrite Hg3, Hg2. by rewrite !decide_False.
  - congruence.
  - eapply bind_step; [exact Hrun2|]. cbv beta. rewrite <- Hn in Hrun3.
    eapply bind_step; [exact Hrun3|]. reflexivity.
Qed.

Lemma unlinked_payload (s s' : S) i l1 t l2 :
  linked (get s) i EMPTY (l1 ++ t :: l2) EMPTY → unlinked s s' l1 t l2 →
  ∀ x, payload_of <$> get s' x = if decide (x = t) then None else payload_of <$> get s x.
Proof.
  intros Hl [Hgone Hprev Hnext Hother _] x.
  destruct (decide (x = t)) as [->|Hxt]; [by rewrite Hgone|].
  destruct (decide (last l1 = Some x)) as [Hx1|Hx1].
  { destruct (linked_elem _ _ _ _ _ x Hl) as (u & Hu & _).
    - apply last_Some_elem_of in Hx1. set_solver.
    - by rewrite (Hprev _ _ Hx1 Hu), Hu. }
  destruct (decide (head l2 = Some x)) as [Hx2|Hx2].
  { destruct (linked_elem _ _ _ _ _ x Hl) as (u & Hu & _).
    - apply head_Some_elem_of in Hx2. set_solver.
    - by rewrite (Hnext _ _ Hx2 Hu), Hu. }
  by rewrite Hother.
Qed.

(** The members of another list are untouched. *)
Lemma unlinked_elsewhere (s s' : S) i l1 t l2 x v :
  linked (get s) i EMPTY (l1 ++ t :: l2) EMPTY → unlinked s s' l1 t l2 →
  get s x = Some (Entry.Timeout v) → Timeout.wheel_idx v ≠ i → get s' x = get s x.
Proof.
  intros Hl [_ _ _ Hother _] Hx Hi.
  assert (x ∉ l1 ++ t :: l2) as Hn.
  { intros Hin. destruct (linked_elem _ _ _ _ _ x Hl Hin) as (u & Hu & ?). congruence. }
  apply Hother; [set_solver|intros ?%last_Some_elem_of|intros ?%head_Some_elem_of]; set_solver.
Qed.

Lemma same_config_unlinked w v sl s' :
  same_config w (Wheel.set_slab (Wheel.set_wheel w (unlinked_slots w v sl)) s').
Proof.
  split; cbn; try done. unfold unlinked_slots. case_decide; [|done]. apply length_insert.
Qed.

Lemma unlinked_slots_lookup w v sl j s : Wheel.wheel w !! Timeout.wheel_idx v = Some sl →
  unlinked_slots w v sl !! j = Some s →
  ∃ s0, Wheel.wheel w !! j = Some s0 ∧ Slot.next_timeout s = Slot.next_timeout s0
    ∧ Slot.head s = if decide (j = Timeout.wheel_idx v ∧ Timeout.prev v = EMPTY)
                    then Timeout.next v else Slot.head s0.
Proof.
  intros Hsl. unfold unlinked_slots. destruct (decide (Timeout.prev v = EMPTY)) as [Hp|Hp].
  - rewrite list_lookup_insert_Some. intros [(<- & <- & _)|[Hj Hs]].
    + exists sl. by rewrite decide_True.
    + exists s. rewrite decide_False by naive_solver. done.
  - intros Hs. exists s. rewrite decide_False by tauto. done.
Qed.

Lemma unlinked_slots_lookup_inv w v sl j s0 : Wheel.wheel w !! Timeout.wheel_idx v = Some sl →
  Wheel.wheel w !! j = Some s0 →
  ∃ s, unlinked_slots w v sl !! j = Some s ∧ Slot.next_timeout s = Slot.next_timeout s0.
Proof.
  intros Hsl Hs0. unfold unlinked_slots. case_decide; [|by exists s0].
  destruct (decide (j = Timeout.wheel_idx v)) as [->|Hj].
  - rewrite list_lookup_insert_eq by (by eapply lookup_lt_Some). simplify_eq. by eexists.
  - rewrite list_lookup_insert_ne by done. by exists s0.
Qed.

Lemma core_unlink w ls rem t v sl l1 l2 s' : core w ls rem →
  get (Wheel.slab w) t = Some (Entry.Timeout v) → ls (Timeout.wheel_idx v) = l1 ++ t :: l2 →
  Wheel.wheel w !! Timeout.wheel_idx v = Some sl → unlinked (Wheel.slab w) s' l1 t l2 →
  core (Wheel.set_slab (Wheel.set_wheel w (unlinked_slots w v sl)) s')
    (λ j, without t (ls j)) (without t rem).
Proof.
  intros Hc Ht Hls Hslot Hu. set (w' := Wheel.set_slab _ _).
  pose proof (same_config_unlinked w v sl s' : same_config w w') as Hsame.
  destruct (core_slots _ _ _ Hc _ _ Hslot) as (Hhead & Hl & Hnd). rewrite Hls in Hhead, Hl, Hnd.
  destruct (linked_neighbours _ _ _ _ _ _ Hl Ht) as (Hp & Hn & _).
  pose proof (unlinked_payload _ _ _ _ _ _ Hl Hu) as Hpay.
  assert (∀ x task when i, timer w' x task when i → x ≠ t ∧ timer w x task when i) as Htm.
  { intros x task when i. unfold timer, payload. cbn. rewrite Hpay. by case_decide. }
  destruct Hc as [Hcf Hcur Hsl Htd [pre Hpre] Hcv].
  assert (∀ j s0, Wheel.wheel w !! j = Some s0 → j ≠ Timeout.wheel_idx v → t ∉ ls j) as Hnotin.
  { intros j s0 Hs0 Hji Hin. destruct (Hsl j s0 Hs0) as (_ & Hl0 & _).
    destruct (linked_elem _ _ _ _ _ _ Hl0 Hin) as (u & Htu & Hi). simplify_eq. }
  split; try done.
  - by apply (same_config_config w).
  - intros j s Hj. destruct (unlinked_slots_lookup _ _ _ _ _ Hslot Hj) as (s0 & Hs0 & _ & ->).
    destruct (Hsl j s0 Hs0) as (Hh0 & Hl0 & Hnd0).
    split_and!; [| |by apply without_NoDup].
    + destruct (decide (j = Timeout.wheel_idx v)) as [->|Hji].
      * rewrite Hls, without_middle, Hn by done. rewrite Hls in Hh0. rewrite Hh0.
        destruct (unlink_prev _ _ _ _ _ Hl Hnd) as [[Hp0 ->]|(a & u & Ha & Hf & Hane & _)].
        -- rewrite decide_True; [done|]. by rewrite Hp.
        -- rewrite decide_False by (rewrite Hp; naive_solver). by destruct l1.
      * rewrite decide_False by tauto. by rewrite without_notin by (eapply Hnotin; eauto).
    + destruct (decide (j = Timeout.wheel_idx v)) as [->|Hji].
      * rewrite Hls, without_middle by done. destruct Hu. by eapply linked_unlink.
      * rewrite without_notin by (eapply Hnotin; eauto).
        eapply linked_ext; [|done]. intros x Hx.
        destruct (linked_elem _ _ _ _ _ _ Hl0 Hx) as (u & Hxu & Hi).
        eapply unlinked_elsewhere; [done..|]. by rewrite Hi.
  - intros x task when i [Hxt Hx]%Htm. destruct (Htd _ _ _ _ Hx) as (k & -> & Hk & -> & Hin & Hle & Hr).
    exists k. rewrite (same_config_instant w w'), (same_config_slot w w') by done.
    split_and!; try done; try lia. + by apply without_elem. + intros Hk'. apply without_elem. auto.
  - rewrite (same_config_slot w w') by done. exists (without t pre). cbn. rewrite Hpre.
    apply filter_app.
  - intros x task when i [Hxt Hx]%Htm Hr. destruct (Hcv _ _ _ _ Hx) as (s0 & m & Hs0 & Hm & Hle).
    { intros Hin. apply Hr. by apply without_elem. }
    destruct (unlinked_slots_lookup_inv _ _ _ _ _ Hslot Hs0) as (s & Hs & Hnt).
    exists s, m. by rewrite Hnt.
Qed.

Lemma core_set_cursor w ls rem x : core w ls rem → core (Wheel.set_cur_slab_idx w x) ls rem.
Proof.
  intros [Hcf Hcur Hsl Htd Hsf Hcv]. split; try done. by apply (same_config_config w).
Qed.

(** A timer in its slot's list. *)
Lemma core_split w ls rem t v : core w ls rem → get (Wheel.slab w) t = Some (Entry.Timeout v) →
  ∃ sl l1 l2, Wheel.wheel w !! Timeout.wheel_idx v = Some sl
    ∧ ls (Timeout.wheel_idx v) = l1 ++ t :: l2
    ∧ linked (get (Wheel.slab w)) (Timeout.wheel_idx v) EMPTY (l1 ++ t :: l2) EMPTY
    ∧ NoDup (l1 ++ t :: l2).
Proof.
  intros Hc Ht. assert (timer w t (Timeout.task v) (Timeout.when v) (Timeout.wheel_idx v)) as Htm
    by (apply timer_get; by exists v).
  destruct (core_timed _ _ _ Hc _ _ _ _ Htm) as (k & _ & _ & _ & Hin & _).
  destruct (lookup_lt_is_Some_2 _ _ (core_slot_lt _ _ _ _ _ _ _ Hc Htm)) as [sl Hsl].
  destruct (core_slots _ _ _ Hc _ _ Hsl) as (_ & Hl & Hnd).
  apply list_elem_of_split in Hin as (l1 & l2 & Hls). rewrite Hls in Hl, Hnd.
  by exists sl, l1, l2.
Qed.

(** [remove_slab] of a timer: it alone disappears. *)
Lemma remove_timer w ls rem t v : core w ls rem →
  get (Wheel.slab w) t = Some (Entry.Timeout v) →
  ∃ w', Wheel.remove_slab w t = Ok (Some (Entry.Timeout v), w') ∧ same_config w w'
    ∧ core w' (λ j, without t (ls j)) (without t rem)
    ∧ (∀ x, payload w' x = if decide (x = t) then None else payload w x)
    ∧ Wheel.cur_wheel_tick w' = Wheel.cur_wheel_tick w
    ∧ Wheel.cur_slab_idx w' =
        (if decide (Wheel.cur_slab_idx w = t) then Timeout.next v else Wheel.cur_slab_idx w)
    ∧ len (Wheel.slab w') = len (Wheel.slab w) - 1.
Proof.
  intros Hc Ht. destruct (core_split _ _ _ _ _ Hc Ht) as (sl & l1 & l2 & Hsl & Hls & Hl & Hnd).
  destruct (remove_slab_run _ _ _ _ _ _ _ Hl Hnd Ht Hsl) as (s' & Hu & ->).
  pose proof (core_unlink _ _ _ _ _ _ _ _ _ Hc Ht Hls Hsl Hu) as Hcore.
  pose proof (unlinked_payload _ _ _ _ _ _ Hl Hu) as Hpay.
  pose proof (unlinked_len _ _ _ _ _ Hu) as Hlen.
  pose proof (same_config_unlinked w v sl s') as Hsame.
  eexists. split; [reflexivity|]. cbv zeta.
  case_decide.
  - split; [by destruct Hsame|]. split; [by apply core_set_cursor|]. done.
  - split; [done|]. split; [exact Hcore|]. done.
Qed.

(** The cursor after the removal of a timer from what it has to visit. *)
Lemma cursor_without w ls rem t v : core w ls rem →
  get (Wheel.slab w) t = Some (Entry.Timeout v) →
  first (without t rem) EMPTY =
    if decide (first rem EMPTY = t) then Timeout.next v else first rem EMPTY.
Proof.
  intros Hc Ht. pose proof (core_rem_NoDup _ _ _ Hc) as Hnd.
  destruct rem as [|a rem]; cbn [first].
  { rewrite decide_False; [done|]. intros <-. by rewrite EMPTY_get in Ht. }
  apply NoDup_cons in Hnd as [Ha _]. case_decide as Hat.
  - subst a. destruct (core_rem _ _ _ t Hc) as (v' & Hv' & Hi); [left|]. simplify_eq.
    destruct (core_suffix _ _ _ Hc) as [pre Hpre].
    destruct (core_current _ _ _ Hc) as [s Hs].
    destruct (core_slots _ _ _ Hc _ _ Hs) as (_ & Hl & _). rewrite Hpre in Hl.
    destruct (linked_neighbours _ _ _ _ _ _ Hl Ht) as (_ & -> & _).
    unfold without. rewrite filter_cons, decide_False by tauto. fold (without t rem).
    by rewrite without_notin.
  - unfold without. by rewrite filter_cons, decide_True.
Qed.

(** *** Inserting a timer *)

(** What [set_timeout] writes in the slab and in the slot [i], whose head is [h]. *)
Record inserted w (t k : Z) (task : Task) (sl : Slot.t) (s' : S) (o : option Z) : Prop := {
  inserted_entry : get s' t = Some (Entry.Timeout
    (Timeout.mk task (instant_of w k) (Wheel.ticks_to_wheel_idx w k) EMPTY (Slot.head sl)));
  inserted_head : ∀ u, get (Wheel.slab w) (Slot.head sl) = Some (Entry.Timeout u) →
    get s' (Slot.head sl) = Some (Entry.Timeout (Wheel.set_prev t u));
  inserted_other : ∀ x, x ≠ t → x ≠ Slot.head sl → get s' x = get (Wheel.slab w) x;
  inserted_next : ∃ m, o = Some m ∧ m ≤ instant_of w k
    ∧ (∀ m0, Slot.next_timeout sl = Some m0 → m ≤ m0)
}.

Definition pushed (i : nat) (t : Z) ls : nat → list Z :=
  λ j, if decide (j = i) then t :: ls j else ls j.

Lemma inserted_payload w ls rem t k task sl s' o : core w ls rem →
  Wheel.wheel w !! Wheel.ticks_to_wheel_idx w k = Some sl →
  inserted w t k task sl s' o →
  ∀ x, payload_of <$> get s' x = if decide (x = t)
    then Some (Some (task, instant_of w k, Wheel.ticks_to_wheel_idx w k)) else payload w x.
Proof.
  intros Hc Hsl [He Hh Ho _] x. case_decide as Hxt; [subst; by rewrite He|].
  destruct (decide (x = Slot.head sl)) as [->|Hxh]; [|by unfold payload; rewrite Ho].
  unfold payload. destruct (core_slots _ _ _ Hc _ _ Hsl) as (Hhead & Hl & _).
  destruct (ls _) as [|b l] eqn:Hls; cbn [first] in Hhead.
  - rewrite Hhead. by rewrite !EMPTY_get.
  - destruct (linked_elem _ _ _ _ _ b Hl) as (u & Hu & _); [left|].
    rewrite <- Hhead in Hu. by rewrite (Hh _ Hu), Hu.
Qed.

(** A reserved key is in no list; the head of a slot is in no other list. *)
Lemma core_reserved_notin w ls rem t j s : core w ls rem →
  get (Wheel.slab w) t = Some Entry.Reserved → Wheel.wheel w !! j = Some s → t ∉ ls j.
Proof.
  intros Hc Ht Hs Hin. destruct (core_slots _ _ _ Hc j s Hs) as (_ & Hl & _).
  destruct (linked_elem _ _ _ _ _ _ Hl Hin) as (u & Htu & _). simplify_eq.
Qed.

Lemma core_head_own w ls rem i sl j s : core w ls rem → Wheel.wheel w !! i = Some sl →
  Wheel.wheel w !! j = Some s → Slot.head sl ∈ ls j → j = i.
Proof.
  intros Hc Hi Hj Hx.
  destruct (core_slots _ _ _ Hc _ _ Hi) as (Hh & Hl & _).
  destruct (core_slots _ _ _ Hc _ _ Hj) as (_ & Hl0 & _).
  destruct (linked_elem _ _ _ _ _ _ Hl0 Hx) as (u & Hxu & <-). rewrite Hh in Hxu.
  destruct (ls i) as [|b l]; cbn in Hxu; [by rewrite EMPTY_get in Hxu|].
  destruct (linked_elem _ _ _ _ _ b Hl) as (u' & Hu' & ?); [left|]. by simplify_eq.
Qed.

Lemma inserted_linked w ls rem t k task sl s' o : core w ls rem →
  get (Wheel.slab w) t = Some Entry.Reserved →
  Wheel.wheel w !! Wheel.ticks_to_wheel_idx w k = Some sl → inserted w t k task sl s' o →
  linked (get s') (Wheel.ticks_to_wheel_idx w k) EMPTY
    (t :: ls (Wheel.ticks_to_wheel_idx w k)) EMPTY.
Proof.
  intros Hc Ht Hslot [He Hhead Hother _].
  pose proof (core_reserved_notin _ _ _ _ _ _ Hc Ht Hslot) as Hnotin.
  destruct (core_slots _ _ _ Hc _ _ Hslot) as (Hh & Hl & Hnd).
  split; [by eexists; split_and!|]. destruct (ls _) as [|b l]; [done|].
  cbn [first] in Hh. rewrite not_elem_of_cons in Hnotin. apply NoDup_cons in Hnd as [Hb _].
  destruct (linked_elem _ _ _ _ _ b Hl) as (u & Hu & _); [left|].
  eapply linked_set_prev; [done..| |].
  - rewrite <- Hh in *. by apply Hhead.
  - intros x Hx. apply Hother; [|rewrite Hh]; intros ->; tauto.
Qed.

Lemma inserted_timer w ls rem t k task sl s' o slots x task' when j : core w ls rem →
  Wheel.wheel w !! Wheel.ticks_to_wheel_idx w k = Some sl → inserted w t k task sl s' o →
  timer (Wheel.set_slab (Wheel.set_wheel w slots) s') x task' when j →
  (x = t ∧ task' = task ∧ when = instant_of w k ∧ j = Wheel.ticks_to_wheel_idx w k)
  ∨ (x ≠ t ∧ timer w x task' when j).
Proof.
  intros Hc Hslot Hins. unfold timer, payload at 1. cbn.
  rewrite (inserted_payload _ _ _ _ _ _ _ _ _ Hc Hslot Hins).
  case_decide; [intros [= -> -> ->]; by left|by right].
Qed.

Lemma core_insert w ls rem t k task sl s' o : core w ls rem →
  get (Wheel.slab w) t = Some Entry.Reserved → Wheel.cur_wheel_tick w < k < 2 ^ 32 →
  Wheel.wheel w !! Wheel.ticks_to_wheel_idx w k = Some sl → inserted w t k task sl s' o →
  core (Wheel.set_slab (Wheel.set_wheel w
          (<[Wheel.ticks_to_wheel_idx w k := Slot.mk t o]> (Wheel.wheel w))) s')
    (pushed (Wheel.ticks_to_wheel_idx w k) t ls) rem.
Proof.
  intros Hc Ht Hk Hslot Hins.
  pose proof (λ x t' u j, inserted_timer _ _ _ _ _ _ _ _ _
    (<[Wheel.ticks_to_wheel_idx w k := Slot.mk t o]> (Wheel.wheel w)) x t' u j Hc Hslot Hins) as Htm.
  pose proof (inserted_linked _ _ _ _ _ _ _ _ _ Hc Ht Hslot Hins) as Hlinked.
  destruct Hins as [_ _ Hother (m & -> & Hm & Hm0)].
  set (i := Wheel.ticks_to_wheel_idx w k) in *. set (w' := Wheel.set_slab _ _) in *.
  assert (same_config w w') as Hsame by (split; cbn; rewrite ?length_insert; done).
  pose proof Hc as [Hcf Hcur Hsl Htd [pre Hpre] Hcv]. split; try done.
  - by apply (same_config_config w).
  - intros j s. cbn [Wheel.wheel w' Wheel.set_slab Wheel.set_wheel Wheel.slab].
    unfold pushed. rewrite list_lookup_insert_Some. intros [(<- & <- & _)|[Hij Hj]].
    + rewrite decide_True by done. destruct (Hsl _ _ Hslot) as (_ & _ & Hnd).
      split_and!; try done. constructor; [|done]. by eapply core_reserved_notin.
    + rewrite decide_False by done. destruct (Hsl _ _ Hj) as (Hhj & Hlj & Hndj).
      split_and!; try done. eapply linked_ext; [|done]. intros x Hx. apply Hother; intros ->.
      * by eapply core_reserved_notin.
      * apply Hij. symmetry. by eapply core_head_own.
  - intros x task' when j [(-> & -> & -> & ->)|[Hxt Hx]]%Htm.
    + exists k. rewrite (same_config_instant w w'), (same_config_slot w w') by done.
      cbn. unfold pushed. rewrite decide_True by done. split_and!; try done; try lia. left.
    + destruct (Htd _ _ _ _ Hx) as (k' & -> & Hk' & Hj & Hin & Hle & Hr). exists k'.
      rewrite (same_config_instant w w'), (same_config_slot w w') by done.
      split_and!; try done; try lia. unfold pushed. case_decide; [by right|done].
  - rewrite (same_config_slot w w') by done. cbn. unfold pushed.
    case_decide; [|by exists pre]. exists (t :: pre). by rewrite Hpre.
  - intros x task' when j Hx Hr. pose proof (lookup_lt_Some _ _ _ Hslot). cbn.
    destruct (decide (j = i)) as [->|Hji].
    + rewrite list_lookup_insert_eq by done. exists (Slot.mk t (Some m)), m. split_and!; [done..|].
      apply Htm in Hx as [(_ & _ & -> & _)|[_ Hx]]; [done|].
      destruct (Hcv _ _ _ _ Hx Hr) as (s & m' & Hs & Hm' & ?). simplify_eq. specialize (Hm0 _ Hm'). lia.
    + rewrite list_lookup_insert_ne by done.
      apply Htm in Hx as [(_ & _ & _ & ->)|[_ Hx]]; [done|]. by eapply Hcv.
Qed.
End inv.
