(* ===== verification/WheelSpec.v ===== *)
(** * What the timer wheel promises

    A client of the wheel sees a finite map from tokens to the task and the tick
    they are armed for ([armed]).  The theorems say what each operation of
    [Wheel] does to that map, whatever the lists and the cursor are. *)
From S2P Require Import Prelude Clock TimerConfig Slab Wheel WheelInv.
Local Open Scope Z_scope.

(** What a token stands for: nothing, an entry that is reserved, or a task armed
    for a tick. *)
Inductive token_status := Vacant | Held | Armed (task : Task) (tick : Z).

Section armed.
Context {S : Type} `{SlabOps Entry.t S, !SlabLaws Entry.t S}.
Implicit Types (w : Wheel.t S) (ls : nat → list Z) (rem : list Z).

(** The task and the tick a token is armed for. *)
Definition armed w (t : Token.t) : option (Task * Z) :=
  match payload w t with
  | Some (Some (task, when, _)) => Some (task, tick_of w when)
  | _ => None
  end.

Definition reserved w (t : Token.t) : Prop := get (Wheel.slab w) t = Some Entry.Reserved.

(** A state between two calls. *)
Definition wf w : Prop := ∃ ls rem, inv w ls rem.

Lemma armed_timer w t task k : armed w t = Some (task, k) ↔
  ∃ when i, timer w t task when i ∧ tick_of w when = k.
Proof.
  unfold armed, timer. destruct (payload w t) as [[[[task' when] i]|]|]; split.
  - intros [= -> <-]. by exists when, i.
  - intros (? & ? & [= -> -> ->] & <-). done.
  - done.
  - by intros (? & ? & [=] & _).
  - done.
  - by intros (? & ? & [=] & _).
Qed.

Lemma armed_payload w w' x : same_config w w' → payload w' x = payload w x →
  armed w' x = armed w x.
Proof.
  intros Hc Hp. unfold armed. rewrite Hp. destruct (payload w x) as [[[[task when] i]|]|]; try done.
  by rewrite (same_config_tick w w').
Qed.

(** An armed token lies at or after the cursor, and below 2{^32} ticks. *)
Lemma armed_core w ls rem t task k : core w ls rem → armed w t = Some (task, k) →
  Wheel.cur_wheel_tick w ≤ k < 2 ^ 32 ∧ (k = Wheel.cur_wheel_tick w → t ∈ rem)
  ∧ timer w t task (instant_of w k) (Wheel.ticks_to_wheel_idx w k).
Proof.
  intros Hc (when & i & Ht & <-)%armed_timer.
  destruct (core_timed _ _ _ Hc _ _ _ _ Ht) as (k & -> & Hk & -> & _ & Hle & Hr).
  rewrite tick_of_instant by apply Hc. split_and!; auto; lia.
Qed.

(** ** Arming a timer *)
Lemma insert_run w ls rem t k task sl : core w ls rem → reserved w t →
  Wheel.wheel w !! Wheel.ticks_to_wheel_idx w k = Some sl →
  let s1 := set (Wheel.slab w) t (Entry.Timeout
    (Timeout.mk task (instant_of w k) (Wheel.ticks_to_wheel_idx w k) EMPTY (Slot.head sl))) in
  let o := if decide (instant_of w k ≤ default (instant_of w k) (Slot.next_timeout sl))
           then Some (instant_of w k) else Slot.next_timeout sl in
  ∃ s2, (if decide (Slot.head sl ≠ EMPTY)
         then Wheel.update_timeout s1 (Slot.head sl) (Wheel.set_prev t) else Ok s1) = Ok s2
    ∧ len s2 = len (Wheel.slab w) ∧ inserted w t k task sl s2 o.
Proof.
  intros Hc Ht Hslot s1 o. destruct (core_slots _ _ _ Hc _ _ Hslot) as (Hh & Hl & _).
  assert (is_Some (get (Wheel.slab w) t)) as Hs by (rewrite Ht; eauto).
  pose proof (core_reserved_notin _ _ _ _ _ _ Hc Ht Hslot) as Hnotin.
  assert (∃ m, o = Some m ∧ m ≤ instant_of w k ∧ ∀ m0, Slot.next_timeout sl = Some m0 → m ≤ m0)
    as Hnext.
  { unfold o. destruct (Slot.next_timeout sl) as [m0|]; cbn; case_decide; try lia; eexists;
      (split; [done|]); (split; [lia|]); intros ? [=]; lia. }
  destruct (decide (Slot.head sl ≠ EMPTY)) as [Hne|He%dec_stable].
  - destruct (ls _) as [|b l]; [done|]. cbn [first] in Hh.
    destruct (linked_elem _ _ _ _ _ b Hl) as (u & Hu & _); [left|].
    assert (b ≠ t) as Hbt by (rewrite not_elem_of_cons in Hnotin; naive_solver).
    rewrite Hh. destruct (update_timeout_spec s1 b (Wheel.set_prev t) u) as (s2 & -> & Hlen & Hg).
    { unfold s1. by rewrite set_get, decide_False. }
    exists s2. split_and!; [done|by rewrite Hlen; apply set_len|]. split; [..|done].
    + rewrite Hg, decide_False by done. unfold s1. rewrite set_get, decide_True by done. by rewrite Hh.
    + intros u'. rewrite Hh, Hg, decide_True by done. intros. by simplify_eq.
    + intros x Hxt Hxb. rewrite Hg, decide_False by congruence. unfold s1.
      by rewrite set_get, decide_False.
  - exists s1. split_and!; [done|by apply set_len|]. split; [..|done].
    + unfold s1. rewrite set_get, decide_True by done. by rewrite He.
    + intros u. by rewrite He, EMPTY_get.
    + intros x Hxt _. unfold s1. by rewrite set_get, decide_False.
Qed.

Lemma set_timeout_run w ls rem t at_ task : inv w ls rem → reserved w t → sane w at_ →
  let k := Z.max (tick_of w at_) (Wheel.cur_wheel_tick w + 1) in k < 2 ^ 32 →
  ∃ w', Wheel.set_timeout w t at_ task = Ok w' ∧ same_config w w'
    ∧ inv w' (pushed (Wheel.ticks_to_wheel_idx w k) t ls) rem
    ∧ Wheel.cur_wheel_tick w' = Wheel.cur_wheel_tick w
    ∧ len (Wheel.slab w') = len (Wheel.slab w)
    ∧ ∀ x, payload w' x = if decide (x = t)
        then Some (Some (task, instant_of w k, Wheel.ticks_to_wheel_idx w k)) else payload w x.
Proof.
  intros [Hc Hcursor] Ht Hsane k Hk. pose proof Hc as [Hcf Hcur _ _ _ _].
  pose proof (tick_of_bounds w at_ Hcf Hsane) as Hb.
  assert (0 ≤ k) as Hk0 by lia.
  destruct (lookup_lt_is_Some_2 _ _ (slot_of_lt w k Hcf Hk0)) as [sl Hsl].
  pose proof (lookup_lt_Some _ _ _ Hsl) as Hlt.
  destruct (insert_run w ls rem t k task sl Hc Ht Hsl) as (s2 & Hrun & Hlen & Hins).
  eexists. split_and!.
  - unfold Wheel.set_timeout. rewrite time_to_ticks_in by done. mstep.
    eapply bind_step with (a := k).
    { destruct (decide (tick_of w at_ ≤ _)); [rewrite add64_in by (unfold U64_MAX; lia)|];
        f_equal; unfold k; lia. }
    pose proof (scheduled_instant w k Hcf ltac:(lia)) as Hat.
    apply bind_Ok in Hat as (delay & Hd & Hat).
    eapply bind_step; [exact Hd|]. eapply bind_step; [exact Hat|].
    eapply bind_step; [by apply index_Ok|]. unfold Wheel.at_key. rewrite Ht. mstep.
    eapply bind_step; [exact Hrun|]. cbn [Slot.head Slot.next_timeout].
    eapply bind_step; [by apply store_in|]. reflexivity.
  - split; cbn; rewrite ?length_insert; done.
  - split; [|done].
    replace (if decide _ then _ else _) with
      (Slot.mk t (if decide (instant_of w k ≤ default (instant_of w k) (Slot.next_timeout sl))
         then Some (instant_of w k) else Slot.next_timeout sl)) by (by case_decide).
    by eapply core_insert; [..|lia| |].
  - done.
  - done.
  - intros x. by eapply (inserted_payload w).
Qed.

(** ** One iteration of the loop of [poll] *)

(** Two states that differ by their slots and cursors only. *)
Record same_timers w w' : Prop := {
  same_timers_config : same_config w w';
  same_timers_slab : Wheel.slab w' = Wheel.slab w;
}.

Lemma set_next_run w i sl o : Wheel.wheel w !! i = Some sl →
  Wheel.set_next_timeout w i o =
    Ok (Wheel.set_wheel w (<[i := Slot.mk (Slot.head sl) o]> (Wheel.wheel w))).
Proof.
  intros Hsl. unfold Wheel.set_next_timeout. eapply bind_step; [by apply index_Ok|].
  rewrite store_in by (by eapply lookup_lt_Some). done.
Qed.

(** Only a cursor that has not moved is at the head of the slot. *)
Lemma cursor_at_head w ls rem pre sl : core w ls rem →
  ls (Wheel.ticks_to_wheel_idx w (Wheel.cur_wheel_tick w)) = pre ++ rem →
  Wheel.wheel w !! Wheel.ticks_to_wheel_idx w (Wheel.cur_wheel_tick w) = Some sl →
  first rem EMPTY = Slot.head sl → pre = [].
Proof.
  intros Hc Hpre Hsl Hhead. destruct (core_slots _ _ _ Hc _ _ Hsl) as (Hh & Hl & Hnd).
  rewrite Hpre in *. destruct pre as [|a pre]; [done|]. cbn in Hh. exfalso.
  destruct rem as [|b rem]; cbn in Hhead.
  - destruct (linked_elem _ _ _ _ _ a Hl) as (u & Hu & _); [left|].
    apply get_not_EMPTY in Hu. congruence.
  - rewrite Hh in Hhead. subst b. apply NoDup_app in Hnd as (_ & Hd & _).
    apply (Hd a); left.
Qed.

(** The clearing of [next_timeout] at the start of a slot. *)
Lemma begin_slot w ls rem sl : inv w ls rem →
  let idx := Wheel.ticks_to_wheel_idx w (Wheel.cur_wheel_tick w) in
  Wheel.wheel w !! idx = Some sl →
  ∃ w1, (if decide (Wheel.cur_slab_idx w = Slot.head sl)
         then Wheel.set_next_timeout w idx None else Ok w) = Ok w1
    ∧ inv w1 ls rem ∧ same_timers w w1
    ∧ Wheel.cur_wheel_tick w1 = Wheel.cur_wheel_tick w.
Proof.
  intros [Hc Hcursor] idx Hsl. rewrite Hcursor. case_decide as Hhead.
  - rewrite (set_next_run _ _ sl) by done. eexists. split; [done|].
    split_and!; [split| |done].
    + apply core_set_next; [done..|]. intros t task when Ht Hr. exfalso. apply Hr.
      destruct (core_suffix _ _ _ Hc) as [pre Hpre].
      destruct (core_timed _ _ _ Hc _ _ _ _ Ht) as (_ & _ & _ & _ & Hin & _).
      fold idx in Hpre. rewrite Hpre in Hin. by rewrite (cursor_at_head w ls rem pre sl) in Hin.
    + done.
    + split; [apply same_config_store|done].
  - exists w. split; [done|]. split_and!; done.
Qed.

(** The [next_timeout] of each slot bounds all its timers. *)
Definition all_covered w : Prop := ∀ t task when i, timer w t task when i →
  ∃ s m, Wheel.wheel w !! i = Some s ∧ Slot.next_timeout s = Some m ∧ m ≤ when.

Lemma poll_body_advance w ls at_ : inv w ls [] → Wheel.cur_wheel_tick w + 1 ≤ U64_MAX →
  ∃ w', Wheel.poll_body w at_ = Ok (Wheel.Continue w')
    ∧ inv w' ls (ls (Wheel.ticks_to_wheel_idx w (Wheel.cur_wheel_tick w + 1)))
    ∧ same_timers w w' ∧ Wheel.cur_wheel_tick w' = Wheel.cur_wheel_tick w + 1
    ∧ all_covered w'.
Proof.
  intros Hinv Hmax. pose proof Hinv as [Hc Hcursor].
  destruct (core_current _ _ _ Hc) as [sl Hsl].
  destruct (begin_slot _ _ _ _ Hinv Hsl) as (w1 & Hrun & [Hc1 Hcursor1] & [Hcf1 Hs1] & Hcur1).
  pose proof (core_advance _ _ Hc1) as Ha. rewrite (same_config_slot w w1), Hcur1 in Ha by done.
  set (w2 := Wheel.set_cur_wheel_tick w1 (Wheel.cur_wheel_tick w + 1)) in *.
  destruct (core_current _ _ _ Ha) as [sl' Hsl'].
  destruct (core_slots _ _ _ Ha _ _ Hsl') as (Hh & _).
  exists (Wheel.set_cur_slab_idx w2 (Slot.head sl')). split_and!.
  - unfold Wheel.poll_body. rewrite decide_True by done.
    eapply bind_step; [by apply index_Ok|].
    eapply bind_step; [exact Hrun|]. rewrite Hcur1, add64_in by done. mstep.
    eapply bind_step; [by apply index_Ok|]. reflexivity.
  - split; [by apply core_set_cursor|]. cbn. rewrite Hh.
    by rewrite (same_config_slot w w2) by (by destruct Hcf1).
  - split; [by destruct Hcf1|done].
  - done.
  - intros t task when i Ht. apply (core_covered _ _ _ Hc1 t task when i Ht). set_solver.
Qed.

(** The visit of a timer, up to the test of its tick. *)
Lemma poll_body_visit w ls t rem at_ : inv w ls (t :: rem) → sane w at_ →
  ∃ v w1, get (Wheel.slab w) t = Some (Entry.Timeout v)
    ∧ Timeout.wheel_idx v = Wheel.ticks_to_wheel_idx w (Wheel.cur_wheel_tick w)
    ∧ Timeout.next v = first rem EMPTY
    ∧ core w1 ls (t :: rem) ∧ same_timers w w1
    ∧ Wheel.cur_wheel_tick w1 = Wheel.cur_wheel_tick w
    ∧ Wheel.cur_slab_idx w1 = Timeout.next v
    ∧ armed w t = Some (Timeout.task v, tick_of w (Timeout.when v))
    ∧ Wheel.poll_body w at_ =
        if decide (tick_of w (Timeout.when v) ≤ tick_of w at_) then
          '(removed, w) ← Wheel.remove_slab w1 t;
          Ok (Wheel.Return (match removed with
                  | Some (Entry.Timeout v) => Some (Timeout.task v)
                  | _ => None
                  end) w)
        else
          slot ← index (Wheel.wheel w1) (Timeout.wheel_idx v);
          w ← (if decide (Timeout.when v ≤ default (Timeout.when v) (Slot.next_timeout slot))
               then Wheel.set_next_timeout w1 (Timeout.wheel_idx v) (Some (Timeout.when v))
               else Ok w1);
          Ok (Wheel.Continue w).
Proof.
  intros Hinv Hsane. pose proof Hinv as [Hc Hcursor].
  destruct (core_rem _ _ _ t Hc) as (v & Hv & Hi); [left|].
  destruct (core_current _ _ _ Hc) as [sl Hsl].
  destruct (begin_slot _ _ _ _ Hinv Hsl) as (w1 & Hrun & [Hc1 Hcursor1] & [Hcf1 Hs1] & Hcur1).
  pose proof (cursor_without _ _ _ _ _ Hc Hv) as Hfirst.
  cbn [first] in Hfirst, Hcursor. rewrite decide_True in Hfirst by done.
  pose proof (core_rem_NoDup _ _ _ Hc) as [Ht Hnd]%NoDup_cons.
  assert (without t (t :: rem) = rem) as Hwo.
  { apply (without_middle t []). by constructor. }
  assert (timer w t (Timeout.task v) (Timeout.when v) (Timeout.wheel_idx v)) as Htm
    by (apply timer_get; by exists v).
  destruct (core_timed _ _ _ Hc _ _ _ _ Htm) as (k & Hk & Hk32 & _).
  exists v, (Wheel.set_cur_slab_idx w1 (Timeout.next v)). split_and!; try done.
  - by rewrite <- Hfirst, Hwo.
  - by apply core_set_cursor.
  - split; [by destruct Hcf1|done].
  - apply armed_timer. eauto.
  - assert (config w1) as Hcw1 by apply Hc1.
    assert (config (Wheel.set_cur_slab_idx w1 (Timeout.next v))) as Hcw2
      by (apply (same_config_config w1); [by split|done]).
    unfold Wheel.poll_body. rewrite decide_False by (rewrite Hcursor; by eapply get_not_EMPTY).
    eapply bind_step; [by apply index_Ok|]. eapply bind_step; [exact Hrun|].
    rewrite Hcursor. unfold Wheel.at_key. rewrite Hs1, Hv. mstep. cbn [Entry.timeout].
    eapply bind_step; [reflexivity|].
    rewrite !time_to_ticks_in; try done.
    2:{ apply (same_config_sane w1); [by split|]. apply (same_config_sane w); [done|].
        rewrite Hk. apply instant_of_sane; [apply Hc|done]. }
    2:{ apply (same_config_sane w1); [by split|]. by apply (same_config_sane w). }
    mstep. rewrite !(same_config_tick w (Wheel.set_cur_slab_idx w1 _)) by (by destruct Hcf1).
    by rewrite Hi.
Qed.

Lemma poll_body_fire w ls t rem at_ task k : inv w ls (t :: rem) → sane w at_ →
  armed w t = Some (task, k) → k ≤ tick_of w at_ →
  ∃ w', Wheel.poll_body w at_ = Ok (Wheel.Return (Some task) w') ∧ same_config w w'
    ∧ inv w' (λ j, without t (ls j)) rem
    ∧ Wheel.cur_wheel_tick w' = Wheel.cur_wheel_tick w
    ∧ len (Wheel.slab w') = len (Wheel.slab w) - 1
    ∧ (∀ x, payload w' x = if decide (x = t) then None else payload w x).
Proof.
  intros Hinv Hsane Harm Hk.
  destruct (poll_body_visit _ _ _ _ _ Hinv Hsane)
    as (v & w1 & Hv & Hi & Hnext & Hc1 & [Hcf1 Hs1] & Hcur1 & Hidx & Harm' & ->).
  rewrite Harm in Harm'. injection Harm' as -> ->. rewrite decide_True by done.
  assert (get (Wheel.slab w1) t = Some (Entry.Timeout v)) as Hv1 by (by rewrite Hs1).
  destruct (remove_timer _ _ _ _ _ Hc1 Hv1) as (w2 & -> & Hcf2 & Hc2 & Hpay & Hcur2 & Hidx2 & Hlen2).
  mstep. exists w2. pose proof (core_rem_NoDup _ _ _ Hc1) as Hnd.
  assert (without t (t :: rem) = rem) as Hwo by (by apply (without_middle t [])).
  rewrite Hwo in Hc2. split_and!; [done|by etrans| |congruence|congruence|].
  - split; [done|]. rewrite Hidx2, Hidx, Hnext. apply decide_same.
  - intros x. rewrite Hpay. unfold payload. by rewrite Hs1.
Qed.

(** The timer that is passed is covered by the slot's [next_timeout]. *)
Lemma skip_slot w ls t rem task when i sl : core w ls (t :: rem) → timer w t task when i →
  Wheel.wheel w !! i = Some sl → when ≠ instant_of w (Wheel.cur_wheel_tick w) →
  ∃ w', (if decide (when ≤ default when (Slot.next_timeout sl))
         then Wheel.set_next_timeout w i (Some when) else Ok w) = Ok w'
    ∧ core w' ls rem ∧ same_config w w' ∧ Wheel.slab w' = Wheel.slab w
    ∧ Wheel.cur_wheel_tick w' = Wheel.cur_wheel_tick w
    ∧ Wheel.cur_slab_idx w' = Wheel.cur_slab_idx w.
Proof.
  intros Hc Ht Hsl Hne. case_decide as Hmin.
  - rewrite (set_next_run _ _ sl) by done. eexists. split; [done|].
    pose proof (lookup_lt_Some _ _ _ Hsl). split_and!; try done; [|apply same_config_store].
    apply (core_pass _ _ t rem task when i); [|done|done|].
    + apply core_set_next; [done..|]. intros t' task' when' Ht' Hr.
      destruct (core_covered _ _ _ Hc _ _ _ _ Ht' Hr) as (s & m & Hs & Hm & Hle).
      simplify_eq. rewrite Hm in Hmin. cbn in Hmin. exists when. split; [done|lia].
    + cbn. rewrite list_lookup_insert_eq by done. by eexists _, when.
  - exists w. split_and!; try done. apply (core_pass _ _ t rem task when i); try done.
    destruct (Slot.next_timeout sl) as [m|] eqn:Hm; cbn in Hmin; [|lia].
    exists sl, m. split_and!; [done..|lia].
Qed.

Lemma poll_body_skip w ls t rem at_ task k : inv w ls (t :: rem) → sane w at_ →
  armed w t = Some (task, k) → tick_of w at_ < k → Wheel.cur_wheel_tick w ≤ tick_of w at_ →
  ∃ w', Wheel.poll_body w at_ = Ok (Wheel.Continue w') ∧ inv w' ls rem
    ∧ same_timers w w' ∧ Wheel.cur_wheel_tick w' = Wheel.cur_wheel_tick w.
Proof.
  intros Hinv Hsane Harm Hk Hle.
  destruct (poll_body_visit _ _ _ _ _ Hinv Hsane)
    as (v & w1 & Hv & Hi & Hnext & Hc1 & [Hcf1 Hs1] & Hcur1 & Hidx & Harm' & ->).
  rewrite Harm in Harm'. injection Harm' as -> ->. rewrite decide_False by lia.
  assert (timer w1 t (Timeout.task v) (Timeout.when v) (Timeout.wheel_idx v)) as Htm.
  { apply timer_get. exists v. by rewrite Hs1. }
  destruct (lookup_lt_is_Some_2 _ _ (core_slot_lt _ _ _ _ _ _ _ Hc1 Htm)) as [sl Hsl].
  assert (Timeout.when v ≠ instant_of w1 (Wheel.cur_wheel_tick w1)) as Hne.
  { rewrite (same_config_instant w w1) by done. intros Heq. rewrite Heq in Hk.
    rewrite tick_of_instant in Hk; [lia|apply Hinv]. }
  destruct (skip_slot _ _ _ _ _ _ _ _ Hc1 Htm Hsl Hne) as (w2 & Hrun & Hc2 & Hcf2 & Hs2 & Hcur2 & Hidx2).
  exists w2. split_and!.
  - eapply bind_step; [by apply index_Ok|]. eapply bind_step; [exact Hrun|]. done.
  - split; [done|]. congruence.
  - split; [by etrans|congruence].
  - congruence.
Qed.

(** ** The loop of [poll] *)

(** The iterations left: the timers of the current slot that are not visited,
    and for each tick to come at most all the timers and the move to it. *)
Definition steps_left w (rem : list Z) (wheel_tick : Z) : Z :=
  (wheel_tick + 1 - Wheel.cur_wheel_tick w) * (len (Wheel.slab w) + 1) + Z.of_nat (length rem).

(** What a call to [poll] at tick [W] does, from the loop's point of view. *)
Definition polled w (W : Z) (r : option Task) w' : Prop :=
  match r with
  | Some task => ∃ t k, armed w t = Some (task, k) ∧ k ≤ W
      ∧ (∀ x, payload w' x = if decide (x = t) then None else payload w x)
      ∧ len (Wheel.slab w') = len (Wheel.slab w) - 1 ∧ Wheel.cur_wheel_tick w' ≤ W
      ∧ ∃ ls rem, inv w' ls rem
  | None => (∀ x, payload w' x = payload w x) ∧ Wheel.cur_wheel_tick w' = W + 1
      ∧ all_covered w' ∧ len (Wheel.slab w') = len (Wheel.slab w) ∧ ∃ ls, inv w' ls (ls (Wheel.ticks_to_wheel_idx w' (W + 1)))
  end.

Lemma same_timers_payload w w' x : same_timers w w' → payload w' x = payload w x.
Proof. intros [_ Hs]. unfold payload. by rewrite Hs. Qed.

Lemma polled_step w w1 W r w' : same_timers w w1 → polled w1 W r w' → polled w W r w'.
Proof.
  intros Hs. pose proof (λ x, same_timers_payload w w1 x Hs) as Hp. destruct r as [task|]; cbn.
  - intros (t & k & Ha & Hk & Hpay & Hlen & Hcur & Hinv). exists t, k.
    rewrite (armed_payload w w1) in Ha by (done || apply Hs).
    destruct Hs as [_ Hs]. rewrite <- Hs. split_and!; try done. intros x. by rewrite Hpay, Hp.
  - intros (Hpay & Hcur & Hcov & Hlen & Hinv). destruct Hs as [_ Hs]. rewrite <- Hs.
    split_and!; try done. intros x. by rewrite Hpay, Hp.
Qed.

Lemma poll_loop_spec fuel w ls rem at_ : inv w ls rem → sane w at_ →
  Wheel.cur_wheel_tick w ≤ tick_of w at_ → steps_left w rem (tick_of w at_) ≤ Z.of_nat fuel →
  ∃ r w', Wheel.poll_loop fuel w at_ (tick_of w at_) = Ok (r, w') ∧ same_config w w'
    ∧ polled w (tick_of w at_) r w'.
Proof.
  revert w ls rem. induction fuel as [|fuel IH]; intros w ls rem Hinv Hsane Hle Hfuel.
  { exfalso. pose proof (len_nonneg (Wheel.slab w)). unfold steps_left in Hfuel. nia. }
  cbn [Wheel.poll_loop]. rewrite decide_True by done.
  pose proof Hinv as [Hc _]. pose proof (tick_of_bounds w at_ ltac:(apply Hc) Hsane) as HW.
  destruct rem as [|t rem].
  - destruct (poll_body_advance _ _ at_ Hinv) as (w1 & -> & Hinv1 & Hs & Hcur & Hcov).
    { unfold U64_MAX. lia. }
    mstep. pose proof Hs as [Hcf Hslab].
    rewrite <- (same_config_tick w w1) in * by done.
    destruct (decide (Wheel.cur_wheel_tick w1 ≤ tick_of w1 at_)) as [Hle1|Hgt].
    + destruct (IH w1 ls _ Hinv1) as (r & w' & -> & Hcf' & Hp); [by apply (same_config_sane w)|done| |].
      { unfold steps_left in *. pose proof (core_rem_len _ _ _ (inv_core _ _ _ Hinv1)).
        pose proof (len_nonneg (Wheel.slab w)). rewrite Hslab, Hcur in *. cbn in *. nia. }
      exists r, w'. split_and!; [done|by etrans|by apply polled_step with w1].
    + exists None, w1. split_and!; [destruct fuel; cbn; by rewrite decide_False|done|].
      cbn. assert (Wheel.cur_wheel_tick w1 = tick_of w1 at_ + 1) as Hcur' by lia.
      split_and!; [intros; by apply same_timers_payload|done|done|by rewrite Hslab|].
      exists ls. rewrite <- Hcur', Hcur. by rewrite (same_config_slot w w1).
  - destruct (core_rem _ _ _ t Hc) as (v & Hv & _); [left|].
    assert (armed w t = Some (Timeout.task v, tick_of w (Timeout.when v))) as Harm.
    { apply armed_timer. eexists _, _. split; [|done]. apply timer_get. by exists v. }
    destruct (decide (tick_of w (Timeout.when v) ≤ tick_of w at_)) as [Hk|Hk].
    + destruct (poll_body_fire _ _ _ _ _ _ _ Hinv Hsane Harm Hk) as (w1 & -> & Hcf & Hinv1 & Hcur & Hlen & Hp).
      mstep. exists (Some (Timeout.task v)), w1. split_and!; [done..|].
      exists t, (tick_of w (Timeout.when v)). split_and!; eauto. by rewrite Hcur.
    + destruct (poll_body_skip _ _ _ _ _ _ _ Hinv Hsane Harm) as (w1 & -> & Hinv1 & Hs & Hcur);
        [lia|done|].
      mstep. pose proof Hs as [Hcf Hslab]. rewrite <- (same_config_tick w w1) in * by done.
      destruct (IH w1 ls rem Hinv1) as (r & w' & -> & Hcf' & Hp);
        [by apply (same_config_sane w)|by rewrite Hcur| |].
      { unfold steps_left in *. rewrite Hslab, Hcur. cbn [length] in Hfuel. lia. }
      exists r, w'. split_and!; [done|by etrans|by apply polled_step with w1].
Qed.

(** ** The status of a token *)
Definition status w (t : Token.t) : token_status :=
  match payload w t with
  | None => Vacant
  | Some None => Held
  | Some (Some (task, when, _)) => Armed task (tick_of w when)
  end.

Lemma status_armed w t task k : status w t = Armed task k ↔ armed w t = Some (task, k).
Proof.
  unfold status, armed. destruct (payload w t) as [[[[task' when] i]|]|]; naive_solver.
Qed.

Lemma status_held w t : status w t = Held ↔ reserved w t.
Proof.
  unfold status, reserved, payload. destruct (get _ t) as [[|v]|]; cbn; naive_solver.
Qed.

Lemma status_payload w w' t : same_config w w' → payload w' t = payload w t →
  status w' t = status w t.
Proof.
  intros Hc Hp. unfold status. rewrite Hp. destruct (payload w t) as [[[[task when] i]|]|]; try done.
  by rewrite (same_config_tick w w').
Qed.

Lemma status_without w w' t : same_config w w' →
  (∀ x, payload w' x = if decide (x = t) then None else payload w x) →
  ∀ x, status w' x = if decide (x = t) then Vacant else status w x.
Proof.
  intros Hc Hp x. case_decide as Hx.
  - unfold status. by rewrite Hp, decide_True.
  - apply status_payload; [done|]. by rewrite Hp, decide_False.
Qed.

Lemma tick_of_mono w i j : wf w → i ≤ j → tick_of w i ≤ tick_of w j.
Proof.
  intros (ls & rem & Hinv) Hij.
  pose proof (config_tick _ (core_config _ _ _ (inv_core _ _ _ Hinv))).
  unfold tick_of. do 2 (apply Z.div_le_mono; [lia|]). lia.
Qed.

(** [poll], whatever the cursor is. *)
Lemma poll_spec w at_ : wf w → sane w at_ →
  ∃ r w', Wheel.poll w at_ = Ok (r, w') ∧ wf w' ∧ same_config w w' ∧
    match r with
    | Some task => ∃ t k, status w t = Armed task k ∧ k ≤ tick_of w at_
        ∧ (∀ x, status w' x = if decide (x = t) then Vacant else status w x)
        ∧ len (Wheel.slab w') = len (Wheel.slab w) - 1
        ∧ Wheel.cur_wheel_tick w' ≤ tick_of w at_
    | None => (∀ x, status w' x = status w x)
        ∧ (∀ x task k, status w x = Armed task k → tick_of w at_ < k)
        ∧ Wheel.cur_wheel_tick w' = Z.max (Wheel.cur_wheel_tick w) (tick_of w at_ + 1)
        ∧ (Wheel.cur_wheel_tick w ≤ tick_of w at_ → all_covered w')
        ∧ len (Wheel.slab w') = len (Wheel.slab w)
    end.
Proof.
  intros (ls & rem & Hinv) Hsane. pose proof Hinv as [Hc _].
  assert (config w) as Hcf by apply Hc.
  unfold Wheel.poll. rewrite time_to_ticks_in by done. mstep.
  destruct (decide (Wheel.cur_wheel_tick w ≤ tick_of w at_)) as [Hle|Hgt].
  - destruct (poll_loop_spec (Wheel.poll_fuel w (tick_of w at_)) w ls rem at_)
      as (r & w' & -> & Hcf' & Hp); [done..| |].
    { unfold steps_left, Wheel.poll_fuel. pose proof (core_rem_len _ _ _ Hc). nia. }
    exists r, w'. split; [done|]. destruct r as [task|]; cbn in Hp.
    + destruct Hp as (t & k & Ha & Hk & Hpay & Hlen & Hcur & Hinv').
      split_and!; [done..|]. exists t, k. rewrite status_armed. split_and!; try done.
      by apply status_without.
    + destruct Hp as (Hpay & Hcur & Hcov & Hlen & ls' & Hinv').
      split_and!; [by eexists _, _|done|by intros; apply status_payload| |lia|done|done].
      intros x task k Ha%status_armed. rewrite <- (armed_payload w w') in Ha by done.
      destruct (armed_core _ _ _ _ _ _ (inv_core _ _ _ Hinv') Ha) as ([? _] & _). lia.
  - exists None, w. split_and!; try done.
    + destruct (Wheel.poll_fuel _ _); cbn; by rewrite decide_False.
    + by exists ls, rem.
    + intros x task k Ha%status_armed. destruct (armed_core _ _ _ _ _ _ Hc Ha) as ([? _] & _). lia.
    + lia.
Qed.

(** ** Arming, cancelling, reserving *)
Lemma set_timeout_spec w t at_ task : wf w → status w t = Held → sane w at_ →
  let k := Z.max (tick_of w at_) (Wheel.cur_wheel_tick w + 1) in k < 2 ^ 32 →
  ∃ w', Wheel.set_timeout w t at_ task = Ok w' ∧ wf w' ∧ same_config w w'
    ∧ Wheel.cur_wheel_tick w' = Wheel.cur_wheel_tick w
    ∧ len (Wheel.slab w') = len (Wheel.slab w)
    ∧ ∀ x, status w' x = if decide (x = t) then Armed task k else status w x.
Proof.
  intros (ls & rem & Hinv) Ht%status_held Hsane k Hk.
  destruct (set_timeout_run _ _ _ _ _ task Hinv Ht Hsane Hk)
    as (w' & -> & Hcf & Hinv' & Hcur & Hlen & Hpay).
  exists w'. split_and!; [done|by eexists _, _|done|done|done|].
  intros x. case_decide as Hx.
  - unfold status. rewrite Hpay, decide_True by done. rewrite (same_config_tick w w') by done.
    rewrite tick_of_instant by apply Hinv. done.
  - apply status_payload; [done|]. by rewrite Hpay, decide_False.
Qed.

(** Removing an entry that is not a timeout. *)
Lemma drop_entry w t : wf w → (∀ v, get (Wheel.slab w) t ≠ Some (Entry.Timeout v)) →
  let w' := Wheel.set_slab w (remove (Wheel.slab w) t).2 in
  wf w' ∧ same_config w w' ∧ len (Wheel.slab w') ≤ len (Wheel.slab w)
  ∧ ∀ x, status w' x = if decide (x = t) then Vacant else status w x.
Proof.
  intros (ls & rem & Hc & Hcursor) Ht w'.
  assert (same_config w w') as Hcf by by split.
  split_and!; [exists ls, rem; split; [|done]|done|cbn; rewrite remove_len; case_match; lia|].
  - apply core_set_slab; [|done]. intros x v. rewrite remove_get. case_decide as Hx; [|done].
    subst. split; [done|]. intros Hv. by apply Ht in Hv.
  - apply status_without; [done|]. intros x. unfold payload. cbn. rewrite remove_get.
    by case_decide.
Qed.

Lemma cancel_spec w t : wf w →
  ∃ w', Wheel.cancel w t = Ok w' ∧ wf w' ∧ same_config w w'
    ∧ Wheel.cur_wheel_tick w' = Wheel.cur_wheel_tick w
    ∧ len (Wheel.slab w') ≤ len (Wheel.slab w)
    ∧ ∀ x, status w' x = if decide (x = t) then Vacant else status w x.
Proof.
  intros Hwf. unfold Wheel.cancel.
  destruct (get (Wheel.slab w) t) as [[|v]|] eqn:Ht.
  - destruct (drop_entry w t Hwf) as (Hwf' & Hcf & Hlen & Hst); [by rewrite Ht|].
    unfold Wheel.remove_slab. pose proof (remove_value (Wheel.slab w) t) as Hv.
    destruct (remove (Wheel.slab w) t) as [r s]. cbn in *. rewrite Hv, Ht. mstep. by eexists.
  - destruct Hwf as (ls & rem & Hc & Hcursor).
    destruct (remove_timer _ _ _ _ _ Hc Ht) as (w' & -> & Hcf & Hc' & Hpay & Hcur & Hidx & Hlen).
    mstep. exists w'. split_and!; [done| |done|done|lia|by apply status_without].
    eexists _, _. split; [exact Hc'|]. rewrite Hidx, Hcursor.
    symmetry. by apply (cursor_without w ls).
  - destruct (drop_entry w t Hwf) as (Hwf' & Hcf & Hlen & Hst); [by rewrite Ht|].
    unfold Wheel.remove_slab. pose proof (remove_value (Wheel.slab w) t) as Hv.
    destruct (remove (Wheel.slab w) t) as [r s]. cbn in *. rewrite Hv, Ht. mstep. by eexists.
Qed.

Lemma insert_reserved w s k s' : wf w → (∀ x, get s x = get (Wheel.slab w) x) →
  insert s Entry.Reserved = Some (k, s') →
  status w k = Vacant ∧ wf (Wheel.set_slab w s') ∧ len s' = len s + 1
  ∧ ∀ x, status (Wheel.set_slab w s') x = if decide (x = k) then Held else status w x.
Proof.
  intros (ls & rem & Hc & Hcursor) Hs Hins. apply insert_len in Hins as Hlen.
  apply insert_get in Hins as [Hk Hg]. split_and!; [| |done|].
  - unfold status, payload. by rewrite <- Hs, Hk.
  - exists ls, rem. split; [|done]. apply core_set_slab; [|done]. intros x v.
    rewrite Hg. case_decide as Hx; [|by rewrite Hs]. subst. rewrite <- Hs, Hk. done.
  - intros x. unfold status, payload. cbn. rewrite Hg. repeat case_decide; try done. by rewrite Hs.
Qed.

Lemma reserve_spec w : wf w → 0 ≤ Wheel.max_capacity w ≤ I64_MAX →
  (available (Wheel.slab w) = 0 → len (Wheel.slab w) ≤ Wheel.max_capacity w) →
  ∃ r w', Wheel.reserve w = Ok (r, w') ∧ wf w' ∧ same_config w w'
    ∧ Wheel.cur_wheel_tick w' = Wheel.cur_wheel_tick w
    ∧ match r with
      | Some t => status w t = Vacant ∧ len (Wheel.slab w') = len (Wheel.slab w) + 1
          ∧ ∀ x, status w' x = if decide (x = t) then Held else status w x
      | None => w' = w ∧ available (Wheel.slab w) = 0
          ∧ (len (Wheel.slab w) = 0 ∨ len (Wheel.slab w) = Wheel.max_capacity w)
      end.
Proof.
  intros Hwf Hmax Hlen. unfold Wheel.reserve.
  destruct (vacant_entry (Wheel.slab w)) as [j|] eqn:Hv.
  - destruct (insert (Wheel.slab w) Entry.Reserved) as [[k s']|] eqn:Hi.
    + destruct (insert_reserved w _ k s' Hwf (λ _, eq_refl) Hi) as (Hk & Hwf' & Hl & Hst).
      eexists (Some k), _. split_and!; done.
    + apply insert_full in Hi. apply vacant_entry_full in Hi. congruence.
  - apply vacant_entry_full in Hv as Ha. specialize (Hlen Ha).
    rewrite sub64_in by done. mstep. pose proof (len_nonneg (Wheel.slab w)).
    case_decide as Hamt.
    + eexists None, w. split_and!; try done. lia.
    + cbn. set (amt := Z.min _ _) in *.
      destruct (insert _ Entry.Reserved) as [[k s']|] eqn:Hi.
      * destruct (insert_reserved w _ k s' Hwf (reserve_get _ _) Hi) as (Hk & Hwf' & Hl & Hst).
        rewrite reserve_len in Hl. eexists (Some k), _. split_and!; done.
      * exfalso. apply insert_full in Hi.
        assert (0 ≤ amt ∧ len (Wheel.slab w) + amt ≤ I64_MAX) as [Ha1 Ha2] by lia.
        pose proof (reserve_available (Wheel.slab w) amt Ha1 Ha2). lia.
Qed.

(** ** The next timeout *)
Lemma next_timeout_spec w :
  match Wheel.next_timeout w with
  | Some m => ∀ i s nt, Wheel.wheel w !! i = Some s → Slot.next_timeout s = Some nt → m ≤ nt
  | None => ∀ i s, Wheel.wheel w !! i = Some s → Slot.next_timeout s = None
  end.
Proof.
  unfold Wheel.next_timeout. induction (Wheel.wheel w) as [|s l IH] using rev_ind; [done|].
  rewrite omap_app, foldl_app.
  set (step := λ (min : option Z) a, _) in *. set (m := foldl step None (omap _ l)) in *.
  assert (∀ i x, (l ++ [s]) !! i = Some x → l !! i = Some x ∨ x = s) as Hsplit.
  { intros i x [Hx|[_ Hx]]%lookup_app_Some; [by left|]. right.
    by apply list_lookup_singleton_Some in Hx as [_ ->]. }
  cbn. destruct (Slot.next_timeout s) as [a|] eqn:Hs; cbn.
  - destruct m as [b|]; cbn.
    + case_decide; cbn; intros i x nt [Hx| ->]%Hsplit Hnt.
      * eauto. * simplify_eq. lia.
      * specialize (IH _ _ _ Hx Hnt). lia. * simplify_eq. lia.
    + intros i x nt [Hx| ->]%Hsplit Hnt; [|simplify_eq; lia].
      by rewrite (IH _ _ Hx) in Hnt.
  - destruct m as [b|]; [intros i x nt [Hx| ->]%Hsplit Hnt; [eauto|congruence]|].
    intros i x [Hx| ->]%Hsplit; eauto.
Qed.
End armed.
