(* ===== verification/WheelProps.v ===== *)
(** * The properties of the timer wheel

    The theorems about [Wheel] that its clients rely on, on a slab that obeys
    [SlabLaws], and their instances on a wheel of four slots over [VecSlab]. *)
From S2P Require Import Prelude Clock TimerConfig Slab Wheel WheelInv WheelSpec.
Local Open Scope Z_scope.

(** ** The number of slots *)
Lemma land_pred_pow2 p : 0 ≤ p → Z.land (2 ^ p) (2 ^ p - 1) = 0.
Proof. intros Hp. rewrite land_mask by done. apply Z.mod_same. lia. Qed.

Lemma land_pred_zero n : 0 < n → Z.land n (n - 1) = 0 → n = 2 ^ Z.log2 n.
Proof.
  intros Hn Hl. destruct (Z.log2_spec n Hn) as [H1 H2].
  destruct (decide (n = 2 ^ Z.log2 n)) as [|Hne]; [done|exfalso].
  pose proof (Z.log2_nonneg n) as Hp. set (p := Z.log2 n) in *.
  assert (Z.log2 (n - 1) = p) as Hp'.
  { apply Z.log2_unique; lia. }
  assert (Z.testbit (Z.land n (n - 1)) p = true) as Hb.
  { rewrite Z.land_spec. rewrite (Z.bit_log2 n Hn : Z.testbit n p = true).
    rewrite <- Hp'. apply Z.bit_log2. lia. }
  by rewrite Hl, Z.testbit_0_l in Hb.
Qed.

Lemma millis_exact n : 0 ≤ n → millis (Duration.from_millis n) = Z.min n U64_MAX.
Proof.
  intros Hn. unfold millis, Duration.from_millis, Duration.as_secs, Duration.subsec_nanos,
    saturated, Duration.NANOS_PER_MILLI, Duration.NANOS_PER_SEC.
  change 1000000000 with (1000000 * 1000).
  rewrite (Z.mul_comm n), Z.div_mul_cancel_l, Z.mul_mod_distr_l by lia.
  pose proof (Z.div_mod n 1000). pose proof (Z.mod_pos_bound n 1000).
  replace (1000000 * (n mod 1000) + 1000000 - 1) with ((n mod 1000) * 1000000 + 999999) by lia.
  rewrite Z.div_add_l by lia. change (999999 / 1000000) with 0. unfold U64_MAX. lia.
Qed.

Section properties.
Context {S : Type} `{SlabOps Entry.t S, !SlabLaws Entry.t S}.
Implicit Types (w : Wheel.t S).

(** The configurations [new] accepts and the operations never overflow on. *)
Record usable (b : Builder.t) (now : Z) : Prop := {
  usable_slots : ∃ p, 0 ≤ p < 63 ∧ Builder.get_num_slots b = 2 ^ p;
  usable_tick : 0 < millis (Builder.get_tick_duration b) < 2 ^ 31;
  usable_capacity : 0 ≤ Builder.get_initial_capacity b ≤ I64_MAX;
  usable_now : 0 ≤ now < 2 ^ 62 * Duration.NANOS_PER_SEC
}.

Lemma new_spec b now : usable b now →
  ∃ w, Wheel.new b now = Ok w ∧ wf w ∧ (∀ t, status w t = Vacant)
    ∧ Wheel.start w = now ∧ Wheel.tick_ms w = millis (Builder.get_tick_duration b)
    ∧ Wheel.cur_wheel_tick w = 0 ∧ Wheel.max_capacity w = Builder.get_max_capacity b
    ∧ Wheel.available w = Builder.get_initial_capacity b
    ∧ len (Wheel.slab w) = 0.
Proof.
  intros [(p & Hp & Hn) Ht Hcap Hnow]. unfold Wheel.new. rewrite Hn.
  rewrite sub64_in by lia. mstep. rewrite decide_True by (apply land_pred_pow2; lia).
  eexists. split; [done|].
  assert (∀ t, get (with_capacity (A:=Entry.t) (S:=S) (Builder.get_initial_capacity b)) t = None)
    as Hget by (intros; apply get_with_capacity).
  split_and!; try done.
  - exists (λ _, []), []. split; [|done]. split; cbn.
    + split; cbn; [|done|done]. exists p. rewrite length_replicate. done.
    + done.
    + intros i s Hs%lookup_replicate. destruct Hs as [-> _]. split_and!; [done..|constructor].
    + intros t task when i. unfold timer, payload. cbn. by rewrite Hget.
    + by exists [].
    + intros t task when i. unfold timer, payload. cbn. by rewrite Hget.
  - intros t. unfold status, payload. cbn. by rewrite Hget.
  - by apply available_with_capacity.
  - apply len_with_capacity.
Qed.

(** [Wheel::new] panics exactly when the configured number of slots is not a
    power of two (zero included, where [num_slots - 1] overflows). *)
Theorem new_checks_slots b now : 0 ≤ Builder.get_num_slots b →
  Wheel.new (S:=S) b now = Panic ↔ ¬ ∃ p, 0 ≤ p ∧ Builder.get_num_slots b = 2 ^ p.
Proof.
  intros Hn. unfold Wheel.new. set (n := Builder.get_num_slots b) in *.
  destruct (decide (n = 0)) as [->|Hne].
  { split; [|done]. intros _ (p & Hp & He). pose proof (Z.pow_pos_nonneg 2 p). lia. }
  rewrite sub64_in by lia. mstep. case_decide as Hl; split; try done.
  - intros Hno. exfalso. apply Hno. exists (Z.log2 n).
    split; [apply Z.log2_nonneg|]. by apply land_pred_zero; [lia|].
  - intros _ (p & Hp & He). apply Hl. rewrite He. by apply land_pred_pow2.
Qed.

(** A wheel made by [Wheel::new] from a usable configuration starts at tick 0
    with every token vacant, the room of the initial capacity, no next timeout,
    and satisfies the invariant that the other theorems assume. *)
Theorem new_wheel b now : usable b now →
  ∃ w, Wheel.new b now = Ok w ∧ wf w ∧ (∀ t, status w t = Vacant)
    ∧ Wheel.cur_wheel_tick w = 0 ∧ Wheel.available w = Builder.get_initial_capacity b
    ∧ Wheel.next_timeout w = None.
Proof.
  intros Hb. destruct (new_spec b now Hb) as (w & Hw & Hwf & Hst & _ & _ & Hcur & _ & Hav & _).
  exists w. split_and!; try done. unfold Wheel.new in Hw. destruct Hb as [(p & Hp & Hn) _ _ _].
  rewrite Hn, sub64_in in Hw by lia. revert Hw. mstep.
  rewrite decide_True by (apply land_pred_pow2; lia). intros [= <-].
  unfold Wheel.next_timeout. cbn [Wheel.wheel].
  assert (∀ n, omap Slot.next_timeout (replicate n (Slot.mk EMPTY None)) = []) as ->; [|done].
  intros n. by induction n.
Qed.

(** C4. [Wheel::poll] always returns, whatever timers are pending and wherever an
    earlier poll stopped.  If it returns a task, that task was armed for a tick
    that is not after the tick of [at], its token becomes vacant, and no other
    token changes.  If it returns [None], nothing changes, every timer still
    armed is for a later tick than [at]'s (so no timer is missed), and the wheel
    has advanced past that tick. *)
Theorem wheel_poll w at_ : wf w → sane w at_ →
  ∃ r w', Wheel.poll w at_ = Ok (r, w') ∧ wf w' ∧
    match r with
    | Some task => ∃ t k, status w t = Armed task k ∧ k ≤ tick_of w at_
        ∧ ∀ x, status w' x = if decide (x = t) then Vacant else status w x
    | None => (∀ x, status w' x = status w x)
        ∧ (∀ x task k, status w x = Armed task k → tick_of w at_ < k)
        ∧ Wheel.cur_wheel_tick w' = Z.max (Wheel.cur_wheel_tick w) (tick_of w at_ + 1)
    end.
Proof.
  intros Hwf Hsane. destruct (poll_spec w at_ Hwf Hsane) as (r & w' & -> & Hwf' & _ & Hr).
  exists r, w'. split_and!; [done..|]. destruct r as [task|].
  - destruct Hr as (t & k & ? & ? & ? & _). by exists t, k.
  - by destruct Hr as (? & ? & ? & _).
Qed.

(** C26. [Wheel::set_timeout] on a reserved token never panics below 2{^32} ticks:
    it arms that token, and no other, for the tick of the requested instant, or
    for the first tick after the cursor when that instant is not later. *)
Theorem set_timeout_arms w t at_ task : wf w → status w t = Held → sane w at_ →
  Z.max (tick_of w at_) (Wheel.cur_wheel_tick w + 1) < 2 ^ 32 →
  ∃ w', Wheel.set_timeout w t at_ task = Ok w' ∧ wf w'
    ∧ Wheel.cur_wheel_tick w' = Wheel.cur_wheel_tick w
    ∧ ∀ x, status w' x = if decide (x = t)
        then Armed task (Z.max (tick_of w at_) (Wheel.cur_wheel_tick w + 1)) else status w x.
Proof.
  intros Hwf Ht Hsane Hk.
  destruct (set_timeout_spec w t at_ task Hwf Ht Hsane Hk) as (w' & ? & ? & _ & ? & _ & ?).
  by exists w'.
Qed.

(** A tick begins at most one tick before an instant that falls in it. *)
Lemma tick_round w i : config w → sane w i →
  instant_of w (tick_of w i) ≤ i < instant_of w (tick_of w i) + Wheel.tick_ms w * 1000000.
Proof.
  intros Hcf [Hi _]. pose proof (config_tick _ Hcf) as Htick.
  unfold instant_of, tick_of. rewrite Z.div_div by lia.
  pose proof (Z.div_mod (i - Wheel.start w) (1000000 * Wheel.tick_ms w)).
  pose proof (Z.mod_pos_bound (i - Wheel.start w) (1000000 * Wheel.tick_ms w)). lia.
Qed.

Lemma tick_reached w k i : config w → sane w i → k ≤ tick_of w i ↔ instant_of w k ≤ i.
Proof.
  intros Hcf Hi. pose proof (tick_round w i Hcf Hi) as Hr. pose proof (config_tick _ Hcf). split.
  - intros Hle. apply (instant_of_mono _ _ _ Hcf) in Hle. lia.
  - intros Hle. destruct (decide (k ≤ tick_of w i)) as [|Hlt]; [done|].
    pose proof (proj2 (instant_of_mono w (tick_of w i + 1) k Hcf) ltac:(lia)).
    unfold instant_of in *. lia.
Qed.

(** C35. The precision of a timer that is set for the instant [at].  It is armed for
    a tick [k] that begins at [due]: [wheel_poll] fires it at [now] only if
    [due <= now], and does not return [None] before it has.  It is early by less than
    a tick: [at] is before [due] plus one tick.  When the tick of [at] is after the
    cursor, [due] is [at] rounded down to a tick, so the timer is not late.
    Otherwise [due] is the beginning of the next tick after the cursor, which is
    later than [at]; if the wheel has not been polled after [last], that is at most
    two ticks after [last] (so a timer of 250 ms, one tick, that is set right after a
    poll can be late by up to a tick). *)
Theorem timer_precision w t at_ task w' : wf w → status w t = Held → sane w at_ →
  let tick := Wheel.tick_ms w * 1000000 in
  let k := Z.max (tick_of w at_) (Wheel.cur_wheel_tick w + 1) in
  let due := instant_of w k in
  k < 2 ^ 32 → Wheel.set_timeout w t at_ task = Ok w' →
  status w' t = Armed task k ∧ at_ < due + tick
  ∧ (∀ now, sane w now → k ≤ tick_of w' now ↔ due ≤ now)
  ∧ (if decide (Wheel.cur_wheel_tick w < tick_of w at_) then due ≤ at_
     else due = instant_of w (Wheel.cur_wheel_tick w + 1) ∧ at_ < due
       ∧ ∀ last, sane w last → Wheel.cur_wheel_tick w ≤ tick_of w last + 1 →
           due ≤ last + 2 * tick).
Proof.
  intros Hwf Ht Hsane tick k due Hk Hrun. pose proof Hwf as (ls & rem & Hinv).
  assert (config w) as Hcf by apply Hinv. pose proof (config_tick _ Hcf) as Htick.
  destruct (set_timeout_spec w t at_ task Hwf Ht Hsane Hk) as (w2 & Hw2 & _ & Hc & _ & _ & Hst).
  rewrite Hrun in Hw2. injection Hw2 as <-. split; [by rewrite Hst, decide_True|].
  pose proof (tick_round w at_ Hcf Hsane) as Hround.
  assert (instant_of w (tick_of w at_) ≤ due) as Hdue by (apply instant_of_mono; [done|lia]).
  split; [unfold tick; lia|]. split.
  { intros now Hnow. rewrite (same_config_tick w w') by done. by apply tick_reached. }
  case_decide as Hcur; unfold due, k in *; [rewrite Z.max_l in * by lia; lia|].
  rewrite Z.max_r in * by lia. split; [done|]. split.
  - pose proof (tick_reached w (Wheel.cur_wheel_tick w + 1) at_ Hcf Hsane). lia.
  - intros last Hlast Hle. pose proof (tick_round w last Hcf Hlast).
    pose proof (proj2 (instant_of_mono w (Wheel.cur_wheel_tick w + 1) (tick_of w last + 2) Hcf) ltac:(lia)).
    unfold tick, instant_of in *. lia.
Qed.

(** C25. [Wheel::cancel] never panics: the token becomes vacant whether it was
    armed (in any position of its list, under the cursor or not), only reserved
    or vacant already; no other token changes. *)
Theorem cancel_only w t : wf w →
  ∃ w', Wheel.cancel w t = Ok w' ∧ wf w'
    ∧ Wheel.cur_wheel_tick w' = Wheel.cur_wheel_tick w
    ∧ ∀ x, status w' x = if decide (x = t) then Vacant else status w x.
Proof.
  intros Hwf. destruct (cancel_spec w t Hwf) as (w' & ? & ? & _ & ? & _ & ?). by exists w'.
Qed.

(** [Wheel::reserve] gives a vacant token and reserves it, growing the slab
    when it is full; it returns [None], and changes nothing, only when the slab is
    full and either is empty or holds [max_capacity] entries; it panics when a
    full slab already holds more than [max_capacity] entries. *)
Theorem reserve_grows w : wf w → 0 ≤ Wheel.max_capacity w ≤ I64_MAX →
  if decide (Wheel.available w = 0 ∧ Wheel.max_capacity w < len (Wheel.slab w))
  then Wheel.reserve w = Panic
  else ∃ r w', Wheel.reserve w = Ok (r, w') ∧ wf w'
    ∧ match r with
      | Some t => status w t = Vacant
          ∧ ∀ x, status w' x = if decide (x = t) then Held else status w x
      | None => w' = w ∧ Wheel.available w = 0
          ∧ (len (Wheel.slab w) = 0 ∨ len (Wheel.slab w) = Wheel.max_capacity w)
      end.
Proof.
  intros Hwf Hmax. unfold Wheel.available. case_decide as Hfull.
  - destruct Hfull as [Ha Hlen]. unfold Wheel.reserve.
    apply vacant_entry_full in Ha as ->. unfold sub64. by rewrite decide_False by lia.
  - destruct (reserve_spec w Hwf Hmax) as (r & w' & ? & ? & _ & _ & Hr); [lia|]. exists r, w'.
    split_and!; [done..|]. destruct r; naive_solver.
Qed.

(** C36. After a poll that advanced to [at] and returned [None],
    [Wheel::next_timeout] is a lower bound of the instants of all the timers
    that are armed, and is [None] only if there is no timer: a client that sleeps
    until that instant oversleeps no timer. *)
Theorem next_timeout_bound w at_ w' : wf w → sane w at_ →
  Wheel.cur_wheel_tick w ≤ tick_of w at_ → Wheel.poll w at_ = Ok (None, w') →
  ∀ t task k, status w' t = Armed task k →
    ∃ m, Wheel.next_timeout w' = Some m ∧ m ≤ instant_of w' k.
Proof.
  intros Hwf Hsane Hle Hrun t task k Ht.
  destruct (poll_spec w at_ Hwf Hsane) as (r & w1 & Hrun' & Hwf' & _ & Hr).
  rewrite Hrun in Hrun'. injection Hrun' as <- <-. destruct Hr as (_ & _ & _ & Hcov & _).
  apply status_armed in Ht. destruct Hwf' as (ls & rem & Hc & _).
  destruct (armed_core _ _ _ _ _ _ Hc Ht) as (_ & _ & Htm).
  destruct (Hcov Hle _ _ _ _ Htm) as (s & nt & Hs & Hnt & Hle').
  pose proof (next_timeout_spec w') as Hn.
  destruct (Wheel.next_timeout w') as [m|].
  - exists m. split; [done|]. specialize (Hn _ _ _ Hs Hnt). lia.
  - by rewrite (Hn _ _ Hs) in Hnt.
Qed.
End properties.

(** [millis] is the number of milliseconds of a duration rounded up, and
    [u64::MAX] when it does not fit: the [u32] sum of the nanoseconds cannot
    overflow and a saturated product stays saturated. *)
Theorem millis_rounds_up d : Duration.valid d →
  millis d = Z.min ((d + 999999) / 1000000) U64_MAX
  ∧ Duration.subsec_nanos d + 1000000 - 1 ≤ U32_MAX.
Proof.
  intros [Hd _]. unfold millis, saturated, Duration.as_secs, Duration.subsec_nanos,
    Duration.NANOS_PER_SEC, U32_MAX.
  pose proof (Z.mod_pos_bound d 1000000000) as Hm. split; [|lia].
  assert ((d + 999999) / 1000000
    = d / 1000000000 * 1000 + (d mod 1000000000 + 1000000 - 1) / 1000000) as ->.
  { rewrite <- Z.div_add_l by lia. f_equal.
    pose proof (Z.div_mod d 1000000000). lia. }
  assert (0 ≤ (d mod 1000000000 + 1000000 - 1) / 1000000) by (apply Z.div_pos; lia).
  unfold U64_MAX. lia.
Qed.

(** ** A small wheel

    Four slots, ticks of 250 ms, room for two entries that may grow to three. *)
Definition small : Builder.t := configure
  [TickDuration (Duration.from_millis 250); NumSlots 4; InitialCapacity 2; ChannelCapacity 2;
   MaxCapacity 3].



Definition free_slot : Slot.t := Slot.mk EMPTY None.

(** Just made; with the token 0 reserved; with it armed for the tick 2. *)
Definition wheel0 : Wheel.t (list (option Entry.t)) :=
  Wheel.mk (replicate 4 free_slot) [None; None] 0 0 EMPTY 3 250 3.
Definition wheel1 : Wheel.t (list (option Entry.t)) := Wheel.set_slab wheel0 [Some Entry.Reserved; None].
Definition wheel2 : Wheel.t (list (option Entry.t)) :=
  Wheel.set_slab (Wheel.set_wheel wheel0
    [free_slot; free_slot; Slot.mk 0 (Some (ms 500)); free_slot])
    [Some (Entry.Timeout (Timeout.mk 71 (ms 500) 2 EMPTY EMPTY)); None].

Lemma small_usable : usable small 0.
Proof.
  split; [exists 2|..]; (split; [|try split]); by vm_compute.
Qed.

Lemma wheel0_wf : wf wheel0.
Proof.
  destruct (new_spec (S:=list (option Entry.t)) small 0 small_usable) as (w & Hw & Hwf & _).
  vm_compute in Hw. injection Hw as <-. exact Hwf.
Qed.

Lemma wheel1_wf : wf wheel1.
Proof.
  destruct (reserve_spec wheel0 wheel0_wf) as (r & w & Hw & Hwf & _); [by split|done|].
  vm_compute in Hw. injection Hw as <- <-. exact Hwf.
Qed.

Lemma wheel2_wf : wf wheel2.
Proof.
  destruct (set_timeout_spec wheel1 0 (ms 600) 71 wheel1_wf) as (w & Hw & Hwf & _);
    [done|by split|by vm_compute|].
  vm_compute in Hw. injection Hw as <-. exact Hwf.
Qed.

(** [wheel1] polled at instant 0 *)
Definition polled1 : Wheel.t (list (option Entry.t)) := Wheel.set_cur_wheel_tick wheel1 1.

Lemma polled1_wf : wf polled1.
Proof.
  destruct (poll_spec wheel1 0 wheel1_wf) as (r & w & Hw & Hwf & _); [by split|].
  vm_compute in Hw. injection Hw as <- <-. exact Hwf.
Qed.

Lemma wheel0_status x : status wheel0 x = Vacant.
Proof.
  destruct (new_spec (S:=list (option Entry.t)) small 0 small_usable) as (w & Hw & _ & Hst & _).
  vm_compute in Hw. injection Hw as <-. exact (Hst x).
Qed.

Lemma wheel2_status x : status wheel2 x = if decide (x = 0) then Armed 71 2 else Vacant.
Proof.
  destruct (reserve_spec wheel0 wheel0_wf) as (r & w1 & Hw1 & _ & _ & _ & Hst1); [by split|done|].
  vm_compute in Hw1. injection Hw1 as <- <-. destruct Hst1 as (_ & _ & Hst1).
  destruct (set_timeout_spec wheel1 0 (ms 600) 71 wheel1_wf) as (w2 & Hw2 & _ & _ & _ & _ & Hst2);
    [done|by split|by vm_compute|].
  vm_compute in Hw2. injection Hw2 as <-. etrans; [exact (Hst2 x)|].
  case_decide; [done|]. etrans; [exact (Hst1 x)|]. rewrite decide_False by done.
  apply wheel0_status.
Qed.

Lemma new_checks_slots_witness :
  0 ≤ Builder.get_num_slots (Builder.num_slots small 12)
  ∧ Wheel.new (S:=list (option Entry.t)) (Builder.num_slots small 12) 0 = Panic.
Proof.
  split; [by vm_compute|]. apply new_checks_slots; [by vm_compute|].
  intros (p & Hp & He). change (Builder.get_num_slots _) with 12 in He.
  assert (p < 4 ∨ 4 ≤ p) as [Hlt|Hge] by lia.
  - assert (p = 0 ∨ p = 1 ∨ p = 2 ∨ p = 3) as [->|[->|[->| ->]]] by lia; done.
  - pose proof (Z.pow_le_mono_r 2 4 p). lia.
Defined.

Lemma new_wheel_witness : usable small 0
  ∧ ∃ w : Wheel.t (list (option Entry.t)), Wheel.new small 0 = Ok w ∧ wf w ∧ Wheel.available w = 2.
Proof.
  split; [apply small_usable|].
  destruct (new_wheel (S:=list (option Entry.t)) small 0 small_usable)
    as (w & Hw & Hwf & _ & _ & Hav & _).
  exists w. split_and!; [exact Hw|exact Hwf|exact Hav].
Defined.

Lemma wheel_poll_witness : wf wheel2 ∧ sane wheel2 (ms 700)
  ∧ ∃ w', Wheel.poll wheel2 (ms 700) = Ok (Some 71, w') ∧ wf w' ∧ status w' 0 = Vacant.
Proof.
  split; [apply wheel2_wf|]. split; [by split|].
  destruct (wheel_poll wheel2 (ms 700) wheel2_wf) as (r & w' & Hw & Hwf & _); [by split|].
  vm_compute in Hw. injection Hw as <- <-. eexists. split_and!; [by vm_compute|exact Hwf|done].
Defined.

Lemma set_timeout_arms_witness : wf wheel1 ∧ status wheel1 0 = Held
  ∧ ∃ w', Wheel.set_timeout wheel1 0 (ms 600) 71 = Ok w' ∧ status w' 0 = Armed 71 2.
Proof.
  split; [apply wheel1_wf|]. split; [done|].
  destruct (set_timeout_arms wheel1 0 (ms 600) 71 wheel1_wf) as (w' & Hw & _ & _ & Hst);
    [done|by split|by vm_compute|].
  exists w'. split; [exact Hw|]. exact (Hst 0).
Defined.

(** The timer asked for 600 ms is due at 500 ms; one that is asked for 250 ms after a
    poll at 0 ms, when the cursor is at tick 1, is due at 500 ms. *)
Lemma timer_precision_witness :
  (status wheel2 0 = Armed 71 2 ∧ instant_of wheel1 2 = ms 500 ∧ ms 600 < ms 500 + ms 250)
  ∧ ∃ w', Wheel.set_timeout polled1 0 (ms 250) 71 = Ok w'
    ∧ status w' 0 = Armed 71 2 ∧ instant_of wheel1 2 ≤ 0 + 2 * ms 250.
Proof.
  split.
  - destruct (timer_precision wheel1 0 (ms 600) 71 wheel2 wheel1_wf) as (Hst & Hlt & _);
      [done|by split|by vm_compute..|].
    split; [exact Hst|]. split; [by vm_compute|exact Hlt].
  - destruct (set_timeout_spec polled1 0 (ms 250) 71 polled1_wf) as (w' & Hw' & _);
      [done|by split|by vm_compute|].
    exists w'. split; [exact Hw'|].
    destruct (timer_precision polled1 0 (ms 250) 71 w' polled1_wf) as (Hst & _ & _ & Hlate);
      [done|by split|by vm_compute|exact Hw'|].
    split; [exact Hst|]. destruct Hlate as (_ & _ & Hlate).
    apply (Hlate 0); [by split|by vm_compute].
Defined.

Lemma cancel_only_witness : wf wheel2
  ∧ ∃ w', Wheel.cancel wheel2 0 = Ok w' ∧ status w' 0 = Vacant.
Proof.
  split; [apply wheel2_wf|].
  destruct (cancel_only wheel2 0 wheel2_wf) as (w' & Hw & _ & _ & Hst).
  exists w'. split; [exact Hw|]. exact (Hst 0).
Defined.

Lemma reserve_grows_witness : wf wheel1 ∧ 0 ≤ Wheel.max_capacity wheel1 ≤ I64_MAX
  ∧ ∃ r w', Wheel.reserve wheel1 = Ok (r, w') ∧ wf w'.
Proof.
  split; [apply wheel1_wf|]. split; [by split|].
  pose proof (reserve_grows wheel1 wheel1_wf) as Hr.
  rewrite decide_False in Hr by (by vm_compute; intros []).
  destruct Hr as (r & w' & Hw & Hwf & _); [by split|]. by exists r, w'.
Defined.

Lemma next_timeout_bound_witness : wf wheel2 ∧ sane wheel2 (ms 300)
  ∧ ∃ w', Wheel.poll wheel2 (ms 300) = Ok (None, w') ∧ Wheel.next_timeout w' = Some (ms 500)
  ∧ ∃ m, Wheel.next_timeout w' = Some m ∧ m ≤ instant_of w' 2.
Proof.
  split; [apply wheel2_wf|]. split; [by split|].
  eexists. split; [by vm_compute|]. split; [by vm_compute|].
  apply (next_timeout_bound wheel2 (ms 300) _ wheel2_wf) with (t := 0) (task := 71);
    [by split|by vm_compute|by vm_compute|by vm_compute].
Defined.

Lemma millis_rounds_up_witness : Duration.valid 1500001 ∧ millis 1500001 = 2
  ∧ Duration.subsec_nanos 1500001 + 1000000 - 1 ≤ U32_MAX.
Proof.
  split; [by split|]. destruct (millis_rounds_up 1500001) as [Hm Hu]; [by split|].
  split; [exact Hm|exact Hu].
Defined.

(** ** Observations on small runs *)

(** A timer at tick 2 and one at tick 6 share the slot 2 of a wheel of four; at
    700 ms only the first fires, and the second is due from 1500 ms. *)
Definition two_timers : outcome Empty_set (Wheel.t (list (option Entry.t))) :=
  w ← Wheel.new small 0;
  '(a, w) ← Wheel.reserve w;
  w ← Wheel.set_timeout w (default 0 a) (ms 500) 71;
  '(b, w) ← Wheel.reserve w;
  Wheel.set_timeout w (default 0 b) (ms 1600) 72.

Example two_timers_fire :
  (w ← two_timers; Wheel.poll w (ms 700) ≫= λ r,
   Wheel.poll r.2 (ms 700) ≫= λ q,
   Wheel.poll q.2 (ms 1600) ≫= λ p,
   Ok (r.1, q.1, Wheel.next_timeout q.2, p.1)) = Ok (Some 71, None, Some (ms 1500), Some 72).
Proof. vm_compute. reflexivity. Qed.

(** The maximal capacity is not enforced on the room there is from the start:
    with room for two entries and a maximal capacity of one, both are given. *)
Example max_capacity_not_enforced :
  (w ← Wheel.new (S:=list (option Entry.t)) (Builder.max_capacity small 1) 0;
   '(a, w) ← Wheel.reserve w;
   '(b, w) ← Wheel.reserve w;
   Ok (a, b, len (Wheel.slab w), Wheel.max_capacity w)) = Ok (Some 0, Some 1, 2, 1).
Proof. vm_compute. reflexivity. Qed.

(** [next_timeout] can name an instant that has passed when no timer is due: a
    timer put before the one the cursor stands on keeps the slot's old minimum
    from being cleared.  At 300 ms only the timer of tick 5 (1250 ms) is left,
    and [next_timeout] says 250 ms. *)
Example next_timeout_stale :
  ('(_, w) ← Wheel.reserve wheel0;
   w ← Wheel.set_timeout w 0 (ms 250) 71;
   '(_, w) ← Wheel.poll w 0;
   '(_, w) ← Wheel.reserve w;
   w ← Wheel.set_timeout w 1 (ms 1250) 72;
   '(fired, w) ← Wheel.poll w (ms 300);
   '(none, w) ← Wheel.poll w (ms 300);
   Ok (fired, none, Wheel.next_timeout w, status w 1))
  = Ok (Some 71, None, Some (ms 250), Armed 72 5).
Proof. vm_compute. reflexivity. Qed.
