(* ===== verification/StdText.v ===== *)
(** * Text functions of the standard library

    What the resolver's configuration reader uses of [std::str] and [std::net]:
    [lines], [split_whitespace], [starts_with] and the parser of [IpAddr].  A
    string is the list of its UTF-8 bytes, as everywhere in this development. *)
From S2P Require Import Prelude.
Local Open Scope Z_scope.

(** [str::lines]: the pieces between line feeds, without a final empty one; a
    carriage return before a line feed belongs to the line end. *)
Definition strip_cr (l : list Z) : list Z :=
  match last l with Some 13 => take (length l - 1) l | _ => l end.

Fixpoint lines_from (l cur : list Z) : list (list Z) :=
  match l with
  | [] => match cur with [] => [] | _ => [cur] end
  | b :: l => if b =? 10 then strip_cr cur :: lines_from l [] else lines_from l (cur ++ [b])
  end.
Definition lines (s : list Z) : list (list Z) := lines_from s [].

(** The number of bytes of the whitespace character ([char::is_whitespace]) at
    the front of a string, 0 if there is none. *)
Definition whitespace_width (l : list Z) : nat :=
  match l with
  | 0xC2 :: b :: _ => if (b =? 0x85) || (b =? 0xA0) then 2%nat else 0%nat
  | 0xE1 :: 0x9A :: 0x80 :: _ => 3%nat
  | 0xE2 :: 0x80 :: b :: _ =>
      if ((0x80 <=? b) && (b <=? 0x8A)) || (b =? 0xA8) || (b =? 0xA9) || (b =? 0xAF)
      then 3%nat else 0%nat
  | 0xE2 :: 0x81 :: 0x9F :: _ => 3%nat
  | 0xE3 :: 0x80 :: 0x80 :: _ => 3%nat
  | b :: _ => if ((9 <=? b) && (b <=? 13)) || (b =? 32) then 1%nat else 0%nat
  | [] => 0%nat
  end.

(** [str::split_whitespace]: the words, none of them empty.  [skip] is what is
    left of the whitespace character that is being passed. *)
Definition emit (word : list Z) (words : list (list Z)) : list (list Z) :=
  match word with [] => words | _ => word :: words end.

Fixpoint words_from (l : list Z) (skip : nat) (word : list Z) : list (list Z) :=
  match l with
  | [] => emit word []
  | b :: l' =>
    match skip with
    | S skip => words_from l' skip word
    | O =>
      match whitespace_width l with
      | O => words_from l' 0 (word ++ [b])
      | S skip => emit word (words_from l' skip [])
      end
    end
  end.
Definition split_whitespace (s : list Z) : list (list Z) := words_from s 0 [].

(** [str::starts_with] *)
Fixpoint starts_with (s prefix : list Z) : bool :=
  match prefix, s with
  | [], _ => true
  | p :: prefix, b :: s => (p =? b) && starts_with s prefix
  | _ :: _, [] => false
  end.

(** ** [IpAddr::from_str]

    The address types: an [Ipv4Addr] is its 32-bit value, an [Ipv6Addr] its eight
    segments.  A reader takes a prefix of the input or nothing. *)
Inductive IpAddr := V4 (ip : Z) | V6 (segments : list Z).

#[export] Instance IpAddr_eq_dec : EqDecision IpAddr.
Proof. solve_decision. Defined.

Definition reader (A : Type) : Type := list Z → option (A * list Z).

Definition to_digit (radix b : Z) : option Z :=
  let d := if (48 <=? b) && (b <=? 57) then Some (b - 48)
           else if (97 <=? b) && (b <=? 122) then Some (b - 87)
           else if (65 <=? b) && (b <=? 90) then Some (b - 55) else None in
  match d with Some d => if d <? radix then Some d else None | None => None end.

Fixpoint read_digits (radix bound : Z) (max_digits : nat) (l : list Z) (acc : Z) (count : nat)
    : option (Z * nat * list Z) :=
  match l with
  | [] => Some (acc, count, [])
  | b :: l' =>
    match to_digit radix b with
    | None => Some (acc, count, l)
    | Some d =>
      if (acc * radix + d <? bound) && (S count <=? max_digits)%nat
      then read_digits radix bound max_digits l' (acc * radix + d) (S count) else None
    end
  end.

(** [read_number]: at most [max_digits] digits of a number below [bound] *)
Definition read_number (radix bound : Z) (max_digits : nat) (allow_zero_prefix : bool)
    : reader Z := λ l,
  '(n, count, rest) ← read_digits radix bound max_digits l 0 0;
  if (count =? 0)%nat then None
  else if negb allow_zero_prefix && starts_with l [48] && (1 <? count)%nat then None
  else Some (n, rest).

Definition read_given_char (c : Z) : reader unit := λ l,
  match l with b :: l => if b =? c then Some (tt, l) else None | [] => None end.

(** [read_separator]: the separator stands before each item but the first *)
Definition read_separator {A} (sep : Z) (index : nat) (inner : reader A) : reader A := λ l,
  match index with
  | O => inner l
  | S _ => '(_, l) ← read_given_char sep l; inner l
  end.

Definition read_octet (index : nat) : reader Z :=
  read_separator 46 index (read_number 10 256 3 false).

Definition read_ipv4 : reader Z := λ l,
  '(a, l) ← read_octet 0 l;
  '(b, l) ← read_octet 1 l;
  '(c, l) ← read_octet 2 l;
  '(d, l) ← read_octet 3 l;
  Some (a * 2 ^ 24 + b * 2 ^ 16 + c * 2 ^ 8 + d, l).

(** [read_groups] on the array that starts at group [i] with [left] groups left:
    the groups it read, whether the last two are an IPv4 address, the rest *)
Fixpoint read_groups (left i : nat) (l : list Z) : list Z * bool * list Z :=
  match left with
  | O => ([], false, l)
  | S left' =>
    match (if (1 <? left)%nat then read_separator 58 i read_ipv4 l else None) with
    | Some (ip, rest) => ([ip / 65536; ip mod 65536], true, rest)
    | None =>
      match read_separator 58 i (read_number 16 65536 4 true) l with
      | Some (g, rest) =>
        let '(gs, v4, rest) := read_groups left' (S i) rest in (g :: gs, v4, rest)
      | None => ([], false, l)
      end
    end
  end.

Definition read_ipv6 : reader (list Z) := λ l,
  let '(head, head_v4, rest) := read_groups 8 0 l in
  if (length head =? 8)%nat then Some (head, rest)
  else if head_v4 then None
  else
    '(_, l) ← read_given_char 58 rest;
    '(_, l) ← read_given_char 58 l;
    let '(tail, _, rest) := read_groups (8 - (length head + 1)) 0 l in
    Some (head ++ replicate (8 - length head - length tail) 0 ++ tail, rest).

(** [s.parse::<IpAddr>()], [None] for [AddrParseError] *)
Definition parse_ip (s : list Z) : option IpAddr :=
  match read_ipv4 s with
  | Some (ip, rest) => if decide (rest = []) then Some (V4 ip) else None
  | None =>
    match read_ipv6 s with
    | Some (segments, rest) => if decide (rest = []) then Some (V6 segments) else None
    | None => None
    end
  end.

(** ** Text in a program *)
From Stdlib Require Import Ascii String.

Definition text (s : string) : list Z :=
  map (λ a, Z.of_N (N_of_ascii a)) (list_ascii_of_string s).

Example parse_ip_examples :
  map parse_ip [text "8.8.8.8"; text "1.2.3"; text "1.2.3.256"; text "01.2.3.4";
                text "::1"; text "fe80::1:2"; text "1:2:3:4:5:6:7:8"; text "::ffff:1.2.3.4";
                text "1:2"; text "1::2%lo"; text "8.8.8.8 "]
  = [Some (V4 134744072); None; None; None; Some (V6 [0; 0; 0; 0; 0; 0; 0; 1]);
     Some (V6 [65152; 0; 0; 0; 0; 0; 1; 2]); Some (V6 [1; 2; 3; 4; 5; 6; 7; 8]);
     Some (V6 [0; 0; 0; 0; 0; 65535; 258; 772]); None; None; None].
Proof. vm_compute. reflexivity. Qed.

Example words_example :
  map split_whitespace (lines (text " nameserver  8.8.8.8
# x

b"))
  = [[text "nameserver"; text "8.8.8.8"]; [text "#"; text "x"]; []; [text "b"]].
Proof. vm_compute. reflexivity. Qed.

(** ** Writing an IPv4 address *)
Definition digit_text (n : Z) : list Z :=
  if n <? 10 then [48 + n]
  else if n <? 100 then [48 + n / 10; 48 + n mod 10]
  else [48 + n / 100; 48 + n / 10 mod 10; 48 + n mod 10].

Definition show_ipv4 (ip : Z) : list Z :=
  digit_text (ip / 2 ^ 24) ++ 46 :: digit_text (ip / 2 ^ 16 mod 256) ++
  46 :: digit_text (ip / 2 ^ 8 mod 256) ++ 46 :: digit_text (ip mod 256).

(** No digit at the front, as after a number. *)
Definition no_digit (l : list Z) : Prop :=
  match l with [] => True | b :: _ => to_digit 10 b = None end.

Lemma read_digits_stop radix bound m l acc count : radix = 10 → no_digit l →
  read_digits radix bound m l acc count = Some (acc, count, l).
Proof. intros ->. destruct l as [|b l]; [done|]. cbn. by intros ->. Qed.

Lemma to_digit_decimal d : 0 ≤ d < 10 → to_digit 10 (48 + d) = Some d.
Proof.
  intros Hd. unfold to_digit. rewrite (proj2 (Z.leb_le _ _)), (proj2 (Z.leb_le _ _)) by lia.
  cbn. rewrite (proj2 (Z.ltb_lt _ _)) by lia. f_equal. lia.
Qed.

Lemma read_digits_step bound m d l acc count : 0 ≤ d < 10 → acc * 10 + d < bound →
  (count < m)%nat →
  read_digits 10 bound m (48 + d :: l) acc count = read_digits 10 bound m l (acc * 10 + d) (S count).
Proof.
  intros Hd Hb Hm. cbn [read_digits]. rewrite to_digit_decimal by done.
  rewrite (proj2 (Z.ltb_lt _ _)) by done. rewrite (proj2 (Nat.leb_le _ _)) by lia. done.
Qed.

Lemma read_digit_text n rest : 0 ≤ n < 256 → no_digit rest →
  read_number 10 256 3 false (digit_text n ++ rest) = Some (n, rest).
Proof.
  intros Hn Hrest. unfold read_number, digit_text.
  pose proof (Z.div_mod n 10). pose proof (Z.mod_pos_bound n 10).
  pose proof (Z.div_mod n 100). pose proof (Z.mod_pos_bound n 100).
  assert (n / 10 = 10 * (n / 100) + n / 10 mod 10) as Htens.
  { rewrite (Z.div_mod (n / 10) 10) at 1 by lia. by rewrite Z.div_div by lia. }
  pose proof (Z.mod_pos_bound (n / 10) 10).
  destruct (Z.ltb_spec n 10); [|destruct (Z.ltb_spec n 100)]; cbn [app].
  - rewrite !read_digits_step, read_digits_stop by (done || lia). cbn [mbind option_bind].
    cbn [starts_with Nat.eqb Nat.ltb Nat.leb negb andb]. rewrite andb_false_r. do 2 f_equal; lia.
  - assert (n / 100 = 0) by (apply Z.div_small; lia).
    rewrite !read_digits_step, read_digits_stop by (done || lia). cbn [mbind option_bind].
    cbn [starts_with Nat.eqb Nat.ltb Nat.leb negb andb].
    replace (48 =? 48 + n / 10) with false by lia. cbn [andb]. do 2 f_equal; lia.
  - rewrite !read_digits_step, read_digits_stop by (done || lia). cbn [mbind option_bind].
    cbn [starts_with Nat.eqb Nat.ltb Nat.leb negb andb].
    replace (48 =? 48 + n / 100) with false by lia. cbn [andb]. do 2 f_equal; lia.
Qed.

Lemma parse_show_ipv4 ip : u32 ip → parse_ip (show_ipv4 ip) = Some (V4 ip).
Proof.
  intros Hip. unfold u32 in Hip.
  assert (read_ipv4 (show_ipv4 ip) = Some (ip, [])) as Hr; [|unfold parse_ip; by rewrite Hr].
  unfold read_ipv4, show_ipv4, read_octet, read_separator.
  pose proof (Z.mod_pos_bound (ip / 2 ^ 16) 256). pose proof (Z.mod_pos_bound (ip / 2 ^ 8) 256).
  pose proof (Z.mod_pos_bound ip 256).
  assert (0 ≤ ip / 2 ^ 24 < 256) by (split; [apply Z.div_pos|apply Z.div_lt_upper_bound]; lia).
  rewrite read_digit_text by done. cbn [mbind option_bind]. cbn [read_given_char mbind option_bind].
  change (46 =? 46) with true. cbn [mbind option_bind].
  rewrite read_digit_text by (done || lia). cbn [mbind option_bind read_given_char].
  change (46 =? 46) with true. cbn [mbind option_bind].
  rewrite read_digit_text by (done || lia). cbn [mbind option_bind read_given_char].
  change (46 =? 46) with true. cbn [mbind option_bind].
  rewrite <- (app_nil_r (digit_text (ip mod 256))), read_digit_text by (done || lia).
  cbn [mbind option_bind]. do 2 f_equal.
  change (2 ^ 24) with (2 ^ 16 * 256). change (2 ^ 16) with (2 ^ 8 * 256).
  change (2 ^ 8) with 256. rewrite <- !Z.div_div by lia.
  pose proof (Z.div_mod ip 256). pose proof (Z.div_mod (ip / 256) 256).
  pose proof (Z.div_mod (ip / 256 / 256) 256). lia.
Qed.
