(* ===== verification/Resolver.v ===== *)
(** * The DNS client (src/dns.rs)

    [dns_parse] takes the address out of a response.  [Dns] is the portable
    client, compiled on every target but macOS: a list of server addresses and
    the sending of a query to them in turn.  Its servers come from the text of
    [/etc/resolv.conf].

    The random numbers ([rand]) and the UDP sockets ([mio]) are third-party code:
    they are the operations of the class [Network] on a state [W] of the outside
    world.  The client of macOS is in DnsMac. *)
From stdpp Require Import strings.
From S2P Require Import Prelude Clock ByteOrder DnsEnums DnsHeader DnsName DnsRData DnsPacket.
From S2P Require Import DnsBuilder StdText.
Local Open Scope Z_scope.

Section parse.
Context `{!BigEndian}.

(** The loop over the answers. *)
Fixpoint first_address (answers : list ResourceRecord.t) : option IpAddr :=
  match answers with
  | [] => None
  | a :: answers =>
    match ResourceRecord.data a with
    | RRData.A ip => Some (V4 ip)
    | RRData.AAAA ip => Some (V6 ip)
    | _ => first_address answers
    end
  end.

Definition dns_parse (buf : list Z) : outcome Empty_set (option IpAddr) :=
  packet ← unwrap (Packet.parse buf);
  Ok (first_address (Packet.answers packet)).
End parse.

(** ** The server list *)
Definition NAMESERVER : list Z := text "nameserver".
Definition NAMESERVER_BRACKET : list Z := text "nameserver[".

Definition get_google : outcome Empty_set (list IpAddr) :=
  a ← expect (parse_ip (text "8.8.8.8"));
  b ← expect (parse_ip (text "8.8.4.4"));
  Ok [a; b].

(** One line: the words are taken from the iterator one after the other. *)
Definition resolv_line (line : list Z) : option IpAddr :=
  match split_whitespace line with
  | s :: words =>
    if starts_with s NAMESERVER then
      match words with
      | s :: _ => parse_ip s
      | [] => None
      end
    else None
  | [] => None
  end.

Definition resolv_parse (s : list Z) : list IpAddr := omap resolv_line (lines s).

Definition scutil_line (line : list Z) : option IpAddr :=
  match split_whitespace line with
  | s :: words =>
    if starts_with s NAMESERVER_BRACKET then
      match words with
      | s :: words =>
        if decide (s = text ":") then
          match words with
          | s :: _ => parse_ip s
          | [] => None
          end
        else None
      | [] => None
      end
    else None
  | [] => None
  end.

Definition scutil_parse (s : list Z) : list IpAddr := omap scutil_line (lines s).

(** [get_dns_servers] on Unix; [file] is what opening and reading
    [/etc/resolv.conf] as UTF-8 gives. *)
Definition get_dns_servers (file : option (list Z)) : outcome Empty_set (list IpAddr) :=
  match file with
  | Some contents => Ok (resolv_parse contents)
  | None => get_google
  end.

(** ** Sending a query *)
Class Network (W Sock IoError : Type) := {
  (** [rand::random::<u16>()] *)
  random : W → Z * W;
  (** [UdpSocket::bind] to an address and the port 0 *)
  udp_bind : W → IpAddr → (Sock + IoError) * W;
  (** [sock.send_to(buf, addr:port)]: the error, if any *)
  send_to : W → Sock → list Z → IpAddr → Z → option IoError * W;
  (** [io::Error::new(io::ErrorKind::Other, "")] *)
  other_error : IoError
}.

Class NetworkLaws W Sock IoError `{Network W Sock IoError} := {
  random_u16 : ∀ w, u16 (random w).1
}.

Module Dns.
Record t := mk { srvs : list IpAddr }.

Section ops.
Context `{!BigEndian} {W Sock IoError : Type} `{!Network W Sock IoError}.
Implicit Types (d : t) (w : W) (sock : Sock).

Definition new (file : option (list Z)) : outcome Empty_set t :=
  s ← get_dns_servers file; Ok (mk s).

(** The buffer of 512 bytes, the query written into it, and the part that is
    sent.  The results of [start] and [add_question] are ignored. *)
Definition query (id : Z) (host : list Z) : outcome Empty_set (list Z) :=
  '(b, _) ← unwrap (Builder.start (Builder.new (replicate 512 0)) id true);
  '(b, _) ← unwrap (Builder.add_question b host QueryType.A QueryClass.IN);
  slice_to (Builder.buf b) (Builder.finish b).

(** [for _ in 0..len_srvs] *)
Fixpoint lookup_loop (n : nat) d w sock (pos : Z) (host : list Z) (last_err : IoError)
    : outcome Empty_set ((unit + IoError) * W) :=
  match n with
  | O => Ok (inr last_err, w)
  | S n =>
    let srv := Z.to_nat (pos mod Z.of_nat (length (srvs d))) in
    pos ← add64 pos 1;
    sockaddr ← index (srvs d) srv;
    let '(id, w) := random w in
    buf_send ← query id host;
    match send_to w sock buf_send sockaddr 53 with
    | (None, w) => Ok (inl tt, w)
    | (Some e, w) => lookup_loop n d w sock pos host e
    end
  end.

Definition lookup_on d w sock (pos : Z) (host : list Z)
    : outcome Empty_set ((unit + IoError) * W) :=
  lookup_loop (length (srvs d)) d w sock pos host other_error.

Definition get_socket_v4 w : (Sock + IoError) * W := udp_bind w (V4 0).
Definition get_socket_v6 w : (Sock + IoError) * W := udp_bind w (V6 [0; 0; 0; 0; 0; 0; 0; 0]).

(** [io::Result<Option<UdpSocket>>]: this client always returns [Some] socket. *)
Definition start_lookup d w (host : list Z)
    : outcome Empty_set ((option Sock + IoError) * W) :=
  let over_v6 w :=
    match get_socket_v6 w with
    | (inl s, w) =>
      '(r, w) ← lookup_on d w s 0 host;
      match r with
      | inl _ => Ok (inl (Some s), w)
      | inr e => Ok (inr e, w)
      end
    | (inr e, w) => Ok (inr e, w)
    end in
  match get_socket_v4 w with
  | (inl sock, w) =>
    '(r, w) ← lookup_on d w sock 0 host;
    match r with
    | inl _ => Ok (inl (Some sock), w)
    | inr _ => over_v6 w
    end
  | (inr _, w) => over_v6 w
  end.

Definition check_result d : option (Z * Z * IpAddr) := None.
End ops.
End Dns.

(** ** Responses *)

(** The address a record carries. *)
Definition address_of (r : ResourceRecord.t) : option IpAddr :=
  match ResourceRecord.data r with
  | RRData.A ip => Some (V4 ip)
  | RRData.AAAA ip => Some (V6 ip)
  | _ => None
  end.

Lemma first_address_cases answers :
  match first_address answers with
  | Some ip => ∃ pre r post, answers = pre ++ r :: post ∧ address_of r = Some ip
      ∧ Forall (λ r, address_of r = None) pre
  | None => Forall (λ r, address_of r = None) answers
  end.
Proof.
  induction answers as [|a answers IH]; [by constructor|]. cbn [first_address].
  unfold address_of in *. destruct (ResourceRecord.data a) as [] eqn:Ha.
  all: try (by exists [], a, answers; cbn; rewrite Ha).
  all: destruct (first_address answers) as [ip|];
    [destruct IH as (pre & r & post & -> & Hr & Hpre); exists (a :: pre), r, post;
      split_and!; [done|done|constructor; [by rewrite Ha|done]]
    |constructor; [by rewrite Ha|done]].
Qed.

Section responses.
Context `{!BigEndian}.

(** C28. [dns_parse] on any datagram either panics or returns.  It panics exactly
    when the datagram is not a packet the parser accepts ([Packet::parse] is
    unwrapped); otherwise it returns the address of the first answer of type A or
    AAAA, in the order of the packet, or [None] when there is no such answer. *)
Theorem dns_parse_cases buf : bytes buf →
  (∃ err, Packet.parse buf = Err err ∧ dns_parse buf = Panic)
  ∨ ∃ p, Packet.parse buf = Ok p ∧
      ((∃ pre r post ip, Packet.answers p = pre ++ r :: post ∧ address_of r = Some ip
          ∧ Forall (λ r, address_of r = None) pre ∧ dns_parse buf = Ok (Some ip))
      ∨ (Forall (λ r, address_of r = None) (Packet.answers p) ∧ dns_parse buf = Ok None)).
Proof.
  intros Hb. pose proof (packet_parse_ensures buf Hb) as Hp. unfold dns_parse.
  destruct (Packet.parse buf) as [p|err| |]; [|by left; exists err|done|done].
  right. exists p. split; [done|]. mstep. pose proof (first_address_cases (Packet.answers p)) as Hc.
  destruct (first_address _) as [ip|]; [left|by right].
  destruct Hc as (pre & r & post & ? & ? & ?). by exists pre, r, post, ip.
Qed.

(** An answer record that points to the name of the question: type A, class IN. *)
Definition a_answer (t0 t1 t2 t3 a b c d : Z) : list Z :=
  [192; 12; 0; 1; 0; 1; t0; t1; t2; t3; 0; 4; a; b; c; d].

Lemma parse_a_answer head ls q t0 t1 t2 t3 a b c d :
  length head = 12%nat → Forall good_label ls →
  let pre := head ++ labels_encoding ls ++ 0 :: q in
  let data := pre ++ a_answer t0 t1 t2 t3 a b c d in
  bytes data →
  ∃ r, parse_record data (length pre) = Ok (r, length data)
    ∧ address_of r = Some (V4 (((a * 256 + b) * 256 + c) * 256 + d)).
Proof.
  intros Hhead Hls pre data Hb. set (ans := a_answer _ _ _ _ _ _ _ _) in *.
  assert (length data = length pre + 16)%nat as Hlen by (subst data; by rewrite length_app).
  assert (drop (length pre) data = ans) as Hdrop by (subst data; apply drop_app_length).
  assert (∀ k, val16 data (length pre + k) = val16 ans k) as H16 by (intros; apply val16_app_r).
  assert (name_at data (drop (length pre) data) 0 (length data) ls false 2) as Hname.
  { rewrite Hdrop.
    assert (12 < length data)%nat as H12.
    { rewrite Hlen. subst pre. rewrite length_app. lia. }
    pose proof (λ Hin, name_pointer data ans 0 (length data) 192 12 12 ls false 
      (length (labels_encoding ls) + 1) eq_refl eq_refl ltac:(lia) eq_refl H12 H12 Hin) as Hp.
    cbn in Hp. apply Hp.
    subst data pre. rewrite <- app_assoc. rewrite drop_app_length' by done.
    cbn [app]. rewrite <- app_assoc. cbn [app].
    apply (name_at_encoding _ [] ls (q ++ ans) 12 Hls). }
  assert (bytes ans) as Hans by (rewrite <- Hdrop; by apply bytes_drop).
  rewrite (parse_record_named data (length pre) ls false 2 Hb Hname) by lia.
  rewrite <- !Nat.add_assoc, !H16. cbn [Nat.add].
  change (val16 ans 2) with 1. change (val16 ans 4) with 1. change (val16 ans 10) with 4.
  change (Z.to_nat 4) with 4%nat. cbn [Nat.add].
  change (RRType.parse 1) with (Ok (E:=Error) RRType.A).
  change (parse_class_code 1) with (Ok (E:=Error) (false, RRClass.IN)). mstep.
  rewrite decide_False by lia.
  rewrite <- drop_drop, Hdrop. change (take 4 (drop 12 ans)) with [a; b; c; d].
  cbn [RRData.parse]. rewrite decide_False by (cbn; lia).
  unfold ans, a_answer in Hans. rewrite !bytes_cons in Hans. destruct_and!.
  assert (read_u32 [a; b; c; d] = Some (((a * 256 + b) * 256 + c) * 256 + d)) as ->
    by (by apply (read_u32_spec a b c d [])).
  mstep. eexists. split; [rewrite Hlen, <- Nat.add_assoc; reflexivity|done].
Qed.

(** C23. A response to the client's query is understood: a header with one
    question and one answer (any identifier, flags and response code), the
    question for the host, and an answer of type A that points to the question's
    name, give exactly the answer's address. *)
Theorem dns_parse_response h ls t0 t1 t2 t3 a b c d : Header.wf h →
  Header.questions h = 1 → Header.answers h = 1 → Header.nameservers h = 0 →
  Header.additional h = 0 → Forall good_label ls → bytes [t0; t1; t2; t3; a; b; c; d] →
  dns_parse (encoding h ++ labels_encoding ls ++ [0; 0; 1; 0; 1]
             ++ a_answer t0 t1 t2 t3 a b c d)
  = Ok (Some (V4 (((a * 256 + b) * 256 + c) * 256 + d))).
Proof.
  intros Hwf Hq Ha Hns Hadd Hls Hb. set (ans := a_answer _ _ _ _ _ _ _ _).
  assert (bytes ans) as Hans.
  { unfold ans, a_answer. rewrite !bytes_cons in *. destruct_and!.
    split_and!; try done; try constructor; unfold byte; lia. }
  set (data := encoding h ++ _).
  assert (data = (encoding h ++ labels_encoding ls ++ 0 :: [0; 1; 0; 1]) ++ ans) as Hd
    by (unfold data; by rewrite <- !app_assoc).
  assert (bytes (labels_encoding ls ++ [0; 0; 1; 0; 1] ++ ans)) as Hrest.
  { rewrite !bytes_app. split_and!; [by apply labels_encoding_bytes| |done].
    by repeat constructor. }
  assert (bytes data) as Hdata by (apply bytes_app; split; [by apply encoding_bytes|done]).
  destruct (parse_question_encoding (encoding h) ls QueryType.A QueryClass.IN ans) as [Hpq _];
    [exact Hdata|done|].
  destruct (parse_a_answer (encoding h) ls [0; 1; 0; 1] t0 t1 t2 t3 a b c d) as (r & Hpr & Hr);
    [done|done|cbv zeta; fold ans; by rewrite <- Hd|].
  fold ans in Hpr. rewrite <- Hd in Hpr. unfold dns_parse, Packet.parse.
  pose proof (parse_encoding h _ Hwf Hrest) as Hh. fold data in Hh. rewrite Hh. mstep.
  cbn [Header.questions Header.without_ad_cd Header.answers Header.nameservers Header.additional].
  rewrite Hq, Ha, Hns, Hadd. change (Z.to_nat 1) with 1%nat. change (Z.to_nat 0) with 0%nat.
  cbn [for_n parse_additional]. change Header.size with (length (encoding h)).
  change (encoding h ++ labels_encoding ls ++ 0 :: QueryType.code QueryType.A / 256 ::
    QueryType.code QueryType.A mod 256 :: QueryClass.code QueryClass.IN / 256 ::
    QueryClass.code QueryClass.IN mod 256 :: ans) with data in Hpq.
  rewrite Hpq. mstep.
  replace (length (encoding h) + length (labels_encoding ls) + 5)%nat with
    (length (encoding h ++ labels_encoding ls ++ 0 :: [0; 1; 0; 1]))
    by (rewrite !length_app; cbn; lia).
  rewrite Hpr. mstep. cbn. unfold address_of in Hr.
  destruct (ResourceRecord.data r); by simplify_eq.
Qed.
End responses.

(** ** Queries *)
Section queries.
Context `{!BigEndian}.

Lemma query_fits id host : u16 id → Forall (λ p, length p < 63)%nat (split_dot host) →
  (length host ≤ 494)%nat →
  Dns.query id host = Ok (built_query id true host QueryType.A QueryClass.IN).
Proof.
  intros Hid Hp Hn.
  destruct (build_query (replicate 512 0) id true host QueryType.A QueryClass.IN Hid Hp)
    as (b1 & b2 & H1 & H2 & H3 & H4); [by rewrite length_replicate; lia|].
  unfold Dns.query. rewrite H1. mstep. rewrite H2. mstep.
  rewrite slice_to_in; [by rewrite H4|]. apply (f_equal length) in H4.
  rewrite length_take in H4. unfold built_query in H4.
  rewrite length_app, length_question_encoding in H4. cbn [length encoding] in H4.
  rewrite H3 in *. lia.
Qed.

(** C34. The datagram of a lookup, by the length of the host (of labels below 63
    bytes): up to 494 bytes it is the query for the host's A records; from 495 to
    499 bytes the client panics, because the builder writes past its 512-byte
    buffer; from 500 bytes on the builder's refusal is ignored and a bare header
    without a question is sent. *)
Theorem query_by_length id host : u16 id →
  Forall (λ p, length p < 63)%nat (split_dot host) →
  Dns.query id host =
    if decide (length host ≤ 494)%nat
    then Ok (built_query id true host QueryType.A QueryClass.IN)
    else if decide (length host < 500)%nat then Panic
    else Ok (encoding (query_head id true 0)).
Proof.
  intros Hid Hp. case_decide as Hfit; [by apply query_fits|].
  unfold Dns.query. rewrite start_spec by (rewrite ?length_replicate; done || lia). mstep.
  change (Builder.mk _ 12) with (query_state id true 0 [] (drop 12 (replicate 512 0))).
  case_decide as Hover.
  - rewrite add_question_overflow; [done|done|..]; rewrite length_drop, length_replicate; lia.
  - destruct (add_question_refused id true 0 [] (drop 12 (replicate 512 0)) host
      QueryType.A QueryClass.IN Hp) as (buf & -> & Ht).
    { rewrite length_drop, length_replicate. lia. }
    mstep. cbn [Builder.buf Builder.finish Builder.off length].
    rewrite app_nil_r in Ht. unfold Builder.finish. cbn [Builder.off Nat.add length] in *.
    rewrite slice_to_in; [by rewrite Ht|]. apply (f_equal length) in Ht.
    rewrite length_take in Ht. cbn [length encoding] in Ht. lia.
Qed.
End queries.

(** ** The rotation over the servers *)
Section lookup.
Context `{!BigEndian} {W Sock IoError : Type}.
Context `{!Network W Sock IoError, !NetworkLaws W Sock IoError}.
Implicit Types (d : Dns.t) (w : W) (sock : Sock).

(** One query per server, each with a fresh identifier, until one is sent. *)
Fixpoint send_in_turn (servers : list IpAddr) w sock (host : list Z) (last_err : IoError)
    : (unit + IoError) * W :=
  match servers with
  | [] => (inr last_err, w)
  | server :: servers =>
    let '(id, w) := random w in
    match send_to w sock (built_query id true host QueryType.A QueryClass.IN) server 53 with
    | (None, w) => (inl tt, w)
    | (Some e, w) => send_in_turn servers w sock host e
    end
  end.

Lemma lookup_loop_spec d host vs : Forall (λ p, length p < 63)%nat (split_dot host) →
  (length host ≤ 494)%nat → ∀ w sock pos err,
  (∀ i v, vs !! i = Some v →
     Dns.srvs d !! Z.to_nat ((pos + Z.of_nat i) mod Z.of_nat (length (Dns.srvs d))) = Some v) →
  pos + Z.of_nat (length vs) ≤ U64_MAX →
  Dns.lookup_loop (length vs) d w sock pos host err = Ok (send_in_turn vs w sock host err).
Proof.
  intros Hp Hn. induction vs as [|v vs IH]; intros w sock pos err Hvs Hpos; [done|].
  cbn [length Dns.lookup_loop send_in_turn].
  pose proof (Hvs 0%nat v eq_refl) as Hv. rewrite Z.add_0_r in Hv. cbn [length] in Hpos.
  rewrite add64_in by lia. mstep.
  eapply bind_step; [by apply index_Ok|].
  pose proof (random_u16 w) as Hid. destruct (random w) as [id w1]. cbn in Hid.
  rewrite query_fits by done. mstep. destruct (send_to _ _ _ _ _) as [[e|] w2]; [|done].
  apply IH; [|lia]. intros i v' Hi.
  replace (pos + 1 + Z.of_nat i) with (pos + Z.of_nat (S i)) by lia. by apply Hvs.
Qed.

(** C14. [lookup_on] sends the query to the servers one after the other, starting
    at position [pos] and wrapping around, until a [send_to] succeeds: every
    server is tried at most once and none is skipped.  It fails only when all of
    them failed, with the last error (at once, with no servers). *)
Theorem lookup_on_rotation d w sock pos host :
  Forall (λ p, length p < 63)%nat (split_dot host) → (length host ≤ 494)%nat →
  0 ≤ pos → pos + Z.of_nat (length (Dns.srvs d)) ≤ U64_MAX →
  Dns.lookup_on d w sock pos host =
    Ok (send_in_turn (rotate (Z.to_nat pos) (Dns.srvs d)) w sock host other_error).
Proof.
  intros Hp Hn Hpos Hmax. unfold Dns.lookup_on.
  rewrite <- (length_rotate (Dns.srvs d) (Z.to_nat pos)) at 1.
  apply lookup_loop_spec; [done..| |by rewrite length_rotate].
  intros i v [Hi _]%lookup_rotate_r_Some. unfold rotate_nat_add in Hi.
  by rewrite Z2Nat.id in Hi.
Qed.

(** [start_lookup] returns the socket it sent the query from: one bound on
    the IPv4 wildcard address if some server accepts the query from there, and
    otherwise one bound on the IPv6 wildcard address, or its error. *)
Theorem start_lookup_fallback d w host :
  Forall (λ p, length p < 63)%nat (split_dot host) → (length host ≤ 494)%nat →
  Z.of_nat (length (Dns.srvs d)) ≤ U64_MAX →
  let over_v6 w :=
    match udp_bind w (V6 (replicate 8 0)) with
    | (inr e, w) => (inr e, w)
    | (inl sock, w) =>
      match send_in_turn (Dns.srvs d) w sock host other_error with
      | (inl _, w) => (inl (Some sock), w)
      | (inr e, w) => (inr e, w)
      end
    end in
  Dns.start_lookup d w host = Ok
    match udp_bind w (V4 0) with
    | (inr _, w) => over_v6 w
    | (inl sock, w) =>
      match send_in_turn (Dns.srvs d) w sock host other_error with
      | (inl _, w) => (inl (Some sock), w)
      | (inr _, w) => over_v6 w
      end
    end.
Proof.
  intros Hp Hn Hmax over_v6.
  assert (∀ w sock, Dns.lookup_on d w sock 0 host =
    Ok (send_in_turn (Dns.srvs d) w sock host other_error)) as Hl.
  { intros w' sock. apply lookup_loop_spec; [done..| |lia].
    intros i v Hi. rewrite Z.add_0_l, Z.mod_small; [by rewrite Nat2Z.id|].
    apply lookup_lt_Some in Hi. lia. }
  unfold Dns.start_lookup, Dns.get_socket_v4, Dns.get_socket_v6, over_v6. cbn [replicate].
  destruct (udp_bind w (V4 0)) as [[sock|e] w1]; rewrite ?Hl; mstep.
  - destruct (send_in_turn _ w1 sock _ _) as [[[]|e] w2]; [done|].
    destruct (udp_bind w2 _) as [[sock'|e'] w3]; [|done]. rewrite Hl. mstep.
    by destruct (send_in_turn _ w3 _ _ _) as [[[]|?] ?].
  - destruct (udp_bind w1 _) as [[sock'|e'] w3]; [|done]. rewrite Hl. mstep.
    by destruct (send_in_turn _ w3 _ _ _) as [[[]|?] ?].
Qed.
End lookup.

(** ** The configuration file *)

(** A line that names an IPv4 server, and other lines. *)
Definition server_line (ip : Z) : list Z := NAMESERVER ++ 32 :: show_ipv4 ip ++ [10].

Definition plain (l : list Z) : Prop := Forall (λ b, 33 ≤ b < 127) l.

Lemma lines_from_plain l cur rest : Forall (λ b, b ≠ 10) l →
  lines_from (l ++ 10 :: rest) cur = strip_cr (cur ++ l) :: lines_from rest [].
Proof.
  intros Hl. revert cur. induction Hl as [|b l Hb Hl IH]; intros cur; cbn [app lines_from].
  - by rewrite app_nil_r.
  - rewrite (proj2 (Z.eqb_neq _ _)) by done. by rewrite IH, <- app_assoc.
Qed.

Lemma plain_width l b : 33 ≤ b < 127 → whitespace_width (b :: l) = 0%nat.
Proof.
  intros Hb. assert (Forall (λ b, whitespace_width (b :: l) = 0%nat) (seqZ 33 94)) as Hall
    by (vm_compute; repeat constructor).
  rewrite list.Forall_forall in Hall. apply Hall, elem_of_seqZ. lia.
Qed.

Lemma words_from_plain l word rest : plain l →
  words_from (l ++ 32 :: rest) 0 word = emit (word ++ l) (words_from rest 0 []).
Proof.
  intros Hl. revert word. induction Hl as [|b l Hb Hl IH]; intros word; cbn [app words_from].
  - by rewrite app_nil_r.
  - rewrite plain_width by done. by rewrite IH, <- app_assoc.
Qed.

Lemma words_from_last l word : plain l → words_from l 0 word = emit (word ++ l) [].
Proof.
  intros Hl. revert word. induction Hl as [|b l Hb Hl IH]; intros word; cbn [words_from].
  - by rewrite app_nil_r.
  - rewrite plain_width by done. by rewrite IH, <- app_assoc.
Qed.

Lemma digit_text_plain n : 0 ≤ n < 1000 → plain (digit_text n) ∧ digit_text n ≠ [].
Proof.
  intros Hn. unfold digit_text, plain.
  pose proof (Z.mod_pos_bound n 10). pose proof (Z.mod_pos_bound (n / 10) 10).
  assert (0 ≤ n / 100 < 10) by (split; [apply Z.div_pos|apply Z.div_lt_upper_bound]; lia).
  assert (n < 100 → 0 ≤ n / 10 < 10) by
    (intros; split; [apply Z.div_pos|apply Z.div_lt_upper_bound]; lia).
  repeat case_match; (split; [repeat constructor; lia|done]).
Qed.

Lemma show_ipv4_plain ip : u32 ip → plain (show_ipv4 ip) ∧ show_ipv4 ip ≠ [].
Proof.
  unfold u32. intros Hip. unfold show_ipv4, plain.
  assert (0 ≤ ip / 2 ^ 24 < 1000) as H1.
  { split; [apply Z.div_pos; lia|]. apply Z.lt_trans with 256; [|lia].
    apply Z.div_lt_upper_bound; lia. }
  destruct (digit_text_plain _ H1) as [Hd1 Hne].
  assert (∀ x, plain (digit_text (x mod 256))) as Hd.
  { intros x. apply digit_text_plain. pose proof (Z.mod_pos_bound x 256). lia. }
  split; [|by destruct (digit_text (ip / 2 ^ 24))].
  repeat (rewrite Forall_app || rewrite Forall_cons). split_and!; (apply Hd || done || lia).
Qed.

Lemma last_plain l : plain l → last l ≠ Some 13.
Proof.
  intros Hl Hlast%last_Some_elem_of. unfold plain in Hl. rewrite list.Forall_forall in Hl. apply Hl in Hlast. lia.
Qed.

Lemma NAMESERVER_plain : plain NAMESERVER.
Proof. vm_compute. repeat constructor; intros [=]. Qed.

Lemma resolv_server_line ip : u32 ip →
  resolv_line (NAMESERVER ++ 32 :: show_ipv4 ip) = Some (V4 ip).
Proof.
  intros Hip. destruct (show_ipv4_plain ip Hip) as [Hpl Hne].
  unfold resolv_line, split_whitespace.
  rewrite words_from_plain by apply NAMESERVER_plain. rewrite words_from_last by done.
  cbn [app]. assert (∀ w, w ≠ [] → emit w [] = [w]) as He by (by intros []).
  rewrite He by done. cbn [emit NAMESERVER].
  change (match emit NAMESERVER [show_ipv4 ip] with
          | s :: words => if starts_with s NAMESERVER
              then match words with s :: _ => parse_ip s | [] => None end else None
          | [] => None end = Some (V4 ip)).
  cbn. by apply parse_show_ipv4.
Qed.

(** C40. Reading back a configuration file: a file with one [nameserver] line per
    IPv4 address gives exactly these addresses, in their order. *)
Theorem resolv_parse_roundtrip ips : Forall u32 ips →
  resolv_parse (concat (map server_line ips)) = map V4 ips.
Proof.
  intros Hips. unfold resolv_parse, lines. induction Hips as [|ip ips Hip Hips IH]; [done|].
  cbn [map concat]. destruct (show_ipv4_plain ip Hip) as [Hpl Hne].
  unfold server_line at 1. rewrite <- app_assoc. cbn [app]. rewrite <- app_assoc. cbn [app].
  replace (NAMESERVER ++ 32 :: show_ipv4 ip ++ 10 :: concat (map server_line ips))
    with ((NAMESERVER ++ 32 :: show_ipv4 ip) ++ 10 :: concat (map server_line ips))
    by (by rewrite <- app_assoc).
  rewrite lines_from_plain.
  - cbn [app omap list_omap]. unfold strip_cr.
    assert (last (NAMESERVER ++ 32 :: show_ipv4 ip) ≠ Some 13) as Hlast.
    { rewrite last_app_cons, last_cons. pose proof (last_plain _ Hpl) as Hl.
      destruct (last (show_ipv4 ip)) eqn:E; [done|]. by apply last_None in E. }
    assert (match last (NAMESERVER ++ 32 :: show_ipv4 ip) with
            | Some 13 => take (length (NAMESERVER ++ 32 :: show_ipv4 ip) - 1)
                           (NAMESERVER ++ 32 :: show_ipv4 ip)
            | _ => NAMESERVER ++ 32 :: show_ipv4 ip end = NAMESERVER ++ 32 :: show_ipv4 ip) as Hs.
    { repeat case_match; congruence. }
    rewrite Hs, resolv_server_line by done. cbn. by rewrite IH.
  - rewrite Forall_app, Forall_cons. split_and!; [|lia|].
    + eapply Forall_impl; [apply NAMESERVER_plain|]. cbn. lia.
    + eapply Forall_impl; [exact Hpl|]. cbn. lia.
Qed.

(** ** Witnesses *)

(** A network whose [send_to] calls succeed or fail as the list says, and that
    records the addresses they were made to. *)
Record fake_net := FakeNet { outcomes : list bool; sent : list IpAddr }.

#[export] Instance fake_network : Network fake_net IpAddr unit := {
  random w := (7, w);
  udp_bind w a := (inl a, w);
  send_to w _ _ a _ :=
    match outcomes w with
    | true :: os => (None, FakeNet os (sent w ++ [a]))
    | false :: os => (Some tt, FakeNet os (sent w ++ [a]))
    | [] => (Some tt, FakeNet [] (sent w ++ [a]))
    end;
  other_error := tt
}.

#[export] Instance fake_network_laws : NetworkLaws fake_net IpAddr unit.
Proof. split. intros w. cbn. unfold u16. lia. Qed.

Definition example_host : list Z := text "example.com".

Lemma example_host_short : Forall (λ p, length p < 63)%nat (split_dot example_host).
Proof. vm_compute. repeat constructor. Qed.

Lemma dns_parse_cases_witness : bytes [1; 2; 3] ∧ dns_parse [1; 2; 3] = Panic.
Proof.
  assert (bytes [1; 2; 3]) as Hb by (repeat constructor; lia). split; [done|].
  destruct (dns_parse_cases [1; 2; 3] Hb) as [(err & _ & Hp)|(p & Hp & _)]; [exact Hp|done].
Defined.

Definition response_head : Header.t :=
  Header.mk 7 false Opcode.StandardQuery false false true true false false
    ResponseCode.NoError 1 1 0 0.

Lemma dns_parse_response_witness : Header.wf response_head ∧ Forall good_label example_labels
  ∧ dns_parse (encoding response_head ++ labels_encoding example_labels ++ [0; 0; 1; 0; 1]
      ++ a_answer 0 0 1 44 93 184 216 34) = Ok (Some (V4 1572395042)).
Proof.
  assert (Header.wf response_head) as Hh by (repeat split; cbn; (done || lia)).
  split; [exact Hh|]. split; [apply example_labels_good|].
  apply dns_parse_response; [exact Hh|done..|apply example_labels_good|].
  repeat constructor; lia.
Defined.

Lemma query_by_length_witness : u16 7
  ∧ Dns.query 7 example_host = Ok (built_query 7 true example_host QueryType.A QueryClass.IN).
Proof.
  assert (u16 7) as Hid by (unfold u16; lia). split; [exact Hid|].
  rewrite (query_by_length 7 example_host Hid example_host_short). by rewrite decide_True by (vm_compute; lia).
Defined.

Definition example_dns : Dns.t := Dns.mk [V4 1; V4 2; V4 3].

Lemma lookup_on_rotation_witness : (length example_host ≤ 494)%nat
  ∧ Dns.lookup_on example_dns (FakeNet [false; true] []) (V4 0) 2 example_host
    = Ok (inl tt, FakeNet [] [V4 3; V4 1]).
Proof.
  assert (length example_host ≤ 494)%nat as Hn by (vm_compute; lia). split; [exact Hn|].
  rewrite (lookup_on_rotation example_dns _ _ 2 example_host example_host_short Hn);
    [by vm_compute|lia|by vm_compute].
Defined.

(** All the servers refuse the IPv4 socket; the second accepts the IPv6 one. *)
Lemma start_lookup_fallback_witness : (length example_host ≤ 494)%nat
  ∧ Dns.start_lookup example_dns (FakeNet [false; false; false; false; true] []) example_host
    = Ok (inl (Some (V6 (replicate 8 0))), FakeNet [] [V4 1; V4 2; V4 3; V4 1; V4 2]).
Proof.
  assert (length example_host ≤ 494)%nat as Hn by (vm_compute; lia). split; [exact Hn|].
  rewrite (start_lookup_fallback example_dns _ example_host example_host_short Hn);
    by vm_compute.
Defined.

Lemma resolv_parse_roundtrip_witness : Forall u32 [134744072; 2130706433]
  ∧ resolv_parse (text "nameserver 8.8.8.8
nameserver 127.0.0.1
") = [V4 134744072; V4 2130706433].
Proof.
  assert (Forall u32 [134744072; 2130706433]) as Hips by (repeat constructor; lia).
  split; [exact Hips|]. exact (resolv_parse_roundtrip _ Hips).
Defined.

(** A bracketed list as macOS prints it, and the address literals of the code. *)
Example scutil_example : scutil_parse (text "resolver #1
  nameserver[0] : 10.0.0.1
  nameserver[1] : fe80::1
") = [V4 167772161; V6 [65152; 0; 0; 0; 0; 0; 0; 1]].
Proof. vm_compute. reflexivity. Qed.

Example google_servers : get_google = Ok [V4 134744072; V4 134743044].
Proof. vm_compute. reflexivity. Qed.
