(* ===== verification/Poller.v ===== *)
(** * The poller (src/poller.rs)

    [PollerInt] owns the timer wheel, the DNS client, the unused execution stacks
    and, for each of the 20 runners of a thread, the queues of fibers to resume.
    [poll] turns ready sockets, expired timers and finished lookups into entries
    of these queues; the runners take them out.

    What the operating system and [mio] answer to a call of [poll] is its
    argument: the tokens of the ready sockets ([None] when [mio]'s poll fails),
    the instant it is after it, and the results the DNS client has.  The
    execution stacks are [context]'s, a third-party crate: the class [Stacks]. *)
From S2P Require Import Prelude Clock TimerConfig Slab Wheel WheelInv WheelSpec StdText Resolver.
Local Open Scope Z_scope.

Definition TICK_MS : Z := 250.
Definition RUNNERS : nat := 20.

Class Stacks (W Stack : Type) := {
  (** [ProtectedFixedSizeStack::default()] *)
  default_stack : W → Stack * W;
  (** [ProtectedFixedSizeStack::new(size)]: [None] for [Err] *)
  new_stack : W → Z → option Stack * W
}.

Module PollerInt.
Record t (S Stack : Type) := mk {
  toexec_fibers : list (list Z);
  timedout_fibers : list (list Z);
  lookup_results : list (list (Z * Z * IpAddr));
  stack_size : option Z;
  free_stacks : list Stack;
  wheel : Wheel.t S;
  dns : Dns.t
}.
Arguments mk {S Stack} _ _ _ _ _ _ _.
Arguments toexec_fibers {S Stack} _.
Arguments timedout_fibers {S Stack} _.
Arguments lookup_results {S Stack} _.
Arguments stack_size {S Stack} _.
Arguments free_stacks {S Stack} _.
Arguments wheel {S Stack} _.
Arguments dns {S Stack} _.

(** The runner and the position in the runner's slab of a fiber identifier. *)
Definition split_id (pos : Z) : nat * Z :=
  let runner := Z.land (Z.shiftr pos 40) 255 in
  let pos := Z.land pos U32_MAX in
  (Z.to_nat runner, pos).

(** [queues[runner].push_back(x)] and [queues[runner].pop_front()] *)
Definition push_back {A} (queues : list (list A)) (runner : nat) (x : A)
    : outcome Empty_set (list (list A)) :=
  q ← index queues runner; store queues runner (q ++ [x]).

Definition pop_front {A} (queues : list (list A)) (runner : nat)
    : outcome Empty_set (option A * list (list A)) :=
  q ← index queues runner;
  match q with
  | [] => Ok (None, queues)
  | x :: q => queues ← store queues runner q; Ok (Some x, queues)
  end.

Section ops.
Context {S Stack W : Type} `{SlabOps Entry.t S, !Stacks W Stack}.
Implicit Types (p : t S Stack).

Definition set_toexec p x : t S Stack :=
  mk x (timedout_fibers p) (lookup_results p) (stack_size p) (free_stacks p) (wheel p) (dns p).
Definition set_timedout p x : t S Stack :=
  mk (toexec_fibers p) x (lookup_results p) (stack_size p) (free_stacks p) (wheel p) (dns p).
Definition set_lookups p x : t S Stack :=
  mk (toexec_fibers p) (timedout_fibers p) x (stack_size p) (free_stacks p) (wheel p) (dns p).
Definition set_stacks p x : t S Stack :=
  mk (toexec_fibers p) (timedout_fibers p) (lookup_results p) (stack_size p) x (wheel p) (dns p).
Definition set_wheel p x : t S Stack :=
  mk (toexec_fibers p) (timedout_fibers p) (lookup_results p) (stack_size p) (free_stacks p) x
     (dns p).

(** [file] is the content of the resolver's configuration, [now] the instant the
    wheel is made. *)
Definition new (stack_size : option Z) (file : option (list Z)) (now : Z)
    : outcome Empty_set (t S Stack) :=
  wheel ← Wheel.new (Builder.tick_duration Builder.new (Duration.from_millis TICK_MS)) now;
  dns ← Dns.new file;
  Ok (mk (replicate RUNNERS []) (replicate RUNNERS []) (replicate RUNNERS [])
         stack_size [] wheel dns).

(** [for ev in events.into_iter()] *)
Fixpoint push_events (queues : list (list Z)) (events : list Z)
    : outcome Empty_set (list (list Z)) :=
  match events with
  | [] => Ok queues
  | token :: events =>
    let '(runner, pos) := split_id token in
    queues ← push_back queues runner pos;
    push_events queues events
  end.

(** [while let Some(id) = self.wheel.poll(now)] *)
Fixpoint push_timeouts (fuel : nat) (w : Wheel.t S) (now : Z) (queues : list (list Z)) (smth : bool)
    : outcome Empty_set (Wheel.t S * list (list Z) * bool) :=
  match fuel with
  | O => OutOfFuel
  | Datatypes.S fuel =>
    '(r, w) ← Wheel.poll w now;
    match r with
    | Some id =>
      let '(runner, pos) := split_id id in
      queues ← push_back queues runner pos;
      push_timeouts fuel w now queues true
    | None => Ok (w, queues, smth)
    end
  end.

(** [while let Some((id, gen, addr)) = self.dns.check_result()] *)
Fixpoint push_results (queues : list (list (Z * Z * IpAddr))) (results : list (Z * Z * IpAddr))
    : outcome Empty_set (list (list (Z * Z * IpAddr))) :=
  match results with
  | [] => Ok queues
  | (id, gen, addr) :: results =>
    let '(runner, pos) := split_id id in
    queues ← push_back queues runner (pos, gen, addr);
    push_results queues results
  end.

(** Each timer that fires leaves the slab, so the loop runs at most once per
    entry and once to see the end. *)
Definition timeouts_fuel (w : Wheel.t S) : nat := Datatypes.S (Z.to_nat (len (Wheel.slab w))).

Definition poll p (ready : option (list Z)) (now : Z) (results : list (Z * Z * IpAddr))
    : outcome Empty_set (bool * t S Stack) :=
  match ready with
  | None => Ok (false, p)
  | Some events =>
    let smth := bool_decide (0 < length events)%nat in
    toexec ← push_events (toexec_fibers p) events;
    let p := set_toexec p toexec in
    '(w, timedout, smth) ←
      push_timeouts (timeouts_fuel (wheel p)) (wheel p) now (timedout_fibers p) smth;
    let p := set_timedout (set_wheel p w) timedout in
    lookups ← push_results (lookup_results p) results;
    Ok (smth || bool_decide (0 < length results)%nat, set_lookups p lookups)
  end.

Definition timer_reg p (id : Z) (dur : option Z) (now : Z)
    : outcome Empty_set (option Token.t * t S Stack) :=
  let dur := default (Duration.from_millis TICK_MS) dur in
  '(tk, w) ← Wheel.reserve (wheel p);
  match tk with
  | Some tk =>
    at_ ← Instant.add now dur;
    w ← Wheel.set_timeout w tk at_ id;
    Ok (Some tk, set_wheel p w)
  | None => Ok (None, set_wheel p w)
  end.

Definition timer_cancel p (tk : Token.t) : outcome Empty_set (t S Stack) :=
  w ← Wheel.cancel (wheel p) tk; Ok (set_wheel p w).

Definition dns_check p (pos : nat) : outcome Empty_set (option (Z * Z * IpAddr) * t S Stack) :=
  '(r, q) ← pop_front (lookup_results p) pos; Ok (r, set_lookups p q).

Definition toexec_push p (runner : nat) (fiber : Z) : outcome Empty_set (t S Stack) :=
  q ← push_back (toexec_fibers p) runner fiber; Ok (set_toexec p q).

Definition toexec_pop p (runner : nat) : outcome Empty_set (option Z * t S Stack) :=
  '(r, q) ← pop_front (toexec_fibers p) runner; Ok (r, set_toexec p q).

Definition timedout_pop p (runner : nat) : outcome Empty_set (option Z * t S Stack) :=
  '(r, q) ← pop_front (timedout_fibers p) runner; Ok (r, set_timedout p q).

Definition stack_pop p (w : W) : outcome Empty_set (Stack * t S Stack * W) :=
  match free_stacks p, stack_size p with
  | [], None => let '(stack, w) := default_stack w in Ok (stack, p, w)
  | [], Some size =>
    let '(stack, w) := new_stack w size in
    stack ← expect stack;
    Ok (stack, p, w)
  | stack :: stacks, _ => Ok (stack, set_stacks p stacks, w)
  end.

Definition stack_push p (stack : Stack) : t S Stack := set_stacks p (stack :: free_stacks p).
End ops.
End PollerInt.

(** [Poller]: the thread's slot for its poller ([get_poller], [set_poller]), null
    when there is none.  [new] refuses a second poller; [drop] frees the slot. *)
Module Poller.
Section ops.
Context {S Stack : Type} `{SlabOps Entry.t S}.

Definition slot : Type := option (PollerInt.t S Stack).

(** [false] for [Err(NotConnected)] *)
Definition new (s : slot) (stack_size : option Z) (file : option (list Z)) (now : Z)
    : outcome Empty_set (bool * slot) :=
  match s with
  | Some _ => Ok (false, s)
  | None => p ← PollerInt.new stack_size file now; Ok (true, Some p)
  end.

(** The dereference of [poller()] when there is none is undefined behaviour; the
    model stops. *)
Definition poll (s : slot) ready now results : outcome Empty_set (bool * slot) :=
  p ← expect s;
  '(b, p) ← PollerInt.poll p ready now results;
  Ok (b, Some p).

Definition drop (s : slot) : slot := None.
End ops.
End Poller.

(** The identifier a runner makes for its fiber (runner.rs, [fiber_id]). *)
Definition fiber_id (runner pos : Z) : Z := Z.lor pos (Z.shiftl runner 40).
