(* ===== verification/PollerProps.v ===== *)
(** * The properties of the poller

    A call of [poll] moves exactly the ready sockets and the due timers into the
    queues of their runners; registering and cancelling timers in any order and
    at any instants keeps the wheel usable. *)
From S2P Require Import Prelude Clock TimerConfig Slab Wheel WheelInv WheelSpec WheelProps.
From S2P Require Import StdText Resolver Poller.
Local Open Scope Z_scope.

(** ** Identifiers *)
Lemma land_u32 x : Z.land x U32_MAX = x mod 2 ^ 32.
Proof. unfold U32_MAX. by apply land_mask. Qed.
Lemma land_255 x : Z.land x 255 = x mod 2 ^ 8.
Proof. change 255 with (2 ^ 8 - 1). by apply land_mask. Qed.

Lemma split_id_fiber_id runner pos : 0 ≤ runner < 256 → 0 ≤ pos < 2 ^ 32 →
  PollerInt.split_id (fiber_id runner pos) = (Z.to_nat runner, pos).
Proof.
  intros Hr Hp. unfold PollerInt.split_id, fiber_id. rewrite !land_u32, land_255. f_equal.
  - rewrite Z.shiftr_lor, Z.shiftr_shiftl_l, Z.shiftr_div_pow2, Z.div_small by lia.
    rewrite Z.lor_0_l, Z.sub_diag, Z.shiftl_0_r, Z.mod_small by lia. done.
  - rewrite <- Z.land_ones, Z.land_lor_distr_l, !Z.land_ones, Z.shiftl_mul_pow2 by lia.
    change (2 ^ 40) with (2 ^ 8 * 2 ^ 32). rewrite Z.mul_assoc, Z.mod_mul, Z.lor_0_r by lia.
    by apply Z.mod_small.
Qed.

(** A fiber identifier splits into the runner and the position it was made
    from, for up to 256 runners and positions that fit 32 bits; the split of any
    [usize] gives a runner below 256 and a position below 2{^32}. *)
Theorem split_fiber_id runner pos : 0 ≤ runner < 256 → 0 ≤ pos < 2 ^ 32 →
  PollerInt.split_id (fiber_id runner pos) = (Z.to_nat runner, pos)
  ∧ ∀ id, 0 ≤ id → ((PollerInt.split_id id).1 < 256)%nat ∧ 0 ≤ (PollerInt.split_id id).2 < 2 ^ 32.
Proof.
  intros Hr Hp. split; [by apply split_id_fiber_id|].
  intros id _. unfold PollerInt.split_id. rewrite land_255, land_u32. cbn [fst snd].
  pose proof (Z.mod_pos_bound (Z.shiftr id 40) (2 ^ 8)). pose proof (Z.mod_pos_bound id (2 ^ 32)).
  lia.
Qed.

(** ** Queues *)
Definition queue {A} (queues : list (list A)) (r : nat) : list A := default [] (queues !! r).

(** The positions that [ids] send to runner [r], in their order. *)
Definition routed (r : nat) (ids : list Z) : list Z :=
  omap (λ id, if decide ((PollerInt.split_id id).1 = r)
              then Some (PollerInt.split_id id).2 else None) ids.

Definition routable (id : Z) : Prop := ((PollerInt.split_id id).1 < RUNNERS)%nat.

Lemma push_back_spec {A} (queues : list (list A)) r x : (r < length queues)%nat →
  ∃ queues', PollerInt.push_back queues r x = Ok queues' ∧ length queues' = length queues
    ∧ ∀ j, queue queues' j = queue queues j ++ if decide (j = r) then [x] else [].
Proof.
  intros Hr. destruct (lookup_lt_is_Some_2 _ _ Hr) as [q Hq].
  unfold PollerInt.push_back. rewrite (proj2 (index_Ok _ _ _) Hq). mstep.
  rewrite store_in by done. eexists. split_and!; [done|apply length_insert|].
  intros j. unfold queue. case_decide as Hj.
  - subst. by rewrite list_lookup_insert_eq, Hq.
  - by rewrite list_lookup_insert_ne, app_nil_r.
Qed.

Lemma push_events_spec queues ids : length queues = RUNNERS → Forall routable ids →
  ∃ queues', PollerInt.push_events queues ids = Ok queues' ∧ length queues' = RUNNERS
    ∧ ∀ r, queue queues' r = queue queues r ++ routed r ids.
Proof.
  intros Hlen Hids. revert queues Hlen. induction Hids as [|id ids Hid Hids IH]; intros queues Hlen.
  { exists queues. split_and!; [done..|]. intros. by rewrite app_nil_r. }
  cbn [PollerInt.push_events]. unfold routable in Hid.
  destruct (PollerInt.split_id id) as [r pos] eqn:Hsplit. cbn [fst] in Hid.
  destruct (push_back_spec queues r pos) as (q1 & -> & Hlen1 & Hq1); [by rewrite Hlen|]. mstep.
  destruct (IH q1) as (q2 & -> & Hlen2 & Hq2); [by rewrite Hlen1|].
  exists q2. split_and!; [done..|]. intros j. rewrite Hq2, Hq1, <- app_assoc. f_equal.
  unfold routed. cbn [omap list_omap]. rewrite Hsplit. cbn [fst snd].
  destruct (decide (j = r)) as [->|Hne]; [by rewrite decide_True|by rewrite decide_False].
Qed.

(** ** Draining the wheel *)
Section drain.
Context {S : Type} `{SlabOps Entry.t S, !SlabLaws Entry.t S}.
Implicit Types (w : Wheel.t S) (fired : list (Token.t * Task)).

(** [fired] are the timers that are due at tick [W] in [w], and [w'] is [w]
    without them. *)
Record drained w (W : Z) fired w' : Prop := {
  drained_once : NoDup fired.*1;
  drained_due : ∀ t task, (t, task) ∈ fired ↔ ∃ k, status w t = Armed task k ∧ k ≤ W;
  drained_rest : ∀ x, status w' x = if decide (x ∈ fired.*1) then Vacant else status w x
}.

Lemma drained_more w w1 w2 W fired t task k : status w t = Armed task k → k ≤ W →
  (∀ x, status w1 x = if decide (x = t) then Vacant else status w x) →
  drained w1 W fired w2 → drained w W ((t, task) :: fired) w2.
Proof.
  intros Ht Hk Hw1 [Hnd Hdue Hrest].
  assert (t ∉ fired.*1) as Hnin.
  { intros ([t' task'] & Heq & Hin)%list_elem_of_fmap. cbn in Heq. subst t'.
    apply Hdue in Hin as (k' & Hst & _). by rewrite Hw1, decide_True in Hst. }
  split.
  - by constructor.
  - intros t' task'. rewrite elem_of_cons, Hdue. split.
    + intros [[= -> ->]|(k' & Hst & ?)]; [by exists k|]. exists k'.
      rewrite Hw1 in Hst. by case_decide.
    + intros (k' & Hst & ?). destruct (decide (t' = t)) as [->|Hne]; [left; congruence|].
      right. exists k'. by rewrite Hw1, decide_False.
  - intros x. rewrite Hrest, Hw1. cbn [fmap list_fmap]. destruct (decide (x = t)) as [->|Hne].
    + rewrite decide_False by done. by rewrite decide_True by left.
    + destruct (decide (x ∈ fired.*1)); [by rewrite decide_True by (by right)|].
      rewrite decide_False; [done|]. rewrite not_elem_of_cons. done.
Qed.

Lemma push_timeouts_spec fuel w now queues smth : wf w → sane w now →
  length queues = RUNNERS → (∀ t task k, status w t = Armed task k → routable task) →
  len (Wheel.slab w) < Z.of_nat fuel →
  ∃ fired w' queues', PollerInt.push_timeouts fuel w now queues smth
      = Ok (w', queues', smth || bool_decide (fired ≠ []))
    ∧ wf w' ∧ same_config w w' ∧ len (Wheel.slab w') ≤ len (Wheel.slab w)
    ∧ Wheel.cur_wheel_tick w' ≤ Z.max (Wheel.cur_wheel_tick w) (tick_of w now + 1)
    ∧ drained w (tick_of w now) fired w' ∧ length queues' = RUNNERS
    ∧ ∀ r, queue queues' r = queue queues r ++ routed r fired.*2.
Proof.
  revert w queues smth. induction fuel as [|fuel IH]; intros w queues smth Hwf Hsane Hq Htasks Hfuel.
  { pose proof (len_nonneg (Wheel.slab w)). lia. }
  cbn [PollerInt.push_timeouts].
  destruct (poll_spec w now Hwf Hsane) as (r & w1 & -> & Hwf1 & Hcf1 & Hr). mstep.
  destruct r as [task|].
  - destruct Hr as (t & k & Ht & Hk & Hst & Hlen & Hcur).
    pose proof (Htasks _ _ _ Ht) as Htask. unfold routable in Htask.
    destruct (PollerInt.split_id task) as [runner pos] eqn:Hsplit. cbn [fst] in Htask.
    destruct (push_back_spec queues runner pos) as (q1 & -> & Hlen1 & Hq1); [by rewrite Hq|]. mstep.
    destruct (IH w1 q1 true Hwf1) as (fired & w' & q' & -> & Hwf' & Hcf' & Hlen' & Hcur' & Hd & Hq' & Hqs);
      [by apply (same_config_sane w)|congruence| |lia|].
    { intros x task' k'. rewrite Hst. case_decide; [done|]. apply Htasks. }
    rewrite (same_config_tick w w1) in Hcur', Hd by done.
    exists ((t, task) :: fired), w', q'.
    rewrite (bool_decide_eq_true_2 ((t, task) :: fired ≠ [])), orb_true_r by done.
    split_and!; [done|done|by etrans|lia|lia|by eapply drained_more|done|].
    intros j. rewrite Hqs, Hq1, <- app_assoc. f_equal. unfold routed.
    cbn [fmap list_fmap omap list_omap snd]. rewrite Hsplit. cbn [fst snd].
    destruct (decide (j = runner)) as [->|Hne]; [by rewrite decide_True|by rewrite decide_False].
  - destruct Hr as (Hst & Hdue & Hcur & _ & Hlen).
    exists [], w1, queues. rewrite bool_decide_eq_false_2, orb_false_r by naive_solver.
    split_and!; [done..|lia|lia| |done|].
    + split; [constructor| |].
      * intros t task. split; [by intros ?%elem_of_nil|]. intros (k & Ht & Hk).
        apply Hdue in Ht. lia.
      * intros x. rewrite Hst, decide_False; [done|]. by apply not_elem_of_nil.
    + intros r. by rewrite app_nil_r.
Qed.
End drain.

(** ** The poller *)
Definition routed_results (r : nat) (results : list (Z * Z * IpAddr)) : list (Z * Z * IpAddr) :=
  omap (λ '(id, gen, addr), if decide ((PollerInt.split_id id).1 = r)
              then Some ((PollerInt.split_id id).2, gen, addr) else None) results.

Lemma push_results_spec queues results : length queues = RUNNERS →
  Forall (λ x, routable x.1.1) results →
  ∃ queues', PollerInt.push_results queues results = Ok queues' ∧ length queues' = RUNNERS
    ∧ ∀ r, queue queues' r = queue queues r ++ routed_results r results.
Proof.
  intros Hlen Hids. revert queues Hlen.
  induction Hids as [|[[id gen] addr] results Hid Hids IH]; intros queues Hlen.
  { exists queues. split_and!; [done..|]. intros. by rewrite app_nil_r. }
  cbn [PollerInt.push_results]. unfold routable in Hid. cbn [fst] in Hid.
  destruct (PollerInt.split_id id) as [r pos] eqn:Hsplit. cbn [fst] in Hid.
  destruct (push_back_spec queues r (pos, gen, addr)) as (q1 & -> & Hlen1 & Hq1);
    [by rewrite Hlen|]. mstep.
  destruct (IH q1) as (q2 & -> & Hlen2 & Hq2); [by rewrite Hlen1|].
  exists q2. split_and!; [done..|]. intros j. rewrite Hq2, Hq1, <- app_assoc. f_equal.
  unfold routed_results. cbn [omap list_omap]. rewrite Hsplit. cbn [fst snd].
  destruct (decide (j = r)) as [->|Hne]; [by rewrite decide_True|by rewrite decide_False].
Qed.

Section poller.
Context {S Stack : Type} `{SlabOps Entry.t S, !SlabLaws Entry.t S}.
Implicit Types (p : PollerInt.t S Stack).

(** A poller between two calls. *)
Record poller_ok p : Prop := {
  ok_toexec : length (PollerInt.toexec_fibers p) = RUNNERS;
  ok_timedout : length (PollerInt.timedout_fibers p) = RUNNERS;
  ok_lookups : length (PollerInt.lookup_results p) = RUNNERS;
  ok_wheel : wf (PollerInt.wheel p);
  ok_tasks : ∀ t task k, status (PollerInt.wheel p) t = Armed task k → routable task
}.

Lemma poll_run p events now results : poller_ok p → sane (PollerInt.wheel p) now →
  Forall routable events → Forall (λ x, routable x.1.1) results →
  ∃ fired b p', PollerInt.poll p (Some events) now results = Ok (b, p') ∧ poller_ok p'
    ∧ same_config (PollerInt.wheel p) (PollerInt.wheel p')
    ∧ len (Wheel.slab (PollerInt.wheel p')) ≤ len (Wheel.slab (PollerInt.wheel p))
    ∧ Wheel.cur_wheel_tick (PollerInt.wheel p') ≤
        Z.max (Wheel.cur_wheel_tick (PollerInt.wheel p)) (tick_of (PollerInt.wheel p) now + 1)
    ∧ drained (PollerInt.wheel p) (tick_of (PollerInt.wheel p) now) fired (PollerInt.wheel p')
    ∧ (∀ r, queue (PollerInt.toexec_fibers p') r =
         queue (PollerInt.toexec_fibers p) r ++ routed r events)
    ∧ (∀ r, queue (PollerInt.timedout_fibers p') r =
         queue (PollerInt.timedout_fibers p) r ++ routed r fired.*2)
    ∧ (∀ r, queue (PollerInt.lookup_results p') r =
         queue (PollerInt.lookup_results p) r ++ routed_results r results)
    ∧ (b = true ↔ events ≠ [] ∨ fired ≠ [] ∨ results ≠ []).
Proof.
  intros [Ht1 Ht2 Ht3 Hwf Htasks] Hsane Hev Hres. unfold PollerInt.poll.
  destruct (push_events_spec _ _ Ht1 Hev) as (q1 & -> & Hl1 & Hq1). mstep. cbn [PollerInt.wheel
    PollerInt.set_toexec PollerInt.timedout_fibers].
  destruct (push_timeouts_spec (PollerInt.timeouts_fuel (PollerInt.wheel p)) _ _
    (PollerInt.timedout_fibers p) (bool_decide (0 < length events)%nat) Hwf Hsane Ht2 Htasks)
    as (fired & w & q2 & -> & Hwf2 & Hcf & Hlen & Hcur & Hd & Hl2 & Hq2).
  { unfold PollerInt.timeouts_fuel. pose proof (len_nonneg (Wheel.slab (PollerInt.wheel p))). lia. }
  mstep. cbn [PollerInt.lookup_results PollerInt.set_timedout PollerInt.set_wheel PollerInt.set_toexec].
  destruct (push_results_spec _ _ Ht3 Hres) as (q3 & -> & Hl3 & Hq3). mstep.
  eexists fired, _, _. split; [reflexivity|]. cbn. split_and!; try done.
  - split; try done. intros t task k. cbn. rewrite (drained_rest _ _ _ _ Hd).
    case_decide; [done|]. apply Htasks.
  - rewrite !orb_true_iff, !bool_decide_eq_true.
    assert (∀ A (l : list A), (0 < length l)%nat ↔ l ≠ []) as Hpos.
    { intros A []; cbn; split; (done || lia). }
    rewrite !Hpos. tauto.
Qed.

(** C8. One call of the poller, whatever is pending: it never panics, as long as
    the identifiers belong to the 20 runners, and terminates.  Each ready socket,
    each timer due at [now] and each lookup result goes to the queue of its
    runner, once, behind what was there; the due timers, and only they, leave the
    wheel, so none is left that is due; the call reports [true] exactly when there
    was something. *)
Theorem poller_poll p events now results : poller_ok p → sane (PollerInt.wheel p) now →
  Forall routable events → Forall (λ x, routable x.1.1) results →
  ∃ fired b p', PollerInt.poll p (Some events) now results = Ok (b, p') ∧ poller_ok p'
    ∧ drained (PollerInt.wheel p) (tick_of (PollerInt.wheel p) now) fired (PollerInt.wheel p')
    ∧ (∀ r, queue (PollerInt.toexec_fibers p') r =
         queue (PollerInt.toexec_fibers p) r ++ routed r events)
    ∧ (∀ r, queue (PollerInt.timedout_fibers p') r =
         queue (PollerInt.timedout_fibers p) r ++ routed r fired.*2)
    ∧ (∀ r, queue (PollerInt.lookup_results p') r =
         queue (PollerInt.lookup_results p) r ++ routed_results r results)
    ∧ (b = true ↔ events ≠ [] ∨ fired ≠ [] ∨ results ≠ []).
Proof.
  intros Hok Hsane Hev Hres.
  destruct (poll_run p events now results Hok Hsane Hev Hres)
    as (fired & b & p' & ? & ? & _ & _ & _ & ? & ? & ? & ? & ?).
  by exists fired, b, p'.
Qed.

(** ** Registering and cancelling *)
Lemma timer_reg_run p id dur now : poller_ok p → routable id →
  0 ≤ Wheel.max_capacity (PollerInt.wheel p) ≤ I64_MAX →
  (available (Wheel.slab (PollerInt.wheel p)) = 0 →
   len (Wheel.slab (PollerInt.wheel p)) ≤ Wheel.max_capacity (PollerInt.wheel p)) →
  let at_ := now + default (Duration.from_millis TICK_MS) dur in
  sane (PollerInt.wheel p) at_ →
  let k := Z.max (tick_of (PollerInt.wheel p) at_)
                 (Wheel.cur_wheel_tick (PollerInt.wheel p) + 1) in
  k < 2 ^ 32 →
  ∃ r p', PollerInt.timer_reg p id dur now = Ok (r, p') ∧ poller_ok p'
    ∧ same_config (PollerInt.wheel p) (PollerInt.wheel p')
    ∧ len (Wheel.slab (PollerInt.wheel p')) ≤ len (Wheel.slab (PollerInt.wheel p)) + 1
    ∧ Wheel.cur_wheel_tick (PollerInt.wheel p') = Wheel.cur_wheel_tick (PollerInt.wheel p)
    ∧ match r with
      | Some tk => status (PollerInt.wheel p) tk = Vacant
          ∧ ∀ x, status (PollerInt.wheel p') x =
              if decide (x = tk) then Armed id k else status (PollerInt.wheel p) x
      | None => PollerInt.wheel p' = PollerInt.wheel p
          ∧ available (Wheel.slab (PollerInt.wheel p)) = 0
      end.
Proof.
  intros [Ht1 Ht2 Ht3 Hwf Htasks] Hid Hmax Hfull at_ Hsane k Hk. unfold PollerInt.timer_reg.
  destruct (reserve_spec _ Hwf Hmax Hfull) as (r & w1 & -> & Hwf1 & Hcf1 & Hcur1 & Hr). mstep.
  destruct r as [tk|].
  - destruct Hr as (Hv & Hlen & Hst). fold at_.
    assert (Instant.add (E:=Empty_set) now (default (Duration.from_millis TICK_MS) dur) = Ok at_) as ->.
    { destruct Hwf as (ls & rem & Hinv). pose proof (config_start _ (core_config _ _ _ (inv_core _ _ _ Hinv))).
      unfold Instant.add, Duration.as_secs. fold at_. unfold sane in Hsane. rewrite decide_True; [done|].
      apply Z.div_le_upper_bound; unfold Duration.NANOS_PER_SEC, I64_MAX in *; lia. }
    mstep. unfold k in *. rewrite <- Hcur1 in *. rewrite <- (same_config_tick _ w1) in * by done.
    destruct (set_timeout_spec w1 tk at_ id Hwf1) as (w2 & -> & Hwf2 & Hcf2 & Hcur2 & Hlen2 & Hst2);
      [by rewrite Hst, decide_True|by apply (same_config_sane (PollerInt.wheel p))|done|].
    mstep. exists (Some tk), (PollerInt.set_wheel p w2). cbn.
    assert (∀ x, status w2 x = if decide (x = tk)
      then Armed id (Z.max (tick_of w1 at_) (Wheel.cur_wheel_tick w1 + 1))
      else status (PollerInt.wheel p) x) as Hst'.
    { intros x. rewrite Hst2. case_decide; [done|]. by rewrite Hst, decide_False. }
    split_and!; [done| |by etrans|lia|done|done|exact Hst'].
    split; try done. intros x task k'. cbn. rewrite Hst'. case_decide; [by intros [= <- _]|].
    apply Htasks.
  - destruct Hr as (-> & Ha & _). exists None, (PollerInt.set_wheel p (PollerInt.wheel p)). cbn.
    split_and!; try done. lia.
Qed.

(** [timer_reg] below the capacity limit never panics: it arms one fresh token
    for the identifier, at the tick of [now + dur] (250 ms without a duration) or
    the next tick to be polled if that is later, and leaves every other timer
    alone; it returns [None], and changes nothing, only when the slab is full. *)
Theorem timer_reg_arms p id dur now : poller_ok p → routable id →
  0 ≤ Wheel.max_capacity (PollerInt.wheel p) ≤ I64_MAX →
  (available (Wheel.slab (PollerInt.wheel p)) = 0 →
   len (Wheel.slab (PollerInt.wheel p)) ≤ Wheel.max_capacity (PollerInt.wheel p)) →
  let at_ := now + default (ms 250) dur in
  sane (PollerInt.wheel p) at_ →
  let k := Z.max (tick_of (PollerInt.wheel p) at_)
                 (Wheel.cur_wheel_tick (PollerInt.wheel p) + 1) in
  k < 2 ^ 32 →
  ∃ r p', PollerInt.timer_reg p id dur now = Ok (r, p') ∧ poller_ok p'
    ∧ match r with
      | Some tk => status (PollerInt.wheel p) tk = Vacant
          ∧ ∀ x, status (PollerInt.wheel p') x =
              if decide (x = tk) then Armed id k else status (PollerInt.wheel p) x
      | None => PollerInt.wheel p' = PollerInt.wheel p
          ∧ available (Wheel.slab (PollerInt.wheel p)) = 0
      end.
Proof.
  intros Hok Hid Hmax Hfull at_ Hsane k Hk.
  destruct (timer_reg_run p id dur now Hok Hid Hmax Hfull Hsane Hk)
    as (r & p' & ? & ? & _ & _ & _ & ?). by exists r, p'.
Qed.

(** ** Any sequence of calls *)
Inductive op :=
| Poll (ready : option (list Z)) (results : list (Z * Z * IpAddr))
| Register (id : Z) (dur : option Z)
| Cancel (tk : Token.t).

Definition exec p (now : Z) (o : op) : outcome Empty_set (PollerInt.t S Stack) :=
  match o with
  | Poll ready results => '(_, p) ← PollerInt.poll p ready now results; Ok p
  | Register id dur => '(_, p) ← PollerInt.timer_reg p id dur now; Ok p
  | Cancel tk => PollerInt.timer_cancel p tk
  end.

Fixpoint run p (l : list (Z * op)) : outcome Empty_set (PollerInt.t S Stack) :=
  match l with
  | [] => Ok p
  | (now, o) :: l => p ← exec p now o; run p l
  end.

(** The instants are within the wheel's range and before tick [T]; the
    identifiers belong to the 20 runners. *)
Definition op_ok (w : Wheel.t S) (T : Z) (x : Z * op) : Prop :=
  let in_range at_ := sane w at_ ∧ tick_of w at_ ≤ T in
  match x.2 with
  | Poll ready results => in_range x.1
      ∧ match ready with Some events => Forall routable events | None => True end
      ∧ Forall (λ r, routable r.1.1) results
  | Register id dur => routable id ∧ in_range (x.1 + default (ms 250) dur)
  | Cancel _ => True
  end.

Fixpoint registers (l : list (Z * op)) : nat :=
  match l with
  | [] => 0
  | (_, Register _ _) :: l => Datatypes.S (registers l)
  | _ :: l => registers l
  end.

(** What every call keeps: room for [n] more registrations. *)
Record timers_ok (w0 : Wheel.t S) (T : Z) (n : nat) p : Prop := {
  timers_poller : poller_ok p;
  timers_config : same_config w0 (PollerInt.wheel p);
  timers_cursor : Wheel.cur_wheel_tick (PollerInt.wheel p) ≤ T + 1;
  timers_room : len (Wheel.slab (PollerInt.wheel p)) + Z.of_nat n
                ≤ Wheel.max_capacity (PollerInt.wheel p) ≤ I64_MAX
}.

Lemma exec_ok w0 T n p now o : T + 2 < 2 ^ 32 → op_ok w0 T (now, o) →
  timers_ok w0 T (registers [(now, o)] + n) p →
  ∃ p', exec p now o = Ok p' ∧ timers_ok w0 T n p'.
Proof.
  intros HT Ho [Hok Hcf Hcur Hroom]. pose proof (len_nonneg (Wheel.slab (PollerInt.wheel p))).
  destruct o as [[events|] results|id dur|tk]; unfold op_ok in Ho; cbn [snd fst] in Ho;
    cbv zeta in Ho; cbn [registers Nat.add] in Hroom; cbn [exec].
  - destruct Ho as ([Hs Ht] & Hev & Hres).
    destruct (poll_run p events now results Hok) as (fired & b & p' & -> & Hok' & Hcf' & Hlen & Hcur' & _);
      [by apply (same_config_sane w0)|done|done|].
    mstep. exists p'. split; [done|]. rewrite (same_config_tick w0) in Hcur' by done.
    split; [done|by etrans|lia|]. rewrite (same_max _ _ Hcf'). lia.
  - exists p. by split.
  - destruct Ho as (Hid & Hs & Ht).
    destruct (timer_reg_run p id dur now Hok Hid) as (r & p' & -> & Hok' & Hcf' & Hlen & Hcur' & _);
      [lia|lia|by apply (same_config_sane w0)| |].
    { rewrite (same_config_tick w0) by done. unfold ms in *. unfold TICK_MS. lia. }
    mstep. exists p'. split; [done|]. split; [done|by etrans|lia|].
    rewrite (same_max _ _ Hcf'). lia.
  - unfold PollerInt.timer_cancel.
    destruct (cancel_spec _ tk (ok_wheel _ Hok)) as (w' & -> & Hwf' & Hcf' & Hcur' & Hlen & Hst).
    mstep. exists (PollerInt.set_wheel p w'). split; [done|]. split; cbn.
    + destruct Hok. split; try done. intros t task k. cbn. rewrite Hst. case_decide; [done|]. eauto.
    + by etrans.
    + lia.
    + rewrite (same_max _ _ Hcf'). lia.
Qed.

Lemma run_ok w0 T l p : T + 2 < 2 ^ 32 → Forall (op_ok w0 T) l →
  timers_ok w0 T (registers l) p → ∃ p', run p l = Ok p' ∧ timers_ok w0 T 0 p'.
Proof.
  intros HT Hl. revert p. induction Hl as [|[now o] l Ho Hl IH]; intros p Hp; [by exists p|].
  destruct (exec_ok w0 T (registers l) p now o HT Ho) as (p1 & Hrun & Hp1).
  { destruct o; cbn in *; done. }
  cbn [run]. rewrite Hrun. mstep. by apply IH.
Qed.

Lemma run_app p l l' : run p (l ++ l') = (p ← run p l; run p l').
Proof.
  revert p. induction l as [|[now o] l IH]; intros p; [done|]. cbn [run app].
  destruct (exec p now o) as [p1|e| |]; [apply IH|done..].
Qed.

Lemma timer_reg_timedout p id dur now r p' : PollerInt.timer_reg p id dur now = Ok (r, p') →
  PollerInt.timedout_fibers p' = PollerInt.timedout_fibers p.
Proof.
  intros ([[tk|] w] & _ & H1)%bind_Ok; [|by injection H1 as _ <-].
  apply bind_Ok in H1 as (at_ & _ & H1). by apply bind_Ok in H1 as (w' & _ & [= _ <-]).
Qed.

(** A poll whose tick is at least [k] *)
Definition due_poll (w0 : Wheel.t S) (k : Z) (x : Z * op) : Prop :=
  match x.2 with Poll (Some _) _ => k ≤ tick_of w0 x.1 | _ => False end.
#[export] Instance due_poll_dec w0 k x : Decision (due_poll w0 k x).
Proof. unfold due_poll. destruct x.2 as [[events|] results|id dur|tk]; apply _. Defined.

(** What a call does to the queue of timed out fibers of the runner [r], and to an
    armed timer: it fires in the first poll of its tick or a later one. *)
Lemma exec_timer w0 T n p now o p' tk id k : T + 2 < 2 ^ 32 → op_ok w0 T (now, o) →
  timers_ok w0 T (registers [(now, o)] + n) p → exec p now o = Ok p' → o ≠ Cancel tk →
  (∀ r, ∃ more, queue (PollerInt.timedout_fibers p') r = queue (PollerInt.timedout_fibers p) r ++ more
    ∧ (status (PollerInt.wheel p) tk = Armed id k → due_poll w0 k (now, o) →
       r = (PollerInt.split_id id).1 → (PollerInt.split_id id).2 ∈ more))
  ∧ (status (PollerInt.wheel p) tk = Armed id k → ¬ due_poll w0 k (now, o) →
     status (PollerInt.wheel p') tk = Armed id k).
Proof.
  intros HT Ho [Hok Hcf Hcur Hroom] Hrun Htk. pose proof (len_nonneg (Wheel.slab (PollerInt.wheel p))).
  destruct o as [[events|] results|id' dur|tk']; unfold op_ok in Ho; cbn [snd fst] in Ho;
    cbv zeta in Ho; cbn [registers Nat.add] in Hroom; cbn [exec] in Hrun; unfold due_poll; cbn [snd fst].
  - destruct Ho as ([Hs Ht] & Hev & Hres).
    destruct (poll_run p events now results Hok)
      as (fired & b & p1 & Hp1 & _ & _ & _ & _ & [_ Hdue Hrest] & _ & Hq & _);
      [by apply (same_config_sane w0)|done|done|].
    rewrite Hp1 in Hrun. injection Hrun as <-. rewrite (same_config_tick w0) in Hdue by done. split.
    + intros r. exists (routed r fired.*2). split; [apply Hq|]. intros Hst Hk ->.
      apply list_elem_of_omap. exists id. rewrite decide_True by done. split; [|done].
      apply list_elem_of_fmap. exists (tk, id). split; [done|]. apply Hdue. by exists k.
    + intros Hst Hk. rewrite Hrest, decide_False; [done|].
      intros ([t task] & Heq & Hin)%list_elem_of_fmap. cbn in Heq. subst t.
      apply Hdue in Hin as (k' & Hst' & Hle). rewrite Hst in Hst'. by injection Hst' as <- <-.
  - injection Hrun as <-. split; [|done]. intros r. exists []. by rewrite app_nil_r.
  - destruct Ho as (Hid & Hs & Ht).
    destruct (timer_reg_run p id' dur now Hok Hid) as (r & p1 & Hp1 & _ & _ & _ & _ & Hr);
      [lia|lia|by apply (same_config_sane w0)| |].
    { rewrite (same_config_tick w0) by done. unfold ms in *. unfold TICK_MS. lia. }
    rewrite Hp1 in Hrun. injection Hrun as <-. split.
    + intros r'. exists []. rewrite app_nil_r. split; [|done]. by rewrite (timer_reg_timedout _ _ _ _ _ _ Hp1).
    + intros Hst _. destruct r as [t|]; [|by destruct Hr as [-> _]].
      destruct Hr as [Hv ->]. rewrite decide_False; [done|]. intros ->. congruence.
  - unfold PollerInt.timer_cancel in Hrun.
    destruct (cancel_spec _ tk' (ok_wheel _ Hok)) as (w' & Hw' & _ & _ & _ & _ & Hst).
    rewrite Hw' in Hrun. injection Hrun as <-. split.
    + intros r. exists []. by rewrite app_nil_r.
    + intros Hst' _. cbn. rewrite Hst, decide_False; [done|]. congruence.
Qed.

Lemma run_timer w0 T l p p' tk id k : T + 2 < 2 ^ 32 → Forall (op_ok w0 T) l →
  timers_ok w0 T (registers l) p → run p l = Ok p' → Forall (λ x, x.2 ≠ Cancel tk) l →
  (∀ r, ∃ more, queue (PollerInt.timedout_fibers p') r = queue (PollerInt.timedout_fibers p) r ++ more
    ∧ (status (PollerInt.wheel p) tk = Armed id k → Exists (due_poll w0 k) l →
       r = (PollerInt.split_id id).1 → (PollerInt.split_id id).2 ∈ more))
  ∧ (status (PollerInt.wheel p) tk = Armed id k → Forall (λ x, ¬ due_poll w0 k x) l →
     status (PollerInt.wheel p') tk = Armed id k).
Proof.
  intros HT Hl. revert p. induction Hl as [|[now o] l Ho Hl IH]; intros p Hp Hrun Htk.
  { injection Hrun as <-. split; [|done]. intros r. exists []. rewrite app_nil_r. split; [done|].
    by intros _ ?%Exists_nil. }
  apply Forall_cons in Htk as [Ho' Htk]. cbn in Ho'.
  assert (timers_ok w0 T (registers [(now, o)] + registers l) p) as Hp' by by destruct o.
  destruct (exec_ok w0 T (registers l) p now o HT Ho Hp') as (p1 & H1 & Hp1).
  destruct (exec_timer w0 T (registers l) p now o p1 tk id k HT Ho Hp' H1 Ho') as [Hq Hst].
  cbn [run] in Hrun. rewrite H1 in Hrun. destruct (IH p1 Hp1 Hrun Htk) as [Hqs Hsts]. split.
  - intros r. destruct (Hq r) as (m1 & Hm1 & Hin1), (Hqs r) as (m2 & Hm2 & Hin2).
    exists (m1 ++ m2). rewrite Hm2, Hm1, app_assoc. split; [done|].
    intros Ha Hex Hr. rewrite elem_of_app. destruct (decide (due_poll w0 k (now, o))) as [|Hnd]; [by auto|].
    right. apply Hin2; [by apply Hst| |done]. by apply Exists_cons in Hex as [?|?].
  - intros Ha [Hnd Hnds]%Forall_cons. by apply Hsts; [apply Hst|].
Qed.

(** C13. A registered timer fires, once its deadline has passed and the poller has
    gone past the tick where it was.  Let [timer_reg] give the token [tk] for the
    fiber [id], and let any calls follow that do not cancel [tk]: more polls,
    registrations and cancellations.  While each of these polls is before the tick
    [k], the timer stays armed.  Every poll at an instant [now'] that is neither
    before the deadline nor in the tick of the cursor at the registration (or an
    earlier one) finds it, at the latest: when it returns, the fiber has been put
    into its runner's queue of timed out fibers since the registration, behind those
    that were there.  (A poll leaves the cursor at the tick after its own.  So a
    timer of 250 ms, one tick, that is registered right after a poll is not found by
    a poll less than two ticks later, even though its deadline has passed.) *)
Theorem registered_timer_fires p id dur now l now' events results T :
  let w := PollerInt.wheel p in
  let at_ := now + default (ms 250) dur in
  let k := Z.max (tick_of w at_) (Wheel.cur_wheel_tick w + 1) in
  let runner := (PollerInt.split_id id).1 in
  timers_ok w T (Datatypes.S (registers l)) p → T + 2 < 2 ^ 32 →
  Forall (op_ok w T) ((now, Register id dur) :: l ++ [(now', Poll (Some events) results)]) →
  at_ ≤ now' → Wheel.cur_wheel_tick w < tick_of w now' →
  ∃ r p1, PollerInt.timer_reg p id dur now = Ok (r, p1)
    ∧ (r = None → available (Wheel.slab w) = 0)
    ∧ ∀ tk, r = Some tk → Forall (λ x, x.2 ≠ Cancel tk) l →
      ∃ p2 b p3, run p1 l = Ok p2
        ∧ (Forall (λ x, ¬ due_poll w k x) l → status (PollerInt.wheel p2) tk = Armed id k)
        ∧ PollerInt.poll p2 (Some events) now' results = Ok (b, p3)
        ∧ ∃ more, queue (PollerInt.timedout_fibers p3) runner
            = queue (PollerInt.timedout_fibers p1) runner ++ more
          ∧ (PollerInt.split_id id).2 ∈ more.
Proof.
  intros w at_ k runner Hp HT [Ho Hl]%Forall_cons Hlate Hnow'.
  assert (registers (l ++ [(now', Poll (Some events) results)]) = registers l) as Hregs.
  { clear. induction l as [|[now [| |]] l IH]; cbn; congruence. }
  destruct (exec_ok w T (registers l) p now (Register id dur) HT Ho Hp) as (p1 & H1 & Hp1).
  apply bind_Ok in H1 as ([r p1'] & H1 & [= ->]). exists r, p1. split; [done|].
  pose proof Hp as [Hok _ Hcur Hroom]. pose proof (len_nonneg (Wheel.slab (PollerInt.wheel p))).
  destruct Ho as (Hid & Hs & Ht). fold w in Hs, Ht, Hcur. cbn [fst] in Hs, Ht. fold at_ in Hs, Ht.
  destruct (timer_reg_run p id dur now Hok Hid) as (r' & p1' & Hr & _ & _ & _ & _ & Harm);
    [lia|lia|exact Hs|change (k < 2 ^ 32); unfold k; lia|].
  rewrite H1 in Hr. injection Hr as <- <-. split; [intros ->; apply Harm|]. intros tk -> Htk.
  destruct Harm as [_ Harm]. specialize (Harm tk). rewrite decide_True in Harm by done.
  destruct (run_ok w T (l ++ [(now', Poll (Some events) results)]) p1 HT Hl) as (p3 & Hrun & _);
    [by rewrite Hregs|].
  destruct (run_timer w T _ p1 p3 tk id k HT Hl) as [Hq _];
    [by rewrite Hregs|done|apply Forall_app; split; [done|by repeat constructor]|].
  apply Forall_app in Hl as [Hl _].
  destruct (run_ok w T l p1 HT Hl Hp1) as (p2 & H2 & _).
  destruct (run_timer w T l p1 p2 tk id k HT Hl Hp1 H2 Htk) as [_ Hst].
  rewrite run_app, H2 in Hrun. apply bind_Ok in Hrun as (p2' & [= <-] & Hrun).
  cbn [run exec] in Hrun. apply bind_Ok in Hrun as (p3' & Hrun & [= ->]).
  apply bind_Ok in Hrun as ([b p3'] & H3 & [= ->]).
  exists p2, b, p3. split_and!; [done|by apply Hst|done|].
  destruct (Hq runner) as (more & Hmore & Hin). exists more. split; [done|].
  apply Hin; [done| |done]. apply Exists_app. right. apply Exists_cons. left. unfold due_poll. cbn.
  unfold k. apply Z.max_lub; [|lia]. apply tick_of_mono; [apply Hok|done].
Qed.

(** The poller's wheel: the default configuration with ticks of 250 ms. *)
Definition poller_config : Builder.t :=
  Builder.tick_duration Builder.new (Duration.from_millis TICK_MS).

Lemma poller_config_usable now : 0 ≤ now < 2 ^ 62 * Duration.NANOS_PER_SEC →
  usable poller_config now.
Proof.
  intros Hnow. split; [exists 12; by split|by vm_compute|by vm_compute|done].
Qed.

Lemma new_poller size file now : 0 ≤ now < 2 ^ 62 * Duration.NANOS_PER_SEC →
  ∃ p, PollerInt.new size file now = Ok p ∧ poller_ok p
    ∧ Wheel.start (PollerInt.wheel p) = now ∧ Wheel.tick_ms (PollerInt.wheel p) = 250
    ∧ ∀ T n, 0 ≤ T + 1 → Z.of_nat n ≤ 4194304 → timers_ok (PollerInt.wheel p) T n p.
Proof.
  intros Hnow. destruct (new_spec (S:=S) _ _ (poller_config_usable now Hnow))
    as (w & Hw & Hwf & Hst & Hstart & Htick & Hcur & Hmax & Hav & Hlen).
  assert (∃ d, Dns.new file = Ok d) as [d Hd].
  { unfold Dns.new, get_dns_servers. destruct file; mstep; [by eexists|]. vm_compute. by eexists. }
  unfold PollerInt.new. fold poller_config. rewrite Hw. mstep. rewrite Hd. mstep.
  eexists. split; [done|]. cbn [PollerInt.wheel].
  assert (∀ t task k, status w t = Armed task k → routable task) as Htasks.
  { intros t task k. by rewrite Hst. }
  split_and!; [by split|done|by rewrite Htick|].
  intros T n HT Hn. split; cbn [PollerInt.wheel]; [by split|done|lia|].
  rewrite Hlen, Hmax. change (Builder.get_max_capacity poller_config) with 4194304.
  unfold I64_MAX. lia.
Qed.

(** C7. A poller made by [PollerInt::new] survives every sequence of polls, timer
    registrations and cancellations, of any tokens (stale ones too), at instants
    in any order: none of the calls panics or fails to return, while there are at
    most 4,194,304 registrations and all instants lie within 2{^32} ticks of
    250 ms of its creation. *)
Theorem poller_run_safe size file start p l T : 0 ≤ start < 2 ^ 62 * Duration.NANOS_PER_SEC →
  PollerInt.new size file start = Ok p → 0 ≤ T → T + 2 < 2 ^ 32 →
  Z.of_nat (registers l) ≤ 4194304 → Forall (op_ok (PollerInt.wheel p) T) l →
  ∃ p', run p l = Ok p' ∧ poller_ok p'.
Proof.
  intros Hstart Hp HT0 HT Hregs Hl.
  destruct (new_poller size file start Hstart) as (p0 & Hp0 & _ & _ & _ & Hok).
  rewrite Hp in Hp0. injection Hp0 as <-.
  destruct (run_ok (PollerInt.wheel p) T l p HT Hl) as (p' & Hrun & Hok'); [by apply Hok; lia|].
  exists p'. split; [done|]. apply Hok'.
Qed.

(** ** The queue of fibers to run *)
Lemma pop_front_spec {A} (queues : list (list A)) r : (r < length queues)%nat →
  ∃ queues', PollerInt.pop_front queues r = Ok (head (queue queues r), queues')
    ∧ length queues' = length queues
    ∧ ∀ j, queue queues' j = if decide (j = r) then tail (queue queues r) else queue queues j.
Proof.
  intros Hr. destruct (lookup_lt_is_Some_2 _ _ Hr) as [q Hq].
  unfold PollerInt.pop_front. rewrite (proj2 (index_Ok _ _ _) Hq). mstep.
  assert (queue queues r = q) as Hqq by (unfold queue; by rewrite Hq).
  rewrite Hqq. destruct q as [|x q].
  - exists queues. split_and!; [done..|]. intros j. case_decide; [by subst|done].
  - rewrite store_in by done. mstep. eexists. split_and!; [done|apply length_insert|].
    intros j. unfold queue. case_decide as Hj.
    + subst. by rewrite list_lookup_insert_eq.
    + by rewrite list_lookup_insert_ne.
Qed.

(** The queue of fibers to run is first in, first out, for each runner on its
    own: a push appends to the runner's queue and a pop takes its first element
    ([None] when it is empty); the other runners' queues do not change.  A runner
    out of the 20 panics. *)
Theorem toexec_queue p runner fiber : poller_ok p →
  if decide (runner < RUNNERS)%nat then
    (∃ p', PollerInt.toexec_push p runner fiber = Ok p' ∧ poller_ok p'
       ∧ ∀ r, queue (PollerInt.toexec_fibers p') r =
           queue (PollerInt.toexec_fibers p) r ++ if decide (r = runner) then [fiber] else [])
    ∧ ∃ p', PollerInt.toexec_pop p runner
         = Ok (head (queue (PollerInt.toexec_fibers p) runner), p') ∧ poller_ok p'
       ∧ ∀ r, queue (PollerInt.toexec_fibers p') r =
           if decide (r = runner) then tail (queue (PollerInt.toexec_fibers p) runner)
           else queue (PollerInt.toexec_fibers p) r
  else PollerInt.toexec_push p runner fiber = Panic ∧ PollerInt.toexec_pop p runner = Panic.
Proof.
  intros Hok. pose proof Hok as [Hlen Ht2 Ht3 Hwf Htasks]. case_decide as Hr.
  - split.
    + destruct (push_back_spec (PollerInt.toexec_fibers p) runner fiber) as (q & Hq & Hl & Hqs);
        [by rewrite Hlen|].
      unfold PollerInt.toexec_push. rewrite Hq. mstep. eexists. split; [done|].
      split; [|exact Hqs]. split; try done. cbn. congruence.
    + destruct (pop_front_spec (PollerInt.toexec_fibers p) runner) as (q & Hq & Hl & Hqs);
        [by rewrite Hlen|].
      unfold PollerInt.toexec_pop. rewrite Hq. mstep. eexists. split; [done|].
      split; [|exact Hqs]. split; try done. cbn. congruence.
  - unfold PollerInt.toexec_push, PollerInt.toexec_pop, PollerInt.push_back, PollerInt.pop_front, index.
    by rewrite lookup_ge_None_2 by lia.
Qed.
End poller.

(** ** Witnesses *)

(** A poller without stacks, on a given wheel. *)
Definition small_poller (w : Wheel.t (list (option Entry.t)))
    : PollerInt.t (list (option Entry.t)) unit :=
  PollerInt.mk (replicate RUNNERS []) (replicate RUNNERS []) (replicate RUNNERS []) None [] w
    (Dns.mk []).

Lemma wheel0_poller_ok : poller_ok (small_poller wheel0).
Proof.
  split; [done..|apply wheel0_wf|]. intros t task k. cbn. by rewrite wheel0_status.
Qed.

Lemma wheel2_poller_ok : poller_ok (small_poller wheel2).
Proof.
  split; [done..|apply wheel2_wf|]. intros t task k. cbn. rewrite wheel2_status.
  case_decide; [|done]. intros [= <- <-]. unfold routable. vm_compute. lia.
Qed.

Lemma split_fiber_id_witness :
  PollerInt.split_id (fiber_id 3 70000) = (3%nat, 70000)
  ∧ ∀ id, 0 ≤ id → ((PollerInt.split_id id).1 < 256)%nat ∧ 0 ≤ (PollerInt.split_id id).2 < 2 ^ 32.
Proof. apply split_fiber_id; lia. Defined.

(** The fiber 9 of the runner 2 is ready, the timer of the fiber 71 of the runner 0
    is due. *)
Lemma poller_poll_witness : ∃ p', poller_ok p'
  ∧ PollerInt.poll (small_poller wheel2) (Some [fiber_id 2 9]) (ms 700) [] = Ok (true, p')
  ∧ queue (PollerInt.toexec_fibers p') 2 = [9] ∧ queue (PollerInt.timedout_fibers p') 0 = [71].
Proof.
  destruct (poller_poll (small_poller wheel2) [fiber_id 2 9] (ms 700) [] wheel2_poller_ok)
    as (fired & b & p' & Hrun & Hok & _).
  - by split.
  - constructor; [|constructor]. unfold routable. vm_compute. lia.
  - constructor.
  - exists p'. split; [exact Hok|]. vm_compute in Hrun. injection Hrun as <- <-.
    split; [by vm_compute|done].
Defined.

Lemma timer_reg_arms_witness :
  ∃ r p', PollerInt.timer_reg (small_poller wheel0) 71 (Some (ms 600)) 0 = Ok (r, p') ∧ poller_ok p'.
Proof.
  destruct (timer_reg_arms (small_poller wheel0) 71 (Some (ms 600)) 0 wheel0_poller_ok)
    as (r & p' & Hrun & Hok & _).
  - unfold routable. vm_compute. lia.
  - by split.
  - done.
  - by split.
  - done.
  - by exists r, p'.
Defined.

(** A poller as the program makes it, at instant 0. *)
Definition fresh_poller : PollerInt.t (list (option Entry.t)) unit :=
  small_poller (Wheel.mk (replicate 4096 free_slot) (replicate 256 None) 0 0 EMPTY 4194304 250 4095).

Lemma poller_run_safe_witness :
  PollerInt.new None (Some []) 0 = Ok fresh_poller
  ∧ ∃ p', run fresh_poller [(0, Register 71 None); (ms 300, Poll (Some [5]) []); (ms 300, Cancel 0)]
          = Ok p' ∧ poller_ok p'.
Proof.
  assert (PollerInt.new (Stack:=unit) None (Some []) 0 = Ok fresh_poller) as Hnew by by vm_compute.
  split; [exact Hnew|].
  apply (poller_run_safe None (Some []) 0 fresh_poller _ 10); [by split|exact Hnew|lia|lia|by vm_compute|].
  repeat constructor; unfold routable; try (vm_compute; lia); by vm_compute.
Defined.

(** A timer of 250 ms that is registered at 100 ms, after a poll at that instant, is
    not found by the poll at 400 ms, after its deadline, but by the one at 600 ms. *)
Definition polled : PollerInt.t (list (option Entry.t)) unit :=
  small_poller (Wheel.set_cur_wheel_tick wheel2 1).

Lemma polled_ok : poller_ok polled.
Proof.
  destruct (poll_run (small_poller wheel2) [] (ms 100) [] wheel2_poller_ok)
    as (fired & b & p & Hp & Hok & _); [by split|done..|].
  vm_compute in Hp. injection Hp as <- <-. exact Hok.
Qed.

Lemma registered_timer_fires_witness :
  ∃ r p1, PollerInt.timer_reg polled 72 (Some (ms 250)) (ms 100) = Ok (r, p1) ∧ r = Some 1
    ∧ ∃ p2 b p3, run p1 [(ms 400, Poll (Some []) [])] = Ok p2
      ∧ queue (PollerInt.timedout_fibers p2) 0 = []
      ∧ status (PollerInt.wheel p2) 1 = Armed 72 2
      ∧ PollerInt.poll p2 (Some []) (ms 600) [] = Ok (b, p3)
      ∧ ∃ more, queue (PollerInt.timedout_fibers p3) 0 = queue (PollerInt.timedout_fibers p1) 0 ++ more
        ∧ 72 ∈ more.
Proof.
  destruct (registered_timer_fires polled 72 (Some (ms 250)) (ms 100)
    [(ms 400, Poll (Some []) [])] (ms 600) [] [] 10) as (r & p1 & H1 & _ & H).
  - split; [exact polled_ok|by split|by vm_compute|by vm_compute].
  - lia.
  - repeat constructor; unfold routable; try (vm_compute; lia); by vm_compute.
  - by vm_compute.
  - by vm_compute.
  - exists r, p1. split; [exact H1|]. vm_compute in H1. injection H1 as <- <-. split; [done|].
    destruct (H 1) as (p2 & b & p3 & H2 & Hst & H3 & Hmore); [done|by repeat constructor|].
    exists p2, b, p3. split; [exact H2|]. vm_compute in H2. injection H2 as <-.
    split; [by vm_compute|]. split; [|by split].
    apply Hst. constructor; [|constructor]. vm_compute. by intros [].
Defined.

Lemma toexec_queue_witness : ∃ p',
  PollerInt.toexec_push (small_poller wheel0) 3 9 = Ok p' ∧ poller_ok p'.
Proof.
  pose proof (toexec_queue (small_poller wheel0) 3 9 wheel0_poller_ok) as Hq.
  rewrite decide_True in Hq by (unfold RUNNERS; lia).
  destruct Hq as [(p' & Hrun & Hok & _) _]. by exists p'.
Defined.
