(* ===== verification/Routing.v ===== *)
(** * What the timers and the queues name

    Whatever the wheel's lists look like, its operations only move the tasks that
    [set_timeout] was given: a predicate that holds of each of them holds of every
    task in the slab and of every task that [poll] returns.  So the poller's queues
    only ever hold the positions that its sockets, timers and lookups were given. *)
From S2P Require Import Prelude Clock TimerConfig Slab Wheel StdText Resolver Poller.
From S2P Require Import PollerProps.
Local Open Scope Z_scope.

Section tasks.
Context {S : Type} `{SlabOps Entry.t S, !SlabLaws Entry.t S} (P : Task → Prop).
Implicit Types (w : Wheel.t S) (s : S).

(** Every timeout in the slab is for a task that satisfies [P]. *)
Definition tasks_in s : Prop :=
  ∀ k v, get s k = Some (Entry.Timeout v) → P (Timeout.task v).
Definition tasks_of w : Prop := tasks_in (Wheel.slab w).

Lemma tasks_set s k v : is_Some (get s k) → P (Timeout.task v) → tasks_in s →
  tasks_in (set s k (Entry.Timeout v)).
Proof.
  intros Hk Hv Hs j v' Hj. rewrite set_get in Hj by done.
  case_decide; [by injection Hj as <-|by eapply Hs].
Qed.

Lemma tasks_update s k f s' : (∀ v, Timeout.task (f v) = Timeout.task v) →
  Wheel.update_timeout s k f = Ok s' → tasks_in s → tasks_in s'.
Proof.
  intros Hf (e & He%expect_Ok & (v & Hv & [= <-])%bind_Ok)%bind_Ok Hs.
  destruct e as [|v']; [done|]. injection Hv as <-.
  apply tasks_set; [by eexists| |done]. rewrite Hf. by eapply Hs.
Qed.

Lemma tasks_remove s k : tasks_in s → tasks_in (remove s k).2.
Proof. intros Hs j v Hj. rewrite remove_get in Hj. case_decide; [done|by eapply Hs]. Qed.

Lemma tasks_reserve w r w' : Wheel.reserve w = Ok (r, w') → tasks_of w → tasks_of w'.
Proof.
  assert (∀ w r w', match insert (Wheel.slab w) Entry.Reserved with
    | Some (k, s) => Ok (E := Empty_set) (Some k, Wheel.set_slab w s) | None => Ok (None, w) end
      = Ok (r, w') → tasks_of w → tasks_of w') as Hins.
  { intros w1 r1 w2 H1 Hw. destruct (insert _ _) as [[k s]|] eqn:Hi; simplify_eq; [|done].
    apply insert_get in Hi as [_ Hi]. intros j v Hj. cbn in Hj. rewrite Hi in Hj.
    case_decide; [done|by eapply Hw]. }
  unfold Wheel.reserve. intros H1 Hw. destruct (vacant_entry _); [by eapply Hins|].
  apply bind_Ok in H1 as (room & _ & H1). case_decide; [by simplify_eq|].
  eapply Hins; [exact H1|]. intros j v Hj. cbn in Hj. rewrite reserve_get in Hj. by eapply Hw.
Qed.

Lemma tasks_set_timeout w token at_ task w' : Wheel.set_timeout w token at_ task = Ok w' →
  P task → tasks_of w → tasks_of w'.
Proof.
  intros H1 Ht Hw. unfold Wheel.set_timeout in H1.
  apply bind_Ok in H1 as (tick & _ & H1). apply bind_Ok in H1 as (tick' & _ & H1).
  apply bind_Ok in H1 as (delay & _ & H1). apply bind_Ok in H1 as (at' & _ & H1).
  apply bind_Ok in H1 as (slot & _ & H1). apply bind_Ok in H1 as (e & He%expect_Ok & H1).
  apply bind_Ok in H1 as (slab2 & H2 & H1). apply bind_Ok in H1 as (slots & _ & [= <-]).
  unfold tasks_of. cbn. case_decide; [|injection H2 as <-].
  - eapply tasks_update; [|exact H2|]; [done|]. apply tasks_set; [by eexists|done..].
  - apply tasks_set; [by eexists|done..].
Qed.

(** Removing an entry: the others stay, and so does what the removed one was for. *)
Lemma tasks_remove_slab w k r w' : Wheel.remove_slab w k = Ok (r, w') → tasks_of w →
  tasks_of w' ∧ ∀ v, r = Some (Entry.Timeout v) → P (Timeout.task v).
Proof.
  unfold Wheel.remove_slab. intros H1 Hw.
  pose proof (remove_value (Wheel.slab w) k) as Hv.
  pose proof (tasks_remove (Wheel.slab w) k Hw) as Hr.
  destruct (remove (Wheel.slab w) k) as [removed s]. cbn in Hv, Hr.
  destruct removed as [[|entry]|]; [by simplify_eq| |by simplify_eq].
  apply bind_Ok in H1 as (w1 & H1 & H2). apply bind_Ok in H2 as (w2 & H2 & [= <- <-]).
  assert (tasks_of w1) as Hw1.
  { destruct (decide (Timeout.prev entry = EMPTY)).
    - apply bind_Ok in H1 as (slot & _ & H1). by apply bind_Ok in H1 as (slots & _ & [= <-]).
    - apply bind_Ok in H1 as (s1 & H1 & [= <-]). by eapply tasks_update; [|exact H1|]. }
  assert (tasks_of w2) as Hw2.
  { destruct (decide (Timeout.next entry ≠ EMPTY)); [|by injection H2 as <-].
    apply bind_Ok in H2 as (s1 & H2 & [= <-]). by eapply tasks_update; [|exact H2|]. }
  split; [|intros v [= <-]; by eapply Hw].
  destruct (decide (Wheel.cur_slab_idx w2 = k)); done.
Qed.

Lemma tasks_set_next_timeout w idx o w' : Wheel.set_next_timeout w idx o = Ok w' →
  tasks_of w → tasks_of w'.
Proof. by intros (slot & _ & (slots & _ & [= <-])%bind_Ok)%bind_Ok. Qed.

Lemma tasks_poll_body w at_ r : Wheel.poll_body w at_ = Ok r → tasks_of w →
  match r with
  | Wheel.Return task w' => tasks_of w' ∧ ∀ x, task = Some x → P x
  | Wheel.Continue w' => tasks_of w'
  end.
Proof.
  unfold Wheel.poll_body. intros H1 Hw.
  case_decide; apply bind_Ok in H1 as (slot & _ & H1); apply bind_Ok in H1 as (w1 & Hw1 & H1);
    assert (tasks_of w1) as Hw1' by (case_decide; [by eapply tasks_set_next_timeout|by simplify_eq]).
  - apply bind_Ok in H1 as (tick & _ & H1). by apply bind_Ok in H1 as (slot' & _ & [= <-]).
  - apply bind_Ok in H1 as (e & _ & H1). apply bind_Ok in H1 as (v & _ & H1).
    apply bind_Ok in H1 as (ht & _ & H1). apply bind_Ok in H1 as (now & _ & H1). case_decide.
    + apply bind_Ok in H1 as ([removed w2] & Hw2 & [= <-]).
      apply tasks_remove_slab in Hw2 as [Hw2 Hv]; [|done]. split; [done|].
      intros x Hx. destruct removed as [[|v']|]; simplify_eq. by apply Hv.
    + apply bind_Ok in H1 as (slot' & _ & H1). apply bind_Ok in H1 as (w2 & Hw2 & [= <-]).
      case_decide; [by eapply tasks_set_next_timeout|by simplify_eq].
Qed.

Lemma tasks_poll_loop fuel w at_ tick r w' : Wheel.poll_loop fuel w at_ tick = Ok (r, w') →
  tasks_of w → tasks_of w' ∧ ∀ x, r = Some x → P x.
Proof.
  revert w. induction fuel as [|fuel IH]; intros w1 H1 Hw; cbn [Wheel.poll_loop] in H1;
    (case_decide; [|by simplify_eq]); [done|].
  apply bind_Ok in H1 as (r1 & H1 & H2'). apply tasks_poll_body in H1; [|done].
  destruct r1; [by simplify_eq|by eapply IH].
Qed.

Lemma tasks_poll w at_ r w' : Wheel.poll w at_ = Ok (r, w') → tasks_of w →
  tasks_of w' ∧ ∀ x, r = Some x → P x.
Proof. intros (tick & _ & H1)%bind_Ok. by eapply tasks_poll_loop. Qed.

(** The poller's methods on the wheel *)
Context {Stack W : Type} `{!Stacks W Stack}.
Implicit Types (p : PollerInt.t S Stack).

Lemma tasks_timer_reg p id dur now r p' : PollerInt.timer_reg p id dur now = Ok (r, p') →
  P id → tasks_of (PollerInt.wheel p) → tasks_of (PollerInt.wheel p').
Proof.
  unfold PollerInt.timer_reg. intros ([tk w] & Hw & H1)%bind_Ok Hid Hp.
  apply tasks_reserve in Hw; [|done]. destruct tk; [|by simplify_eq].
  apply bind_Ok in H1 as (at_ & _ & H1). apply bind_Ok in H1 as (w' & Hw' & [= _ <-]).
  by eapply tasks_set_timeout.
Qed.

Lemma tasks_timer_cancel p tk p' : PollerInt.timer_cancel p tk = Ok p' →
  tasks_of (PollerInt.wheel p) → tasks_of (PollerInt.wheel p').
Proof.
  intros (w & Hw & [= <-])%bind_Ok Hp. cbn. unfold Wheel.cancel in Hw.
  apply bind_Ok in Hw as ([r w1] & Hw & [= <-]). by eapply tasks_remove_slab.
Qed.

Lemma tasks_new builder now w : Wheel.new builder now = Ok w → tasks_of w.
Proof.
  intros (mask & _ & H1)%bind_Ok. case_decide; [|done]. injection H1 as <-.
  intros k v Hk. cbn in Hk. by rewrite get_with_capacity in Hk.
Qed.
End tasks.

Lemma tasks_mono {S : Type} `{SlabOps Entry.t S} (P Q : Task → Prop) (w : Wheel.t S) :
  (∀ x, P x → Q x) → tasks_of P w → tasks_of Q w.
Proof. intros HPQ Hw k v Hk. by eapply HPQ, Hw. Qed.

(** ** The poller's queues *)
Section routes.
Context {S Stack W : Type} `{SlabOps Entry.t S, !SlabLaws Entry.t S, !Stacks W Stack}.
Context (L : nat → Z → Prop).
Implicit Types (p : PollerInt.t S Stack).

(** An identifier names a runner and a position that satisfy [L]. *)
Definition live_id (id : Z) : Prop := L (PollerInt.split_id id).1 (PollerInt.split_id id).2.

(** So does every element of a queue, whose position is given by [f]. *)
Definition queues_in {A} (f : A → Z) (queues : list (list A)) : Prop :=
  ∀ r, Forall (λ x, L r (f x)) (queue queues r).

Lemma push_back_in {A} (f : A → Z) queues r x queues' :
  PollerInt.push_back queues r x = Ok queues' → L r (f x) →
  queues_in f queues → queues_in f queues'.
Proof.
  intros H1 Hx Hq j. assert (r < length queues)%nat as Hr.
  { apply bind_Ok in H1 as (q & Hq'%index_Ok & _). by eapply lookup_lt_Some. }
  destruct (push_back_spec queues r x Hr) as (q' & Hq' & _ & Hj).
  rewrite H1 in Hq'. injection Hq' as <-. rewrite Hj. apply Forall_app. split; [done|].
  case_decide; [subst; auto|done].
Qed.

Lemma pop_front_in {A} (f : A → Z) queues r o queues' :
  PollerInt.pop_front queues r = Ok (o, queues') → queues_in f queues →
  queues_in f queues' ∧ ∀ x, o = Some x → L r (f x).
Proof.
  intros (q & Hq%index_Ok & H1)%bind_Ok Hqs. pose proof (Hqs r) as Hr.
  unfold queue in Hr. rewrite Hq in Hr. cbn in Hr.
  destruct q as [|x q]; [by simplify_eq|]. apply Forall_cons in Hr as [Hx Hr].
  apply bind_Ok in H1 as (q1 & H1 & [= <- <-]). unfold store in H1. case_decide as Hlt; [|done].
  injection H1 as <-. split; [|by intros y [= <-]]. intros j. unfold queue.
  destruct (decide (j = r)) as [->|Hj]; [by rewrite list_lookup_insert_eq|].
  rewrite list_lookup_insert_ne by done. apply Hqs.
Qed.

Lemma push_events_in events queues queues' : PollerInt.push_events queues events = Ok queues' →
  Forall live_id events → queues_in id queues → queues_in id queues'.
Proof.
  revert queues. induction events as [|e events IH]; intros queues H1 He Hq; [by injection H1 as <-|].
  apply Forall_cons in He as [He Hes]. cbn [PollerInt.push_events] in H1. unfold live_id in He.
  destruct (PollerInt.split_id e) as [r pos]. apply bind_Ok in H1 as (q & H2 & H1).
  eapply IH; [done..|]. eapply push_back_in; [exact H2|exact He|exact Hq].
Qed.

Lemma push_results_in results queues queues' : PollerInt.push_results queues results = Ok queues' →
  Forall (λ x, live_id x.1.1) results → queues_in (λ x, x.1.1) queues →
  queues_in (λ x, x.1.1) queues'.
Proof.
  revert queues. induction results as [|[[e gen] addr] results IH]; intros queues H1 He Hq;
    [by injection H1 as <-|].
  apply Forall_cons in He as [He Hes]. cbn [PollerInt.push_results] in H1. unfold live_id in He.
  cbn [fst] in He.
  destruct (PollerInt.split_id e) as [r pos]. apply bind_Ok in H1 as (q & H2 & H1).
  eapply IH; [done..|]. eapply push_back_in; [exact H2|exact He|exact Hq].
Qed.

Lemma push_timeouts_in fuel w now queues smth w' queues' b :
  PollerInt.push_timeouts fuel w now queues smth = Ok (w', queues', b) →
  tasks_of live_id w → queues_in id queues → tasks_of live_id w' ∧ queues_in id queues'.
Proof.
  revert w queues smth. induction fuel as [|fuel IH]; intros w queues smth H1 Hw Hq; [done|].
  cbn [PollerInt.push_timeouts] in H1. apply bind_Ok in H1 as ([r w1] & Hr & H1).
  apply (tasks_poll live_id) in Hr as [Hw1 Hr]; [|done]. destruct r as [task|]; [|by simplify_eq].
  specialize (Hr _ eq_refl). unfold live_id in Hr. destruct (PollerInt.split_id task) as [r pos].
  apply bind_Ok in H1 as (q & H2 & H1). eapply IH; [done..|].
  eapply push_back_in; [exact H2|exact Hr|exact Hq].
Qed.

Record poller_live p : Prop := {
  live_toexec : queues_in id (PollerInt.toexec_fibers p);
  live_timedout : queues_in id (PollerInt.timedout_fibers p);
  live_lookups : queues_in (λ x, x.1.1) (PollerInt.lookup_results p);
  live_tasks : tasks_of live_id (PollerInt.wheel p)
}.

Lemma poll_live p ready now results b p' :
  PollerInt.poll p ready now results = Ok (b, p') →
  (∀ events, ready = Some events → Forall live_id events) →
  Forall (λ x, live_id x.1.1) results → poller_live p → poller_live p'.
Proof.
  unfold PollerInt.poll. intros H1 He Hr [].
  destruct ready as [events|]; [|by injection H1 as _ <-]. specialize (He _ eq_refl).
  apply bind_Ok in H1 as (toexec & Ht & H1).
  apply bind_Ok in H1 as ([[w timedout] smth] & Hw & H1).
  apply bind_Ok in H1 as (lookups & Hl & [= _ <-]).
  apply push_timeouts_in in Hw as [? ?]; [|done..].
  split; cbn; [by eapply push_events_in|done|by eapply push_results_in|done].
Qed.

Lemma new_live stack_size file now p : PollerInt.new stack_size file now = Ok p → poller_live p.
Proof.
  intros (w & Hw & (d & _ & [= <-])%bind_Ok)%bind_Ok.
  assert (∀ A (f : A → Z), queues_in f (replicate RUNNERS [])) as Hempty.
  { intros A f r. unfold queue. destruct (replicate _ _ !! r) as [q|] eqn:Hq; [|constructor].
    apply lookup_replicate in Hq as [-> _]. constructor. }
  split; [apply Hempty..|by eapply tasks_new].
Qed.
End routes.

Lemma queues_in_mono {A} (L L' : nat → Z → Prop) (f : A → Z) queues :
  (∀ r x, L r x → L' r x) → queues_in L f queues → queues_in L' f queues.
Proof. intros HL Hq r. eapply Forall_impl; [apply Hq|]. intros x. apply HL. Qed.

Lemma poller_live_mono {S Stack : Type} `{SlabOps Entry.t S} (L L' : nat → Z → Prop)
    (p : PollerInt.t S Stack) :
  (∀ r x, L r x → L' r x) → poller_live L p → poller_live L' p.
Proof.
  intros HL []. split; try by eapply queues_in_mono.
  eapply tasks_mono; [|done]. intros x. apply HL.
Qed.
