(* ===== verification/Fiber.v ===== *)
(** * Fibers and their sockets (src/fiber.rs)

    [FiberSock] is the socket of a fiber and [FiberInt] the fiber's record in its
    runner's slab.  The sockets belong to [mio], the TLS streams to [native_tls]:
    the class [Net] lists the operations the code calls.  A value of a socket type
    is a handle; what the operating system, the TLS session and the clock do is the
    world [W], which every operation maps to the next world.  A buffer that a call
    fills is passed to it and returned by it.

    An [io::Result<A>] that a caller takes apart is [io A]: a value or an
    [io::Error] with its kind.  [outcome] is kept for panics and fuel. *)
From stdpp Require Import strings.
From S2P Require Import Prelude Clock StdText Resolver Poller.
Local Open Scope nat_scope.
Local Open Scope list_scope.

(** ** [std::io::Error] *)
Inductive ErrorKind :=
  WouldBlock | Interrupted | NotConnected | TimedOut | InvalidInput | Other
| Unlisted (code : Z).

#[export] Instance ErrorKind_eq_dec : EqDecision ErrorKind.
Proof. solve_decision. Defined.

Module IoError.
Record t := new { kind : ErrorKind; message : string }.

#[export] Instance eq_dec : EqDecision t.
Proof. solve_decision. Defined.
End IoError.

Definition io (A : Type) : Type := A + IoError.t.

Definition fail {A} (k : ErrorKind) (m : string) : io A := inr (IoError.new k m).

(** [.map(|_| ())] *)
Definition io_unit {A} (r : io A) : io unit :=
  match r with inl _ => inl tt | inr e => inr e end.

Record SocketAddr := { ip : IpAddr; port : Z }.

(** ** [mio] and [native_tls] *)

(** What [mio] can poll: [&Evented] *)
Inductive Evented (Tcp Udp Listener : Type) :=
  EvTcp (s : Tcp) | EvUdp (s : Udp) | EvListener (s : Listener).
Arguments EvTcp {Tcp Udp Listener} s.
Arguments EvUdp {Tcp Udp Listener} s.
Arguments EvListener {Tcp Udp Listener} s.

(** [Result<TlsStream, HandshakeError>] *)
Inductive TlsResult (Tls Mid : Type) :=
  TlsOk (tls : Tls) | TlsInterrupted (mid : Mid) | TlsFailure.
Arguments TlsOk {Tls Mid} tls.
Arguments TlsInterrupted {Tls Mid} mid.
Arguments TlsFailure {Tls Mid}.

Class Net := {
  W : Type;
  TcpStream : Type;
  UdpSocket : Type;
  TcpListener : Type;
  TlsStream : Type;
  MidHandshake : Type;
  TlsConnector : Type;
  TlsAcceptor : Type;
  Stack : Type;
  (** [mio::Ready] *)
  Ready : Type;
  ready_empty : Ready;
  readable : Ready;
  writable : Ready;
  is_empty : Ready → bool;
  is_readable : Ready → bool;
  is_writable : Ready → bool;
  (** [Instant::now()] *)
  now : W → Z * W;
  tcp_connect : W → SocketAddr → io TcpStream * W;
  tcp_read : W → TcpStream → list Z → io nat * list Z * W;
  tcp_write : W → TcpStream → list Z → io nat * W;
  tcp_flush : W → TcpStream → io unit * W;
  tcp_read_bufs : W → TcpStream → list (list Z) → io nat * list (list Z) * W;
  tcp_write_bufs : W → TcpStream → list (list Z) → io nat * W;
  listener_accept : W → TcpListener → io (TcpStream * SocketAddr) * W;
  udp_connect : W → UdpSocket → SocketAddr → io unit * W;
  udp_recv : W → UdpSocket → list Z → io nat * list Z * W;
  udp_send : W → UdpSocket → list Z → io nat * W;
  tls_read : W → TlsStream → list Z → io nat * list Z * W;
  tls_write : W → TlsStream → list Z → io nat * W;
  tls_flush : W → TlsStream → io unit * W;
  tls_connect : W → TlsConnector → list Z → TcpStream → TlsResult TlsStream MidHandshake * W;
  tls_accept : W → TlsAcceptor → TcpStream → TlsResult TlsStream MidHandshake * W;
  mid_handshake : W → MidHandshake → TlsResult TlsStream MidHandshake * W;
  mid_get_ref : MidHandshake → TcpStream;
  (** [poll.register] and [poll.reregister] of a socket, a token and an interest,
      edge triggered *)
  poll_register : W → Evented TcpStream UdpSocket TcpListener → Z → Ready → io unit * W;
  poll_reregister : W → Evented TcpStream UdpSocket TcpListener → Z → Ready → io unit * W;
  net_network :: Network W UdpSocket IoError.t;
  net_stacks :: Stacks W Stack
}.

(** What the documentation promises: the bits of [Ready]; a read fills a prefix of
    its buffer and leaves it alone when it fails, and a write takes a prefix. *)
Class NetLaws (N : Net) := {
  empty_is_empty : is_empty ready_empty = true;
  readable_is_readable : is_readable readable = true;
  writable_is_writable : is_writable writable = true;
  readable_not_empty : is_empty readable = false;
  writable_not_empty : is_empty writable = false;
  tls_read_len : ∀ w h b n b' w', tls_read w h b = (inl n, b', w') →
    n ≤ length b ∧ length b' = length b ∧ drop n b' = drop n b;
  tls_read_err : ∀ w h b e b' w', tls_read w h b = (inr e, b', w') → b' = b;
  tls_write_len : ∀ w h b n w', tls_write w h b = (inl n, w') → n ≤ length b
}.

(** ** The socket of a fiber *)
Inductive FiberSock {N : Net} :=
| Tcp (tcp : TcpStream)
| Udp (udp : UdpSocket)
| Listener (tcp : TcpListener)
| Tls (tls : TlsStream)
| TlsTemp (mid : MidHandshake)
| Empty.

Module Sock.
Section ops.
Context `{N : Net}.
Implicit Types (w : W) (sock : FiberSock).

(** The loop over the buffers of a TLS socket. *)
Fixpoint tls_read_loop (fuel : nat) w (tls : TlsStream) (bufs : list (list Z)) (sz i : nat)
    : outcome Empty_set (io nat * list (list Z) * W) :=
  if decide (i < length bufs) then
    match fuel with
    | O => OutOfFuel
    | S fuel =>
      buf ← index bufs i;
      let '(res, buf, w) := tls_read w tls buf in
      bufs ← store bufs i buf;
      match res with
      | inl s =>
        if decide (s = 0) then Ok (inl sz, bufs, w)
        else tls_read_loop fuel w tls bufs (sz + s) (i + 1)
      | inr e => if decide (sz = 0) then Ok (inr e, bufs, w) else Ok (inl sz, bufs, w)
      end
    end
  else Ok (inl sz, bufs, w).

Definition read_bufs w sock (bufs : list (list Z))
    : outcome Empty_set (io nat * list (list Z) * W) :=
  match sock with
  | Tcp tcp => Ok (tcp_read_bufs w tcp bufs)
  | Tls tls => tls_read_loop (length bufs) w tls bufs 0 0
  | _ => Ok (fail InvalidInput "invalid socket", bufs, w)
  end.

(** The loop of [write_bufs] on a TLS socket: small buffers are collected in
    [tmp_buf]. *)
Fixpoint tls_write_loop (fuel : nat) w (tls : TlsStream) (tmp_buf : list Z)
    (bufs : list (list Z)) (wpos sz i : nat) : outcome Empty_set (io nat * list Z * W) :=
  if decide (i < length bufs) then
    match fuel with
    | O => OutOfFuel
    | S fuel =>
      cur_buf ← index bufs i;
      let cur_buf_len := length cur_buf in
      if decide (cur_buf_len < 4096 ∧ wpos + cur_buf_len < length tmp_buf) then
        tmp_buf ← copy_at tmp_buf wpos cur_buf;
        let wpos := wpos + cur_buf_len in
        tls_write_loop fuel w tls tmp_buf bufs wpos sz i
      else
        '(res, w, cur_buf_len, wpos, i) ←
          (if decide (0 < wpos) then
             data ← slice tmp_buf 0 wpos;
             let '(res, w) := tls_write w tls data in
             Ok (res, w, wpos, 0, i)
           else
             let '(res, w) := tls_write w tls cur_buf in
             Ok (res, w, cur_buf_len, wpos, i + 1));
        match res with
        | inl s =>
          if decide (s = 0) then Ok (inl sz, tmp_buf, w)
          else if decide (s < cur_buf_len) then Ok (inl (sz + s), tmp_buf, w)
          else tls_write_loop fuel w tls tmp_buf bufs wpos (sz + s) i
        | inr e => if decide (sz = 0) then Ok (inr e, tmp_buf, w) else Ok (inl sz, tmp_buf, w)
        end
    end
  else Ok (inl sz, tmp_buf, w).

(** The loop need not end ([write_bufs_small] below), so the fuel is the
    caller's. *)
Definition write_bufs (fuel : nat) w sock (tmp_buf : list Z) (bufs : list (list Z))
    : outcome Empty_set (io nat * list Z * W) :=
  match sock with
  | Tcp tcp => let '(r, w) := tcp_write_bufs w tcp bufs in Ok (r, tmp_buf, w)
  | Tls tls => tls_write_loop fuel w tls tmp_buf bufs 0 0 0
  | _ => Ok (fail InvalidInput "invalid socket", tmp_buf, w)
  end.

Definition evented sock : io (Evented TcpStream UdpSocket TcpListener) :=
  match sock with
  | Tcp tcp => inl (EvTcp tcp)
  | Udp udp => inl (EvUdp udp)
  | Listener tcp => inl (EvListener tcp)
  | TlsTemp tcp => inl (EvTcp (mid_get_ref tcp))
  | _ => fail InvalidInput "no socket"
  end.

Definition accept_tcp w sock : io (TcpStream * SocketAddr) * W :=
  match sock with
  | Listener tcp => listener_accept w tcp
  | _ => (fail InvalidInput "can not accept on non listen socket", w)
  end.

Definition read w sock (buf : list Z) : io nat * list Z * W :=
  match sock with
  | Tcp tcp => tcp_read w tcp buf
  | Udp udp => udp_recv w udp buf
  | Listener _ => (fail InvalidInput "can not read on listen socket", buf, w)
  | Tls tcp => tls_read w tcp buf
  | _ => (fail InvalidInput "no socket", buf, w)
  end.

Definition write w sock (buf : list Z) : io nat * W :=
  match sock with
  | Tcp tcp => tcp_write w tcp buf
  | Udp udp => udp_send w udp buf
  | Listener _ => (fail InvalidInput "can not write on listen socket", w)
  | Tls tcp => tls_write w tcp buf
  | _ => (fail InvalidInput "no socket", w)
  end.

Definition flush w sock : io unit * W :=
  match sock with
  | Tcp tcp => tcp_flush w tcp
  | Udp _ => (inl tt, w)
  | Listener _ => (fail InvalidInput "can not flush on listen socket", w)
  | Tls tcp => tls_flush w tcp
  | _ => (fail InvalidInput "no socket", w)
  end.
End ops.
End Sock.

(** ** Fibers *)
Inductive FiberState := Closed | Stacked | Unstacked.

#[export] Instance FiberState_eq_dec : EqDecision FiberState.
Proof. solve_decision. Defined.

Inductive SocketType {N : Net} := TcpSocket | UdpSock (udp : UdpSocket).

Module ConnectParam.
Record t {N : Net} := mk { port : Z; st : SocketType; host : list Z }.
Arguments mk {N}.
Arguments port {N} _.
Arguments st {N} _.
Arguments host {N} _.
End ConnectParam.

(** [Fiber<P, R>]: what the fiber's function is given to call the runner with. *)
Module Fiber.
Record t := new { runner : Z; id : Z }.
End Fiber.

(** The methods of [Fiber], as the calls a fiber makes, and what they return to
    it.  A buffer that is read into is part of the reply. *)
Inductive Call {N : Net} (P R Func : Type) :=
| CSocketTimeout (t : option Z)
| CRespChunk (chunk : R)
| CAcceptTcp
| CTlsConnect (con : TlsConnector) (domain : list Z)
| CTlsAccept (con : TlsAcceptor)
| CNewTcp (tcp : TcpStream) (func : Func) (param : P)
| CNewListener (tcp : TcpListener) (func : Func) (param : P)
| CNewUdp (udp : UdpSocket) (func : Func) (param : P)
| CNewResolveConnect (domain : list Z) (st : SocketType) (port timeout : Z) (func : Func) (param : P)
| CJoinTcp (tcp : TcpStream) (func : Func) (param : P)
| CJoinUdp (udp : UdpSocket) (func : Func) (param : P)
| CJoinResolveConnect (domain : list Z) (st : SocketType) (port timeout : Z) (func : Func) (param : P)
| CJoinMain
| CGetChild
| CHibernateForRead
| CHibernateJoinMain
| CReadBufs (bufs : list (list Z))
| CWriteBufs (bufs : list (list Z))
| CRead (buf : list Z)
| CWrite (buf : list Z)
| CFlush.
Arguments CSocketTimeout {_ P R Func}.
Arguments CRespChunk {_ P R Func}.
Arguments CAcceptTcp {_ P R Func}.
Arguments CTlsConnect {_ P R Func}.
Arguments CTlsAccept {_ P R Func}.
Arguments CNewTcp {_ P R Func}.
Arguments CNewListener {_ P R Func}.
Arguments CNewUdp {_ P R Func}.
Arguments CNewResolveConnect {_ P R Func}.
Arguments CJoinTcp {_ P R Func}.
Arguments CJoinUdp {_ P R Func}.
Arguments CJoinResolveConnect {_ P R Func}.
Arguments CJoinMain {_ P R Func}.
Arguments CGetChild {_ P R Func}.
Arguments CHibernateForRead {_ P R Func}.
Arguments CHibernateJoinMain {_ P R Func}.
Arguments CReadBufs {_ P R Func}.
Arguments CWriteBufs {_ P R Func}.
Arguments CRead {_ P R Func}.
Arguments CWrite {_ P R Func}.
Arguments CFlush {_ P R Func}.

Inductive Reply {N : Net} (R : Type) :=
| RUnit
| RIoUnit (r : io unit)
| RAccept (r : io (TcpStream * SocketAddr))
| ROption (r : option R)
| RRead (r : io nat) (buf : list Z)
| RReadBufs (r : io nat) (bufs : list (list Z))
| RSize (r : io nat).
Arguments RUnit {_ R}.
Arguments RIoUnit {_ R}.
Arguments RAccept {_ R}.
Arguments ROption {_ R}.
Arguments RRead {_ R}.
Arguments RReadBufs {_ R}.
Arguments RSize {_ R}.

(** What a fiber's code does next: it returns, or it calls a method and goes on
    with its reply. *)
Inductive Action {N : Net} (P R Func Code : Type) :=
| Finish (r : option R)
| Calls (c : Call P R Func) (k : Reply R → Code).
Arguments Finish {_ P R Func Code}.
Arguments Calls {_ P R Func Code}.

(** The program that uses the library: its types [P] and [R], its fiber functions
    ([FiberFn<P, R>]) and the states of their executions. *)
Class Program {N : Net} := {
  P : Type;
  R : Type;
  FiberFn : Type;
  Code : Type;
  enter : FiberFn → Fiber.t → P → Code;
  act : Code → Action P R FiberFn Code
}.

(** [Transfer]: a context to switch to.  It is a stack that [context_function] has
    not entered, a fiber that waits inside a call, a fiber whose function has
    returned, or the main stack.  A fiber that waits has the frame of
    [context_function] on its stack, with the reference to its [FiberInt] that it
    made at the start of its first turn: [home] is the allocation that the reference
    points into ([RunnerInt.buffer]). *)
Inductive Transfer {N : Net} {Pr : Program} :=
| Fresh
| Waiting (home : nat) (c : Call P R FiberFn) (k : Reply R → Code)
| Returned
| Main.

Module FiberInt.
Record t {N : Net} {Pr : Program} := mk {
  runner : Z;
  ready : Ready;
  param : option P;
  state : FiberState;
  me : Z;
  generation : Z;
  func : option FiberFn;
  connect_param : option ConnectParam.t;
  sock : FiberSock;
  trans : option Transfer;
  stack : option Stack;
  parent : option nat;
  children : list nat;
  result : option R;
  wtoken : option Z;
  timeout : option Z;
  timed_out : Z
}.
Arguments mk {N Pr}.
Arguments runner {N Pr} _.
Arguments ready {N Pr} _.
Arguments param {N Pr} _.
Arguments state {N Pr} _.
Arguments me {N Pr} _.
Arguments generation {N Pr} _.
Arguments func {N Pr} _.
Arguments connect_param {N Pr} _.
Arguments sock {N Pr} _.
Arguments trans {N Pr} _.
Arguments stack {N Pr} _.
Arguments parent {N Pr} _.
Arguments children {N Pr} _.
Arguments result {N Pr} _.
Arguments wtoken {N Pr} _.
Arguments timeout {N Pr} _.
Arguments timed_out {N Pr} _.

Section ops.
Context {N : Net} {Pr : Program}.
Implicit Types (f : t).

(** Assignments to one field. *)
Definition set_ready f x : t :=
  mk (runner f) x (param f) (state f) (me f) (generation f) (func f) (connect_param f) (sock f)
     (trans f) (stack f) (parent f) (children f) (result f) (wtoken f) (timeout f) (timed_out
     f).
Definition set_param f x : t :=
  mk (runner f) (ready f) x (state f) (me f) (generation f) (func f) (connect_param f) (sock f)
     (trans f) (stack f) (parent f) (children f) (result f) (wtoken f) (timeout f) (timed_out
     f).
Definition set_state f x : t :=
  mk (runner f) (ready f) (param f) x (me f) (generation f) (func f) (connect_param f) (sock f)
     (trans f) (stack f) (parent f) (children f) (result f) (wtoken f) (timeout f) (timed_out
     f).
Definition set_me f x : t :=
  mk (runner f) (ready f) (param f) (state f) x (generation f) (func f) (connect_param f) (sock
     f) (trans f) (stack f) (parent f) (children f) (result f) (wtoken f) (timeout f) (timed_out
     f).
Definition set_generation f x : t :=
  mk (runner f) (ready f) (param f) (state f) (me f) x (func f) (connect_param f) (sock f)
     (trans f) (stack f) (parent f) (children f) (result f) (wtoken f) (timeout f) (timed_out
     f).
Definition set_connect_param f x : t :=
  mk (runner f) (ready f) (param f) (state f) (me f) (generation f) (func f) x (sock f) (trans
     f) (stack f) (parent f) (children f) (result f) (wtoken f) (timeout f) (timed_out f).
Definition set_sock f x : t :=
  mk (runner f) (ready f) (param f) (state f) (me f) (generation f) (func f) (connect_param f) x
     (trans f) (stack f) (parent f) (children f) (result f) (wtoken f) (timeout f) (timed_out
     f).
Definition set_trans f x : t :=
  mk (runner f) (ready f) (param f) (state f) (me f) (generation f) (func f) (connect_param f)
     (sock f) x (stack f) (parent f) (children f) (result f) (wtoken f) (timeout f) (timed_out
     f).
Definition set_stack f x : t :=
  mk (runner f) (ready f) (param f) (state f) (me f) (generation f) (func f) (connect_param f)
     (sock f) (trans f) x (parent f) (children f) (result f) (wtoken f) (timeout f) (timed_out
     f).
Definition set_parent f x : t :=
  mk (runner f) (ready f) (param f) (state f) (me f) (generation f) (func f) (connect_param f)
     (sock f) (trans f) (stack f) x (children f) (result f) (wtoken f) (timeout f) (timed_out
     f).
Definition set_children f x : t :=
  mk (runner f) (ready f) (param f) (state f) (me f) (generation f) (func f) (connect_param f)
     (sock f) (trans f) (stack f) (parent f) x (result f) (wtoken f) (timeout f) (timed_out f).
Definition set_result f x : t :=
  mk (runner f) (ready f) (param f) (state f) (me f) (generation f) (func f) (connect_param f)
     (sock f) (trans f) (stack f) (parent f) (children f) x (wtoken f) (timeout f) (timed_out
     f).
Definition set_wtoken f x : t :=
  mk (runner f) (ready f) (param f) (state f) (me f) (generation f) (func f) (connect_param f)
     (sock f) (trans f) (stack f) (parent f) (children f) (result f) x (timeout f) (timed_out
     f).
Definition set_timeout f x : t :=
  mk (runner f) (ready f) (param f) (state f) (me f) (generation f) (func f) (connect_param f)
     (sock f) (trans f) (stack f) (parent f) (children f) (result f) (wtoken f) x (timed_out f).
Definition set_timed_out f x : t :=
  mk (runner f) (ready f) (param f) (state f) (me f) (generation f) (func f) (connect_param f)
     (sock f) (trans f) (stack f) (parent f) (children f) (result f) (wtoken f) (timeout f) x.

(** The error of [evented] is returned before [ready] is assigned. *)
Definition register f (w : W) (rdy : Ready) : io unit * t * W :=
  match Sock.evented (sock f) with
  | inr e => (inr e, f, w)
  | inl ev =>
    let '(res, w) :=
      if is_empty (ready f) then poll_register w ev (me f) rdy
      else poll_reregister w ev (me f) rdy in
    (res, set_ready f rdy, w)
  end.
End ops.
End FiberInt.
