(* ===== verification/DnsMac.v ===== *)
(** * The DNS client of macOS (src/dns.rs, the first [implemented])

    [Dns] runs CoreFoundation's asynchronous resolver on a thread of its own.  A
    request goes to that thread through a message port, as a copy of a
    [ThreadMsg] with a pointer to the host's name; the answer comes back through a
    channel, as a pointer to a boxed [ThreadMsg].  What CoreFoundation answers (a
    port, an error code, addresses) is an argument of the definitions.

    The boxes that travel as raw pointers are entries of a heap: [Box::into_raw]
    leaves the entry, dropping the box of [Box::from_raw] deletes it.  A pointer is
    never given out twice.  Using a pointer without an entry is undefined
    behaviour, the error [UseAfterFree].  The two threads interleave at the send on
    the channel: [resolv_cb] goes up to the send, [resolv_cb_end] is the rest. *)
From stdpp Require Import strings gmap.
From S2P Require Import Prelude Utf8 ByteOrder StdText Resolver Fiber.
Local Open Scope nat_scope.
Local Open Scope list_scope.

Module ThreadMsg.
Record t := mk { id : Z; gen : Z; host : option nat; resp : IpAddr }.

Definition default : t := mk 0 0 None (V4 0).
End ThreadMsg.

(** [struct sockaddr], by its [sa_family]; addresses are bytes in network order *)
Inductive sockaddr :=
| AfInet (s_addr : list Z)
| AfInet6 (s6_addr : list Z)
| AfOther.

Section addresses.
Context {BE : BigEndian}.

(** [Ipv6Addr::new(read_u16(&l[0..]), ..)] *)
Definition segments (l : list Z) : outcome Undefined (list Z) :=
  mapM (λ i, expect (read_u16 (drop i l))) [0; 2; 4; 6; 8; 10; 12; 14].

(** The loop over the addresses of a host: an IPv4 address ends it. *)
Fixpoint pick (resp : IpAddr) (addrs : list sockaddr) : outcome Undefined IpAddr :=
  match addrs with
  | [] => Ok resp
  | AfInet l :: _ => ip ← expect (read_u32 l); Ok (V4 ip)
  | AfInet6 l :: addrs => segs ← segments l; pick (V6 segs) addrs
  | AfOther :: addrs => pick resp addrs
  end.
End addresses.

Module MacDns.
Record t := mk {
  (** the heap: [Box<String>] and [Box<ThreadMsg>], and the next free address *)
  hosts : gmap nat (list Z);
  msgs : gmap nat ThreadMsg.t;
  next : nat;
  (** the messages at the port *)
  port : list ThreadMsg.t;
  (** the [info] pointers of the hosts that are being resolved *)
  resolving : list nat;
  (** [ThreadResp]s on the channel *)
  chan : list nat;
  (** the callback that has sent its answer and not returned yet *)
  returning : option nat;
  (** the thread's run loop has been stopped *)
  stopped : bool
}.

Section ops.
Context {BE : BigEndian}.
Implicit Types (s : t).

(** [Dns::new], with the thread waiting at its port *)
Definition new : t := mk ∅ ∅ 0 [] [] [] None false.

Definition lookup_on s (pos : Z) (host : list Z) : io unit := inl tt.

Definition start_lookup s (name_ok port_ok : bool) (err : Z) (id gen : Z) (host : list Z)
    : io (option Empty_set) * t :=
  if name_ok then
    if port_ok then
      let s1 := mk (<[next s := host]> (hosts s)) (msgs s) (S (next s)) (port s) (resolving s)
                   (chan s) (returning s) (stopped s) in
      let msg := ThreadMsg.mk id gen (Some (next s)) (V4 0) in
      if decide (err ≠ 0%Z) then (fail Other "can not send port", s1)
      else (inl None, mk (hosts s1) (msgs s1) (next s1) (port s1 ++ [msg]) (resolving s1)
                         (chan s1) (returning s1) (stopped s1))
    else (fail Other "port create failed", s)
  else (inl None, s).

(** Dropping [Dns] asks the thread to stop. *)
Definition drop_dns s (name_ok port_ok : bool) (err : Z) : t :=
  (start_lookup s name_ok port_ok err 0 0 []).2.

(** The port's callback, for the message [msg] *)
Definition port_cb s (name_ok : bool) (msg : ThreadMsg.t) : outcome Undefined t :=
  p ← match ThreadMsg.host msg with Some p => Ok p | None => Err UseAfterFree end;
  host ← match hosts s !! p with Some host => Ok host | None => Err UseAfterFree end;
  let hosts := delete p (hosts s) in
  if decide (length host = 0) then
    Ok (mk hosts (msgs s) (next s) (port s) (resolving s) (chan s) (returning s) true)
  else
    let boxed := ThreadMsg.mk (ThreadMsg.id msg) (ThreadMsg.gen msg) None (V4 0) in
    if name_ok then
      Ok (mk hosts (<[next s := boxed]> (msgs s)) (S (next s)) (port s)
             (resolving s ++ [next s]) (chan s) (returning s) (stopped s))
    else Ok (mk hosts (msgs s) (S (next s)) (port s) (resolving s) (chan s) (returning s)
                (stopped s)).

(** The host's callback, up to the send *)
Definition resolv_cb s (error succ : Z) (addrs : list sockaddr) (info : nat)
    : outcome Undefined t :=
  req ← match msgs s !! info with Some req => Ok req | None => Err UseAfterFree end;
  resp ← (if decide (error = 0 ∧ 0 < succ)%Z then pick (ThreadMsg.resp req) addrs
          else Ok (ThreadMsg.resp req));
  let req := ThreadMsg.mk (ThreadMsg.id req) (ThreadMsg.gen req) (ThreadMsg.host req) resp in
  Ok (mk (hosts s) (<[info := req]> (msgs s)) (next s) (port s) (resolving s)
         (chan s ++ [info]) (Some info) (stopped s)).

(** Its end drops [req]. *)
Definition resolv_cb_end s (info : nat) : outcome Undefined t :=
  _ ← match msgs s !! info with Some req => Ok req | None => Err UseAfterFree end;
  Ok (mk (hosts s) (delete info (msgs s)) (next s) (port s) (resolving s) (chan s) None
         (stopped s)).

Definition check_result s : outcome Undefined (option (Z * Z * IpAddr) * t) :=
  match chan s with
  | [] => Ok (None, s)
  | resp :: chan =>
    req ← match msgs s !! resp with Some req => Ok req | None => Err UseAfterFree end;
    let s := mk (hosts s) (delete resp (msgs s)) (next s) (port s) (resolving s) chan
                (returning s) (stopped s) in
    Ok (if decide (ThreadMsg.resp req ≠ V4 0)
        then Some (ThreadMsg.id req, ThreadMsg.gen req, ThreadMsg.resp req) else None, s)
  end.

(** [get_dns_servers] of the portable client's module, for macOS; [out] is what
    [scutil --dns] prints. *)
Definition get_dns_servers (out : option (list Z)) : outcome Empty_set (list IpAddr) :=
  match out with
  | Some out =>
    match from_utf8 out with
    | Ok s => Ok (scutil_parse s)
    | Err _ => get_google
    | Panic => Panic
    | OutOfFuel => OutOfFuel
    end
  | None => get_google
  end.

(** ** The two threads

    The main thread calls [start_lookup] and [check_result].  The DNS thread runs
    one callback at a time: for the first message at its port, or for a host it
    resolves. *)
Definition with_port s (ms : list ThreadMsg.t) : t :=
  mk (hosts s) (msgs s) (next s) ms (resolving s) (chan s) (returning s) (stopped s).
Definition with_resolving s (ps : list nat) : t :=
  mk (hosts s) (msgs s) (next s) (port s) ps (chan s) (returning s) (stopped s).

Inductive step s : t → Prop :=
| step_start name_ok port_ok err id gen host r s' :
    start_lookup s name_ok port_ok err id gen host = (r, s') → step s s'
| step_check r s' : check_result s = Ok (r, s') → step s s'
| step_port name_ok msg ms s' :
    stopped s = false → returning s = None → port s = msg :: ms →
    port_cb (with_port s ms) name_ok msg = Ok s' → step s s'
| step_resolved error succ addrs info l l' s' :
    stopped s = false → returning s = None → resolving s = l ++ info :: l' →
    resolv_cb (with_resolving s (l ++ l')) error succ addrs info = Ok s' → step s s'
| step_return info s' :
    returning s = Some info → resolv_cb_end s info = Ok s' → step s s'.

(** The states of the executions that have not run into undefined behaviour *)
Definition reachable : t → Prop := rtc step new.
End ops.
End MacDns.

(** ** The addresses of a host *)
Section pick.
Context {BE : BigEndian}.

Definition wf_sockaddr (a : sockaddr) : Prop :=
  match a with
  | AfInet l => length l = 4 ∧ bytes l
  | AfInet6 l => length l = 16 ∧ bytes l
  | AfOther => True
  end.

(** The number that bytes in network order stand for *)
Definition number (l : list Z) : Z := foldl (λ n b, n * 256 + b)%Z 0%Z l.

Definition ipv4 (a : sockaddr) : option IpAddr :=
  match a with AfInet l => Some (V4 (number l)) | _ => None end.
Definition ipv6 (a : sockaddr) : option IpAddr :=
  match a with
  | AfInet6 l => Some (V6 ((λ i, number (take 2 (drop i l))) <$> [0; 2; 4; 6; 8; 10; 12; 14]))
  | _ => None
  end.

Lemma segments_spec l : length l = 16 → bytes l →
  segments l = Ok ((λ i, number (take 2 (drop i l))) <$> [0; 2; 4; 6; 8; 10; 12; 14]).
Proof.
  intros Hl Hb. do 16 (destruct l as [|? l]; [done|]). destruct l; [|done].
  unfold bytes in Hb. decompose_Forall_hyps. unfold segments. cbn.
  rewrite !read_u16_spec by done. cbn. done.
Qed.

(** Which address a lookup yields: the first IPv4 address of the host if it has
    one, or else its last IPv6 address, or else what was there before. *)
Lemma pick_spec resp addrs : Forall wf_sockaddr addrs →
  pick resp addrs = Ok (default (default resp (last (omap ipv6 addrs))) (head (omap ipv4 addrs))).
Proof.
  intros Ha. revert resp. induction Ha as [|a addrs Hwf Ha IH]; intros resp; [done|].
  destruct a as [l|l|].
  - destruct Hwf as [Hl Hb]. cbn. do 4 (destruct l as [|? l]; [done|]). unfold bytes in Hb.
    decompose_Forall_hyps. rewrite read_u32_spec by done. by destruct l.
  - destruct Hwf as [Hl Hb]. cbn [pick]. rewrite segments_spec by done. mstep. rewrite IH.
    cbn [omap list_omap ipv4 ipv6]. rewrite last_cons. by destruct (last _).
  - apply IH.
Qed.
End pick.

(** ** The boxes of the answers *)
Import MacDns.

Section boxes.
Context {BE : BigEndian}.
Implicit Types (s : MacDns.t).

(** The box exists. *)
Definition boxed s (p : nat) : Prop := is_Some (msgs s !! p).

(** Where the boxes of the requests are: a host that is being resolved owns its
    box; an answer on the channel has its box only as long as the callback that
    sent it has not returned. *)
Record boxes_ok s : Prop := {
  ok_distinct : NoDup (resolving s ++ chan s);
  ok_used : ∀ p, p ∈ resolving s ∨ p ∈ chan s ∨ returning s = Some p ∨ boxed s p → p < next s;
  ok_resolving : ∀ p, p ∈ resolving s → boxed s p ∧ returning s ≠ Some p;
  ok_chan : ∀ p, p ∈ chan s → (boxed s p ↔ returning s = Some p)
}.

Lemma new_ok : boxes_ok new.
Proof.
  split; cbn; [constructor| |by intros p ?%elem_of_nil..].
  intros p [?%elem_of_nil|[?%elem_of_nil|[?|[]]]]; done.
Qed.

(** A step that leaves the requests alone *)
Lemma boxes_ok_same s s' : boxes_ok s → msgs s' = msgs s → resolving s' = resolving s →
  chan s' = chan s → returning s' = returning s → next s ≤ next s' → boxes_ok s'.
Proof.
  intros [Hd Hu Hr Hc] E1 E2 E3 E4 Hn. unfold boxed in *.
  split; unfold boxed; rewrite ?E1, ?E2, ?E3, ?E4; try done.
  intros p Hp. specialize (Hu p Hp). lia.
Qed.

Lemma start_ok s name_ok port_ok err id gen host r s' :
  start_lookup s name_ok port_ok err id gen host = (r, s') → boxes_ok s → boxes_ok s'.
Proof.
  unfold start_lookup. intros Hr Hs.
  destruct name_ok, port_ok; try case_decide; simplify_eq; try done;
    (eapply boxes_ok_same; [exact Hs|done..|cbn; lia]).
Qed.

Lemma boxed_delete s p q : is_Some (delete p (msgs s) !! q) ↔ q ≠ p ∧ boxed s q.
Proof.
  unfold boxed. destruct (decide (q = p)) as [->|Hq].
  - rewrite lookup_delete_eq. split; [by intros []|naive_solver].
  - rewrite lookup_delete_ne by done. naive_solver.
Qed.

Lemma boxed_insert s p x q : is_Some (<[p := x]> (msgs s) !! q) ↔ q = p ∨ boxed s q.
Proof.
  unfold boxed. destruct (decide (q = p)) as [->|Hq].
  - rewrite lookup_insert_eq. naive_solver.
  - rewrite lookup_insert_ne by done. naive_solver.
Qed.

Lemma check_ok s r s' : check_result s = Ok (r, s') → boxes_ok s → boxes_ok s'.
Proof.
  unfold check_result. intros H [Hd Hu Hr Hc].
  destruct (chan s) as [|p chan'] eqn:Echan;
    [by simplify_eq; split; rewrite ?Echan|].
  destruct (msgs s !! p) as [req|] eqn:Ep; [|done]. cbn in H. injection H as _ <-.
  apply NoDup_app in Hd as (Hd1 & Hd2 & [Hp Hd3]%NoDup_cons).
  split; unfold boxed; cbn; try setoid_rewrite boxed_delete.
  - apply NoDup_app. set_solver.
  - intros q Hq. apply Hu. set_solver.
  - intros q Hq. destruct (Hr q Hq). split; [|done]. split; [set_solver|done].
  - intros q Hq. rewrite Hc by set_solver. set_solver.
Qed.

Lemma return_ok s p s' : returning s = Some p → resolv_cb_end s p = Ok s' →
  boxes_ok s → boxes_ok s'.
Proof.
  unfold resolv_cb_end. intros Hp H [Hd Hu Hr Hc].
  destruct (msgs s !! p) as [req|] eqn:Ep; [|done]. cbn in H. injection H as <-.
  split; unfold boxed; cbn; try setoid_rewrite boxed_delete.
  - done.
  - intros q Hq. apply Hu. naive_solver.
  - intros q Hq. destruct (Hr q Hq). split; [|done]. split; [congruence|done].
  - intros q Hq. rewrite Hc by done. split; [|done]. intros []. congruence.
Qed.

Lemma port_ok s ms name_ok msg s' : returning s = None →
  port_cb (with_port s ms) name_ok msg = Ok s' → boxes_ok s → boxes_ok s'.
Proof.
  unfold port_cb. intros Hret H Hs.
  destruct (ThreadMsg.host msg) as [h|]; [|done]. cbn in H.
  destruct (hosts s !! h) as [host|]; [|done]. cbn in H.
  case_decide; [|destruct name_ok]; injection H as <-;
    [eapply boxes_ok_same; [exact Hs|done..|cbn; lia]| |eapply boxes_ok_same; [exact Hs|done..|cbn; lia]].
  destruct Hs as [Hd Hu Hr Hc].
  assert (∀ p, p ∈ resolving s ∨ p ∈ chan s → p ≠ next s) as Hne.
  { intros p Hp ->. specialize (Hu (next s) ltac:(tauto)). lia. }
  split; unfold boxed; cbn; try setoid_rewrite boxed_insert.
  - rewrite <- app_assoc. cbn. rewrite <- Permutation_middle. constructor; [|done].
    rewrite elem_of_app. intros Hn. by apply (Hne (next s)).
  - intros q Hq. enough (q = next s ∨ q < next s) by lia.
    rewrite elem_of_app, list_elem_of_singleton in Hq.
    destruct (decide (q = next s)); [by left|right; apply Hu; tauto].
  - intros q Hq. rewrite elem_of_app, list_elem_of_singleton in Hq. rewrite Hret.
    split; [|done]. destruct Hq as [Hq| ->]; [right; by apply Hr|by left].
  - intros q Hq. rewrite <- (Hc q Hq). split; [|auto].
    intros [->|?]; [|done]. exfalso. apply (Hne (next s)); auto.
Qed.

Lemma resolved_ok s l p l' error succ addrs s' : returning s = None →
  resolving s = l ++ p :: l' →
  resolv_cb (with_resolving s (l ++ l')) error succ addrs p = Ok s' → boxes_ok s → boxes_ok s'.
Proof.
  unfold resolv_cb. cbn [msgs with_resolving]. intros Hret Hl H [Hd Hu Hr Hc].
  destruct (msgs s !! p) as [req|] eqn:Ep; [|done]. cbn [mbind outcome_bind] in H.
  apply bind_Ok in H as (resp & _ & [= <-]).
  rewrite Hl in Hd, Hu, Hr. rewrite <- app_assoc in Hd. cbn in Hd.
  rewrite <- Permutation_middle in Hd.
  apply NoDup_cons in Hd as [Hp Hd]. cbn in Hp, Hd. rewrite !elem_of_app in Hp.
  split; unfold boxed; cbn; try setoid_rewrite boxed_insert.
  - rewrite app_assoc. rewrite (Permutation_app_comm _ [p]). cbn. rewrite <- app_assoc.
    constructor; [|done]. rewrite !elem_of_app. tauto.
  - intros q Hq. apply Hu. rewrite !elem_of_app, elem_of_cons.
    rewrite !elem_of_app, list_elem_of_singleton in Hq.
    destruct_or?; simplify_eq; auto 6.
  - intros q Hq. assert (q ≠ p) as Hqp by (intros ->; rewrite elem_of_app in Hq; tauto).
    split; [right|by intros [=]]. apply Hr.
    rewrite elem_of_app in *. rewrite elem_of_cons. tauto.
  - intros q [Hq| ->%list_elem_of_singleton]%elem_of_app; [|naive_solver].
    assert (q ≠ p) as Hqp by (intros ->; tauto). rewrite (Hc q Hq), Hret. naive_solver.
Qed.

Lemma step_ok s s' : step s s' → boxes_ok s → boxes_ok s'.
Proof. intros []; eauto using start_ok, check_ok, port_ok, resolved_ok, return_ok. Qed.

Lemma reachable_ok s : reachable s → boxes_ok s.
Proof.
  assert (∀ s s', rtc step s s' → boxes_ok s → boxes_ok s') as Hrtc.
  { induction 1; eauto using step_ok. }
  intros Hs. by apply (Hrtc new); [|apply new_ok].
Qed.

(** C30. Every answer of the macOS client is freed twice.  Whatever has happened
    before, when [check_result] finds the pointer of an answer on the channel,
    either the callback that sent it has returned, and has dropped the box, so that
    [check_result] reads freed memory; or the callback is still between its send
    and its end, and [check_result] frees the box that the end of the callback will
    use and free again. *)
Theorem answer_freed_twice s p rest : reachable s → chan s = p :: rest →
  check_result s = Err UseAfterFree
  ∨ returning s = Some p ∧ ∃ r s', check_result s = Ok (r, s')
      ∧ resolv_cb_end s' p = Err UseAfterFree.
Proof.
  intros [_ _ _ Hc]%reachable_ok Hp. unfold check_result. rewrite Hp.
  destruct (msgs s !! p) as [req|] eqn:Ep; [right|by left].
  split; [apply Hc; [rewrite Hp; left|by eexists]|]. cbn. eexists _, _. split; [done|].
  unfold resolv_cb_end. cbn. by rewrite lookup_delete_eq.
Qed.
End boxes.

Section answer.
Context {BE : BigEndian}.

(** C31. The address a lookup of the macOS client yields, if the answer is taken
    before the callback ends: the host's first IPv4 address if it has one, or else
    its last IPv6 address, with the identifier and generation of the request.
    There is no answer when the lookup failed, when the host has no address, and
    when its address is 0.0.0.0, which stands for none. *)
Theorem answer_address s p req error succ addrs :
  chan s = [] → msgs s !! p = Some req → ThreadMsg.resp req = V4 0 → Forall wf_sockaddr addrs →
  let a := if decide (error = 0 ∧ 0 < succ)%Z
           then default (default (V4 0) (last (omap ipv6 addrs))) (head (omap ipv4 addrs))
           else V4 0 in
  ∃ s' s2, resolv_cb s error succ addrs p = Ok s' ∧ chan s' = [p]
  ∧ check_result s' = Ok (if decide (a ≠ V4 0)
      then Some (ThreadMsg.id req, ThreadMsg.gen req, a) else None, s2).
Proof.
  intros Hc Hp Hr Ha a. unfold resolv_cb. rewrite Hp. mstep. rewrite Hr, Hc.
  assert ((if decide (error = 0 ∧ 0 < succ)%Z then pick (V4 0) addrs else Ok (V4 0)) = Ok a) as ->.
  { unfold a. case_decide; [by apply pick_spec|done]. }
  mstep. eexists _, _. split_and!; [done|done|]. unfold check_result. cbn.
  by rewrite lookup_insert_eq.
Qed.
End answer.

(** ** Instances *)

(** A lookup of a host whose callback has sent its answer, 10.1.2.3 *)
Definition asked : MacDns.t := (start_lookup new true true 0 4 1 (text "a.b")).2.
Definition resolving1 : MacDns.t :=
  mk ∅ {[1 := ThreadMsg.mk 4 1 None (V4 0)]} 2 [] [1] [] None false.
Definition addresses1 : list sockaddr :=
  [AfInet6 (replicate 16 1%Z); AfOther; AfInet [10; 1; 2; 3]%Z; AfInet [10; 1; 2; 4]%Z].
Definition answered : MacDns.t :=
  mk ∅ {[1 := ThreadMsg.mk 4 1 None (V4 167838211)]} 2 [] [] [1] (Some 1) false.

Lemma reachable_answered `{!BigEndian} : reachable answered.
Proof.
  eapply rtc_l; [by eapply (step_start _ true true 0 4 1 (text "a.b") _ asked)|].
  eapply rtc_l; [by eapply (step_port _ true _ [] resolving1)|].
  eapply rtc_l; [|apply rtc_refl].
  eapply (step_resolved _ 0 1 addresses1 1 [] []); [done..|].
  unfold resolv_cb. cbn [msgs with_resolving resolving1]. rewrite lookup_singleton_eq. mstep.
  rewrite decide_True by lia. rewrite pick_spec; [done|].
  repeat constructor; unfold byte; cbn; lia.
Qed.

Lemma answer_freed_twice_witness :
  reachable answered ∧
  (check_result answered = Err UseAfterFree
   ∨ returning answered = Some 1 ∧ ∃ r s', check_result answered = Ok (r, s')
      ∧ resolv_cb_end s' 1 = Err UseAfterFree).
Proof.
  split; [apply reachable_answered|].
  by apply (answer_freed_twice answered 1 []); [apply reachable_answered|].
Defined.

Lemma answer_address_witness :
  Forall wf_sockaddr addresses1 ∧
  ∃ s' s2, resolv_cb resolving1 0 1 addresses1 1 = Ok s' ∧ chan s' = [1]
  ∧ check_result s' = Ok (Some (4%Z, 1%Z, V4 167838211), s2).
Proof.
  assert (Forall wf_sockaddr addresses1) as Ha.
  { repeat constructor; unfold byte; cbn; lia. }
  split; [exact Ha|].
  by apply (answer_address resolving1 1 (ThreadMsg.mk 4 1 None (V4 0)) 0 1 addresses1).
Defined.
