(* ===== verification/Runner.v ===== *)
(** * Runners (src/runner.rs)

    A runner owns a vector of fibers and resumes the ones the poller found
    something for.  Its methods change three things: the runner, the thread's
    poller and the world; [Run] is the state monad over them.

    A fiber is a coroutine with its own stack.  The methods that block it
    ([read], [get_child], ...) end the fiber's turn with [step_out], and go on
    after it when the fiber is resumed.  Here each of them is two definitions: one
    up to [step_out], which returns [Blocked] with the call to go on with, and one
    from there ([..._resumed]).  A turn of a fiber is [switch]: it runs the
    fiber's code from where it waits until it blocks again or returns.

    The recursion of [step_into] through [stepped_out] is a tail call, so
    [step_into] is a loop from a child to its parent.  Loops over sockets, user code
    and queues take fuel. *)
From stdpp Require Import strings.
From S2P Require Import Prelude Clock Slab Wheel ByteOrder StdText Resolver Poller Fiber.
Local Open Scope nat_scope.
Local Open Scope list_scope.

(** ** The state monad *)
Definition Run (St A : Type) : Type := St → outcome Undefined (A * St).

#[export] Instance run_ret St : MRet (Run St) := λ A a s, Ok (a, s).
#[export] Instance run_bind St : MBind (Run St) := λ A B f m s,
  match m s with
  | Ok (a, s) => f a s
  | Err e => Err e
  | Panic => Panic
  | OutOfFuel => OutOfFuel
  end.

Definition lift {St A} (o : outcome Undefined A) : Run St A := λ s, a ← o; Ok (a, s).
Definition panic {St A} : Run St A := λ _, Panic.
Definition out_of_fuel {St A} : Run St A := λ _, OutOfFuel.
Definition undefined {St A} (u : Undefined) : Run St A := λ _, Err u.

(** The operator [?] in a function that returns an [io::Result] *)
Definition try {St A B} (m : Run St (io A)) (k : A → Run St (io B)) : Run St (io B) :=
  r ← m; match r with inl a => k a | inr e => mret (inr e) end.
Notation "x ←? y ; z" := (try y (λ x, z)) (at level 20, y at level 100, z at level 200).

(** ** The state *)
Module FiberRef.
(** The [FiberRef] that the main stack gets from [get_fiber] *)
Record t := mk { runner : Z; id : nat; resumed : bool }.
Definition new (runner : Z) (id : nat) : t := mk runner id false.
End FiberRef.

(** [fibers] is a [Vec]: its elements are in an allocation that holds [capacity] of
    them.  [buffer] is the number of allocations that it has used so far; the
    elements have moved when it changes, and references to them dangle. *)
Module RunnerInt.
Record t {N : Net} {Pr : Program} := mk {
  pos : Z;
  fibers : list FiberInt.t;
  capacity : nat;
  buffer : nat;
  free_fibers : list nat;
  tomain_fibers : list FiberRef.t;
  results : list R;
  tmp_buf : list Z
}.
Arguments mk {N Pr}.
Arguments pos {N Pr} _.
Arguments fibers {N Pr} _.
Arguments capacity {N Pr} _.
Arguments buffer {N Pr} _.
Arguments free_fibers {N Pr} _.
Arguments tomain_fibers {N Pr} _.
Arguments results {N Pr} _.
Arguments tmp_buf {N Pr} _.

Section ops.
Context {N : Net} {Pr : Program}.
Implicit Types (r : t).

Definition new (pos : Z) : t := mk pos [] 0 0 [] [] [] (replicate (Z.to_nat 16384) 0%Z).

Definition set_fibers r x : t :=
  mk (pos r) x (capacity r) (buffer r) (free_fibers r) (tomain_fibers r) (results r) (tmp_buf r).
Definition set_free r x : t :=
  mk (pos r) (fibers r) (capacity r) (buffer r) x (tomain_fibers r) (results r) (tmp_buf r).
Definition set_tomain r x : t :=
  mk (pos r) (fibers r) (capacity r) (buffer r) (free_fibers r) x (results r) (tmp_buf r).
Definition set_results r x : t :=
  mk (pos r) (fibers r) (capacity r) (buffer r) (free_fibers r) (tomain_fibers r) x (tmp_buf r).
Definition set_tmp_buf r x : t :=
  mk (pos r) (fibers r) (capacity r) (buffer r) (free_fibers r) (tomain_fibers r) (results r) x.

(** [self.fibers.push(f)]: a vector that is full moves to an allocation of twice
    the capacity, and of 4 at least (as in the standard library, for elements of up
    to 1024 bytes). *)
Definition push_fiber r (f : FiberInt.t) : t :=
  let '(c, b) :=
    if decide (length (fibers r) = capacity r) then (4 `max` (2 * capacity r), buffer r + 1)
    else (capacity r, buffer r) in
  mk (pos r) (fibers r ++ [f]) c b (free_fibers r) (tomain_fibers r) (results r) (tmp_buf r).
End ops.
End RunnerInt.

Module Sys.
(** A runner, the poller of its thread and the world *)
Record t {N : Net} {Pr : Program} (S : Type) := mk {
  runner : RunnerInt.t;
  poller : PollerInt.t S Stack;
  world : W
}.
Arguments mk {N Pr S} _ _ _.
Arguments runner {N Pr S} _.
Arguments poller {N Pr S} _.
Arguments world {N Pr S} _.
End Sys.

(** How a call ends: with its reply, or with the fiber's turn; then the call is
    what the fiber goes on with. *)
Inductive progress {N : Net} {Pr : Program} :=
| Done (r : Reply R)
| Blocked (c : Call P R FiberFn).

(** [VecDeque::swap_remove_front] *)
Definition swap_remove_front {A} (l : list A) (index : nat) : list A :=
  match l, index with
  | [], _ => []
  | _ :: l, O => l
  | x :: l, S index => <[index := x]> l
  end.

(** [a * b] of [u64] values, in the debug profile *)
Definition mul64 {E} (a b : Z) : outcome E Z :=
  if decide (a * b ≤ U64_MAX)%Z then Ok (a * b)%Z else Panic.

Section runner.
Context {N : Net} {Pr : Program} {Sl : Type} `{!SlabOps Entry.t Sl, !BigEndian}.
Abbreviation M := (Run (Sys.t Sl)).

(** ** Access to the state *)
Definition get_runner : M RunnerInt.t := λ s, Ok (Sys.runner s, s).
Definition get_poller : M (PollerInt.t Sl Stack) := λ s, Ok (Sys.poller s, s).
Definition upd_runner (f : RunnerInt.t → RunnerInt.t) : M unit := λ s,
  Ok (tt, Sys.mk (f (Sys.runner s)) (Sys.poller s) (Sys.world s)).
Definition poller {A} (f : PollerInt.t Sl Stack → outcome Empty_set (A * PollerInt.t Sl Stack))
    : M A := λ s,
  '(a, p) ← widen (f (Sys.poller s)); Ok (a, Sys.mk (Sys.runner s) p (Sys.world s)).
Definition world {A} (f : W → A * W) : M A := λ s,
  let '(a, w) := f (Sys.world s) in Ok (a, Sys.mk (Sys.runner s) (Sys.poller s) w).
Definition world_opt {A} (f : W → outcome Empty_set (A * W)) : M A := λ s,
  '(a, w) ← widen (f (Sys.world s)); Ok (a, Sys.mk (Sys.runner s) (Sys.poller s) w).

(** [self.fibers[pos]], read and assigned *)
Definition fiber (pos : nat) : M FiberInt.t :=
  r ← get_runner; lift (index (RunnerInt.fibers r) pos).
Definition set_fiber (pos : nat) (f : FiberInt.t) : M unit :=
  r ← get_runner;
  fs ← lift (store (RunnerInt.fibers r) pos f);
  upd_runner (λ r, RunnerInt.set_fibers r fs).
Definition upd_fiber (pos : nat) (g : FiberInt.t → FiberInt.t) : M unit :=
  f ← fiber pos; set_fiber pos (g f).

(** The poller's methods as the runner calls them *)
Definition timer_reg (id : Z) (dur : option Z) : M (option Token.t) :=
  now ← world now; poller (λ p, PollerInt.timer_reg p id dur now).
Definition timer_cancel (tk : Token.t) : M unit :=
  poller (λ p, p ← PollerInt.timer_cancel p tk; Ok (tt, p)).
Definition stack_pop : M Stack := λ s,
  '(stack, p, w) ← widen (PollerInt.stack_pop (Sys.poller s) (Sys.world s));
  Ok (stack, Sys.mk (Sys.runner s) p w).
Definition stack_push (stack : Stack) : M unit :=
  poller (λ p, Ok (tt, PollerInt.stack_push p stack)).

Definition push_toexec (pos : nat) : M unit :=
  r ← get_runner;
  poller (λ p, p ← PollerInt.toexec_push p (Z.to_nat (RunnerInt.pos r)) (Z.of_nat pos); Ok (tt, p)).
Definition pop_toexec : M (option nat) :=
  r ← get_runner;
  x ← poller (λ p, PollerInt.toexec_pop p (Z.to_nat (RunnerInt.pos r)));
  mret (Z.to_nat <$> x).

Definition fiber_id (pos : nat) : M Z :=
  r ← get_runner; mret (Poller.fiber_id (RunnerInt.pos r) (Z.of_nat pos)).

(** [self.fibers[pos].register(poller().poller(), rdy)] *)
Definition fiber_register (pos : nat) (rdy : Ready) : M (io unit) :=
  f ← fiber pos;
  '(r, f) ← world (λ w, let '(r, f, w) := FiberInt.register f w rdy in ((r, f), w));
  set_fiber pos f;;
  mret r.

Definition push_free (pos : nat) : M unit :=
  upd_runner (λ r, RunnerInt.set_free r (RunnerInt.free_fibers r ++ [pos])).

(** ** Switching stacks *)

(** [step_out] up to the switch to the main stack: the fiber's [t] is the context
    of the main stack, and it is taken. *)
Definition step_out (pos : nat) : M unit :=
  f ← fiber pos;
  match FiberInt.trans f with
  | Some Main => set_fiber pos (FiberInt.set_trans f None)
  | _ => panic
  end.

(** [step_out] after the switch back *)
Definition stepped_back (pos : nat) : M unit :=
  upd_fiber pos (λ f, FiberInt.set_trans f (Some Main)).

Definition timed_step_out (pos : nat) : M unit :=
  f ← fiber pos;
  match FiberInt.timeout f with
  | Some dur =>
    tk ← timer_reg (FiberInt.me f) (Some dur);
    match tk with
    | Some tk =>
      upd_fiber pos (λ f, FiberInt.set_wtoken (FiberInt.set_timed_out f 0) (Some tk))
    | None => mret tt
    end
  | None => mret tt
  end;;
  step_out pos.

Definition timed_stepped_back (pos : nat) : M unit :=
  stepped_back pos;;
  f ← fiber pos;
  match FiberInt.wtoken f with
  | Some tk => timer_cancel tk;; upd_fiber pos (λ f, FiberInt.set_wtoken f None)
  | None => mret tt
  end.

(** ** Socket operations

    [read], [read_bufs], [write] and [write_bufs] are the same loop around an
    operation of the socket: [IoOp] holds what they differ in. *)
Record IoOp (B : Type) := {
  attempt : B → M (io nat * B);
  (** the count of a closed socket *)
  closed : nat → B → bool;
  has_interest : Ready → bool;
  interest : Ready;
  timeout_msg : string;
  call : B → Call P R FiberFn;
  reply : io nat → B → Reply R
}.
Arguments attempt {B}.
Arguments closed {B}.
Arguments has_interest {B}.
Arguments interest {B}.
Arguments timeout_msg {B}.
Arguments call {B}.
Arguments reply {B}.

Fixpoint io_loop {B} (op : IoOp B) (fuel : nat) (pos : nat) (b : B) : M progress :=
  match fuel with
  | O => out_of_fuel
  | S fuel =>
    '(res, b) ← attempt op b;
    match res with
    | inl r =>
      if closed op r b then mret (Done (reply op (fail NotConnected "socket closed") b))
      else mret (Done (reply op (inl r) b))
    | inr err =>
      if decide (IoError.kind err = WouldBlock) then
        f ← fiber pos;
        reg ← (if negb (has_interest op (FiberInt.ready f))
               then fiber_register pos (interest op) else mret (inl tt));
        match reg with
        | inl _ => timed_step_out pos;; mret (Blocked (call op b))
        | inr err => mret (Done (reply op (inr err) b))
        end
      else if decide (IoError.kind err = Interrupted) then io_loop op fuel pos b
      else mret (Done (reply op (inr err) b))
    end
  end.

Definition io_resumed {B} (op : IoOp B) (fuel : nat) (pos : nat) (b : B) : M progress :=
  timed_stepped_back pos;;
  f ← fiber pos;
  if decide (0 < FiberInt.timed_out f)%Z then
    set_fiber pos (FiberInt.set_timed_out f 0);;
    mret (Done (reply op (fail TimedOut (timeout_msg op)) b))
  else io_loop op fuel pos b.

Definition read_op (pos : nat) : IoOp (list Z) := {|
  attempt buf := f ← fiber pos; world (λ w, Sock.read w (FiberInt.sock f) buf);
  closed r buf := bool_decide (r = 0 ∧ 0 < length buf);
  has_interest := is_readable; interest := readable; timeout_msg := "read timeout";
  call := CRead; reply := RRead
|}.

Definition read_bufs_op (pos : nat) : IoOp (list (list Z)) := {|
  attempt bufs := f ← fiber pos; world_opt (λ w, Sock.read_bufs w (FiberInt.sock f) bufs);
  closed r bufs := bool_decide (r = 0 ∧ 0 < length bufs);
  has_interest := is_readable; interest := readable; timeout_msg := "read timeout";
  call := CReadBufs; reply := RReadBufs
|}.

(** Both write operations test [len() == 0] where the read operations test
    [len() > 0]. *)
Definition write_op (pos : nat) : IoOp (list Z) := {|
  attempt buf := f ← fiber pos;
    world (λ w, let '(r, w) := Sock.write w (FiberInt.sock f) buf in ((r, buf), w));
  closed r buf := bool_decide (r = 0 ∧ length buf = 0);
  has_interest := is_writable; interest := writable; timeout_msg := "write timeout";
  call := CWrite; reply r _ := RSize r
|}.

Definition write_bufs_op (fuel : nat) (pos : nat) : IoOp (list (list Z)) := {|
  attempt bufs := f ← fiber pos; r ← get_runner;
    '(res, tmp) ← world_opt (λ w,
      Sock.write_bufs fuel w (FiberInt.sock f) (RunnerInt.tmp_buf r) bufs);
    upd_runner (λ r, RunnerInt.set_tmp_buf r tmp);;
    mret (res, bufs);
  closed r bufs := bool_decide (r = 0 ∧ length bufs = 0);
  has_interest := is_writable; interest := writable; timeout_msg := "write timeout";
  call := CWriteBufs; reply r _ := RSize r
|}.

Definition read fuel pos buf : M progress := io_loop (read_op pos) fuel pos buf.
Definition read_bufs fuel pos bufs : M progress := io_loop (read_bufs_op pos) fuel pos bufs.
Definition write fuel pos buf : M progress := io_loop (write_op pos) fuel pos buf.
Definition write_bufs fuel pos bufs : M progress := io_loop (write_bufs_op fuel pos) fuel pos bufs.

Definition socket_timeout (pos : nat) (dur : option Z) : M unit :=
  upd_fiber pos (λ f, FiberInt.set_timeout f dur).

Definition flush (pos : nat) : M (io unit) :=
  f ← fiber pos; world (λ w, Sock.flush w (FiberInt.sock f)).

Fixpoint accept_tcp (fuel : nat) (pos : nat) : M progress :=
  match fuel with
  | O => out_of_fuel
  | S fuel =>
    f ← fiber pos;
    r ← world (λ w, Sock.accept_tcp w (FiberInt.sock f));
    match r with
    | inl r => mret (Done (RAccept (inl r)))
    | inr err =>
      if decide (IoError.kind err = WouldBlock) then step_out pos;; mret (Blocked CAcceptTcp)
      else if decide (IoError.kind err = Interrupted) then accept_tcp fuel pos
      else mret (Done (RAccept (inr err)))
    end
  end.

Definition accept_tcp_resumed (fuel pos : nat) : M progress :=
  stepped_back pos;; accept_tcp fuel pos.

(** ** TLS *)

(** [swap] of the fiber's socket with [Empty] *)
Definition take_sock (pos : nat) : M FiberSock :=
  f ← fiber pos;
  set_fiber pos (FiberInt.set_sock f Empty);;
  mret (FiberInt.sock f).

(** One pass of the loop of [tls_handshake], up to [timed_step_out]; [c] is the
    call that the handshake is part of. *)
Definition tls_handshake (pos : nat) (c : Call P R FiberFn)
    (cr : TlsResult TlsStream MidHandshake) : M progress :=
  match cr with
  | TlsOk tls =>
    upd_fiber pos (λ f, FiberInt.set_sock f (Tls tls));;
    mret (Done (RIoUnit (inl tt)))
  | TlsInterrupted mid =>
    upd_fiber pos (λ f, FiberInt.set_sock f (TlsTemp mid));;
    reg ← fiber_register pos readable;
    match reg with
    | inl _ => timed_step_out pos;; mret (Blocked c)
    | inr err => mret (Done (RIoUnit (inr err)))
    end
  | TlsFailure => mret (Done (RIoUnit (fail Other "tls failure")))
  end.

Definition tls_handshake_resumed (pos : nat) (c : Call P R FiberFn) : M progress :=
  timed_stepped_back pos;;
  f ← fiber pos;
  if decide (0 < FiberInt.timed_out f)%Z then
    set_fiber pos (FiberInt.set_timed_out f 0);;
    mret (Done (RIoUnit (fail TimedOut "write timeout")))
  else
    sock ← take_sock pos;
    match sock with
    | TlsTemp mid => cr ← world (λ w, mid_handshake w mid); tls_handshake pos c cr
    | _ => mret (Done (RIoUnit (fail Other "tls failure")))
    end.

Definition tcp_tls_connect (pos : nat) (con : TlsConnector) (domain : list Z) : M progress :=
  sock ← take_sock pos;
  match sock with
  | Tcp tcp =>
    cr ← world (λ w, tls_connect w con domain tcp);
    tls_handshake pos (CTlsConnect con domain) cr
  | _ => mret (Done (RIoUnit (fail InvalidInput "invalid socket")))
  end.

Definition tcp_tls_accept (pos : nat) (con : TlsAcceptor) : M progress :=
  sock ← take_sock pos;
  match sock with
  | Tcp tcp =>
    cr ← world (λ w, tls_accept w con tcp);
    tls_handshake pos (CTlsAccept con) cr
  | _ => mret (Done (RIoUnit (fail InvalidInput "invalid socket")))
  end.

(** ** Results *)
Definition take_result_of (pos : nat) : M (option R) :=
  f ← fiber pos;
  set_fiber pos (FiberInt.set_result f None);;
  mret (FiberInt.result f).

Definition push_tomain (pos : nat) : M unit :=
  upd_runner (λ r, RunnerInt.set_tomain r
    (RunnerInt.tomain_fibers r ++ [FiberRef.new (RunnerInt.pos r) pos])).

Definition join_main (pos : nat) : M progress :=
  push_tomain pos;; step_out pos;; mret (Blocked CJoinMain).
Definition join_main_resumed (pos : nat) : M progress :=
  stepped_back pos;; rs ← take_result_of pos; mret (Done (ROption rs)).

Definition resume_fiber (pos : nat) (resp : option R) : M unit :=
  upd_fiber pos (λ f, FiberInt.set_result f resp);; push_toexec pos.

Definition resp_chunk (pos : nat) (chunk : R) : M progress :=
  upd_fiber pos (λ f, FiberInt.set_result f (Some chunk));;
  step_out pos;; mret (Blocked (CRespChunk chunk)).
Definition resp_chunk_resumed (pos : nat) : M progress :=
  stepped_back pos;; mret (Done RUnit).

Definition hibernate_join_main (pos : nat) : M progress :=
  upd_fiber pos (λ f, FiberInt.set_state f Unstacked);;
  push_tomain pos;;
  step_out pos;; mret (Blocked CHibernateJoinMain).
Definition hibernate_join_main_resumed (pos : nat) : M progress :=
  stepped_back pos;; mret (Done RUnit).

Definition hibernate_for_read (pos : nat) : M progress :=
  upd_fiber pos (λ f, FiberInt.set_state f Unstacked);;
  f ← fiber pos;
  reg ← (if negb (is_readable (FiberInt.ready f))
         then fiber_register pos readable else mret (inl tt));
  match reg with
  | inl _ => step_out pos;; mret (Blocked CHibernateForRead)
  | inr err => mret (Done (RIoUnit (inr err)))
  end.
Definition hibernate_for_read_resumed (pos : nat) : M progress :=
  stepped_back pos;; mret (Done (RIoUnit (inl tt))).

(** The loop over the children of [child_iter]: the first one that is closed or
    has a result, with its index. *)
Fixpoint find_child {E} (fs : list FiberInt.t) (children : list nat) (idx : nat)
    : outcome E (option (nat * nat)) :=
  match children with
  | [] => Ok None
  | c :: children =>
    f ← index fs c;
    if decide (FiberInt.state f = Closed) then Ok (Some (c, idx))
    else if decide (is_Some (FiberInt.result f)) then Ok (Some (c, idx))
    else find_child fs children (idx + 1)
  end.

Fixpoint child_iter_loop (fuel : nat) (parent : nat) : M progress :=
  match fuel with
  | O => out_of_fuel
  | S fuel =>
    f ← fiber parent;
    if decide (length (FiberInt.children f) = 0) then mret (Done (ROption None)) else
    r ← get_runner;
    child ← lift (find_child (RunnerInt.fibers r) (FiberInt.children f) 0);
    match child with
    | Some (child, index) =>
      out ← take_result_of child;
      c ← fiber child;
      (if decide (FiberInt.state c = Closed) then
         upd_fiber parent (λ f,
           FiberInt.set_children f (swap_remove_front (FiberInt.children f) index));;
         push_free child
       else push_toexec child);;
      match out with
      | Some out => mret (Done (ROption (Some out)))
      | None => child_iter_loop fuel parent
      end
    | None => step_out parent;; mret (Blocked CGetChild)
    end
  end.

(** A pass that does not end the call removes a child. *)
Definition child_iter (parent : nat) : M progress :=
  f ← fiber parent; child_iter_loop (S (length (FiberInt.children f))) parent.
Definition child_iter_resumed (parent : nat) : M progress :=
  stepped_back parent;; child_iter parent.

(** ** Fibers are made and freed *)
Definition register (func : option FiberFn) (ft : FiberSock) (param : option P)
    (parent : option nat) (schedule : bool) : M (io nat) :=
  r ← get_runner;
  let fiber := FiberInt.mk (RunnerInt.pos r) ready_empty param Unstacked 0 0 func None ft
    None None parent [] None None (Some (Duration.from_millis 20000)) 0 in
  let fiber_register f : M (io FiberInt.t) :=
    match FiberInt.sock f with
    | Listener _ =>
      '(res, f) ← world (λ w, let '(res, f, w) := FiberInt.register f w readable in ((res, f), w));
      mret (match res with inl _ => inl f | inr e => inr e end)
    | _ => mret (inl f)
    end in
  pos ←? match RunnerInt.free_fibers r with
    | free_pos :: free =>
      upd_runner (λ r, RunnerInt.set_free r free);;
      old ← lift (index (RunnerInt.fibers r) free_pos);
      me ← fiber_id free_pos;
      generation ← lift (add64 (FiberInt.generation old) 1);
      fiber ←? fiber_register (FiberInt.set_generation (FiberInt.set_me fiber me) generation);
      set_fiber free_pos fiber;;
      mret (inl free_pos)
    | [] =>
      me ← fiber_id (length (RunnerInt.fibers r));
      fiber ←? fiber_register (FiberInt.set_me fiber me);
      upd_runner (λ r, RunnerInt.push_fiber r fiber);;
      mret (inl (length (RunnerInt.fibers r)))
    end;
  (if schedule : bool then push_toexec pos else mret tt);;
  match parent with
  | Some parent =>
    upd_fiber parent (λ f, FiberInt.set_children f (FiberInt.children f ++ [pos]))
  | None => mret tt
  end;;
  mret (inl pos).

(** [None] when there is no timer; the fiber's slot is then not given back. *)
Definition new_timer (func : option FiberFn) (dur : Z) (param : option P) (resp : option R)
    : M (option nat) :=
  r ← register func Empty param None false;
  match r with
  | inl pos =>
    upd_fiber pos (λ f, FiberInt.set_result f resp);;
    id ← fiber_id pos;
    tk ← timer_reg id (Some dur);
    match tk with
    | Some tk => upd_fiber pos (λ f, FiberInt.set_wtoken f (Some tk));; mret (Some pos)
    | None => mret None
    end
  | inr _ => mret None
  end.

Definition cancel_timer (pos : nat) : M unit :=
  f ← fiber pos;
  match FiberInt.wtoken f with
  | Some tk =>
    timer_cancel tk;;
    upd_fiber pos (λ f, FiberInt.set_wtoken f None);;
    upd_fiber pos (λ f, FiberInt.set_result f None);;
    upd_fiber pos (λ f, FiberInt.set_param f None);;
    push_free pos
  | None => mret tt
  end.

(** The timeout of a lookup in ticks of the poller, at least 1 and at most 255. *)
Definition resolve_ticks {E} (to : Z) : outcome E Z :=
  ms ← mul64 (Duration.as_secs to) 1000;
  ms ← add64 ms (Duration.subsec_nanos to / 1000000);
  timeout_ticks ← div64 ms TICK_MS;
  Ok (if decide (timeout_ticks = 0)%Z then 1%Z
      else if decide (255 < timeout_ticks)%Z then 255%Z else timeout_ticks).

Definition new_resolve (parent : option nat) (domain : list Z) (func : option FiberFn) (to : Z)
    (st : SocketType) (port : Z) (param : P) : M (io nat) :=
  if decide (length domain = 0) then mret (fail Other "empty domain") else
  pos ←? register func Empty (Some param) parent false;
  let cp host := ConnectParam.mk port st host in
  fiber_id ← fiber_id pos;
  tk ← timer_reg fiber_id None;
  upd_fiber pos (λ f, FiberInt.set_wtoken f tk);;
  ticks ← lift (resolve_ticks to);
  upd_fiber pos (λ f, FiberInt.set_timed_out f ticks);;
  p ← get_poller;
  r ← world_opt (λ w, Dns.start_lookup (PollerInt.dns p) w domain);
  match r with
  | inl None =>
    upd_fiber pos (λ f, FiberInt.set_connect_param f (Some (cp [])));;
    mret (inl pos)
  | inl (Some sock) =>
    upd_fiber pos (λ f, FiberInt.set_connect_param f (Some (cp domain)));;
    upd_fiber pos (λ f, FiberInt.set_sock f (Udp sock));;
    _ ←? fiber_register pos readable;
    mret (inl pos)
  | inr e =>
    upd_fiber pos (λ f, FiberInt.set_param f None);;
    f ← fiber pos;
    match FiberInt.parent f with
    | Some parent =>
      upd_fiber parent (λ f, FiberInt.set_children f (removelast (FiberInt.children f)));;
      upd_fiber pos (λ f, FiberInt.set_parent f None)
    | None => mret tt
    end;;
    cancel_timer pos;;
    mret (inr e)
  end.

(** ** The turn of a fiber *)

(** A method of [Fiber]: the calls of fiber.rs, lines 48-228. *)
Definition call_method (fuel pos : nat) (c : Call P R FiberFn) : M progress :=
  let reply_unit (m : M (io nat)) : M progress := r ← m; mret (Done (RIoUnit (io_unit r))) in
  match c with
  | CSocketTimeout t => socket_timeout pos t;; mret (Done RUnit)
  | CRespChunk chunk => resp_chunk pos chunk
  | CAcceptTcp => accept_tcp fuel pos
  | CTlsConnect con domain => tcp_tls_connect pos con domain
  | CTlsAccept con => tcp_tls_accept pos con
  | CNewTcp tcp func param =>
    reply_unit (register (Some func) (Tcp tcp) (Some param) None true)
  | CNewListener tcp func param =>
    reply_unit (register (Some func) (Listener tcp) (Some param) None true)
  | CNewUdp udp func param =>
    reply_unit (register (Some func) (Udp udp) (Some param) None true)
  | CNewResolveConnect domain st port timeout func param =>
    reply_unit (new_resolve None domain (Some func) timeout st port param)
  | CJoinTcp tcp func param =>
    reply_unit (register (Some func) (Tcp tcp) (Some param) (Some pos) true)
  | CJoinUdp udp func param =>
    reply_unit (register (Some func) (Udp udp) (Some param) (Some pos) true)
  | CJoinResolveConnect domain st port timeout func param =>
    reply_unit (new_resolve (Some pos) domain (Some func) timeout st port param)
  | CJoinMain => join_main pos
  | CGetChild => child_iter pos
  | CHibernateForRead => hibernate_for_read pos
  | CHibernateJoinMain => hibernate_join_main pos
  | CReadBufs bufs => read_bufs fuel pos bufs
  | CWriteBufs bufs => write_bufs fuel pos bufs
  | CRead buf => read fuel pos buf
  | CWrite buf => write fuel pos buf
  | CFlush => r ← flush pos; mret (Done (RIoUnit r))
  end.

(** The rest of a method that blocked.  The other methods do not block. *)
Definition call_resumed (fuel pos : nat) (c : Call P R FiberFn) : M progress :=
  match c with
  | CRespChunk _ => resp_chunk_resumed pos
  | CAcceptTcp => accept_tcp_resumed fuel pos
  | CTlsConnect _ _ | CTlsAccept _ => tls_handshake_resumed pos c
  | CJoinMain => join_main_resumed pos
  | CGetChild => child_iter_resumed pos
  | CHibernateForRead => hibernate_for_read_resumed pos
  | CHibernateJoinMain => hibernate_join_main_resumed pos
  | CReadBufs bufs => io_resumed (read_bufs_op pos) fuel pos bufs
  | CWriteBufs bufs => io_resumed (write_bufs_op fuel pos) fuel pos bufs
  | CRead buf => io_resumed (read_op pos) fuel pos buf
  | CWrite buf => io_resumed (write_op pos) fuel pos buf
  | _ => panic
  end.

(** The end of [context_function]: the fiber's function has returned [r].  What
    follows goes through the reference that was made when the fiber was started,
    which dangles when the fibers have moved since. *)
Definition context_end (pos home : nat) (r : option R) : M Transfer :=
  x ← get_runner;
  if decide (RunnerInt.buffer x = home) then
    upd_fiber pos (λ f, FiberInt.set_result f r);;
    upd_fiber pos (λ f, FiberInt.set_state f Closed);;
    step_out pos;;
    mret Returned
  else undefined UseAfterFree.

(** The fiber's code runs until it blocks or returns.  The result is the context
    that the main stack gets for it. *)
Fixpoint exec (fuel pos home : nat) (code : Code) : M Transfer :=
  match fuel with
  | O => out_of_fuel
  | S fuel =>
    match act code with
    | Finish r => context_end pos home r
    | Calls c k =>
      p ← call_method fuel pos c;
      match p with
      | Done r => exec fuel pos home (k r)
      | Blocked c => mret (Waiting home c k)
      end
    end
  end.

(** The start of [context_function], with [t.data] a reference to the fiber in the
    allocation [home] *)
Definition context_function (fuel pos home : nat) : M Transfer :=
  upd_fiber pos (λ f, FiberInt.set_state f Stacked);;
  upd_fiber pos (λ f, FiberInt.set_trans f (Some Main));;
  f ← fiber pos;
  set_fiber pos (FiberInt.set_param f None);;
  param ← lift (expect (FiberInt.param f));
  func ← lift (expect (FiberInt.func f));
  exec fuel pos home (enter func
    (Fiber.new (FiberInt.runner f) (Z.land (FiberInt.me f) U32_MAX)) param).

(** [t.context.resume(&self.fibers[pos])] on the main stack.  Only
    [context_function] looks at what is passed to it. *)
Definition switch (fuel pos : nat) (t : Transfer) : M Transfer :=
  match t with
  | Fresh => x ← get_runner; context_function fuel pos (RunnerInt.buffer x)
  | Waiting home c k =>
    p ← call_resumed fuel pos c;
    match p with
    | Done r => exec fuel pos home (k r)
    | Blocked c => mret (Waiting home c k)
    end
  (** [loop {}] *)
  | Returned => out_of_fuel
  | Main => panic
  end.

Definition unstack (pos : nat) : M unit :=
  f ← fiber pos;
  stack ← lift (expect (FiberInt.stack f));
  set_fiber pos (FiberInt.set_trans (FiberInt.set_stack f None) None);;
  stack_push stack.

Definition take_result (pos : nat) : M unit :=
  rs ← take_result_of pos;
  match rs with
  | Some r => upd_runner (λ x, RunnerInt.set_results x (RunnerInt.results x ++ [r]))
  | None => mret tt
  end.

(** The parent to step into, if any *)
Definition stepped_out (pos : nat) : M (option nat) :=
  f ← fiber pos;
  (if decide (FiberInt.state f ≠ Stacked ∧ is_Some (FiberInt.trans f))
   then unstack pos else mret tt);;
  f ← fiber pos;
  if decide (FiberInt.state f = Closed) then
    set_fiber pos (FiberInt.set_sock f Empty);;
    match FiberInt.parent f with
    | Some parent => mret (Some parent)
    | None => take_result pos;; push_free pos;; mret None
    end
  else
    match FiberInt.parent f with
    | Some parent =>
      mret (if decide (is_Some (FiberInt.result f)) then Some parent else None)
    | None =>
      if decide (is_Some (FiberInt.result f))
      then take_result pos;; push_toexec pos;; mret None
      else mret None
    end.

(** [step_into] up to [stepped_out] *)
Definition run_turn (fuel pos : nat) : M unit :=
  f ← fiber pos;
  match FiberInt.func f with
  | Some _ =>
    match FiberInt.trans f with
    | None =>
      stack ← stack_pop;
      upd_fiber pos (λ f, FiberInt.set_trans (FiberInt.set_stack f (Some stack)) (Some Fresh))
    | Some _ => mret tt
    end;;
    f ← fiber pos;
    set_fiber pos (FiberInt.set_trans f None);;
    t ← lift (expect (FiberInt.trans f));
    t ← switch fuel pos t;
    upd_fiber pos (λ f, FiberInt.set_trans f (Some t))
  | None => upd_fiber pos (λ f, FiberInt.set_state f Closed)
  end.

Fixpoint step_into (fuel pos : nat) : M unit :=
  match fuel with
  | O => out_of_fuel
  | S fuel =>
    run_turn fuel pos;;
    next ← stepped_out pos;
    match next with
    | Some parent => step_into fuel parent
    | None => mret tt
    end
  end.

(** ** The scheduler *)
Definition have_addr (fuel pos : nat) (addr : IpAddr) : M unit :=
  upd_fiber pos (λ f, FiberInt.set_sock f Empty);;
  upd_fiber pos (λ f, FiberInt.set_ready f ready_empty);;
  upd_fiber pos (λ f, FiberInt.set_timed_out f 0);;
  f ← fiber pos;
  set_fiber pos (FiberInt.set_connect_param f None);;
  cp ← lift (expect (FiberInt.connect_param f));
  let dst := {| ip := addr; port := ConnectParam.port cp |} in
  match ConnectParam.st cp with
  | TcpSocket =>
    r ← world (λ w, tcp_connect w dst);
    match r with
    | inl tcp => upd_fiber pos (λ f, FiberInt.set_sock f (Tcp tcp))
    | inr _ => mret tt
    end
  | UdpSock udp =>
    r ← world (λ w, udp_connect w udp dst);
    match r with
    | inl _ => upd_fiber pos (λ f, FiberInt.set_sock f (Udp udp))
    | inr _ => mret tt
    end
  end;;
  reg ← fiber_register pos writable;
  match reg with
  | inl _ => mret tt
  | inr _ => step_into fuel pos
  end.

(** The body of the first loop of [run]: the fiber [pos] has been taken from the
    queue of fibers to resume. *)
Definition run_toexec (fuel pos : nat) : M unit :=
  f ← fiber pos;
  match FiberInt.connect_param f with
  | Some _ =>
    '(res, buf) ← world (λ w, Sock.read w (FiberInt.sock f) (replicate 512 0%Z));
    match res with
    | inl nb =>
      data ← lift (slice_to buf nb);
      adr ← lift (widen (dns_parse data));
      match adr with
      | Some adr =>
        match FiberInt.wtoken f with Some tk => timer_cancel tk | None => mret tt end;;
        upd_fiber pos (λ f, FiberInt.set_wtoken f None);;
        have_addr fuel pos adr
      | None => mret tt
      end
    | inr _ => mret tt
    end
  | None => step_into fuel pos
  end.

(** The body of the second loop: a lookup has found [addr]. *)
Definition run_lookup (fuel pos : nat) (gen : Z) (addr : IpAddr) : M unit :=
  f ← fiber pos;
  if decide (FiberInt.generation f ≠ gen) then mret tt else
  match FiberInt.wtoken f with
  | Some tk => timer_cancel tk;; upd_fiber pos (λ f, FiberInt.set_wtoken f None)
  | None => mret tt
  end;;
  have_addr fuel pos addr.

(** The body of the third loop: the timer of the fiber has fired. *)
Definition run_timedout (fuel pos : nat) : M unit :=
  f ← fiber pos;
  match FiberInt.wtoken f, FiberInt.connect_param f with
  | None, _ => mret tt
  | Some _, Some _ =>
    left ← lift (sub64 (FiberInt.timed_out f) 1);
    upd_fiber pos (λ f, FiberInt.set_timed_out f left);;
    f ← fiber pos;
    if decide (0 < FiberInt.timed_out f)%Z then
      fiber_id ← fiber_id pos;
      match FiberInt.sock f, FiberInt.connect_param f with
      | Udp udp, Some cp =>
        p ← get_poller;
        _ ← world_opt (λ w, Dns.lookup_on (PollerInt.dns p) w udp (FiberInt.timed_out f)
                              (ConnectParam.host cp));
        tk ← timer_reg fiber_id None;
        upd_fiber pos (λ f, FiberInt.set_wtoken f tk)
      | _, _ => mret tt
      end
    else
      upd_fiber pos (λ f, FiberInt.set_sock f Empty);;
      upd_fiber pos (λ f, FiberInt.set_wtoken f None);;
      step_into fuel pos
  | Some _, None =>
    upd_fiber pos (λ f, FiberInt.set_wtoken f None);;
    upd_fiber pos (λ f, FiberInt.set_timed_out f 1);;
    step_into fuel pos
  end.

(** [while let Some(x) = pop() { body(x) }] *)
Fixpoint while_some {A} (pop : M (option A)) (body : nat → A → M unit) (fuel : nat) : M unit :=
  match fuel with
  | O => out_of_fuel
  | S fuel =>
    x ← pop;
    match x with
    | Some x => body fuel x;; while_some pop body fuel
    | None => mret tt
    end
  end.

Definition dns_check : M (option (nat * Z * IpAddr)) :=
  r ← get_runner;
  x ← poller (λ p, PollerInt.dns_check p (Z.to_nat (RunnerInt.pos r)));
  mret ((λ '(pos, gen, addr), (Z.to_nat pos, gen, addr)) <$> x).
Definition timedout_pop : M (option nat) :=
  r ← get_runner;
  x ← poller (λ p, PollerInt.timedout_pop p (Z.to_nat (RunnerInt.pos r)));
  mret (Z.to_nat <$> x).

Definition signaled (r : RunnerInt.t) : bool :=
  negb (bool_decide (RunnerInt.tomain_fibers r = [] ∧ RunnerInt.results r = [])).

Definition run (fuel : nat) : M bool :=
  while_some pop_toexec run_toexec fuel;;
  while_some dns_check (λ fuel '(pos, gen, addr), run_lookup fuel pos gen addr) fuel;;
  while_some timedout_pop run_timedout fuel;;
  r ← get_runner; mret (signaled r).

(** ** The main stack's methods *)
Definition get_response : M (option R) :=
  r ← get_runner;
  match RunnerInt.results r with
  | [] => mret None
  | x :: l => upd_runner (λ r, RunnerInt.set_results r l);; mret (Some x)
  end.

Definition get_fiber : M (option FiberRef.t) :=
  r ← get_runner;
  match RunnerInt.tomain_fibers r with
  | [] => mret None
  | x :: l => upd_runner (λ r, RunnerInt.set_tomain r l);; mret (Some x)
  end.

(** [FiberRef::resume_fiber] takes the reference; dropping one that was not taken
    resumes the fiber without a response. *)
Definition resume_ref (f : FiberRef.t) (resp : option R) : M unit :=
  resume_fiber (FiberRef.id f) resp.
Definition drop_ref (f : FiberRef.t) : M unit :=
  if FiberRef.resumed f then mret tt else resume_fiber (FiberRef.id f) None.

(** Dropping a [TimerRef] cancels the timer of the slot it names. *)
Definition drop_timer (pos : nat) : M unit := cancel_timer pos.

(** The methods of [Runner] that start fibers *)
Definition new_resolve_connect (domain : list Z) (st : SocketType) (port timeout : Z)
    (func : FiberFn) (param : P) : M (io unit) :=
  r ← new_resolve None domain (Some func) timeout st port param; mret (io_unit r).
Definition new_tcp (tcp : TcpStream) (func : FiberFn) (param : P) : M (io unit) :=
  r ← register (Some func) (Tcp tcp) (Some param) None true; mret (io_unit r).
Definition new_listener (tcp : TcpListener) (func : FiberFn) (param : P) : M (io unit) :=
  r ← register (Some func) (Listener tcp) (Some param) None true; mret (io_unit r).
Definition new_udp (udp : UdpSocket) (func : FiberFn) (param : P) : M (io unit) :=
  r ← register (Some func) (Udp udp) (Some param) None true; mret (io_unit r).
Definition new_resp_timer (dur : Z) (resp : R) : M (option nat) :=
  new_timer None dur None (Some resp).
Definition new_fiber_timer (dur : Z) (func : FiberFn) (param : P) : M (option nat) :=
  new_timer (Some func) dur (Some param) None.
Definition new_processor (func : FiberFn) (param : P) : M (io unit) :=
  r ← register (Some func) Empty (Some param) None true; mret (io_unit r).
End runner.
Arguments IoOp {N Pr} Sl B.
Arguments attempt {N Pr Sl B}.
Arguments closed {N Pr Sl B}.
Arguments has_interest {N Pr Sl B}.
Arguments interest {N Pr Sl B}.
Arguments timeout_msg {N Pr Sl B}.
Arguments call {N Pr Sl B}.
Arguments reply {N Pr Sl B}.

(** ** The runners of a thread (src/tls.c, [start_runner])

    [None] is a null pointer; a thread has 20 slots. *)
Module Slots.
Section ops.
Context {N : Net} {Pr : Program}.
Implicit Types (runners : list (option RunnerInt.t)).

Fixpoint find_empty_from runners (i : nat) : option nat :=
  match runners with
  | [] => None
  | None :: _ => Some i
  | Some _ :: runners => find_empty_from runners (i + 1)
  end.

(** [None] for -1 *)
Definition find_empty runners : option nat := find_empty_from runners 0.

Definition set_runner {E} runners (pos : nat) (r : option RunnerInt.t) :
    outcome E (list (option RunnerInt.t)) := store runners pos r.

(** [poller] tells whether the thread has a poller. *)
Definition start_runner (poller : bool) runners
    : outcome Empty_set (io nat * list (option RunnerInt.t)) :=
  if negb poller then Ok (fail Other "no poller", runners) else
  match find_empty runners with
  | None => Ok (fail Other "no space", runners)
  | Some pos =>
    runners ← set_runner runners pos (Some (RunnerInt.new (Z.of_nat pos)));
    Ok (inl pos, runners)
  end.
End ops.
End Slots.

(** ** Lemmas *)
Lemma run_bind_Ok {St A B} (f : A → Run St B) (m : Run St A) s b s' :
  (m ≫= f) s = Ok (b, s') ↔ ∃ a s1, m s = Ok (a, s1) ∧ f a s1 = Ok (b, s').
Proof.
  unfold mbind, run_bind. destruct (m s) as [[a s1]|e| |]; naive_solver.
Qed.

(** The vector of the fibers *)
Section push.
Context {N : Net} {Pr : Program}.
Implicit Types (r : RunnerInt.t) (f : FiberInt.t).

Lemma push_fibers r f : RunnerInt.fibers (RunnerInt.push_fiber r f) = RunnerInt.fibers r ++ [f].
Proof. unfold RunnerInt.push_fiber. by case_decide. Qed.
Lemma push_pos r f : RunnerInt.pos (RunnerInt.push_fiber r f) = RunnerInt.pos r.
Proof. unfold RunnerInt.push_fiber. by case_decide. Qed.
Lemma push_free_fibers r f :
  RunnerInt.free_fibers (RunnerInt.push_fiber r f) = RunnerInt.free_fibers r.
Proof. unfold RunnerInt.push_fiber. by case_decide. Qed.
Lemma push_tomain_fibers r f :
  RunnerInt.tomain_fibers (RunnerInt.push_fiber r f) = RunnerInt.tomain_fibers r.
Proof. unfold RunnerInt.push_fiber. by case_decide. Qed.
Lemma push_results r f : RunnerInt.results (RunnerInt.push_fiber r f) = RunnerInt.results r.
Proof. unfold RunnerInt.push_fiber. by case_decide. Qed.
Lemma push_tmp_buf r f : RunnerInt.tmp_buf (RunnerInt.push_fiber r f) = RunnerInt.tmp_buf r.
Proof. unfold RunnerInt.push_fiber. by case_decide. Qed.
End push.
#[export] Hint Rewrite @push_fibers @push_pos @push_free_fibers @push_tomain_fibers @push_results
  @push_tmp_buf : push.
