(* ===== verification/Sim.v ===== *)
(** * A simulated network and program

    An instance of [Net] that satisfies [NetLaws], and an instance of [Program]
    whose fibers are finite trees of calls.  The witnesses and examples of the
    fibers and runners run on them.

    The world is a script: what arrives at each socket and what each write
    accepts are given in advance, what is written and registered is logged.  A
    socket with nothing to read blocks; a write with nothing scripted accepts all
    it is given.  Stacks are numbered as they are made. *)
From stdpp Require Import strings.
From S2P Require Import Prelude Clock Slab Wheel ByteOrder StdText Resolver Poller Fiber Runner.
Local Open Scope nat_scope.
Local Open Scope list_scope.

Module Sim.
Record world := mk {
  clock : Z;
  inbox : list (nat * io (list Z));
  room : list (nat * io nat);
  pending : list (nat * io nat);
  outbox : list (nat * list Z);
  interest : list (Z * (bool * bool));
  made : Z
}.

(** The next entry of the script for a handle *)
Fixpoint take_first {A} (h : nat) (l : list (nat * A)) : option (A * list (nat * A)) :=
  match l with
  | [] => None
  | (k, x) :: l =>
    if decide (k = h) then Some (x, l)
    else '(y, l) ← take_first h l; Some (y, (k, x) :: l)
  end.

Definition set_inbox w x := mk (clock w) x (room w) (pending w) (outbox w) (interest w) (made w).
Definition set_room w x := mk (clock w) (inbox w) x (pending w) (outbox w) (interest w) (made w).
Definition set_pending w x := mk (clock w) (inbox w) (room w) x (outbox w) (interest w) (made w).
Definition log w h data :=
  mk (clock w) (inbox w) (room w) (pending w) (outbox w ++ [(h, data)]) (interest w) (made w).
Definition set_made w x := mk (clock w) (inbox w) (room w) (pending w) (outbox w) (interest w) x.
Definition set_clock w x := mk x (inbox w) (room w) (pending w) (outbox w) (interest w) (made w).

Definition sim_read (w : world) (h : nat) (buf : list Z) : io nat * list Z * world :=
  match take_first h (inbox w) with
  | None => (fail WouldBlock "", buf, w)
  | Some (inr e, l) => (inr e, buf, set_inbox w l)
  | Some (inl data, l) =>
    let n := length data `min` length buf in
    (inl n, take n data ++ drop n buf, set_inbox w l)
  end.

Definition sim_write (w : world) (h : nat) (buf : list Z) : io nat * world :=
  match take_first h (room w) with
  | None => (inl (length buf), log w h buf)
  | Some (inr e, l) => (inr e, set_room w l)
  | Some (inl k, l) =>
    let n := k `min` length buf in (inl n, log (set_room w l) h (take n buf))
  end.

Definition sim_accept (w : world) (h : nat) : io (nat * SocketAddr) * world :=
  match take_first h (pending w) with
  | None => (fail WouldBlock "", w)
  | Some (inr e, l) => (inr e, set_pending w l)
  | Some (inl s, l) => (inl (s, {| ip := V4 0; port := 0 |}), set_pending w l)
  end.

Definition sim_register (w : world) (ev : Evented nat nat nat) (token : Z) (rdy : bool * bool)
    : io unit * world :=
  (inl tt, mk (clock w) (inbox w) (room w) (pending w) (outbox w) (interest w ++ [(token, rdy)]) (made w)).

(** The clock shows its low bits. *)
Fixpoint low_bits_pos (p : positive) (n : nat) : Z :=
  match n with
  | 0 => 0
  | S n =>
    match p with
    | xH => 1
    | xO p => Z.double (low_bits_pos p n)
    | xI p => Z.succ_double (low_bits_pos p n)
    end
  end.
Definition low_bits (n : nat) (z : Z) : Z :=
  match z with Zpos p => low_bits_pos p n | _ => 0 end.

Lemma low_bits_bound n z : (0 ≤ low_bits n z < 2 ^ Z.of_nat n)%Z.
Proof.
  destruct z as [|p|p]; cbn [low_bits]; [lia| |lia].
  revert n. induction p as [p IH|p IH|]; intros [|n]; cbn [low_bits_pos]; [lia| |lia| |lia|];
    rewrite Nat2Z.inj_succ, Z.pow_succ_r by lia; [specialize (IH n); lia..|lia].
Qed.

#[global] Instance network : Network world nat IoError.t := {
  random w := (7%Z, w);
  udp_bind w _ := (inl 9, w);
  send_to w s buf _ _ := (None, log w s buf);
  other_error := IoError.new Other ""
}.

#[global] Instance stacks : Stacks world Z := {
  default_stack w := (made w, set_made w (made w + 1)%Z);
  new_stack w size := (Some (made w), set_made w (made w + 1)%Z)
}.

#[global] Instance net : Net := {
  W := world; TcpStream := nat; UdpSocket := nat; TcpListener := nat;
  TlsStream := nat; MidHandshake := nat; TlsConnector := unit; TlsAcceptor := unit;
  Stack := Z;
  Ready := bool * bool;
  ready_empty := (false, false); readable := (true, false); writable := (false, true);
  is_empty r := negb (r.1 || r.2); is_readable := fst; is_writable := snd;
  now w := (low_bits 59 (clock w), w);
  tcp_connect w _ := (inl 8, w);
  tcp_read := sim_read; tcp_write := sim_write; tcp_flush w _ := (inl tt, w);
  tcp_read_bufs w _ bufs := (fail WouldBlock "", bufs, w);
  tcp_write_bufs w _ bufs := (inl (length (concat bufs)), w);
  listener_accept := sim_accept;
  udp_connect w _ _ := (inl tt, w); udp_recv := sim_read; udp_send := sim_write;
  tls_read := sim_read; tls_write := sim_write; tls_flush w _ := (inl tt, w);
  tls_connect w _ _ tcp := (TlsInterrupted tcp, w);
  tls_accept w _ tcp := (TlsInterrupted tcp, w);
  mid_handshake w mid := (TlsOk mid, w);
  mid_get_ref mid := mid;
  poll_register := sim_register; poll_reregister := sim_register
}.

#[global] Instance net_laws : NetLaws net.
Proof.
  split; try done.
  - cbn. unfold sim_read. intros w h b n b' w' Hr.
    destruct (take_first _ _) as [[[data|e] l]|]; simplify_eq.
    split_and!; [lia|rewrite length_app, length_take, length_drop; lia|].
    rewrite drop_app_length'; [done|rewrite length_take; lia].
  - cbn. unfold sim_read. intros w h b e b' w' Hr.
    destruct (take_first _ _) as [[[data|e'] l]|]; by simplify_eq.
  - cbn. unfold sim_write. intros w h b n w' Hr.
    destruct (take_first _ _) as [[[k|e] l]|]; simplify_eq; lia.
Qed.

(** The state of a fiber's code: a finite tree of calls.  Fiber functions are the
    positions of a table. *)
Inductive script :=
| Ret (r : option Z)
| Do (c : Call (list Z) Z nat) (k : Reply Z → script).

Definition program (table : nat → Fiber.t → list Z → script) : Program := {|
  P := list Z; R := Z; FiberFn := nat; Code := script;
  enter := table;
  act c := match c with Ret r => Finish r | Do c k => Calls c k end
|}.

Definition world0 : world := mk 0 [] [] [] [] [] 0.
End Sim.
