(* ===== verification/FiberProps.v ===== *)
(** * Properties of the fibers' sockets

    What [write_bufs] and [read_bufs] do on TLS sockets, against reference
    definitions, and what [register] does to a fiber. *)
From stdpp Require Import strings.
From S2P Require Import Prelude Clock StdText Resolver Poller Fiber Runner Sim.
Local Open Scope nat_scope.
Local Open Scope list_scope.

Section tls.
Context {N : Net}.
Implicit Types (w : W) (tls : TlsStream) (bufs : list (list Z)).

(** ** Writing large buffers *)

(** The reference: each buffer is written by a call of its own, until one is
    not taken whole. *)
Fixpoint write_in_turn w tls bufs (sz : nat) : io nat * W :=
  match bufs with
  | [] => (inl sz, w)
  | buf :: bufs =>
    match tls_write w tls buf with
    | (inl s, w) =>
      if decide (s < length buf) then (inl (sz + s), w) else write_in_turn w tls bufs (sz + s)
    | (inr e, w) => (if decide (sz = 0) then inr e else inl sz, w)
    end
  end.

Lemma write_loop_large tmp fuel w tls bufs sz i :
  Forall (λ b, 4096 ≤ length b) bufs → length bufs - i ≤ fuel →
  Sock.tls_write_loop fuel w tls tmp bufs 0 sz i =
    Ok (let '(r, w) := write_in_turn w tls (drop i bufs) sz in (r, tmp, w)).
Proof.
  intros Hl. revert w sz i. induction fuel as [|fuel IH]; intros w sz i Hf.
  { cbn. rewrite decide_False, drop_ge by lia. done. }
  cbn [Sock.tls_write_loop]. case_decide as Hi; [|by rewrite drop_ge by lia].
  destruct (lookup_lt_is_Some_2 _ _ Hi) as [b Hb].
  pose proof (Forall_lookup_1 _ _ _ _ Hl Hb) as Hlb. cbn in Hlb.
  eapply bind_step; [by apply index_Ok|].
  rewrite decide_False, (drop_S bufs b i) by (done || lia).
  rewrite decide_False by lia. cbn [write_in_turn].
  destruct (tls_write w tls b) as [[s|e] w'] eqn:Hw; mstep; [|by case_decide].
  replace (i + 1) with (S i) by lia.
  case_decide as Hs; [|case_decide; [done|apply IH; lia]].
  rewrite decide_True by lia. by rewrite Hs, Nat.add_0_r.
Qed.

(** C22. [write_bufs] on a TLS socket, for buffers of at least 4096 bytes: it
    returns, and what it writes, the count or error it returns and the world it
    leaves are those of writing the buffers one after the other until one is
    not taken whole; the temporary buffer is not touched.  An error after bytes
    were written gives their count. *)
Theorem write_bufs_large fuel w tls tmp bufs :
  Forall (λ b, 4096 ≤ length b) bufs → length bufs ≤ fuel →
  Sock.write_bufs fuel w (Tls tls) tmp bufs =
    Ok (let '(r, w) := write_in_turn w tls bufs 0 in (r, tmp, w)).
Proof. intros. cbn. rewrite write_loop_large by (done || lia). by rewrite drop_0. Qed.

(** ** Writing small buffers *)

(** What the code does instead when the first buffer is small: it sends [data]
    again and again, until a write fails or is not taken whole.  [None]: all [n]
    writes were taken whole. *)
Fixpoint resend (n : nat) w tls (data : list Z) (sz : nat) : option (io nat * W) :=
  match n with
  | O => None
  | S n =>
    match tls_write w tls data with
    | (inl s, w) =>
      if decide (s < length data) then Some (inl (sz + s), w)
      else resend n w tls data (sz + s)
    | (inr e, w) => Some (if decide (sz = 0) then inr e else inl sz, w)
    end
  end.

(** As many copies of a buffer as fit into the temporary buffer, with a byte to
    spare *)
Definition copies (tmp buf : list Z) : nat := (length tmp - 1) `div` length buf.
Definition repeated (k : nat) (buf : list Z) : list Z := mjoin (replicate k buf).

Lemma length_repeated k buf : length (repeated k buf) = k * length buf.
Proof.
  unfold repeated. rewrite length_join. induction k as [|k IH]; cbn; [done|]. by rewrite IH.
Qed.

Lemma repeated_S k buf : repeated k buf ++ buf = repeated (S k) buf.
Proof.
  unfold repeated. change (replicate (S k) buf) with (replicate (1 + k) buf).
  rewrite Nat.add_comm, replicate_add, join_app. cbn. by rewrite app_nil_r.
Qed.

Section small.
Context (buf : list Z) (rest : list (list Z)) (tmp : list Z).
Context (Hbuf : 0 < length buf < 4096) (Htmp : length tmp = Z.to_nat 16384).

Abbreviation data := (repeated (copies tmp buf) buf).

Lemma copies_bound k : k < copies tmp buf ↔ k * length buf + length buf < length tmp.
Proof.
  unfold copies. pose proof (Nat.div_mod (length tmp - 1) (length buf)).
  pose proof (Nat.mod_upper_bound (length tmp - 1) (length buf)).
  split; intros; nia.
Qed.

Lemma copies_pos : 0 < copies tmp buf.
Proof. apply copies_bound. lia. Qed.

Lemma write_loop_collect d k fuel w tls sz t : k + d = copies tmp buf →
  length t = length tmp → take (k * length buf) t = repeated k buf →
  ∃ t', length t' = length tmp ∧ take (length data) t' = data ∧
  Sock.tls_write_loop (d + fuel) w tls t (buf :: rest) (k * length buf) sz 0 =
  Sock.tls_write_loop fuel w tls t' (buf :: rest) (length data) sz 0.
Proof.
  revert k t. induction d as [|d IH]; intros k t Hk Ht Hpre.
  { exists t. rewrite length_repeated. assert (k = copies tmp buf) as -> by lia. done. }
  cbn [Nat.add Sock.tls_write_loop]. rewrite decide_True by (cbn; lia).
  assert (k * length buf + length buf < length tmp) by (apply copies_bound; lia).
  edestruct (IH (S k) (take (k * length buf) t ++ buf ++ drop (k * length buf + length buf) t))
    as (t' & Ht' & Hd' & Hl); [lia| | |exists t'; split_and!; [done|done|]].
  - rewrite !length_app, length_take, length_drop. lia.
  - rewrite app_assoc, Hpre, repeated_S. rewrite take_app_le by (rewrite length_repeated; lia).
    apply take_ge. rewrite length_repeated. lia.
  - eapply bind_step; [by apply index_Ok|]. rewrite decide_True by lia.
    rewrite copy_at_in by lia. mstep.
    replace (k * length buf + length buf) with (S k * length buf) in * by lia. exact Hl.
Qed.

Lemma length_data_bound : length tmp ≤ length data + length buf.
Proof. rewrite length_repeated. pose proof (copies_bound (copies tmp buf)). lia. Qed.

Lemma write_loop_small n w tls sz t : length t = length tmp →
  (Sock.tls_write_loop (n * S (copies tmp buf)) w tls t (buf :: rest) 0 sz 0 = OutOfFuel
    ∧ resend n w tls data sz = None)
  ∨ (∃ r w' t', resend n w tls data sz = Some (r, w') ∧
     Sock.tls_write_loop (n * S (copies tmp buf)) w tls t (buf :: rest) 0 sz 0 = Ok (r, t', w')).
Proof.
  revert w sz t. induction n as [|n IH]; intros w sz t Ht; [by left|].
  pose proof length_data_bound as Hfull. pose proof copies_pos as Hpos.
  destruct (write_loop_collect (copies tmp buf) 0 (S (n * S (copies tmp buf))) w tls sz t)
    as (t' & Ht' & Hd & Hl); [lia|done|done|].
  replace (S n * S (copies tmp buf)) with (copies tmp buf + S (n * S (copies tmp buf))) by lia.
  rewrite Nat.mul_0_l in Hl. rewrite Hl. cbn [Sock.tls_write_loop resend].
  rewrite (decide_True (P := 0 < length (buf :: rest))) by (cbn; lia).
  assert (length data = copies tmp buf * length buf) as Hlen by apply length_repeated.
  assert (length data ≤ length t') as Hle.
  { rewrite <- Hd at 1. rewrite length_take. lia. }
  rewrite (proj2 (index_Ok (buf :: rest) 0 buf)) by done. mstep.
  rewrite decide_False, decide_True by nia.
  rewrite slice_in by lia. rewrite Nat.sub_0_r, drop_0, Hd. mstep.
  destruct (tls_write w tls data) as [[s|e] w'] eqn:Hw; mstep.
  2: { right. case_decide; eauto. }
  case_decide as Hs.
  { right. subst s. rewrite (decide_True (P := 0 < length data)) by nia.
    rewrite Nat.add_0_r. eauto. }
  case_decide; [by eauto 10|]. by apply IH.
Qed.
End small.

(** C29. [write_bufs] on a TLS socket when the first buffer is small (1 to 4095
    bytes, so that the copying branch is taken): its loop copies the buffer into
    the temporary one without moving on to the next, so what it sends is that
    buffer repeated, again and again ([resend]).  It returns only when a write
    fails or is not taken whole; while [n] writes are taken whole, the fuel for
    [n] rounds is used up.  No other buffer is ever sent. *)
Theorem write_bufs_small n w tls tmp buf rest :
  0 < length buf < 4096 → length tmp = Z.to_nat 16384 →
  match resend n w tls (repeated (copies tmp buf) buf) 0 with
  | None => Sock.write_bufs (n * S (copies tmp buf)) w (Tls tls) tmp (buf :: rest) = OutOfFuel
  | Some (r, w') => ∃ tmp',
      Sock.write_bufs (n * S (copies tmp buf)) w (Tls tls) tmp (buf :: rest) = Ok (r, tmp', w')
  end.
Proof.
  intros Hbuf Htmp. cbn [Sock.write_bufs].
  destruct (write_loop_small buf rest tmp Hbuf Htmp n w tls 0 tmp eq_refl)
    as [[-> ->]|(r & w' & t' & -> & ->)]; by eauto.
Qed.

(** ** Reading *)

(** How a read fills its buffer: the first [n] bytes are new. *)
Definition fills (n : nat) (buf buf' : list Z) : Prop :=
  n ≤ length buf ∧ length buf' = length buf ∧ drop n buf' = drop n buf.

Lemma fills_0 buf : fills 0 buf buf.
Proof. unfold fills. auto with lia. Qed.

Lemma fills_same bufs : ∃ ns, Forall3 fills ns bufs bufs ∧ sum_list ns = 0.
Proof.
  induction bufs as [|b bufs (ns & Hns & Hs)]; [exists []; by repeat constructor|].
  exists (0 :: ns). split; [constructor; [apply fills_0|done]|done].
Qed.

(** One buffer is filled, and then the ones behind it. *)
Lemma fills_cons i b b' s ns bufs bufs' : bufs !! i = Some b → fills s b b' →
  take (S i) bufs' = take (S i) (<[i := b']> bufs) →
  Forall3 fills ns (drop (S i) (<[i := b']> bufs)) (drop (S i) bufs') →
  take i bufs' = take i bufs ∧ Forall3 fills (s :: ns) (drop i bufs) (drop i bufs').
Proof.
  intros Hb Hs Ht Hns. assert (i < length bufs) as Hi by (by eapply lookup_lt_Some).
  assert (bufs' !! i = Some b') as Hb'.
  { rewrite <- (lookup_take_lt _ (S i)), Ht, lookup_take_lt by lia.
    by apply list_lookup_insert_eq. }
  split.
  - apply (f_equal (take i)) in Ht. rewrite !take_take, Nat.min_l in Ht by lia.
    by rewrite Ht, take_insert_ge.
  - rewrite (drop_S bufs b i Hb), (drop_S bufs' b' i Hb'). constructor; [done|].
    by rewrite drop_insert_lt in Hns by lia.
Qed.

Lemma read_loop_fills `{!NetLaws N} fuel w tls bufs sz i : length bufs - i ≤ fuel →
  ∃ r bufs' w', Sock.tls_read_loop fuel w tls bufs sz i = Ok (r, bufs', w') ∧
  take i bufs' = take i bufs ∧
  ∃ ns, Forall3 fills ns (drop i bufs) (drop i bufs') ∧
  match r with
  | inl n => n = sz + sum_list ns
  | inr _ => sz = 0 ∧ bufs' = bufs
  end.
Proof.
  revert w bufs sz i. induction fuel as [|fuel IH]; intros w bufs sz i Hf.
  { exists (inl sz), bufs, w. cbn. rewrite decide_False, drop_ge by lia.
    split_and!; [done..|]. exists []. split; [constructor|cbn; lia]. }
  cbn [Sock.tls_read_loop]. case_decide as Hi.
  2: { exists (inl sz), bufs, w. rewrite drop_ge by lia. split_and!; [done..|].
       exists []. split; [constructor|cbn; lia]. }
  destruct (lookup_lt_is_Some_2 _ _ Hi) as [b Hb].
  rewrite (proj2 (index_Ok bufs i b)) by done. mstep.
  destruct (tls_read w tls b) as [[[s|e] b'] w1] eqn:Hr.
  2: { apply tls_read_err in Hr as ->. rewrite store_in by done. mstep.
       rewrite list_insert_id by done. destruct (fills_same (drop i bufs)) as (ns & Hns & Hz).
       case_decide as Hsz; [exists (inr e), bufs, w1|exists (inl sz), bufs, w1];
         (split_and!; [done..|]); exists ns; [done|]. split; [done|lia]. }
  rewrite store_in by done. mstep.
  apply tls_read_len in Hr.
  case_decide as Hz.
  { exists (inl sz), (<[i:=b']> bufs), w1. split; [done|].
    destruct (fills_same (drop (S i) (<[i:=b']> bufs))) as (ns & Hns & Hz').
    destruct (fills_cons i b b' s ns bufs (<[i:=b']> bufs)) as [? ?]; try done.
    split; [done|]. exists (s :: ns). split; [done|cbn; lia]. }
  destruct (IH w1 (<[i:=b']> bufs) (sz + s) (i + 1)) as (r & bufs' & w' & -> & Ht & ns & Hns & Hres).
  { rewrite length_insert. lia. }
  exists r, bufs', w'. split; [done|]. replace (i + 1) with (S i) in * by lia.
  destruct (fills_cons i b b' s ns bufs bufs') as [? ?]; try done.
  split; [done|]. exists (s :: ns). split; [done|]. destruct r as [n|e]; cbn; lia.
Qed.

(** [read_bufs] on a TLS socket returns, and its result and buffers agree:
    an error leaves the buffers as they were; a count is the sum of what went
    into the single buffers, each of which is filled from its start and keeps
    the rest of its old content. *)
Theorem read_bufs_fills `{!NetLaws N} w tls bufs :
  ∃ r bufs' w', Sock.read_bufs w (Tls tls) bufs = Ok (r, bufs', w') ∧
  match r with
  | inl n => ∃ ns, Forall3 fills ns bufs bufs' ∧ n = sum_list ns
  | inr _ => bufs' = bufs
  end.
Proof.
  destruct (read_loop_fills (length bufs) w tls bufs 0 0) as (r & bufs' & w' & H & _ & ns & Hns & Hr);
    [lia|]. exists r, bufs', w'. split; [exact H|]. rewrite !drop_0 in Hns.
  destruct r; [eauto|by destruct Hr].
Qed.

(** A TLS socket can not be registered: [evented] does not know it. *)
Lemma register_tls `{!Program} f w rdy tls : FiberInt.sock f = Tls tls →
  FiberInt.register f w rdy = (fail InvalidInput "no socket", f, w).
Proof. intros Hs. unfold FiberInt.register. by rewrite Hs. Qed.
End tls.

(** ** Instances *)
Definition tmp0 : list Z := replicate (Z.to_nat 16384) 0%Z.

Lemma write_bufs_large_witness :
  let bufs := [replicate 4096 1%Z; replicate 4097 2%Z] in
  let w := Sim.set_room Sim.world0 [(5, inl 4096); (5, inl 100)] in
  Forall (λ b, 4096 ≤ length b) bufs ∧ length bufs ≤ 2 ∧
  Sock.write_bufs (N := Sim.net) 2 w (Tls (5 : nat)) tmp0 bufs =
    Ok (let '(r, w) := write_in_turn (N := Sim.net) w (5 : nat) bufs 0 in (r, tmp0, w)).
Proof.
  intros bufs w. assert (Forall (λ b, 4096 ≤ length b) bufs) as Hl.
  { repeat constructor; unfold length; rewrite length_replicate; lia. }
  split_and!; [done|cbn; lia|apply (write_bufs_large (N := Sim.net)); [done|cbn; lia]].
Defined.

(** A short write after three copies of the buffer would fill the temporary one
    ends the call. *)
Lemma write_bufs_small_witness :
  let w := Sim.set_room Sim.world0 [(5, inl 7)] in
  let buf := replicate 4095 1%Z in
  0 < length buf < 4096 ∧ length tmp0 = Z.to_nat 16384 ∧
  match resend (N := Sim.net) 1 w (5 : nat) (repeated (copies tmp0 buf) buf) 0 with
  | None => Sock.write_bufs (N := Sim.net) (1 * S (copies tmp0 buf)) w (Tls (5 : nat)) tmp0
              [buf; [2%Z]] = OutOfFuel
  | Some (r, w') => ∃ tmp',
      Sock.write_bufs (N := Sim.net) (1 * S (copies tmp0 buf)) w (Tls (5 : nat)) tmp0
        [buf; [2%Z]] = Ok (r, tmp', w')
  end.
Proof.
  intros w buf. assert (0 < length buf < 4096) as Hbuf.
  { unfold buf. rewrite length_replicate. lia. }
  assert (length tmp0 = Z.to_nat 16384) as Htmp by (unfold tmp0; apply length_replicate).
  split_and!; [lia..|done|].
  apply (write_bufs_small (N := Sim.net) 1 w (5 : nat) tmp0 buf [[2%Z]] Hbuf Htmp).
Defined.

(** Two small buffers are never sent as they are: a stream that accepts
    everything gets the first one over and over. *)
Example small_buffers_repeat :
  let sent := λ fuel,
    match Sock.write_bufs (N := Sim.net) fuel (Sim.set_room Sim.world0
            [(5, inl 18); (5, inl 18); (5, inl 3)]) (Tls (5 : nat)) (replicate 20 0%Z)
            [[1; 2; 3]; [4; 5]]%Z with
    | Ok (r, _, w) => Some (r, snd <$> Sim.outbox w)
    | _ => None
    end in
  sent 30 = Some (inl 39, [mjoin (replicate 6 [1; 2; 3]); mjoin (replicate 6 [1; 2; 3]); [1; 2; 3]]%Z).
Proof. vm_compute. reflexivity. Qed.

Lemma read_bufs_fills_witness :
  let w := Sim.set_inbox Sim.world0 [(5, inl [1; 2]%Z); (5, inl [3; 4]%Z)] in
  ∃ r bufs' w', Sock.read_bufs (N := Sim.net) w (Tls (5 : nat)) [[0; 0; 0]; [0; 0]]%Z
                = Ok (r, bufs', w') ∧
  match r with
  | inl n => ∃ ns, Forall3 fills ns [[0; 0; 0]; [0; 0]]%Z bufs' ∧ n = sum_list ns
  | inr _ => bufs' = [[0; 0; 0]; [0; 0]]%Z
  end.
Proof. intros w. apply (read_bufs_fills (N := Sim.net)). Defined.

(** A short read leaves a gap: the next read goes into the next buffer. *)
Example read_bufs_gap :
  let w := Sim.set_inbox Sim.world0 [(5, inl [1; 2]%Z); (5, inl [3; 4]%Z)] in
  match Sock.read_bufs (N := Sim.net) w (Tls (5 : nat)) [[0; 0; 0]; [0; 0]]%Z with
  | Ok (r, bufs, _) => r = inl 4 ∧ bufs = [[1; 2; 0]; [3; 4]]%Z
  | _ => False
  end.
Proof. by vm_compute. Qed.
