(* ===== verification/RunnerInv.v ===== *)
(** * The runner's invariant

    [inv]: every position the runner and its queues hold is the position of a
    fiber, and every fiber keeps its stack and context together: a fiber that does
    not run has neither ([idle]), or has both and waits inside a call that can be
    resumed ([waiting]).  The poller's queues and timers only name fibers of the
    runner, as far as they are for this runner; for the others, [O] tells what they
    name.  [triple] states what a method does to the invariant; it
    is partial in panics and fuel.  [inv] takes the predicate that the single
    fibers satisfy, because the fiber whose turn it is breaks [rest]. *)
From stdpp Require Import strings.
From S2P Require Import Prelude Clock TimerConfig Slab Wheel ByteOrder StdText Resolver.
From S2P Require Import Poller PollerProps Routing Fiber Runner.
Local Open Scope nat_scope.
Local Open Scope list_scope.

(** The calls that [call_resumed] knows *)
Definition blocking {N : Net} {P R F} (c : Call P R F) : bool :=
  match c with
  | CRespChunk _ | CAcceptTcp | CTlsConnect _ _ | CTlsAccept _ | CJoinMain | CGetChild
  | CHibernateForRead | CHibernateJoinMain | CReadBufs _ | CWriteBufs _ | CRead _ | CWrite _ => true
  | _ => false
  end.

(** ** Single fibers *)
Section fibers.
Context {N : Net} {Pr : Program}.
Implicit Types (f : FiberInt.t) (t : Transfer).

Definition idle f : Prop :=
  FiberInt.trans f = None ∧ FiberInt.stack f = None ∧ FiberInt.state f ≠ Stacked.

Definition waits t : Prop := ∃ home c k, t = Waiting home c k ∧ blocking c = true.

Definition waiting f : Prop :=
  (∃ t, FiberInt.trans f = Some t ∧ waits t) ∧ is_Some (FiberInt.stack f)
  ∧ FiberInt.state f = Stacked ∧ is_Some (FiberInt.func f).

(** Between two turns *)
Definition rest f : Prop := idle f ∨ waiting f.

Definition stacked_in (ctx : option Transfer → Prop) f : Prop :=
  ctx (FiberInt.trans f) ∧ is_Some (FiberInt.stack f) ∧ is_Some (FiberInt.func f).

(** During its turn: it has the context of the main stack.  (Were its slot reused
    it would be [idle], and the end of its turn would panic.) *)
Definition active f : Prop := idle f ∨ stacked_in (λ x, x = Some Main) f.

(** The contexts have been exchanged. *)
Definition out f : Prop := stacked_in (λ x, x = None) f.

(** What the end of a turn leaves, given the fiber's new context [t]. *)
Definition left_with (t : Transfer) f : Prop :=
  waits t ∨ t = Returned ∧ FiberInt.state f = Closed.

(** After its turn, before [stepped_out] *)
Definition back f : Prop :=
  idle f ∨ ∃ t, stacked_in (λ x, x = Some t) f ∧ left_with t f.

(** The token of a timer, if there is one, is a [usize], and not the wheel's [EMPTY]. *)
Definition token_ok (o : option Token.t) : Prop := ∀ tk, o = Some tk → (0 ≤ tk < USIZE_MAX)%Z.

Definition port_ok (port : Z) : Prop := (0 ≤ port < 2 ^ 16)%Z.

(** The arguments of a call have their types, and so have those of every call of
    the program. *)
Definition call_typed (c : Call P R FiberFn) : Prop :=
  match c with
  | CSocketTimeout dur => ∀ d, dur = Some d → Duration.valid d
  | CNewResolveConnect _ _ port to _ _ | CJoinResolveConnect _ _ port to _ _ =>
    port_ok port ∧ Duration.valid to
  | _ => True
  end.
Definition typed_program : Prop := ∀ code c k, act code = Calls c k → call_typed c.

(** The fields of a fiber fit their types: [timed_out] is a [u8], [generation] and
    [wtoken] are [usize], [timeout] is a [Duration] and the port of [connect_param]
    a [u16]. *)
Definition in_types f : Prop :=
  (0 ≤ FiberInt.timed_out f ≤ 255)%Z ∧ (0 ≤ FiberInt.generation f ≤ U64_MAX)%Z
  ∧ token_ok (FiberInt.wtoken f)
  ∧ (∀ d, FiberInt.timeout f = Some d → Duration.valid d)
  ∧ ∀ cp, FiberInt.connect_param f = Some cp → port_ok (ConnectParam.port cp).
Definition typed f : Prop := typed_program → in_types f.

Definition fiber_ok (rp : Z) (n i : nat) f : Prop :=
  FiberInt.me f = Poller.fiber_id rp (Z.of_nat i) ∧ FiberInt.runner f = rp
  ∧ Forall (λ c, c < n) (FiberInt.children f)
  ∧ (∀ p, FiberInt.parent f = Some p → p < n)
  ∧ typed f.

Lemma fiber_ok_mono rp n n' i f : n ≤ n' → fiber_ok rp n i f → fiber_ok rp n' i f.
Proof.
  intros Hn (? & ? & Hc & Hp & Ht). split; [done|]. split; [done|]. split; [|split; [|done]].
  - eapply Forall_impl; [exact Hc|]. cbn. lia.
  - intros p Hq. apply Hp in Hq. lia.
Qed.
End fibers.

(** ** The state *)
Section inv.
Context {N : Net} {Pr : Program} {Sl : Type} {SO : SlabOps Entry.t Sl} {SL : SlabLaws Entry.t Sl}.
Context {BE : BigEndian} (rp : Z) (O : nat → Z → Prop).
Implicit Types (s : Sys.t Sl).
Abbreviation M := (Run (Sys.t Sl)).

Definition pos_ok (n : nat) (x : Z) : Prop := Z.to_nat x < n.

(** An entry [x] in the queue of the runner [r]: one of this runner's fibers, or
    what else there may be. *)
Definition entry_ok (n : nat) (r : nat) (x : Z) : Prop :=
  r = Z.to_nat rp ∧ pos_ok n x ∨ O r x.

(** The identifiers of the runner's fibers are apart from those of the others. *)
Definition few (n : nat) : Prop := (0 ≤ rp < 256 ∧ Z.of_nat n ≤ 2 ^ 32)%Z.

Record names_ok (n : nat) (p : PollerInt.t Sl Stack) : Prop := {
  ok_toexec : queues_in (entry_ok n) id (PollerInt.toexec_fibers p);
  ok_timedout : queues_in (entry_ok n) id (PollerInt.timedout_fibers p);
  ok_lookups : queues_in (entry_ok n) (λ x, x.1.1) (PollerInt.lookup_results p);
  ok_tasks : few n → tasks_of (live_id (entry_ok n)) (PollerInt.wheel p)
}.

Lemma entry_ok_mono n n' r x : n ≤ n' → entry_ok n r x → entry_ok n' r x.
Proof. unfold entry_ok, pos_ok. intros Hn [[? ?]|?]; [left; by auto with lia|by right]. Qed.

Lemma names_ok_mono n n' p : n ≤ n' → names_ok n p → names_ok n' p.
Proof.
  intros Hn []. split.
  1-3: intros r; eapply Forall_impl; [eauto|]; intros x; by apply entry_ok_mono.
  intros [? ?]. eapply (tasks_mono (live_id (entry_ok n)));
    [intros x; by apply entry_ok_mono|]. apply ok_tasks0. split; lia.
Qed.

Record inv (n : nat) (Q : nat → FiberInt.t → Prop) (s : Sys.t Sl) : Prop := {
  inv_pos : RunnerInt.pos (Sys.runner s) = rp;
  inv_len : length (RunnerInt.fibers (Sys.runner s)) = n;
  inv_free : Forall (λ i, i < n) (RunnerInt.free_fibers (Sys.runner s));
  inv_main : Forall (λ r, FiberRef.id r < n) (RunnerInt.tomain_fibers (Sys.runner s));
  inv_poller : names_ok n (Sys.poller s);
  inv_fibers : ∀ i f, RunnerInt.fibers (Sys.runner s) !! i = Some f → fiber_ok rp n i f ∧ Q i f
}.

(** [at_ p G]: the fiber [p] satisfies [G], the others are at rest. *)
Definition at_ (p : nat) (G : FiberInt.t → Prop) (i : nat) (f : FiberInt.t) : Prop :=
  if decide (i = p) then G f else rest f.

Definition all_rest (i : nat) (f : FiberInt.t) : Prop := rest f.

Lemma inv_weaken n (Q Q' : nat → FiberInt.t → Prop) s : (∀ i f, Q i f → Q' i f) → inv n Q s → inv n Q' s.
Proof. intros HQ []. split; try done. intros i f [? ?]%inv_fibers0. auto. Qed.

(** From [n] fibers that satisfy [Q], [m] goes to [n'] fibers that satisfy [Q' a]
    with [Φ a n'] about its result [a]; positions stay positions. *)
Definition triple {A} (n : nat) (Q : nat → FiberInt.t → Prop) (m : M A) (Q' : A → nat → FiberInt.t → Prop)
    (Φ : A → nat → Prop) : Prop :=
  ∀ s a s', inv n Q s → m s = Ok (a, s') → ∃ n', n ≤ n' ∧ inv n' (Q' a) s' ∧ Φ a n'.

Definition any {A} (a : A) (n : nat) : Prop := True.

(** [m] keeps [Q]. *)
Abbreviation keeps n Q m := (triple n Q m (λ _, Q) any).

Lemma triple_bind {A B} n Q (m : M A) (f : A → M B) Q1 Φ1 Q2 Φ2 :
  triple n Q m Q1 Φ1 → (∀ a n', n ≤ n' → Φ1 a n' → triple n' (Q1 a) (f a) Q2 Φ2) →
  triple n Q (m ≫= f) Q2 Φ2.
Proof.
  intros Hm Hf s b s' Hs (a & s1 & H1 & H2)%run_bind_Ok.
  destruct (Hm _ _ _ Hs H1) as (n1 & ? & Hs1 & Ha).
  destruct (Hf a n1 ltac:(done) Ha _ _ _ Hs1 H2) as (n2 & ? & ? & ?).
  exists n2. split; [lia|done].
Qed.

Lemma triple_ret {A} n Q (a : A) Q' (Φ : A → nat → Prop) :
  (∀ i f, Q i f → Q' a i f) → Φ a n → triple n Q (mret a) Q' Φ.
Proof.
  intros HQ Ha s b s' Hs [= <- <-]. exists n. split_and!; [done|by eapply inv_weaken|done].
Qed.

Lemma triple_weaken {A} n Q (m : M A) Q1 Φ1 Q2 Φ2 :
  triple n Q m Q1 Φ1 → (∀ a i f, Q1 a i f → Q2 a i f) → (∀ a n', n ≤ n' → Φ1 a n' → Φ2 a n') →
  triple n Q m Q2 Φ2.
Proof.
  intros Hm HQ HΦ s a s' Hs H1. destruct (Hm _ _ _ Hs H1) as (n1 & ? & ? & ?).
  exists n1. split_and!; [done| |by apply HΦ]. eapply inv_weaken; [apply HQ|done].
Qed.

Lemma triple_pre {A} n Q0 Q (m : M A) Q' Φ :
  (∀ i f, Q0 i f → Q i f) → triple n Q m Q' Φ → triple n Q0 m Q' Φ.
Proof. intros HQ Hm s a s' Hs. apply Hm. by eapply inv_weaken. Qed.

Lemma triple_panic {A} n Q Q' (Φ : A → nat → Prop) : triple n Q panic Q' Φ.
Proof. by intros s a s' _ [=]. Qed.
Lemma triple_out_of_fuel {A} n Q Q' (Φ : A → nat → Prop) : triple n Q out_of_fuel Q' Φ.
Proof. by intros s a s' _ [=]. Qed.

Lemma triple_lift {A} n Q (o : outcome Undefined A) (Φ : A → nat → Prop) :
  (∀ a, o = Ok a → Φ a n) → triple n Q (lift o) (λ _, Q) Φ.
Proof.
  intros Ho s a s' Hs H. unfold lift in H. apply bind_Ok in H as (x & Hx & [= <- <-]).
  exists n. eauto.
Qed.

(** What a look at the runner tells. *)
Record runner_ok (n : nat) (Q : nat → FiberInt.t → Prop) (r : RunnerInt.t) : Prop := {
  ok_pos : RunnerInt.pos r = rp;
  ok_len : length (RunnerInt.fibers r) = n;
  ok_free : Forall (λ i, i < n) (RunnerInt.free_fibers r);
  ok_fibers : ∀ i f, RunnerInt.fibers r !! i = Some f → fiber_ok rp n i f ∧ Q i f
}.

Lemma triple_get_runner n Q : triple n Q get_runner (λ _, Q) (λ r n', n' = n ∧ runner_ok n Q r).
Proof.
  intros s a s' Hs [= <- <-]. exists n. destruct Hs. repeat (split; try done).
Qed.

Lemma triple_get_poller n Q : keeps n Q get_poller.
Proof. intros s a s' Hs [= <- <-]. by exists n. Qed.

(** A change of the runner outside its fibers *)
Lemma triple_upd_runner n Q g :
  (∀ r, RunnerInt.fibers (g r) = RunnerInt.fibers r ∧ RunnerInt.pos (g r) = RunnerInt.pos r) →
  (∀ r, RunnerInt.pos r = rp → Forall (λ i, i < n) (RunnerInt.free_fibers r) →
        Forall (λ i, i < n) (RunnerInt.free_fibers (g r))) →
  (∀ r, Forall (λ x, FiberRef.id x < n) (RunnerInt.tomain_fibers r) →
        Forall (λ x, FiberRef.id x < n) (RunnerInt.tomain_fibers (g r))) →
  keeps n Q (upd_runner g).
Proof.
  intros Hg Hf Ht s a s' [Hpos ?????] [= <- <-]. exists n.
  destruct (Hg (Sys.runner s)) as [Hgf Hgp].
  split_and!; [done| |done]. split; cbn; rewrite ?Hgf, ?Hgp; auto.
Qed.

Lemma triple_poller {A} n Q (g : PollerInt.t Sl Stack → outcome Empty_set (A * PollerInt.t Sl Stack))
    (Φ : A → nat → Prop) :
  (∀ p a p', g p = Ok (a, p') → names_ok n p → names_ok n p' ∧ Φ a n) →
  triple n Q (poller g) (λ _, Q) Φ.
Proof.
  intros Hg s a s' [] H. unfold poller in H.
  apply bind_Ok in H as ([x p'] & Hx%widen_Ok & [= <- <-]).
  destruct (Hg _ _ _ Hx) as [? ?]; [done|]. by exists n.
Qed.

Lemma triple_world {A} n Q (g : W → A * W) : keeps n Q (world g).
Proof.
  intros s a s' [] H. unfold world in H. destruct (g _) as [x w'].
  injection H as <- <-. by exists n.
Qed.

Lemma triple_world_post {A} n Q (g : W → A * W) (Φ : A → Prop) :
  (∀ w a w', g w = (a, w') → Φ a) → triple n Q (world g) (λ _, Q) (λ a n', n' = n ∧ Φ a).
Proof.
  intros Hg s a s' [] H. unfold world in H. destruct (g _) as [x w'] eqn:Hx.
  injection H as <- <-. exists n. split_and!; [done|done|done|by eapply Hg].
Qed.

Lemma triple_world_opt {A} n Q (g : W → outcome Empty_set (A * W)) : keeps n Q (world_opt g).
Proof.
  intros s a s' [] H. unfold world_opt in H. apply bind_Ok in H as ([x w'] & _ & [= <- <-]).
  by exists n.
Qed.

(** ** Fibers *)
Lemma triple_fiber n Q i :
  triple n Q (fiber i) (λ _, Q) (λ f n', n' = n ∧ i < n ∧ fiber_ok rp n i f ∧ Q i f).
Proof.
  unfold fiber. eapply triple_bind; [apply triple_get_runner|].
  intros r ? _ [-> [_ Hlen _ Hok]]. apply triple_lift. intros f Hf%index_Ok.
  split_and!; [done|rewrite <- Hlen; by eapply lookup_lt_Some|by apply Hok..].
Qed.

(** ... and the fiber is the one that was read. *)
Lemma triple_fiber_is n Q i :
  triple n Q (fiber i) (λ f j g, Q j g ∧ (j = i → g = f))
    (λ f n', n' = n ∧ i < n ∧ fiber_ok rp n i f ∧ Q i f).
Proof.
  intros s f s' Hs H. destruct (triple_fiber n Q i s f s' Hs H) as (? & ? & _ & -> & HΦ).
  unfold fiber in H. apply run_bind_Ok in H as (r & s1 & [= <- <-] & H).
  unfold lift in H. apply bind_Ok in H as (g & Hg%index_Ok & [= -> <-]).
  destruct HΦ as (? & ? & ?). exists n. split_and!; [done| |done..]. destruct Hs. split; [done..|].
  intros j h Hj. apply inv_fibers0 in Hj as Hh. destruct Hh as [? ?].
  split_and!; [done..|]. intros ->. congruence.
Qed.

Lemma triple_set_fiber n Q Q' i f : (∀ j g, j ≠ i → Q j g → Q' j g) →
  (i < n → fiber_ok rp n i f ∧ Q' i f) → triple n Q (set_fiber i f) (λ _, Q') any.
Proof.
  intros HQ Hf. unfold set_fiber. eapply triple_bind; [apply triple_get_runner|].
  intros r ? _ [-> [_ Hlen _ Hok]]. eapply triple_bind.
  { apply (triple_lift n Q _ (λ fs n', n' = n ∧ i < n ∧ fs = <[i:=f]> (RunnerInt.fibers r))).
    unfold store. intros fs H. case_decide; [|done]. injection H as <-. auto with lia. }
  intros fs ? _ (-> & Hi & ->) s a s' [] [= <- <-]. exists n. split_and!; [done| |done].
  split; cbn; rewrite ?length_insert; [done..|].
  intros j g [(-> & <- & _)|[Hj Hg]]%list_lookup_insert_Some; [by apply Hf|].
  apply Hok in Hg as [? ?]. auto.
Qed.

Lemma triple_upd_fiber n Q Q' i g : (∀ j h, j ≠ i → Q j h → Q' j h) →
  (∀ f, i < n → fiber_ok rp n i f → Q i f → fiber_ok rp n i (g f) ∧ Q' i (g f)) →
  triple n Q (upd_fiber i g) (λ _, Q') any.
Proof.
  intros HQ Hg. unfold upd_fiber. eapply triple_bind; [apply triple_fiber|].
  intros f ? _ (-> & ? & ? & ?). apply triple_set_fiber; [done|]. auto.
Qed.

(** A change of a fiber that the invariant does not see *)
Definition core (f : FiberInt.t) :=
  (FiberInt.trans f, FiberInt.stack f, FiberInt.state f, FiberInt.func f).
Definition ids (f : FiberInt.t) :=
  (FiberInt.me f, FiberInt.runner f, FiberInt.children f, FiberInt.parent f).
Definition quiet (f f' : FiberInt.t) : Prop :=
  core f' = core f ∧ ids f' = ids f ∧ (typed f → typed f').

(** The predicates on fibers that the invariant is used with *)
Class Stable (Q : nat → FiberInt.t → Prop) : Prop :=
  stable : ∀ i f f', core f' = core f → Q i f → Q i f'.
(** ... and that a new fiber satisfies *)
Class NewOk (Q : nat → FiberInt.t → Prop) : Prop := new_ok : ∀ i f, idle f → Q i f.

#[local] Ltac by_core :=
  match goal with Hc : core ?f' = core ?f, Hq : _ |- _ =>
    destruct f, f'; unfold core in Hc;
    unfold at_, all_rest, active, out, back, rest, idle, waiting, stacked_in, left_with in *;
    cbn in *; simplify_eq; exact Hq
  end.

#[export] Instance all_rest_stable : Stable all_rest.
Proof. intros i f f' Hc Hq. by_core. Qed.
#[export] Instance active_stable p : Stable (at_ p active).
Proof. intros i f f' Hc Hq. by_core. Qed.
#[export] Instance out_stable p : Stable (at_ p out).
Proof. intros i f f' Hc Hq. by_core. Qed.
#[export] Instance back_stable p : Stable (at_ p back).
Proof. intros i f f' Hc Hq. by_core. Qed.
#[export] Instance all_rest_new : NewOk all_rest.
Proof. intros i f Hf. by left. Qed.
#[export] Instance active_new p : NewOk (at_ p active).
Proof. intros i f Hf. unfold at_. case_decide; by left. Qed.

Lemma quiet_ok n i f f' : quiet f f' → fiber_ok rp n i f → fiber_ok rp n i f'.
Proof.
  intros (_ & Hi & Ht) (? & ? & ? & ? & ?%Ht). unfold fiber_ok, ids in *.
  injection Hi as -> -> -> ->. by split_and?.
Qed.

Lemma keeps_set_quiet n Q i f f' : Stable Q → quiet f f' → fiber_ok rp n i f → Q i f →
  keeps n Q (set_fiber i f').
Proof.
  intros HQ Hq Hf Hqf. apply triple_set_fiber; [done|].
  split; [by eapply quiet_ok|]. destruct Hq. by eapply HQ.
Qed.

Lemma keeps_upd_quiet n Q i g : Stable Q → (∀ f, quiet f (g f)) → keeps n Q (upd_fiber i g).
Proof.
  intros HQ Hq. apply triple_upd_fiber; [done|]. intros f _ Hf Hqf.
  split; [by eapply quiet_ok|]. destruct (Hq f). by eapply HQ.
Qed.

(** ** The runner's methods outside a turn *)
Lemma entry_own n i : i < n → entry_ok n (Z.to_nat rp) (Z.of_nat i).
Proof. intros Hi. left. unfold pos_ok. lia. Qed.

Lemma set_toexec_ok n p q : names_ok n p → queues_in (entry_ok n) id q →
  names_ok n (PollerInt.set_toexec p q).
Proof. intros [] ?. split; assumption. Qed.
Lemma set_timedout_ok n p q : names_ok n p → queues_in (entry_ok n) id q →
  names_ok n (PollerInt.set_timedout p q).
Proof. intros [] ?. split; assumption. Qed.
Lemma set_lookups_ok n p q : names_ok n p → queues_in (entry_ok n) (λ x, x.1.1) q →
  names_ok n (PollerInt.set_lookups p q).
Proof. intros [] ?. split; assumption. Qed.

Lemma keeps_push_toexec n Q i : i < n → keeps n Q (push_toexec i).
Proof.
  intros Hi. unfold push_toexec. eapply triple_bind; [apply triple_get_runner|].
  intros r ? _ [-> [Hp _ _ _]]. rewrite Hp. apply triple_poller.
  intros p [] p' (x & (queues & Hq & [= <-])%bind_Ok & [= <-])%bind_Ok Hok. split; [|done].
  apply set_toexec_ok; [done|]. eapply push_back_in; [exact Hq|by apply entry_own|apply Hok].
Qed.

(** The three methods that take from a queue *)
Lemma keeps_pop {A B} (f : A → Z) (h : A → B) n Q
    (q : PollerInt.t Sl Stack → list (list A)) set :
  (∀ p, names_ok n p → queues_in (entry_ok n) f (q p)) →
  (∀ p x, names_ok n p → queues_in (entry_ok n) f x → names_ok n (set p x)) →
  keeps n Q (r ← get_runner;
    x ← poller (λ p, '(x, y) ← PollerInt.pop_front (q p) (Z.to_nat (RunnerInt.pos r)); Ok (x, set p y));
    mret (h <$> x)).
Proof.
  intros Hq Hset. eapply triple_bind; [apply triple_get_runner|].
  intros r ? _ [-> [Hp _ _ _]]. rewrite Hp. eapply triple_bind; [apply (triple_poller n Q _ any)|].
  - intros p o p' ([o' queues] & H & [= <- <-])%bind_Ok Hok. split; [|done].
    apply Hset; [done|]. eapply (pop_front_in _ f); [exact H|by apply Hq].
  - intros o ? _ _. by apply triple_ret.
Qed.

Lemma keeps_pop_toexec n Q : keeps n Q pop_toexec.
Proof.
  apply (keeps_pop id Z.to_nat n Q PollerInt.toexec_fibers PollerInt.set_toexec);
    [apply ok_toexec|apply set_toexec_ok].
Qed.

Lemma keeps_timedout_pop n Q : keeps n Q timedout_pop.
Proof.
  apply (keeps_pop id Z.to_nat n Q PollerInt.timedout_fibers PollerInt.set_timedout);
    [apply ok_timedout|apply set_timedout_ok].
Qed.

Lemma keeps_dns_check n Q : keeps n Q dns_check.
Proof.
  apply (keeps_pop (λ x, x.1.1) _ n Q PollerInt.lookup_results PollerInt.set_lookups);
    [apply ok_lookups|apply set_lookups_ok].
Qed.

(** A method of the poller that leaves its queues alone *)
Definition only_wheel n (p p' : PollerInt.t Sl Stack) : Prop :=
  PollerInt.toexec_fibers p' = PollerInt.toexec_fibers p
  ∧ PollerInt.timedout_fibers p' = PollerInt.timedout_fibers p
  ∧ PollerInt.lookup_results p' = PollerInt.lookup_results p
  ∧ (few n → tasks_of (live_id (entry_ok n)) (PollerInt.wheel p) →
     tasks_of (live_id (entry_ok n)) (PollerInt.wheel p')).

Lemma triple_only_wheel {A} n Q (g : PollerInt.t Sl Stack → outcome Empty_set (A * PollerInt.t Sl Stack))
    (Φ : A → nat → Prop) :
  (∀ p a p', g p = Ok (a, p') → Φ a n ∧ only_wheel n p p') → triple n Q (poller g) (λ _, Q) Φ.
Proof.
  intros Hg. apply triple_poller. intros p a p' (HΦ & Hq1 & Hq2 & Hq3 & Hw)%Hg [].
  split; [|exact HΦ]. split; rewrite ?Hq1, ?Hq2, ?Hq3; [assumption..|tauto].
Qed.

Lemma keeps_poller {A} n Q (g : PollerInt.t Sl Stack → outcome Empty_set (A * PollerInt.t Sl Stack)) :
  (∀ p a p', g p = Ok (a, p') → only_wheel n p p') → keeps n Q (poller g).
Proof. intros Hg. apply triple_only_wheel. intros p a p' H. split; [done|by eapply Hg]. Qed.

(** A timer of one of the fibers *)
Lemma live_fiber_id n i : few n → i < n → live_id (entry_ok n) (Poller.fiber_id rp (Z.of_nat i)).
Proof.
  intros [? ?] Hi. unfold live_id. rewrite split_id_fiber_id by lia. cbn. by apply entry_own.
Qed.

(** A key of the wheel's slab is a [usize]. *)
Lemma reserve_token w r (w' : Wheel.t Sl) : Wheel.reserve w = Ok (r, w') → token_ok r.
Proof.
  assert (∀ w r (w' : Wheel.t Sl), match insert (Wheel.slab w) Entry.Reserved with
    | Some (k, s) => Ok (E := Empty_set) (Some k, Wheel.set_slab w s) | None => Ok (None, w) end
      = Ok (r, w') → token_ok r) as Hins.
  { intros w1 r1 w2 H1. destruct (insert _ _) as [[k s]|] eqn:Hi; [|by injection H1 as <- _].
    injection H1 as <- _. apply insert_get in Hi as [_ Hi]. intros tk [= <-].
    apply (get_range s k Entry.Reserved). rewrite Hi. by rewrite decide_True. }
  unfold Wheel.reserve. intros H1. destruct (vacant_entry _); [by eapply Hins|].
  apply bind_Ok in H1 as (room & _ & H1). case_decide; [by injection H1 as <- _|by eapply Hins].
Qed.

Lemma timer_reg_token p id dur now r (p' : PollerInt.t Sl Stack) :
  PollerInt.timer_reg p id dur now = Ok (r, p') → token_ok r.
Proof.
  unfold PollerInt.timer_reg. intros ([tk w] & Hw%reserve_token & H)%bind_Ok.
  destruct tk; [|by injection H as <- _].
  apply bind_Ok in H as (? & _ & H). by apply bind_Ok in H as (? & _ & [= <- _]).
Qed.

Lemma triple_timer_reg n Q i dur : i < n →
  triple n Q (timer_reg (Poller.fiber_id rp (Z.of_nat i)) dur) (λ _, Q) (λ o _, token_ok o).
Proof.
  intros Hi. unfold timer_reg. eapply triple_bind; [apply (triple_world_post n Q _ (λ _, True)); done|].
  intros now n' _ [-> _]. apply triple_only_wheel. intros p a p' H.
  split; [by eapply timer_reg_token|].
  assert (few n → tasks_of (live_id (entry_ok n)) (PollerInt.wheel p) →
       tasks_of (live_id (entry_ok n)) (PollerInt.wheel p')) as Hw.
  { intros Hn. eapply tasks_timer_reg; [exact H|by apply live_fiber_id]. }
  unfold PollerInt.timer_reg in H.
  apply bind_Ok in H as ([[tk|] w] & _ & H);
    [apply bind_Ok in H as (at_ & _ & H); apply bind_Ok in H as (w' & _ & [= <- <-])
    |injection H as <- <-]; (split_and!; [reflexivity..|exact Hw]).
Qed.

Lemma triple_timer_reg_me n Q n' i f dur : i < n → fiber_ok rp n' i f →
  triple n Q (timer_reg (FiberInt.me f) dur) (λ _, Q) (λ o _, token_ok o).
Proof. intros Hi [-> _]. by apply triple_timer_reg. Qed.

Lemma keeps_timer_cancel n Q tk : keeps n Q (timer_cancel tk).
Proof.
  apply keeps_poller. intros p a p' (x & Hc & [= <- <-])%bind_Ok.
  assert (few n → tasks_of (live_id (entry_ok n)) (PollerInt.wheel p) →
       tasks_of (live_id (entry_ok n)) (PollerInt.wheel x)) as Hw.
  { intros _. eapply tasks_timer_cancel. exact Hc. }
  apply bind_Ok in Hc as (w & _ & [= <-]). split_and!; [reflexivity..|exact Hw].
Qed.

Lemma keeps_stack_push n Q stack : keeps n Q (stack_push stack).
Proof. apply keeps_poller. intros p a p' [= <- <-]. split_and!; [reflexivity..|tauto]. Qed.

Lemma keeps_stack_pop n Q : keeps n Q stack_pop.
Proof.
  intros s a s' [] H. unfold stack_pop in H. apply bind_Ok in H as ([[x p] w] & H%widen_Ok & [= <- <-]).
  exists n. split_and!; [done| |done].
  assert (PollerInt.toexec_fibers p = PollerInt.toexec_fibers (Sys.poller s)
    ∧ PollerInt.timedout_fibers p = PollerInt.timedout_fibers (Sys.poller s)
    ∧ PollerInt.lookup_results p = PollerInt.lookup_results (Sys.poller s)
    ∧ PollerInt.wheel p = PollerInt.wheel (Sys.poller s)) as (H1 & H2 & H3 & H4).
  { unfold PollerInt.stack_pop in H. destruct (PollerInt.free_stacks _); [|by simplify_eq].
    destruct (PollerInt.stack_size _).
    - destruct (new_stack _ _). by apply bind_Ok in H as (? & _ & [= <- <- <-]).
    - destruct (default_stack _). by simplify_eq. }
  split; [assumption..| |assumption]. destruct inv_poller0.
  split; cbn; rewrite ?H1, ?H2, ?H3, ?H4; assumption.
Qed.

Lemma triple_fiber_id n Q i :
  triple n Q (fiber_id i) (λ _, Q) (λ x n', n' = n ∧ x = Poller.fiber_id rp (Z.of_nat i)).
Proof.
  unfold fiber_id. eapply triple_bind; [apply triple_get_runner|].
  intros r ? _ [-> [Hp _ _ _]]. rewrite Hp. by apply triple_ret.
Qed.

Lemma keeps_push_free n Q i : i < n → keeps n Q (push_free i).
Proof.
  intros Hi. apply triple_upd_runner; [done| |done].
  intros r _ Hr. cbn. apply Forall_app. auto.
Qed.

Lemma keeps_push_tomain n Q i : i < n → keeps n Q (push_tomain i).
Proof.
  intros Hi. apply triple_upd_runner; [done..|].
  intros r Hr. cbn. apply Forall_app. auto.
Qed.

Lemma quiet_register f (w : W) rdy r f' w' :
  FiberInt.register f w rdy = (r, f', w') → quiet f f'.
Proof.
  unfold FiberInt.register. intros H.
  destruct (Sock.evented _); [destruct (if is_empty _ then _ else _)|]; simplify_eq; by split_and!.
Qed.
End inv.

(** A change of fields that the invariant does not see *)
Ltac solve_quiet :=
  first [assumption|intros; split_and!; [reflexivity|reflexivity|];
    let Hf := fresh in let Hty := fresh in
    intros Hf Hty; specialize (Hf Hty); destruct Hf as (? & ? & ? & ? & ?);
    repeat match goal with H : typed_program → _ |- _ => specialize (H Hty) end;
    unfold in_types; cbn; split_and?; first [assumption|done|lia|by auto|intros ? [= <-]; cbn; first [assumption|lia]]].

Create HintDb runner.
#[export] Hint Resolve triple_get_runner triple_get_poller triple_world triple_world_opt
  triple_fiber keeps_push_toexec triple_timer_reg triple_timer_reg_me keeps_timer_cancel keeps_stack_push
  keeps_stack_pop triple_fiber_id keeps_push_free keeps_push_tomain triple_panic
  triple_out_of_fuel keeps_pop_toexec keeps_timedout_pop keeps_dns_check : runner.
#[export] Hint Extern 1 (triple _ _ _ _ (upd_fiber _ _) _ _) =>
  apply keeps_upd_quiet; [apply _|solve_quiet] : runner.
#[export] Hint Extern 1 (triple _ _ _ _ (set_fiber _ _) _ _) =>
  eapply keeps_set_quiet; [apply _| |eassumption..]; solve_quiet : runner.
#[export] Hint Extern 2 (_ < _) => lia : runner.

(** Runs through a method: the first action by the hint database, then the rest,
    for every result the action may have. *)
Ltac tstep :=
  eapply triple_bind; [solve [eauto 3 with runner]|intros; cbv beta in *; destruct_and?; subst].
