(* ===== verification/RunnerTurn.v ===== *)
(** * The invariant through the runner's methods

    Each method, and each turn of a fiber, keeps the invariant of RunnerInv. *)
From stdpp Require Import strings.
From S2P Require Import Prelude Clock Slab Wheel ByteOrder StdText Resolver Poller.
From S2P Require Import PollerProps Routing Fiber Runner RunnerInv.
Local Open Scope nat_scope.
Local Open Scope list_scope.

Section methods.
Context {N : Net} {Pr : Program} {Sl : Type} {SO : SlabOps Entry.t Sl} {SL : SlabLaws Entry.t Sl}.
Context {BE : BigEndian} (rp : Z) (O : nat → Z → Prop).
Abbreviation triple := (RunnerInv.triple (Sl := Sl) rp O).
Abbreviation keeps n Q m := (triple n Q m (λ _, Q) any).

Lemma keeps_ret {A} n Q (a : A) : keeps n Q (mret a).
Proof. by apply triple_ret. Qed.

Lemma keeps_fiber_register n Q i rdy : Stable Q → keeps n Q (fiber_register i rdy).
Proof.
  intros HQ. unfold fiber_register. tstep.
  eapply triple_bind; [apply (triple_world_post rp O n Q _ (λ x, quiet a x.2))|].
  { intros w x w' Hw. destruct (FiberInt.register a w rdy) as [[r f] w1] eqn:Hr.
    injection Hw as <- <-. by eapply quiet_register. }
  intros [r f] n' _ [-> Hf]. eapply triple_bind; [by eapply keeps_set_quiet|].
  intros. by apply triple_ret.
Qed.

Lemma keeps_take_result_of n Q i : Stable Q → keeps n Q (take_result_of i).
Proof.
  intros HQ. unfold take_result_of. tstep. tstep. apply keeps_ret.
Qed.

Lemma keeps_take_sock n Q i : Stable Q → keeps n Q (take_sock i).
Proof. intros HQ. unfold take_sock. tstep. tstep. apply keeps_ret. Qed.

Lemma keeps_take_result n Q i : Stable Q → keeps n Q (take_result i).
Proof.
  intros HQ. unfold take_result. eapply triple_bind; [by apply keeps_take_result_of|].
  intros [r|] n' _ _; [|apply keeps_ret]. by apply triple_upd_runner.
Qed.

Lemma keeps_cancel_timer n Q i : Stable Q → keeps n Q (cancel_timer i).
Proof.
  intros HQ. unfold cancel_timer. tstep. destruct (FiberInt.wtoken a); [|apply keeps_ret].
  do 4 tstep. apply keeps_push_free. lia.
Qed.

(** ** New fibers *)
Lemma triple_try {A B} n Q (m : Run (Sys.t Sl) (io A)) (k : A → Run (Sys.t Sl) (io B)) Q1 Φ1 Q2 Φ2 :
  triple n Q m Q1 Φ1 →
  (∀ a n', n ≤ n' → Φ1 (inl a) n' → triple n' (Q1 (inl a)) (k a) Q2 Φ2) →
  (∀ e n', n ≤ n' → Φ1 (inr e) n' → (∀ i f, Q1 (inr e) i f → Q2 (inr e) i f) ∧ Φ2 (inr e) n') →
  triple n Q (try m k) Q2 Φ2.
Proof.
  intros Hm Hk He. unfold try. eapply triple_bind; [exact Hm|].
  intros [a|e] n' Hn H1; [by apply Hk|]. destruct (He e n' Hn H1). by apply triple_ret.
Qed.

(** The fiber [register] stores: its socket is registered first if it listens. *)
Lemma triple_register_listener n Q f0 :
  triple n Q (match FiberInt.sock f0 with
    | Listener _ =>
      '(res, f) ← world (λ w, let '(res, f, w) := FiberInt.register f0 w readable in ((res, f), w));
      mret (match res with inl _ => inl f | inr e => inr e end)
    | _ => mret (inl f0)
    end) (λ _, Q) (λ r n', n' = n ∧ ∀ f, r = inl f → quiet f0 f).
Proof.
  destruct (FiberInt.sock f0).
  all: try by (apply triple_ret; [done|]; split; [done|]; intros f [= <-]).
  eapply triple_bind; [apply (triple_world_post rp O n Q _ (λ x, quiet f0 x.2))|].
  { intros w x w' Hw. destruct (FiberInt.register f0 w readable) as [[r f] w1] eqn:Hr.
    injection Hw as <- <-. by eapply quiet_register. }
  intros [[[]|e] f] ? _ [-> Hf]; apply triple_ret; try done.
  split; [done|]. by intros f' [= <-].
Qed.

Lemma quiet_idle f f' : quiet f f' → idle f → idle f'.
Proof. intros [Hc _]. destruct f, f'. unfold core, idle in *. cbn in *. by simplify_eq. Qed.

(** A vector of fibers gets one more. *)
Lemma triple_push_fiber n Q f : fiber_ok rp (S n) n f → Q n f →
  triple n Q (upd_runner (λ r, RunnerInt.push_fiber r f)) (λ _, Q) (λ _ n', n' = S n).
Proof.
  intros Hf HQ s a s' [] [= <- <-]. exists (S n). split_and!; [lia| |done].
  split; cbn -[RunnerInt.push_fiber]; autorewrite with push; [done|..].
  - rewrite length_app. cbn. lia.
  - eapply Forall_impl; [done|]. cbn. lia.
  - eapply Forall_impl; [done|]. cbn. lia.
  - eapply names_ok_mono; [|eassumption]. lia.
  - intros i g [Hg|[Hi Hg]]%lookup_app_Some.
    + apply inv_fibers in Hg as [? ?]. split; [|done]. eapply fiber_ok_mono; [|done]. lia.
    + rewrite inv_len in *. apply list_lookup_singleton_Some in Hg as [? <-].
      assert (i = n) as -> by lia. done.
Qed.

Lemma triple_register n Q func ft param parent schedule : Stable Q → NewOk Q →
  (∀ p, parent = Some p → p < n) →
  triple n Q (register func ft param parent schedule) (λ _, Q)
    (λ r n', ∀ pos, r = inl pos → pos < n').
Proof.
  intros HQ HF Hp. unfold register. eapply triple_bind; [apply triple_get_runner|].
  intros r ? _ [-> [Hpos Hlen Hfree Hok]].
  set (f0 := FiberInt.mk _ _ _ _ _ _ _ _ _ _ _ _ _ _ _ _ _).
  eapply (triple_try n Q _ _ (λ _, Q) (λ r n', ∀ pos, r = inl pos → pos < n')).
  2: { intros pos n' Hn Hpos'. specialize (Hpos' pos eq_refl).
       eapply (triple_bind rp O n' Q _ _ (λ _, Q) any);
         [destruct schedule; [by apply keeps_push_toexec|apply keeps_ret]|].
       intros [] n1 Hn1 _. eapply (triple_bind rp O n1 Q _ _ (λ _, Q) any).
       - destruct parent as [p|]; [|apply keeps_ret]. specialize (Hp p eq_refl).
         apply triple_upd_fiber; [done|]. intros f Hi (? & ? & Hc & ?) Hf. split.
         + do 2 (split; [done|]). split; [|done]. apply Forall_app. split; [done|].
           repeat constructor. lia.
         + eapply HQ; [|done]. by destruct f.
       - intros [] n2 Hn2 _. apply triple_ret; [done|]. intros ? [= <-]. lia. }
  2: { intros e n' _ _. split; [done|]. intros pos [=]. }
  assert (∀ k i g f, n ≤ k → (typed_program → (0 ≤ g ≤ U64_MAX)%Z) → quiet (FiberInt.set_generation (FiberInt.set_me f0
    (Poller.fiber_id rp (Z.of_nat i))) g) f → fiber_ok rp k i f ∧ Q i f) as Hnew.
  { intros k i g f Hk Hg Hf. split; [|apply HF; by eapply quiet_idle].
    eapply quiet_ok; [exact Hf|]. unfold fiber_ok. cbn. split_and!; try done.
    - intros p Hp'. specialize (Hp p Hp'). lia.
    - intros Hty. unfold in_types, token_ok. cbn.
      split_and!; try done; [by apply Hg|by apply Hg|]. by intros d [= <-]. }
  destruct (RunnerInt.free_fibers r) as [|i free].
  - eapply triple_bind; [apply triple_fiber_id|]. intros me ? _ [-> ->].
    eapply triple_try; [apply triple_register_listener| |done].
    intros f ? _ [-> Hf]. specialize (Hf f eq_refl). rewrite Hlen in Hf.
    destruct (Hnew (S n) n 0%Z f) as [? ?]; [lia|done|exact Hf|].
    eapply triple_bind; [by apply triple_push_fiber|].
    intros [] ? _ ->. apply triple_ret; [done|]. intros ? [= <-]. lia.
  - apply Forall_cons in Hfree as [Hi Hfree].
    eapply triple_bind; [by apply triple_upd_runner|]. intros [] n' Hn _.
    eapply triple_bind; [apply (triple_lift _ _ _ _ _ (λ f _, RunnerInt.fibers r !! i = Some f));
      by intros ? ?%index_Ok|]. intros old n1 Hn1 Hold.
    apply Hok in Hold as [(_ & _ & _ & _ & Hg0) _].
    eapply triple_bind; [apply triple_fiber_id|]. intros me ? _ [-> ->].
    eapply triple_bind; [apply (triple_lift _ _ _ _ _ (λ g _, typed_program → (0 ≤ g ≤ U64_MAX)%Z))|].
    { intros g. unfold add64. case_decide; [|done]. intros [= <-] Hty. destruct (Hg0 Hty) as (_ & ? & _). lia. }
    intros g n2 Hn2 Hg.
    eapply triple_try; [apply triple_register_listener| |done].
    intros f ? _ [-> Hf]. specialize (Hf f eq_refl).
    eapply triple_bind; [apply triple_set_fiber; [done|]|].
    { intros _. apply (Hnew n2 i g); [lia|exact Hg|exact Hf]. }
    intros [] n3 Hn3 _. apply triple_ret; [done|]. intros ? [= <-]. lia.
Qed.

(** A fiber loses children, or its parent. *)
Lemma keeps_upd_ids n Q i g : Stable Q → (∀ f, core (g f) = core f) →
  (∀ f, fiber_ok rp n i f → fiber_ok rp n i (g f)) → keeps n Q (upd_fiber i g).
Proof. intros HQ Hc Hg. apply triple_upd_fiber; [done|]. intros f _ ? ?. split; eauto. Qed.

Lemma Forall_removelast {A} (P : A → Prop) l : Forall P l → Forall P (removelast l).
Proof.
  induction l as [|x [|y l] IH]; [done|constructor|]. intros [? ?]%Forall_cons.
  cbn. constructor; [done|]. by apply IH.
Qed.

(** The cast of the ticks to [u8] loses nothing. *)
Lemma resolve_ticks_u8 {E} to t : Duration.valid to → resolve_ticks (E := E) to = Ok t →
  (0 ≤ t ≤ 255)%Z.
Proof.
  intros [Hto _] (a & Ha & (b & Hb & (c & Hc & [= <-])%bind_Ok)%bind_Ok)%bind_Ok.
  assert (0 ≤ c)%Z.
  { unfold mul64 in Ha. case_decide; [injection Ha as <-|done].
    unfold add64 in Hb. case_decide; [injection Hb as <-|done].
    unfold div64 in Hc. case_decide; [done|]. injection Hc as <-. apply Z.div_pos; [|done].
    rewrite whole_millis. by apply Z.div_pos. }
  case_decide; [lia|]. case_decide; lia.
Qed.

Lemma triple_new_resolve n Q parent domain func to st port param : Stable Q → NewOk Q →
  (∀ p, parent = Some p → p < n) → (typed_program → port_ok port ∧ Duration.valid to) →
  triple n Q (new_resolve parent domain func to st port param) (λ _, Q)
    (λ r n', ∀ pos, r = inl pos → pos < n').
Proof.
  intros HQ HF Hp Hto. unfold new_resolve. case_decide; [by apply triple_ret|].
  eapply triple_try; [by apply triple_register| |done].
  intros pos n' Hn Hpos. specialize (Hpos pos eq_refl).
  tstep. tstep. tstep.
  eapply triple_bind; [apply (triple_lift _ _ _ _ _ (λ t _, typed_program → (0 ≤ t ≤ 255)%Z))|].
  { intros t Ht Hty. eapply resolve_ticks_u8; [by apply Hto|exact Ht]. }
  intros ticks n1 Hn1 Hticks. cbv beta in Hticks.
  assert (typed_program → port_ok port) as Hport by (intros Hty; by apply Hto).
  do 2 tstep. eapply triple_bind; [apply triple_world_opt|].
  intros [[sock|]|e] n2 Hn2 _.
  - do 2 tstep. eapply triple_try; [by apply keeps_fiber_register| |done].
    intros [] n3 Hn3 _. apply triple_ret; [done|]. intros ? [= <-]. lia.
  - tstep. apply triple_ret; [done|]. intros ? [= <-]. lia.
  - tstep. eapply triple_bind; [apply triple_fiber|]. intros f n3 Hn3 _.
    eapply (triple_bind _ _ _ _ _ _ (λ _, Q) any).
    + destruct (FiberInt.parent f); [|apply keeps_ret].
      eapply triple_bind; [apply keeps_upd_ids; [done|by intros []|]|].
      { intros g (? & ? & Hc & ?). do 2 (split; [done|]). split; [|done].
        by apply Forall_removelast. }
      intros [] ? _ _. apply keeps_upd_ids; [done|by intros []|].
      intros g (? & ? & ? & ? & ?). by do 4 (split; [done|]).
    + intros [] n4 Hn4 _. eapply triple_bind; [by apply keeps_cancel_timer|].
      intros [] n5 Hn5 _. by apply triple_ret.
Qed.

Lemma triple_new_timer n Q func dur param resp : Stable Q → NewOk Q →
  triple n Q (new_timer func dur param resp) (λ _, Q) (λ r n', ∀ pos, r = Some pos → pos < n').
Proof.
  intros HQ HF. unfold new_timer. eapply triple_bind; [by apply triple_register|].
  intros [pos|e] n' Hn Hpos; [|by apply triple_ret]. specialize (Hpos pos eq_refl).
  do 3 tstep. destruct a0 as [tk|]; [|by apply triple_ret].
  tstep. apply triple_ret; [done|]. intros ? [= <-]. lia.
Qed.

(** ** Calls *)

(** A call of the fiber [p] ends with its turn going on, or out of its stack. *)
Definition turn_op (n p : nat) (m : Run (Sys.t Sl) progress) : Prop :=
  triple n (at_ p active) m
    (λ r, match r with Done _ => at_ p active | Blocked _ => at_ p out end)
    (λ r _, match r with Done _ => True | Blocked c => blocking c = true end).

Lemma turn_done n p r : turn_op n p (mret (Done r)).
Proof. by apply triple_ret. Qed.

Lemma turn_bind {A} n p (m : Run (Sys.t Sl) A) f Φ :
  triple n (at_ p active) m (λ _, at_ p active) Φ →
  (∀ a n', n ≤ n' → Φ a n' → turn_op n' p (f a)) → turn_op n p (m ≫= f).
Proof. intros Hm Hf. by eapply triple_bind. Qed.

Lemma triple_step_out n p : triple n (at_ p active) (step_out p) (λ _, at_ p out) any.
Proof.
  unfold step_out. eapply triple_bind; [apply triple_fiber|].
  intros f ? _ (-> & Hi & Hok & Hf). unfold at_ in Hf. rewrite decide_True in Hf by done.
  destruct Hf as [(Ht & _)|(Ht & Hs & Hfn)]; rewrite Ht; [apply triple_panic|].
  apply triple_set_fiber.
  - intros j g Hj. unfold at_. by rewrite !decide_False.
  - intros _. split; [exact Hok|]. unfold at_. rewrite decide_True by done. done.
Qed.

Lemma turn_blocked n p c : blocking c = true → turn_op n p (step_out p;; mret (Blocked c)).
Proof.
  intros Hc. eapply triple_bind; [apply triple_step_out|]. intros [] n' _ _. by apply triple_ret.
Qed.

Lemma triple_timed_step_out n p :
  triple n (at_ p active) (timed_step_out p) (λ _, at_ p out) any.
Proof.
  unfold timed_step_out. tstep.
  eapply (triple_bind _ _ _ _ _ _ (λ _, at_ p active) any); [|intros [] ? _ _; apply triple_step_out].
  destruct (FiberInt.timeout a) as [dur|]; [|apply keeps_ret].
  tstep. destruct a0; [|apply keeps_ret].
  apply keeps_upd_quiet; [apply _|solve_quiet].
Qed.

Lemma turn_timed_blocked n p c : blocking c = true →
  turn_op n p (timed_step_out p;; mret (Blocked c)).
Proof.
  intros Hc. eapply triple_bind; [apply triple_timed_step_out|].
  intros [] n' _ _. by apply triple_ret.
Qed.

Lemma triple_stepped_back n p : triple n (at_ p out) (stepped_back p) (λ _, at_ p active) any.
Proof.
  apply triple_upd_fiber.
  - intros j g Hj. unfold at_. by rewrite !decide_False.
  - intros f _ Hok. unfold at_. rewrite !decide_True by done.
    intros (_ & Hs & Hfn). split; [exact Hok|by right].
Qed.

Lemma triple_timed_stepped_back n p :
  triple n (at_ p out) (timed_stepped_back p) (λ _, at_ p active) any.
Proof.
  unfold timed_stepped_back. eapply triple_bind; [apply triple_stepped_back|].
  intros [] n' _ _. tstep. destruct (FiberInt.wtoken a); [|apply keeps_ret].
  tstep. apply keeps_upd_quiet; [apply _|solve_quiet].
Qed.

Lemma turn_upd n p g (m : Run (Sys.t Sl) progress) : (∀ f, quiet f (g f)) →
  (∀ n', n ≤ n' → turn_op n' p m) → turn_op n p (upd_fiber p g;; m).
Proof.
  intros Hg Hm. eapply turn_bind; [apply keeps_upd_quiet; [apply _|done]|].
  intros [] n' Hn _. by apply Hm.
Qed.

(** The operation of [op] keeps the invariant; the call it makes blocks. *)
Definition io_ok {B} (p : nat) (op : IoOp Sl B) : Prop :=
  (∀ n b, keeps n (at_ p active) (attempt op b)) ∧ (∀ b, blocking (call op b) = true).

Lemma turn_io_loop {B} (op : IoOp Sl B) p fuel n b : io_ok p op →
  turn_op n p (io_loop op fuel p b).
Proof.
  intros [Ha Hc]. revert n b. induction fuel as [|fuel IH]; intros n b;
    [apply triple_out_of_fuel|]. cbn [io_loop].
  eapply turn_bind; [apply Ha|]. intros [[r|err] b'] n' _ _; [by case_match; apply turn_done|].
  case_decide; [|case_decide; [apply IH|apply turn_done]].
  eapply turn_bind; [apply triple_fiber|]. intros f ? _ _.
  eapply (turn_bind _ _ _ _ any);
    [case_match; [by apply keeps_fiber_register; apply _|apply keeps_ret]|].
  intros [[]|e] n2 _ _; [by apply turn_timed_blocked|apply turn_done].
Qed.

(** The second half of a call: from the switch back to the fiber *)
Definition resume_op (n p : nat) (m : Run (Sys.t Sl) progress) : Prop :=
  triple n (at_ p out) m
    (λ r, match r with Done _ => at_ p active | Blocked _ => at_ p out end)
    (λ r _, match r with Done _ => True | Blocked c => blocking c = true end).

Lemma resume_timed n p (m : Run (Sys.t Sl) progress) : (∀ n', turn_op n' p m) →
  resume_op n p (timed_stepped_back p;; m).
Proof. intros Hm. eapply triple_bind; [apply triple_timed_stepped_back|]. intros [] ? _ _. apply Hm. Qed.

Lemma resume_plain n p (m : Run (Sys.t Sl) progress) : (∀ n', turn_op n' p m) →
  resume_op n p (stepped_back p;; m).
Proof. intros Hm. eapply triple_bind; [apply triple_stepped_back|]. intros [] ? _ _. apply Hm. Qed.

Lemma resume_io {B} (op : IoOp Sl B) p fuel n b : io_ok p op →
  resume_op n p (io_resumed op fuel p b).
Proof.
  intros Hop. apply resume_timed. intros n'. eapply turn_bind; [apply triple_fiber|].
  intros f n2 _ (-> & ? & ? & ?). case_decide; [|by apply turn_io_loop].
  eapply turn_bind; [eapply keeps_set_quiet; [apply _| |done..]; solve_quiet|].
  intros [] ? _ _. apply turn_done.
Qed.

Lemma read_op_ok p : io_ok p (read_op p).
Proof. split; [|done]. intros n b. cbn. tstep. apply triple_world. Qed.
Lemma read_bufs_op_ok p : io_ok p (read_bufs_op p).
Proof. split; [|done]. intros n b. cbn. tstep. apply triple_world_opt. Qed.
Lemma write_op_ok p : io_ok p (write_op p).
Proof. split; [|done]. intros n b. cbn. tstep. apply triple_world. Qed.
Lemma write_bufs_op_ok p fuel : io_ok p (write_bufs_op fuel p).
Proof.
  split; [|done]. intros n b. cbn. do 2 tstep.
  eapply triple_bind; [apply triple_world_opt|]. intros [res tmp] n' _ _.
  eapply triple_bind; [by apply triple_upd_runner|]. intros [] ? _ _. apply keeps_ret.
Qed.

Lemma turn_accept_tcp fuel n p : turn_op n p (accept_tcp fuel p).
Proof.
  revert n. induction fuel as [|fuel IH]; intros n; [apply triple_out_of_fuel|].
  cbn [accept_tcp]. eapply turn_bind; [apply triple_fiber|]. intros f ? _ _.
  eapply turn_bind; [apply triple_world|]. intros [r|err] n3 _ _; [apply turn_done|].
  case_decide; [by apply turn_blocked|]. case_decide; [apply IH|apply turn_done].
Qed.

Lemma turn_tls_handshake n p c cr : blocking c = true → turn_op n p (tls_handshake p c cr).
Proof.
  intros Hc. destruct cr as [tls|mid|]; cbn [tls_handshake]; [| |apply turn_done].
  - apply turn_upd; [solve_quiet|]. intros. apply turn_done.
  - apply turn_upd; [solve_quiet|]. intros n' _.
    eapply turn_bind; [apply keeps_fiber_register, _|].
    intros [[]|e] n2 _ _; [by apply turn_timed_blocked|apply turn_done].
Qed.

Lemma resume_tls_handshake n p c : blocking c = true →
  resume_op n p (tls_handshake_resumed p c).
Proof.
  intros Hc. apply resume_timed. intros n'. eapply turn_bind; [apply triple_fiber|].
  intros f n2 _ (-> & ? & ? & ?). case_decide.
  - eapply turn_bind; [eapply keeps_set_quiet; [apply _| |done..]; solve_quiet|].
    intros [] ? _ _. apply turn_done.
  - eapply turn_bind; [apply keeps_take_sock, _|]. intros sock n3 _ _.
    destruct sock; try apply turn_done.
    eapply turn_bind; [apply triple_world|]. intros cr n4 _ _. by apply turn_tls_handshake.
Qed.

Lemma turn_tls_start n p (connect : W → TcpStream → TlsResult TlsStream MidHandshake * W) c :
  blocking c = true →
  turn_op n p (sock ← take_sock p;
    match sock with
    | Tcp tcp => cr ← world (λ w, connect w tcp); tls_handshake p c cr
    | _ => mret (Done (RIoUnit (fail InvalidInput "invalid socket")))
    end).
Proof.
  intros Hc. eapply turn_bind; [apply keeps_take_sock, _|]. intros sock n' _ _.
  destruct sock; try apply turn_done. eapply turn_bind; [apply triple_world|].
  intros cr n2 _ _. by apply turn_tls_handshake.
Qed.

Lemma Forall_swap_remove_front {A} (P : A → Prop) l i :
  Forall P l → Forall P (swap_remove_front l i).
Proof.
  destruct l as [|x l], i as [|i]; try done; cbn; [by intros [_ ?]%Forall_cons|].
  intros [Hx Hl]%Forall_cons. by apply Forall_insert.
Qed.

Lemma find_child_in {E} fs cs idx c i : find_child (E := E) fs cs idx = Ok (Some (c, i)) → c ∈ cs.
Proof.
  revert idx. induction cs as [|x cs IH]; intros idx; [done|]. cbn [find_child].
  intros (f & _ & H)%bind_Ok. repeat case_decide; simplify_eq; try by left.
  right. by eapply IH.
Qed.

Lemma turn_child_iter_loop fuel n p : turn_op n p (child_iter_loop fuel p).
Proof.
  revert n. induction fuel as [|fuel IH]; intros n; [apply triple_out_of_fuel|].
  cbn [child_iter_loop]. eapply turn_bind; [apply triple_fiber|].
  intros f ? _ (-> & Hp & (_ & _ & Hch & _) & _). case_decide; [apply turn_done|].
  eapply turn_bind; [apply triple_get_runner|]. intros r ? _ [-> _].
  eapply turn_bind.
  { apply (triple_lift _ _ _ _ _ (λ o n', ∀ c i, o = Some (c, i) → c < n')).
    intros o Ho c i ->. apply find_child_in in Ho.
    rewrite Forall_forall in Hch. by apply Hch. }
  intros [[c i]|] n' Hn Hc; [|by apply turn_blocked]. specialize (Hc c i eq_refl).
  eapply turn_bind; [apply keeps_take_result_of, _|]. intros out n2 Hn2 _.
  eapply turn_bind; [apply triple_fiber|]. intros fc n3 Hn3 _.
  eapply (turn_bind _ _ _ _ any).
  { case_decide; [|apply keeps_push_toexec; lia].
    eapply triple_bind; [apply keeps_upd_ids; [apply _|by intros []|]|].
    - intros g (? & ? & ? & ?). do 2 (split; [done|]). split; [|done]. by apply Forall_swap_remove_front.
    - intros [] ? ? _. apply keeps_push_free. lia. }
  intros [] n4 _ _. destruct out; [apply turn_done|apply IH].
Qed.

Lemma turn_child_iter n p : turn_op n p (child_iter p).
Proof.
  eapply turn_bind; [apply triple_fiber|]. intros f n' _ _. apply turn_child_iter_loop.
Qed.

Lemma keeps_set_state n p st : st ≠ Stacked →
  keeps n (at_ p active) (upd_fiber p (λ f, FiberInt.set_state f st)).
Proof.
  intros Hst. apply triple_upd_fiber; [done|]. intros f _ Hok Hf. split; [exact Hok|].
  unfold at_ in *. rewrite decide_True in * by done.
  destruct Hf as [(? & ? & _)|(? & ? & ?)]; [by left|by right].
Qed.

Lemma turn_hibernate_for_read n p : turn_op n p (hibernate_for_read p).
Proof.
  eapply turn_bind; [by apply keeps_set_state|]. intros [] n' _ _.
  eapply turn_bind; [apply triple_fiber|]. intros f n2 _ _.
  eapply (turn_bind _ _ _ _ any);
    [case_match; [apply keeps_fiber_register, _|apply keeps_ret]|].
  intros [[]|e] n3 _ _; [by apply turn_blocked|apply turn_done].
Qed.

(** A call that starts a fiber and does not block *)
Lemma turn_reply_unit n p (m : Run (Sys.t Sl) (io nat)) Φ :
  triple n (at_ p active) m (λ _, at_ p active) Φ →
  turn_op n p (r ← m; mret (Done (RIoUnit (io_unit r)))).
Proof. intros Hm. eapply turn_bind; [exact Hm|]. intros r n' _ _. apply turn_done. Qed.

Lemma turn_call fuel n p c : p < n → (typed_program → call_typed c) →
  turn_op n p (call_method fuel p c).
Proof.
  intros Hp Hc. destruct c; cbn [call_method].
  all: try (eapply turn_reply_unit; first [apply triple_register|apply triple_new_resolve];
    first [apply _|by intros ? [=]; subst|exact Hc]).
  - apply turn_upd; [solve_quiet|]. intros. apply turn_done.
  - apply turn_upd; [solve_quiet|]. intros. by apply turn_blocked.
  - apply turn_accept_tcp.
  - by apply turn_tls_start.
  - by apply (turn_tls_start _ _ (λ w, tls_accept w con)).
  - eapply turn_bind; [by apply keeps_push_tomain|]. intros. by apply turn_blocked.
  - apply turn_child_iter.
  - apply turn_hibernate_for_read.
  - eapply turn_bind; [by apply keeps_set_state|]. intros [] n' Hn _.
    eapply turn_bind; [apply keeps_push_tomain; lia|]. intros. by apply turn_blocked.
  - apply turn_io_loop, read_bufs_op_ok.
  - apply turn_io_loop, write_bufs_op_ok.
  - apply turn_io_loop, read_op_ok.
  - apply turn_io_loop, write_op_ok.
  - eapply (turn_bind _ _ _ _ any); [unfold flush; tstep; apply triple_world|].
    intros. apply turn_done.
Qed.

Lemma resume_call fuel n p c : blocking c = true → resume_op n p (call_resumed fuel p c).
Proof.
  destruct c; try done; intros _; cbn [call_resumed].
  all: try (apply resume_io;
    first [apply read_op_ok|apply read_bufs_op_ok|apply write_op_ok|apply write_bufs_op_ok]).
  all: try by apply resume_tls_handshake.
  all: apply resume_plain; intros n'; try apply turn_done.
  - apply turn_accept_tcp.
  - eapply turn_bind; [apply keeps_take_result_of, _|]. intros. apply turn_done.
  - apply turn_child_iter.
Qed.

(** ** Turns *)

(** A turn ends out of the fiber's stack, with its new context as the result. *)
Definition turn_end (t : Transfer) (f : FiberInt.t) : Prop := out f ∧ left_with t f.
Definition turn_ok (n p : nat) Q (m : Run (Sys.t Sl) Transfer) : Prop :=
  triple n Q m (λ t, at_ p (turn_end t)) any.

Lemma at_other p G G' i f : i ≠ p → at_ p G i f → at_ p G' i f.
Proof. intros Hi. unfold at_. by rewrite !decide_False. Qed.

Lemma at_same p G f : at_ p G p f ↔ G f.
Proof. unfold at_. by rewrite decide_True. Qed.

Lemma triple_context_end n p home r : turn_ok n p (at_ p active) (context_end p home r).
Proof.
  unfold context_end. eapply triple_bind; [apply triple_get_runner|]. intros x ? _ [-> _].
  case_decide; [|by intros s a s' _ [=]]. eapply triple_bind; [apply keeps_upd_quiet; [apply _|solve_quiet]|].
  intros [] n' _ _. set (done := λ f, active f ∧ FiberInt.state f = Closed).
  eapply (triple_bind _ _ _ _ _ _ (λ _, at_ p done) any).
  { apply triple_upd_fiber; [intros j h; apply at_other|]. intros f _ Hok.
    rewrite !at_same. intros Hf. split; [exact Hok|]. split; [|done].
    destruct Hf as [(? & ? & _)|(? & ? & ?)]; [by left|by right]. }
  intros [] n2 _ _.
  eapply (triple_bind _ _ _ _ _ _ (λ _, at_ p (turn_end Returned)) any).
  { unfold step_out. eapply triple_bind; [apply triple_fiber|].
    intros f ? _ (-> & _ & Hok & [Hf Hcl]%at_same).
    destruct Hf as [(Ht & _)|(Ht & ? & ?)]; rewrite Ht; [apply triple_panic|].
    apply triple_set_fiber; [intros j h; apply at_other|]. intros _.
    split; [exact Hok|]. apply at_same. split; [done|]. by right. }
  intros [] n3 _ _. by apply triple_ret.
Qed.

Lemma turn_waiting n p home c k : blocking c = true →
  turn_ok n p (at_ p out) (mret (Waiting home c k)).
Proof.
  intros Hc. apply triple_ret; [|done]. intros i f. unfold at_. case_decide; [|done].
  intros Hf. split; [done|]. left. by exists home, c, k.
Qed.

Lemma turn_exec fuel n p home code : p < n →
  turn_ok n p (at_ p active) (exec fuel p home code).
Proof.
  revert n code. induction fuel as [|fuel IH]; intros n code Hp; [apply triple_out_of_fuel|].
  cbn [exec]. destruct (act code) as [r|c k] eqn:Hact; [apply triple_context_end|].
  eapply triple_bind; [apply turn_call; [done|intros Hty; by eapply Hty]|].
  intros [r|c'] n' Hn Hc; cbn in Hc; [apply IH; lia|by apply turn_waiting].
Qed.

Lemma turn_context_function fuel n p home :
  turn_ok n p (at_ p out) (context_function fuel p home).
Proof.
  unfold context_function.
  eapply (triple_bind _ _ _ _ _ _ (λ _, at_ p out) any).
  { apply triple_upd_fiber; [done|]. intros f _ Hok. rewrite !at_same. by intros (? & ? & ?). }
  intros [] n1 _ _. eapply triple_bind; [apply triple_stepped_back|].
  intros [] n2 _ _. eapply triple_bind; [apply triple_fiber|].
  intros f ? _ (-> & Hp & Hok & Hf).
  eapply triple_bind; [eapply keeps_set_quiet; [apply _| |done..]; solve_quiet|].
  intros [] n3 Hn3 _. eapply triple_bind; [by apply (triple_lift _ _ _ _ _ any)|].
  intros prm n4 Hn4 _. eapply triple_bind; [by apply (triple_lift _ _ _ _ _ any)|].
  intros fn n5 Hn5 _. apply turn_exec. lia.
Qed.

Lemma turn_switch fuel n p t : p < n → waits t ∨ t = Fresh → turn_ok n p (at_ p out) (switch fuel p t).
Proof.
  intros Hp [(home & c & k & -> & Hc)| ->]; cbn [switch]; cycle 1.
  { eapply triple_bind; [apply triple_get_runner|]. intros x ? _ [-> _]. apply turn_context_function. }
  eapply triple_bind; [by apply resume_call|].
  intros [r|c'] n' Hn Hc'; cbn in Hc'; [apply turn_exec; lia|by apply turn_waiting].
Qed.

(** The fiber has a stack, and a context to switch to. *)
Definition ready (f : FiberInt.t) : Prop :=
  ∃ t, stacked_in (λ x, x = Some t) f ∧ (waits t ∨ t = Fresh).

Lemma rest_ready f : rest f → is_Some (FiberInt.trans f) → ready f.
Proof.
  intros [(Ht & _)|((t & Ht & Hw) & ? & ? & ?)] Hs.
  - rewrite Ht in Hs. by destruct Hs.
  - exists t. split; [done|by left].
Qed.

(** The first half of [step_into]: a stack for the fiber if it has none *)
Lemma triple_enter n p f fn : FiberInt.func f = Some fn →
  triple n (λ j g, rest g ∧ (j = p → g = f))
    (match FiberInt.trans f with
     | None =>
       stack ← stack_pop;
       upd_fiber p (λ f, FiberInt.set_trans (FiberInt.set_stack f (Some stack)) (Some Fresh))
     | Some _ => mret tt
     end) (λ _, at_ p ready) any.
Proof.
  intros Hfn. destruct (FiberInt.trans f) as [t|] eqn:Ht.
  - apply triple_ret; [|done]. intros j g [Hg Hj]. unfold at_. case_decide; [|done].
    rewrite (Hj ltac:(done)) in *. by apply rest_ready; [|rewrite Ht].
  - eapply triple_bind; [apply keeps_stack_pop|]. intros stack n' _ _.
    apply triple_upd_fiber.
    + intros j g Hj [Hg _]. unfold at_. by rewrite decide_False.
    + intros g _ Hok [_ Hg]. specialize (Hg eq_refl) as ->. split; [exact Hok|].
      apply at_same. exists Fresh. split; [|by right]. split_and!; [done..|].
      cbn. by rewrite Hfn.
Qed.

Lemma triple_run_turn fuel n p :
  triple n all_rest (run_turn fuel p) (λ _, at_ p back) (λ _ n', p < n').
Proof.
  unfold run_turn. eapply triple_bind; [apply triple_fiber_is|].
  intros f ? _ (-> & Hp & Hok & Hf). destruct (FiberInt.func f) as [fn|] eqn:Hfn.
  - eapply triple_bind; [by eapply triple_enter|]. intros [] n1 Hn1 _.
    eapply triple_bind; [apply triple_fiber|]. intros g ? _ (-> & _ & Hg & Hr%at_same).
    destruct Hr as (t & (Ht & Hs & Hgf) & Hw).
    eapply (triple_bind _ _ _ _ _ _ (λ _, at_ p out) any).
    { apply triple_set_fiber; [intros j h; apply at_other|].
      intros _. split; [exact Hg|]. by apply at_same. }
    intros [] n2 Hn2 _. rewrite Ht.
    eapply triple_bind; [apply (triple_lift _ _ _ _ _ (λ x _, x = t)); by intros x [= ->]|].
    intros t' n3 Hn3 ->. eapply triple_bind; [apply turn_switch; [lia|done]|].
    intros t' n4 Hn4 _. eapply (triple_weaken _ _ _ _ _ (λ _, at_ p back) any); [|done|intros; lia].
    apply triple_upd_fiber; [intros j h; apply at_other|]. intros h _ Hh.
    rewrite !at_same. intros [(_ & ? & ?) Hl]. split; [exact Hh|].
    right. exists t'. by split.
  - eapply (triple_weaken _ _ _ _ _ (λ _, at_ p back) any); [|done|intros; lia].
    apply triple_upd_fiber.
    + intros j g Hj [Hg _]. unfold at_. by rewrite decide_False.
    + intros g _ Hgk [_ Hg]. specialize (Hg eq_refl) as ->. split; [exact Hgk|].
      apply at_same. left.
      destruct Hf as [(? & ? & _)|(_ & _ & _ & Hfs)]; [by split_and!|].
      rewrite Hfn in Hfs. by destruct Hfs.
Qed.

(** The fiber is put to rest: out of its stack unless it waits. *)
Lemma triple_unstack n p f : FiberInt.state f ≠ Stacked →
  triple n (λ j g, at_ p back j g ∧ (j = p → g = f)) (unstack p) (λ _, all_rest) any.
Proof.
  intros Hst. unfold unstack. eapply triple_bind; [apply triple_fiber|].
  intros g ? _ (-> & Hp & Hok & _ & Hg). specialize (Hg eq_refl) as ->.
  eapply triple_bind; [by apply (triple_lift _ _ _ _ _ any)|]. intros stack n' Hn _.
  eapply (triple_bind _ _ _ _ _ _ (λ _, all_rest) any).
  - apply triple_set_fiber.
    + intros j g Hj [Hg _]. unfold at_ in Hg. by rewrite decide_False in Hg.
    + intros _. split; [apply (fiber_ok_mono rp n n'); [lia|exact Hok]|].
      by left.
  - intros [] ? _ _. apply keeps_stack_push.
Qed.

Lemma triple_settle n p f :
  triple n (λ j g, at_ p back j g ∧ (j = p → g = f))
    (if decide (FiberInt.state f ≠ Stacked ∧ is_Some (FiberInt.trans f))
     then unstack p else mret tt) (λ _, all_rest) any.
Proof.
  case_decide as Hd; [by apply triple_unstack; destruct Hd|].
  apply triple_ret; [|done]. intros j g [Hg Hj]. unfold all_rest, at_ in *.
  case_decide; [|done]. rewrite (Hj ltac:(done)) in *.
  destruct Hg as [?|(t & (Ht & ? & ?) & Hl)]; [by left|]. right.
  assert (FiberInt.state f = Stacked) as Hst.
  { destruct (decide (FiberInt.state f = Stacked)); [done|].
    destruct Hd. split; [done|]. by rewrite Ht. }
  split_and!; [|done..]. exists t. split; [done|].
  destruct Hl as [?|[_ Hc]]; [done|]. by rewrite Hst in Hc.
Qed.

Lemma triple_stepped_out n p :
  triple n (at_ p back) (stepped_out p) (λ _, all_rest) (λ o n', ∀ i, o = Some i → i < n').
Proof.
  unfold stepped_out. eapply triple_bind; [apply triple_fiber_is|].
  intros f ? _ (-> & Hp & _). eapply triple_bind; [apply triple_settle|].
  intros [] n1 Hn1 _. eapply triple_bind; [apply triple_fiber|].
  intros g ? _ (-> & _ & Hg & Hr). pose proof Hg as (_ & _ & _ & Hpar & _).
  case_decide.
  - eapply triple_bind; [eapply keeps_set_quiet; [apply _| |done..]; solve_quiet|].
    intros [] n2 Hn2 _. destruct (FiberInt.parent g) as [q|].
    + apply triple_ret; [done|]. intros i [= <-]. specialize (Hpar q eq_refl). lia.
    + eapply triple_bind; [apply keeps_take_result, _|]. intros [] n3 Hn3 _.
      eapply triple_bind; [apply keeps_push_free; lia|]. intros [] n4 _ _. by apply triple_ret.
  - destruct (FiberInt.parent g) as [q|].
    + apply triple_ret; [done|]. intros i. case_decide; [|done]. intros [= <-]. by apply Hpar.
    + case_decide; [|by apply triple_ret].
      eapply triple_bind; [apply keeps_take_result, _|]. intros [] n3 Hn3 _.
      eapply triple_bind; [apply keeps_push_toexec; lia|]. intros [] n4 _ _. by apply triple_ret.
Qed.

Lemma keeps_step_into fuel n p : keeps n all_rest (step_into fuel p).
Proof.
  revert n p. induction fuel as [|fuel IH]; intros n p; [apply triple_out_of_fuel|].
  cbn [step_into]. eapply triple_bind; [apply triple_run_turn|]. intros [] n1 Hn1 Hp.
  eapply triple_bind; [apply triple_stepped_out|].
  intros [q|] n2 Hn2 _; [apply IH|apply keeps_ret].
Qed.

(** ** The scheduler *)
Lemma keeps_if_wtoken n f :
  keeps n all_rest (match FiberInt.wtoken f with
    | Some tk => timer_cancel tk | None => mret tt end).
Proof. destruct (FiberInt.wtoken f); [apply keeps_timer_cancel|apply keeps_ret]. Qed.

Lemma keeps_rest_upd n p g : (∀ f, quiet f (g f)) → keeps n all_rest (upd_fiber p g).
Proof. apply keeps_upd_quiet, _. Qed.

Lemma keeps_have_addr fuel n p addr : keeps n all_rest (have_addr fuel p addr).
Proof.
  unfold have_addr. do 3 tstep. eapply triple_bind; [apply triple_fiber|].
  intros f ? _ (-> & ? & ? & ?). tstep.
  eapply triple_bind; [by apply (triple_lift _ _ _ _ _ any)|]. intros cp n1 _ _.
  eapply (triple_bind _ _ _ _ _ _ (λ _, all_rest) any).
  { destruct (ConnectParam.st cp); (eapply triple_bind; [apply triple_world|]);
      intros [?|?] ? _ _; try apply keeps_ret; apply keeps_rest_upd; solve_quiet. }
  intros [] n2 _ _. eapply triple_bind; [apply keeps_fiber_register, _|].
  intros [[]|e] n3 _ _; [apply keeps_ret|apply keeps_step_into].
Qed.

Lemma keeps_run_toexec fuel n p : keeps n all_rest (run_toexec fuel p).
Proof.
  unfold run_toexec. eapply triple_bind; [apply triple_fiber|]. intros f ? _ _.
  destruct (FiberInt.connect_param f); [|apply keeps_step_into].
  eapply triple_bind; [apply triple_world|]. intros [[nb|e] buf] n1 _ _; [|apply keeps_ret].
  eapply triple_bind; [by apply (triple_lift _ _ _ _ _ any)|]. intros data n2 _ _.
  eapply triple_bind; [by apply (triple_lift _ _ _ _ _ any)|]. intros [adr|] n3 _ _; [|apply keeps_ret].
  eapply triple_bind; [by apply keeps_if_wtoken|]. intros [] n4 _ _.
  eapply triple_bind; [apply keeps_rest_upd; solve_quiet|]. intros [] n5 _ _.
  apply keeps_have_addr.
Qed.

Lemma keeps_run_lookup fuel n p gen addr : keeps n all_rest (run_lookup fuel p gen addr).
Proof.
  unfold run_lookup. eapply triple_bind; [apply triple_fiber|]. intros f ? _ _.
  case_decide; [apply keeps_ret|]. eapply (triple_bind _ _ _ _ _ _ (λ _, all_rest) any).
  { destruct (FiberInt.wtoken f); [|apply keeps_ret].
    eapply triple_bind; [apply keeps_timer_cancel|]. intros [] ? _ _.
    apply keeps_rest_upd; solve_quiet. }
  intros [] ? _ _. apply keeps_have_addr.
Qed.

Lemma keeps_run_timedout fuel n p : keeps n all_rest (run_timedout fuel p).
Proof.
  unfold run_timedout. eapply triple_bind; [apply triple_fiber|].
  intros f ? _ (_ & _ & (_ & _ & _ & _ & Hf) & _).
  destruct (FiberInt.wtoken f); [|apply keeps_ret]. destruct (FiberInt.connect_param f).
  - eapply triple_bind; [apply (triple_lift _ _ _ _ _ (λ x _, typed_program → (0 ≤ x ≤ 255)%Z))|].
    { intros x. unfold sub64. case_decide; [|done]. intros [= <-] Hty. destruct (Hf Hty) as [? _]. lia. }
    intros left n1 _ Hleft. cbv beta in Hleft.
    eapply triple_bind; [apply keeps_rest_upd; solve_quiet|]. intros [] n2 _ _.
    eapply triple_bind; [apply triple_fiber|]. intros g ? _ (-> & Hp & _). case_decide.
    + eapply triple_bind; [apply triple_fiber_id|]. intros id ? _ [-> ->].
      destruct (FiberInt.sock g); try apply keeps_ret.
      destruct (FiberInt.connect_param g); try apply keeps_ret.
      eapply triple_bind; [apply triple_get_poller|]. intros pl n4 ? _.
      eapply triple_bind; [apply triple_world_opt|]. intros r n5 ? _.
      eapply triple_bind; [apply triple_timer_reg; lia|]. intros tk n6 _ Htk. cbv beta in Htk.
      apply keeps_rest_upd; solve_quiet.
    + eapply triple_bind; [apply keeps_rest_upd; solve_quiet|]. intros [] n3 _ _.
      eapply triple_bind; [apply keeps_rest_upd; solve_quiet|]. intros [] n4 _ _.
      apply keeps_step_into.
  - eapply triple_bind; [apply keeps_rest_upd; solve_quiet|]. intros [] n3 _ _.
    eapply triple_bind; [apply keeps_rest_upd; solve_quiet|]. intros [] n4 _ _.
    apply keeps_step_into.
Qed.

Lemma keeps_while_some {A} (pop : Run (Sys.t Sl) (option A)) body Φ fuel n :
  (∀ n, triple n all_rest pop (λ _, all_rest) (Φ n)) →
  (∀ fuel n x, keeps n all_rest (body fuel x)) → keeps n all_rest (while_some pop body fuel).
Proof.
  intros Hpop Hbody. revert n. induction fuel as [|fuel IH]; intros n;
    [apply triple_out_of_fuel|]. cbn [while_some]. eapply triple_bind; [apply Hpop|].
  intros [x|] n1 _ _; [|apply keeps_ret]. eapply triple_bind; [apply Hbody|].
  intros [] n2 _ _. apply IH.
Qed.

Lemma keeps_run fuel n : keeps n all_rest (run fuel).
Proof.
  unfold run. eapply triple_bind.
  { eapply keeps_while_some; [intros; apply keeps_pop_toexec|intros; apply keeps_run_toexec]. }
  intros [] n1 _ _. eapply triple_bind.
  { eapply keeps_while_some; [intros; apply keeps_dns_check|].
    intros ? ? [[p gen] addr]. apply keeps_run_lookup. }
  intros [] n2 _ _. eapply triple_bind.
  { eapply keeps_while_some; [intros; apply keeps_timedout_pop|intros; apply keeps_run_timedout]. }
  intros [] n3 _ _. eapply triple_bind; [apply triple_get_runner|].
  intros r n4 _ _. apply keeps_ret.
Qed.

(** ** The main stack *)
Lemma keeps_resume_fiber n i resp : i < n → keeps n all_rest (resume_fiber i resp).
Proof.
  intros Hi. unfold resume_fiber. eapply triple_bind; [apply keeps_rest_upd; solve_quiet|].
  intros [] n1 Hn _. apply keeps_push_toexec. lia.
Qed.

Lemma keeps_get_response n : keeps n all_rest get_response.
Proof.
  eapply triple_bind; [apply triple_get_runner|]. intros r ? _ _.
  destruct (RunnerInt.results r); [apply keeps_ret|].
  eapply triple_bind; [by apply triple_upd_runner|]. intros [] ? _ _. apply keeps_ret.
Qed.

Lemma keeps_get_fiber n : keeps n all_rest get_fiber.
Proof.
  intros s o s' Hs H. unfold get_fiber in H. apply run_bind_Ok in H as (r & s1 & [= <- <-] & H).
  destruct (RunnerInt.tomain_fibers _) as [|x l] eqn:Hl; [injection H as <- <-; by exists n|].
  apply run_bind_Ok in H as ([] & s2 & [= <-] & [= <- <-]).
  exists n. split_and!; [done| |done]. destruct Hs as [? ? ? Hm ? ?]. split; try done.
  cbn in *. rewrite Hl in Hm. by apply Forall_cons in Hm as [_ ?].
Qed.
End methods.

(** What the main stack can do to a runner: run it, start fibers and timers, take
    responses and waiting fibers, resume a fiber, drop a timer; and what can happen
    outside of it: the poller puts fibers of the runner into its queues, and the
    other runners and the world change. *)
Section calls.
Context {N : Net} {Pr : Program} {Sl : Type} {SO : SlabOps Entry.t Sl} {BE : BigEndian}.
Implicit Types (s : Sys.t Sl).

Definition fibers_of s : nat := length (RunnerInt.fibers (Sys.runner s)).

Inductive call s : Sys.t Sl → Prop :=
| call_run fuel b s' : run fuel s = Ok (b, s') → call s s'
| call_start func ft param r s' :
    register (Some func) ft (Some param) None true s = Ok (r, s') → call s s'
| call_timer func dur param resp r s' : new_timer func dur param resp s = Ok (r, s') → call s s'
| call_resolve domain func to st port param r s' : port_ok port → Duration.valid to →
    new_resolve None domain (Some func) to st port param s = Ok (r, s') → call s s'
| call_get_response r s' : get_response s = Ok (r, s') → call s s'
| call_get_fiber r s' : get_fiber s = Ok (r, s') → call s s'
| call_resume i resp s' : i < fibers_of s → resume_fiber i resp s = Ok (tt, s') → call s s'
| call_drop_timer i s' : cancel_timer i s = Ok (tt, s') → call s s'.
End calls.

Section main.
Context {N : Net} {Pr : Program} {Sl : Type} {SO : SlabOps Entry.t Sl} {SL : SlabLaws Entry.t Sl}.
Context {BE : BigEndian} (rp : Z) (O : nat → Z → Prop).
Implicit Types (s : Sys.t Sl).

Inductive step s : Sys.t Sl → Prop :=
| step_call s' : call s s' → step s s'
| step_outside p w : names_ok rp O (fibers_of s) p → step s (Sys.mk (Sys.runner s) p w).

Inductive reachable : Sys.t Sl → Prop :=
| reach_new p w : names_ok rp O 0 p → reachable (Sys.mk (RunnerInt.new rp) p w)
| reach_step s s' : reachable s → step s s' → reachable s'.

(** Every fiber knows its own identifier and runner, every position the runner
    holds is a fiber's, and every fiber is at rest. *)
Definition runner_wf s : Prop := inv rp O (fibers_of s) all_rest s.

Lemma keeps_wf {A} (m : Run (Sys.t Sl) A) Q Φ s a s' :
  (∀ n, triple rp O n all_rest m (λ _, Q) Φ) → Q = all_rest → runner_wf s → m s = Ok (a, s') →
  runner_wf s'.
Proof.
  intros Hm -> Hs H. destruct (Hm _ _ _ _ Hs H) as (n & _ & Hn & _).
  unfold runner_wf, fibers_of. by rewrite (inv_len _ _ _ _ _ Hn).
Qed.

Lemma call_wf s s' : call s s' → runner_wf s → runner_wf s'.
Proof.
  intros [] Hs.
  - eapply keeps_wf; [intros; apply keeps_run|done..].
  - destruct (triple_register rp O (fibers_of s) all_rest (Some func) ft (Some param) None true
      _ _ ltac:(done) _ _ _ Hs ltac:(done)) as (n & _ & Hn & _).
    unfold runner_wf, fibers_of. by rewrite (inv_len _ _ _ _ _ Hn).
  - eapply keeps_wf; [intros; by apply triple_new_timer; apply _|done..].
  - destruct (triple_new_resolve rp O (fibers_of s) all_rest None domain (Some func) to st port param
      _ _ ltac:(done) ltac:(done) _ _ _ Hs ltac:(done)) as (n & _ & Hn & _).
    unfold runner_wf, fibers_of. by rewrite (inv_len _ _ _ _ _ Hn).
  - eapply keeps_wf; [intros; apply keeps_get_response|done..].
  - eapply keeps_wf; [intros; apply keeps_get_fiber|done..].
  - destruct (keeps_resume_fiber rp O (fibers_of s) i resp ltac:(done) _ _ _ Hs ltac:(done))
      as (n & _ & Hn & _).
    unfold runner_wf, fibers_of. by rewrite (inv_len _ _ _ _ _ Hn).
  - eapply keeps_wf; [intros; apply keeps_cancel_timer, _|done..].
Qed.

Lemma step_wf s s' : step s s' → runner_wf s → runner_wf s'.
Proof. intros [s1 Hc|p w Hp]; [by apply call_wf|]. intros []. split; assumption. Qed.
End main.
