(* ===== verification/RunnerFuel.v ===== *)
(** * Fuel of the runner's loops

    The loops of the runner take fuel, because a socket can interrupt for ever,
    a fiber need not return and a queue need not run empty.  The fuel is only a
    bound: with more of it a method does the same ([below]). *)
From stdpp Require Import strings.
From S2P Require Import Prelude Clock Slab Wheel ByteOrder StdText Resolver Poller.
From S2P Require Import Fiber Runner.
Local Open Scope nat_scope.
Local Open Scope list_scope.

(** [o] has run out of fuel, or it is [o']. *)
Definition ends_as {E A} (o o' : outcome E A) : Prop := o = OutOfFuel ∨ o = o'.

(** Wherever [m] does not run out of fuel, [m'] does the same. *)
Definition below {St A} (m m' : Run St A) : Prop := ∀ s, ends_as (m s) (m' s).

#[export] Instance ends_as_refl E A : Reflexive (@ends_as E A).
Proof. intros o. by right. Qed.
#[export] Instance below_refl St A : Reflexive (@below St A).
Proof. intros m s. by right. Qed.

Lemma ends_as_bind {E A B} (o o' : outcome E A) (f f' : A → outcome E B) :
  ends_as o o' → (∀ a, ends_as (f a) (f' a)) → ends_as (o ≫= f) (o' ≫= f').
Proof. intros [->| ->] Hf; [by left|]. destruct o'; cbn; [apply Hf|by right..]. Qed.

Lemma below_bind {St A B} (m m' : Run St A) (f f' : A → Run St B) :
  below m m' → (∀ a, below (f a) (f' a)) → below (m ≫= f) (m' ≫= f').
Proof.
  intros Hm Hf s. unfold mbind, run_bind. destruct (Hm s) as [->| ->]; [by left|].
  destruct (m' s) as [[a s1]|e| |]; [apply Hf|by right..].
Qed.

Lemma below_bind_same {St A B} (m : Run St A) (f f' : A → Run St B) :
  (∀ a, below (f a) (f' a)) → below (m ≫= f) (m ≫= f').
Proof. by apply below_bind. Qed.

Lemma below_out_of_fuel {St A} (m : Run St A) : below out_of_fuel m.
Proof. intros s. by left. Qed.

(** Goes through two copies of a method that differ in their fuel. *)
Ltac below :=
  repeat first
  [ reflexivity
  | apply below_out_of_fuel
  | assumption
  | match goal with
    | H : ∀ _, _ |- _ => apply H; first [assumption|lia]
    | |- below (_ ≫= _) (_ ≫= _) => apply below_bind; [|intros]
    | |- below (match ?x with _ => _ end) _ => destruct x
    | |- below (if ?x then _ else _) _ => destruct x
    end ].

Section fuel.
Context {N : Net} {Pr : Program} {Sl : Type} {SO : SlabOps Entry.t Sl} {BE : BigEndian}.
Abbreviation M := (Run (Sys.t Sl)).

(** A loop is [below] itself with more fuel if it is for each pass. *)
Lemma fuel_ind {A} (loop : nat → M A) :
  (loop 0 = out_of_fuel) →
  (∀ n n', n ≤ n' → below (loop n) (loop n') → below (loop (S n)) (loop (S n'))) →
  ∀ n n', n ≤ n' → below (loop n) (loop n').
Proof.
  intros H0 HS. induction n as [|n IH]; intros n' Hn; [rewrite H0; apply below_out_of_fuel|].
  destruct n' as [|n']; [lia|]. apply HS; [lia|]. apply IH. lia.
Qed.

Lemma tls_write_loop_fuel (w : W) tls tmp bufs wpos sz i n n' : n ≤ n' →
  ends_as (Sock.tls_write_loop n w tls tmp bufs wpos sz i)
          (Sock.tls_write_loop n' w tls tmp bufs wpos sz i).
Proof.
  revert n' w tmp wpos sz i. induction n as [|n IH]; intros n' w tmp wpos sz i Hn.
  { cbn [Sock.tls_write_loop]. destruct n'; cbn [Sock.tls_write_loop];
      case_decide; try reflexivity; by left. }
  destruct n' as [|n']; [lia|]. cbn [Sock.tls_write_loop]. case_decide; [|reflexivity].
  apply ends_as_bind; [reflexivity|]. intros buf. case_decide.
  - apply ends_as_bind; [reflexivity|]. intros tmp'. apply IH. lia.
  - apply ends_as_bind; [reflexivity|]. intros [[[[[s|e] w'] len] wpos'] i']; [|reflexivity].
    repeat case_decide; try reflexivity. apply IH. lia.
Qed.

Lemma write_bufs_fuel (w : W) sock tmp bufs n n' : n ≤ n' →
  ends_as (Sock.write_bufs n w sock tmp bufs) (Sock.write_bufs n' w sock tmp bufs).
Proof. intros Hn. destruct sock; cbn; try reflexivity. by apply tls_write_loop_fuel. Qed.

Lemma world_opt_below {A} (g g' : W → outcome Empty_set (A * W)) :
  (∀ w, ends_as (g w) (g' w)) → below (St := Sys.t Sl) (world_opt g) (world_opt g').
Proof.
  intros Hg s. unfold world_opt. apply ends_as_bind; [|intros []; reflexivity].
  destruct (Hg (Sys.world s)) as [->| ->]; [by left|reflexivity].
Qed.

(** Two versions of a socket operation whose attempts differ in fuel. *)
Definition op_below {B} (op op' : IoOp Sl B) : Prop :=
  (∀ b, below (attempt op b) (attempt op' b)) ∧ closed op = closed op'
  ∧ has_interest op = has_interest op' ∧ interest op = interest op'
  ∧ timeout_msg op = timeout_msg op' ∧ call op = call op' ∧ reply op = reply op'.

Lemma io_loop_fuel {B} (op op' : IoOp Sl B) p : op_below op op' → ∀ n n' b, n ≤ n' →
  below (io_loop op n p b) (io_loop op' n' p b).
Proof.
  intros (Ha & H1 & H2 & H3 & H4 & H5 & H6). induction n as [|n IH]; intros n' b Hn; [below|].
  destruct n' as [|n']; [lia|]. cbn [io_loop]. rewrite H1, H2, H3, H5, H6.
  apply below_bind; [apply Ha|]. intros [[r|err] b']; [reflexivity|].
  case_decide; [reflexivity|]. case_decide; [|reflexivity]. apply IH. lia.
Qed.

Lemma io_resumed_fuel {B} (op op' : IoOp Sl B) p n n' b : op_below op op' → n ≤ n' →
  below (io_resumed op n p b) (io_resumed op' n' p b).
Proof.
  intros Hop Hn. unfold io_resumed. apply below_bind_same. intros []. apply below_bind_same.
  intros f. case_decide; [|by apply io_loop_fuel].
  destruct Hop as (_ & _ & _ & _ & -> & _ & ->). reflexivity.
Qed.

Lemma op_below_refl {B} (op : IoOp Sl B) : op_below op op.
Proof. split_and!; [intros b; reflexivity|done..]. Qed.

Lemma write_bufs_op_below p n n' : n ≤ n' →
  op_below (write_bufs_op n p) (write_bufs_op n' p).
Proof.
  intros Hn. split_and!; try done. intros bufs. cbn. do 2 (apply below_bind_same; intros ?).
  apply below_bind; [|intros; reflexivity].
  apply world_opt_below. intros w. by apply write_bufs_fuel.
Qed.

Lemma accept_tcp_fuel p n n' : n ≤ n' → below (St := Sys.t Sl) (accept_tcp n p) (accept_tcp n' p).
Proof.
  revert n n'. apply fuel_ind; [done|]. intros n n' Hn IH. cbn [accept_tcp]. below.
Qed.

Lemma call_method_fuel p c n n' : n ≤ n' →
  below (St := Sys.t Sl) (call_method n p c) (call_method n' p c).
Proof.
  intros Hn. destruct c; cbn [call_method]; try reflexivity.
  - by apply accept_tcp_fuel.
  - apply io_loop_fuel; [apply op_below_refl|done].
  - apply io_loop_fuel; [by apply write_bufs_op_below|done].
  - apply io_loop_fuel; [apply op_below_refl|done].
  - apply io_loop_fuel; [apply op_below_refl|done].
Qed.

Lemma call_resumed_fuel p c n n' : n ≤ n' →
  below (St := Sys.t Sl) (call_resumed n p c) (call_resumed n' p c).
Proof.
  intros Hn. destruct c; cbn [call_resumed]; try reflexivity.
  - apply below_bind_same. intros []. by apply accept_tcp_fuel.
  - apply io_resumed_fuel; [apply op_below_refl|done].
  - apply io_resumed_fuel; [by apply write_bufs_op_below|done].
  - apply io_resumed_fuel; [apply op_below_refl|done].
  - apply io_resumed_fuel; [apply op_below_refl|done].
Qed.

Lemma exec_fuel p home n n' code : n ≤ n' →
  below (St := Sys.t Sl) (exec n p home code) (exec n' p home code).
Proof.
  revert n' code. induction n as [|n IH]; intros n' code Hn; [apply below_out_of_fuel|].
  destruct n' as [|n']; [lia|]. cbn [exec]. destruct (act code) as [r|c k]; [reflexivity|].
  apply below_bind; [apply call_method_fuel; lia|]. intros [r|c']; [|reflexivity].
  apply IH. lia.
Qed.

Lemma switch_fuel p t n n' : n ≤ n' → below (St := Sys.t Sl) (switch n p t) (switch n' p t).
Proof.
  intros Hn. destruct t as [|home c k| |]; cbn [switch]; try reflexivity.
  - apply below_bind_same. intros x. unfold context_function. do 6 (apply below_bind_same; intros ?). by apply exec_fuel.
  - apply below_bind; [by apply call_resumed_fuel|]. intros [r|c']; [|reflexivity].
    by apply exec_fuel.
Qed.

Lemma run_turn_fuel p n n' : n ≤ n' → below (St := Sys.t Sl) (run_turn n p) (run_turn n' p).
Proof.
  intros Hn. unfold run_turn. apply below_bind_same. intros f.
  destruct (FiberInt.func f); [|reflexivity]. do 4 (apply below_bind_same; intros ?).
  apply below_bind; [by apply switch_fuel|]. reflexivity.
Qed.

Lemma step_into_fuel p n n' : n ≤ n' → below (St := Sys.t Sl) (step_into n p) (step_into n' p).
Proof.
  revert p n'. induction n as [|n IH]; intros p n' Hn; [apply below_out_of_fuel|].
  destruct n' as [|n']; [lia|]. cbn [step_into].
  apply below_bind; [apply run_turn_fuel; lia|]. intros []. apply below_bind_same.
  intros [q|]; [|reflexivity]. apply IH. lia.
Qed.

Lemma have_addr_fuel p addr n n' : n ≤ n' →
  below (St := Sys.t Sl) (have_addr n p addr) (have_addr n' p addr).
Proof.
  intros Hn. unfold have_addr. do 8 (apply below_bind_same; intros ?).
  case_match; [reflexivity|]. by apply step_into_fuel.
Qed.

Lemma run_toexec_fuel p n n' : n ≤ n' →
  below (St := Sys.t Sl) (run_toexec n p) (run_toexec n' p).
Proof.
  intros Hn. unfold run_toexec. apply below_bind_same. intros f.
  destruct (FiberInt.connect_param f); [|by apply step_into_fuel].
  apply below_bind_same. intros [[nb|e] buf]; [|reflexivity].
  do 2 (apply below_bind_same; intros ?). case_match; [|reflexivity].
  do 2 (apply below_bind_same; intros ?). by apply have_addr_fuel.
Qed.

Lemma run_lookup_fuel p gen addr n n' : n ≤ n' →
  below (St := Sys.t Sl) (run_lookup n p gen addr) (run_lookup n' p gen addr).
Proof.
  intros Hn. unfold run_lookup. apply below_bind_same. intros f. case_decide; [reflexivity|].
  apply below_bind_same. intros ?. by apply have_addr_fuel.
Qed.

Lemma run_timedout_fuel p n n' : n ≤ n' →
  below (St := Sys.t Sl) (run_timedout n p) (run_timedout n' p).
Proof.
  intros Hn. unfold run_timedout. apply below_bind_same. intros f.
  destruct (FiberInt.wtoken f); [|reflexivity]. destruct (FiberInt.connect_param f).
  - do 3 (apply below_bind_same; intros ?). case_decide; [reflexivity|].
    do 2 (apply below_bind_same; intros ?). by apply step_into_fuel.
  - do 2 (apply below_bind_same; intros ?). by apply step_into_fuel.
Qed.

Lemma while_some_fuel {A} (pop : M (option A)) body n n' :
  (∀ n n' x, n ≤ n' → below (body n x) (body n' x)) → n ≤ n' →
  below (while_some pop body n) (while_some pop body n').
Proof.
  intros Hb. revert n'. induction n as [|n IH]; intros n' Hn; [apply below_out_of_fuel|].
  destruct n' as [|n']; [lia|]. cbn [while_some]. apply below_bind_same.
  intros [x|]; [|reflexivity]. apply below_bind; [apply Hb; lia|]. intros []. apply IH. lia.
Qed.

Lemma run_below n n' : n ≤ n' → below (St := Sys.t Sl) (run n) (run n').
Proof.
  intros Hn. unfold run. apply below_bind.
  { apply while_some_fuel; [|done]. intros. by apply run_toexec_fuel. }
  intros []. apply below_bind.
  { apply while_some_fuel; [|done]. intros ? ? [[p gen] addr] ?. by apply run_lookup_fuel. }
  intros []. apply below_bind; [|reflexivity].
  apply while_some_fuel; [|done]. intros. by apply run_timedout_fuel.
Qed.

(** The fuel of [run] is only a bound: a run that does not use it up returns,
    panics and changes the state in the same way with any larger fuel. *)
Theorem run_fuel n n' (s : Sys.t Sl) : n ≤ n' → run n s ≠ OutOfFuel → run n' s = run n s.
Proof. intros Hn Hr. by destruct (run_below n n' Hn s). Qed.
End fuel.
