(* ===== verification/RunnerEval.v ===== *)
(** * Running the runner's methods

    Equations that evaluate the basic methods of Runner on a known state. *)
From stdpp Require Import strings.
From S2P Require Import Prelude Clock Slab Wheel ByteOrder StdText Resolver Poller.
From S2P Require Import Fiber Runner.
Local Open Scope nat_scope.
Local Open Scope list_scope.

Lemma alter_insert {A} (g : A → A) (l : list A) (k : nat) x :
  l !! k = Some x → alter g k l = <[k := g x]> l.
Proof.
  revert k. induction l as [|y l IH]; intros [|k] H; try done; cbn in *; [by simplify_eq|].
  f_equal. by apply IH.
Qed.

Section eval.
Context {N : Net} {Pr : Program} {Sl : Type} {SO : SlabOps Entry.t Sl} {BE : BigEndian}.
Implicit Types (s : Sys.t Sl) (f : FiberInt.t) (r : RunnerInt.t).

Definition fibers_of s : list FiberInt.t := RunnerInt.fibers (Sys.runner s).
Definition with_runner s r : Sys.t Sl := Sys.mk r (Sys.poller s) (Sys.world s).
Definition with_world s (w : W) : Sys.t Sl := Sys.mk (Sys.runner s) (Sys.poller s) w.
Definition with_poller s p : Sys.t Sl := Sys.mk (Sys.runner s) p (Sys.world s).

(** The state after [fibers[i] = f] *)
Definition put s (i : nat) f : Sys.t Sl :=
  with_runner s (RunnerInt.set_fibers (Sys.runner s) (<[i := f]> (fibers_of s))).

Definition push_result s (x : R) : Sys.t Sl :=
  with_runner s (RunnerInt.set_results (Sys.runner s) (RunnerInt.results (Sys.runner s) ++ [x])).
Definition freed s (i : nat) : Sys.t Sl :=
  with_runner s (RunnerInt.set_free (Sys.runner s) (RunnerInt.free_fibers (Sys.runner s) ++ [i])).

Lemma bind_eq {A B} (m : Run (Sys.t Sl) A) (k : A → Run (Sys.t Sl) B) s a s1 o :
  m s = Ok (a, s1) → k a s1 = o → (m ≫= k) s = o.
Proof. unfold mbind, run_bind. by intros -> <-. Qed.

Lemma bind_assoc {A B C} (m : Run (Sys.t Sl) A) (f : A → Run (Sys.t Sl) B) (g : B → Run (Sys.t Sl) C) s :
  ((m ≫= f) ≫= g) s = (a ← m; f a ≫= g) s.
Proof. unfold mbind, run_bind. by destruct (m s) as [[a s1]|e| |]. Qed.

Lemma bind_ext {A B} (m : Run (Sys.t Sl) A) (f g : A → Run (Sys.t Sl) B) s :
  (∀ a s, f a s = g a s) → (m ≫= f) s = (m ≫= g) s.
Proof. intros Hfg. unfold mbind, run_bind. by destruct (m s) as [[a s1]|e| |]. Qed.

(** The first action of a sequence, replaced by what it does *)
Lemma bind_first {A B} (m m' : Run (Sys.t Sl) A) (k : A → Run (Sys.t Sl) B) s s' :
  m s = m' s' → (m ≫= k) s = (m' ≫= k) s'.
Proof. unfold mbind, run_bind. by intros ->. Qed.

Lemma bind_panic {A B} (m : Run (Sys.t Sl) A) (k : A → Run (Sys.t Sl) B) s :
  m s = Panic → (m ≫= k) s = Panic.
Proof. unfold mbind, run_bind. by intros ->. Qed.

Lemma bind_err {A B} (m : Run (Sys.t Sl) A) (k : A → Run (Sys.t Sl) B) s e :
  m s = Err e → (m ≫= k) s = Err e.
Proof. unfold mbind, run_bind. by intros ->. Qed.

Lemma fiber_eq s i f : fibers_of s !! i = Some f → fiber i s = Ok (f, s).
Proof.
  intros Hf. unfold fiber. eapply bind_eq; [done|]. unfold lift.
  eapply bind_step; [by apply index_Ok|done].
Qed.

Lemma set_fiber_eq s i f : i < length (fibers_of s) → set_fiber i f s = Ok (tt, put s i f).
Proof.
  intros Hi. unfold set_fiber. eapply bind_eq; [done|]. eapply bind_eq.
  { unfold lift. eapply bind_step; [by apply store_in|done]. }
  done.
Qed.

Lemma upd_fiber_eq s i g f : fibers_of s !! i = Some f →
  upd_fiber i g s = Ok (tt, put s i (g f)).
Proof.
  intros Hf. unfold upd_fiber. eapply bind_eq; [by apply fiber_eq|].
  apply set_fiber_eq. by eapply lookup_lt_Some.
Qed.

Lemma put_same s i f : i < length (fibers_of s) → fibers_of (put s i f) !! i = Some f.
Proof. intros Hi. by apply list_lookup_insert_eq. Qed.

Lemma put_same' s i f f' : fibers_of s !! i = Some f → fibers_of (put s i f') !! i = Some f'.
Proof. intros Hf. apply put_same. by eapply lookup_lt_Some. Qed.

Lemma put_other s i j f : i ≠ j → fibers_of (put s i f) !! j = fibers_of s !! j.
Proof. intros Hi. by apply list_lookup_insert_ne. Qed.

Lemma put_put s i f f' : put (put s i f) i f' = put s i f'.
Proof.
  unfold put, with_runner, fibers_of, RunnerInt.set_fibers. cbn.
  by rewrite list_insert_insert_eq.
Qed.

Lemma put_id s i f : fibers_of s !! i = Some f → put s i f = s.
Proof.
  intros Hf. unfold put, with_runner, RunnerInt.set_fibers. rewrite list_insert_id by done.
  by destruct s as [[] ? ?].
Qed.

Lemma take_result_of_eq s i f : fibers_of s !! i = Some f →
  take_result_of i s = Ok (FiberInt.result f, put s i (FiberInt.set_result f None)).
Proof.
  intros Hf. unfold take_result_of. eapply bind_eq; [by apply fiber_eq|].
  eapply bind_eq; [|done]. apply set_fiber_eq. by eapply lookup_lt_Some.
Qed.

(** The queue of the runner exists, as it does for the 20 runners of a thread. *)
Definition has_queue s : Prop :=
  is_Some (PollerInt.toexec_fibers (Sys.poller s) !! Z.to_nat (RunnerInt.pos (Sys.runner s))).

(** The state after [push_toexec(i)] *)
Definition queued s (i : nat) : Sys.t Sl :=
  let k := Z.to_nat (RunnerInt.pos (Sys.runner s)) in
  let p := Sys.poller s in
  with_poller s (PollerInt.set_toexec p
    (alter (λ q, q ++ [Z.of_nat i]) k (PollerInt.toexec_fibers p))).

Lemma push_toexec_eq s i : has_queue s → push_toexec i s = Ok (tt, queued s i).
Proof.
  intros [q Hq]. unfold push_toexec. eapply bind_eq; [done|].
  unfold poller, PollerInt.toexec_push, PollerInt.push_back.
  rewrite (proj2 (index_Ok _ _ _) Hq). mstep.
  rewrite store_in by (by eapply lookup_lt_Some). mstep.
  unfold queued, with_poller. by rewrite (alter_insert _ _ _ _ Hq).
Qed.

Lemma step_out_eq s i f : fibers_of s !! i = Some f → FiberInt.trans f = Some Main →
  step_out i s = Ok (tt, put s i (FiberInt.set_trans f None)).
Proof.
  intros Hf Ht. unfold step_out. eapply bind_eq; [by apply fiber_eq|]. rewrite Ht.
  apply set_fiber_eq. by eapply lookup_lt_Some.
Qed.
End eval.
