(* ===== verification/RunnerIo.v ===== *)
(** * Fibers that wait in a socket operation

    How the two events that end the wait of [read], [write], [read_bufs],
    [write_bufs] and the TLS handshakes, the socket and the timer, reach the fiber's
    code. *)
From stdpp Require Import strings.
From S2P Require Import Prelude Clock Slab Wheel ByteOrder StdText Resolver Poller.
From S2P Require Import Fiber Runner RunnerEval.
Local Open Scope nat_scope.
Local Open Scope list_scope.

Section io.
Context {N : Net} {Pr : Program} {Sl : Type} {SO : SlabOps Entry.t Sl} {BE : BigEndian}.
Implicit Types (s : Sys.t Sl) (f : FiberInt.t).
Abbreviation M := (Run (Sys.t Sl)).

(** What a socket operation replies when it times out; [None] for other calls *)
Definition timeout_reply (c : Call P R FiberFn) : option (Reply R) :=
  match c with
  | CReadBufs bufs => Some (RReadBufs (fail TimedOut "read timeout") bufs)
  | CRead buf => Some (RRead (fail TimedOut "read timeout") buf)
  | CWriteBufs _ | CWrite _ => Some (RSize (fail TimedOut "write timeout"))
  | _ => None
  end.

(** The rest of the turn of [p], from the call [m] of its code on: its code goes on
    with the reply, or waits again.  [home] is where the reference in its frames
    points. *)
Definition goes_on (n p home : nat) (m : M progress) (k : Reply R → Code) : M unit :=
  r ← m;
  t ← match r with Done r => exec n p home (k r) | Blocked c => mret (Waiting home c k) end;
  upd_fiber p (λ f, FiberInt.set_trans f (Some t));;
  next ← stepped_out p;
  match next with Some parent => step_into n parent | None => mret tt end.

(** A fiber that runs again, and has no timer *)
Definition awake f : FiberInt.t := FiberInt.set_wtoken (FiberInt.set_trans f (Some Main)) None.

(** A turn of a fiber that waits, from the call it waits in *)
Lemma step_into_waiting n s p f home c k : fibers_of s !! p = Some f →
  is_Some (FiberInt.func f) → FiberInt.trans f = Some (Waiting home c k) →
  step_into (S n) p s = goes_on n p home (call_resumed n p c) k (put s p (FiberInt.set_trans f None)).
Proof.
  intros Hf [fn Hfn] Ht. cbn [step_into]. unfold goes_on.
  assert (run_turn n p s = (r ← call_resumed n p c;
      t ← match r with Done r => exec n p home (k r) | Blocked c => mret (Waiting home c k) end;
      upd_fiber p (λ f, FiberInt.set_trans f (Some t))) (put s p (FiberInt.set_trans f None)))
    as Hturn.
  { unfold run_turn. eapply bind_eq; [by apply fiber_eq|]. rewrite Hfn, Ht.
    eapply bind_eq; [done|]. eapply bind_eq; [by apply fiber_eq|].
    eapply bind_eq; [by apply set_fiber_eq; eapply lookup_lt_Some|]. rewrite Ht.
    eapply bind_eq; [done|]. apply bind_assoc. }
  rewrite (bind_first _ _ _ _ _ Hturn), bind_assoc. apply bind_ext. intros r s1.
  apply bind_assoc.
Qed.

(** A method of the poller does not look at the runner. *)
Lemma timer_cancel_put tk s s1 p f : timer_cancel tk s = Ok (tt, s1) →
  timer_cancel tk (put s p f) = Ok (tt, put s1 p f).
Proof.
  intros ([[] q] & Hq%widen_Ok & [= <-])%bind_Ok. unfold timer_cancel, poller. cbn.
  eapply bind_step; [by apply widen_Ok|done].
Qed.

Lemma timer_cancel_fibers tk s s1 : timer_cancel tk s = Ok (tt, s1) → fibers_of s1 = fibers_of s.
Proof. by intros ([[] q] & _ & [= <-])%bind_Ok. Qed.

(** After the switch back: the timer, if there still is one, is cancelled. *)
Lemma timed_stepped_back_none s p f : fibers_of s !! p = Some f → FiberInt.wtoken f = None →
  timed_stepped_back p s = Ok (tt, put s p (awake f)).
Proof.
  intros Hf Hw. unfold timed_stepped_back. eapply bind_eq; [by apply upd_fiber_eq|].
  eapply bind_eq; [by eapply fiber_eq, put_same'|]. cbn. rewrite Hw.
  unfold awake. f_equal. f_equal. f_equal. destruct f. cbn in *. by subst.
Qed.

Lemma timed_stepped_back_some s s1 p f tk : fibers_of s !! p = Some f → FiberInt.wtoken f = Some tk →
  timer_cancel tk s = Ok (tt, s1) → timed_stepped_back p s = Ok (tt, put s1 p (awake f)).
Proof.
  intros Hf Hw Htk. pose proof (timer_cancel_fibers _ _ _ Htk) as Hfs.
  unfold timed_stepped_back. eapply bind_eq; [by apply upd_fiber_eq|].
  eapply bind_eq; [by eapply fiber_eq, put_same'|]. cbn. rewrite Hw.
  eapply bind_eq; [by apply timer_cancel_put|].
  erewrite upd_fiber_eq by (apply put_same; rewrite Hfs; by eapply lookup_lt_Some).
  by rewrite put_put.
Qed.

(** A socket operation goes on: it times out, or is tried again from the start. *)
Lemma io_call_resumed n p c late s s1 f : timeout_reply c = Some late →
  timed_stepped_back p s = Ok (tt, s1) → fibers_of s1 !! p = Some f →
  call_resumed n p c s =
    if decide (0 < FiberInt.timed_out f)%Z
    then Ok (Done late, put s1 p (FiberInt.set_timed_out f 0)) else call_method n p c s1.
Proof.
  intros Hc Hb Hf.
  assert (∀ B (op : IoOp Sl B) b, reply op (fail TimedOut (timeout_msg op)) b = late →
    io_resumed op n p b s = if decide (0 < FiberInt.timed_out f)%Z
      then Ok (Done late, put s1 p (FiberInt.set_timed_out f 0)) else io_loop op n p b s1) as Hop.
  { intros B op b Hr. unfold io_resumed. eapply bind_eq; [exact Hb|].
    eapply bind_eq; [by apply fiber_eq|]. case_decide; [|done].
    eapply bind_eq; [by apply set_fiber_eq; eapply lookup_lt_Some|]. by rewrite Hr. }
  destruct c; cbn in Hc; try done; injection Hc as <-; by apply Hop.
Qed.

(** The turn of a fiber that the timer wakes, and of one that its socket wakes *)
Lemma timer_wakes n s p f tk home c k : fibers_of s !! p = Some f → is_Some (FiberInt.func f) →
  FiberInt.trans f = Some (Waiting home c k) → FiberInt.connect_param f = None →
  FiberInt.wtoken f = Some tk →
  run_timedout (S n) p s = goes_on n p home (call_resumed n p c) k
    (put s p (FiberInt.set_trans (FiberInt.set_timed_out (FiberInt.set_wtoken f None) 1) None)).
Proof.
  intros Hf Hfn Ht Hcp Hw. assert (p < length (fibers_of s)) as Hp by (by eapply lookup_lt_Some).
  set (g := FiberInt.set_timed_out (FiberInt.set_wtoken f None) 1).
  assert (run_timedout (S n) p s = step_into (S n) p (put s p g)) as ->.
  { unfold run_timedout. eapply bind_eq; [by apply fiber_eq|]. rewrite Hw, Hcp.
    eapply bind_eq; [by apply upd_fiber_eq|].
    eapply bind_eq; [by apply upd_fiber_eq, put_same|]. by rewrite put_put. }
  rewrite (step_into_waiting n _ p g home c k); [|by apply put_same|done|done]. by rewrite put_put.
Qed.

Lemma socket_wakes n s p f home c k : fibers_of s !! p = Some f → is_Some (FiberInt.func f) →
  FiberInt.trans f = Some (Waiting home c k) → FiberInt.connect_param f = None →
  run_toexec (S n) p s = goes_on n p home (call_resumed n p c) k (put s p (FiberInt.set_trans f None)).
Proof.
  intros Hf Hfn Ht Hcp. rewrite <- (step_into_waiting n _ p f home c k) by done.
  unfold run_toexec. eapply bind_eq; [by apply fiber_eq|]. by rewrite Hcp.
Qed.

(** The timer of a woken fiber is gone. *)
Lemma timer_gone s p f : fibers_of s !! p = Some f →
  timed_stepped_back p (put s p (FiberInt.set_trans
    (FiberInt.set_timed_out (FiberInt.set_wtoken f None) 1) None))
  = Ok (tt, put s p (FiberInt.set_timed_out (awake f) 1)).
Proof.
  intros Hf. erewrite timed_stepped_back_none; [|by eapply put_same'|done]. by rewrite put_put.
Qed.

Lemma timer_cancelled s s1 p f tk : fibers_of s !! p = Some f → FiberInt.wtoken f = Some tk →
  timer_cancel tk s = Ok (tt, s1) →
  timed_stepped_back p (put s p (FiberInt.set_trans f None)) = Ok (tt, put s1 p (awake f)).
Proof.
  intros Hf Hw Htk. erewrite timed_stepped_back_some;
    [|by eapply put_same'|done|by apply timer_cancel_put]. by rewrite put_put.
Qed.

(** C16. A fiber that waits in [read], [write], [read_bufs] or [write_bufs] goes on
    when its socket is signalled or when its timer fires.  A timer that fires is
    gone, and makes the call return [TimedOut] without another look at the socket;
    the mark of the timeout is cleared, so that the next operation starts afresh.
    A socket that is signalled first has the timer cancelled, and the call starts
    again from its beginning.  In both cases the fiber's code goes on in that
    turn. *)
Theorem blocked_io_resumes n s p f tk home c k late :
  fibers_of s !! p = Some f → is_Some (FiberInt.func f) →
  FiberInt.trans f = Some (Waiting home c k) → timeout_reply c = Some late →
  FiberInt.connect_param f = None → FiberInt.wtoken f = Some tk → FiberInt.timed_out f = 0%Z →
  run_timedout (S n) p s = goes_on n p home (mret (Done late)) k (put s p (awake f))
  ∧ ∀ s1, timer_cancel tk s = Ok (tt, s1) →
      run_toexec (S n) p s = goes_on n p home (call_method n p c) k (put s1 p (awake f)).
Proof.
  intros Hf Hfn Ht Hc Hcp Hw H0. split.
  - rewrite (timer_wakes n s p f tk home c k) by done. apply bind_first.
    erewrite io_call_resumed; [|exact Hc|by apply timer_gone|by eapply put_same'].
    rewrite decide_True by done. rewrite put_put. cbn. do 3 f_equal. destruct f. cbn in *. by subst.
  - intros s1 Htk. pose proof (timer_cancel_fibers _ _ _ Htk) as Hfs.
    rewrite (socket_wakes n s p f home c k) by done. apply bind_first.
    erewrite io_call_resumed; [|exact Hc|by eapply timer_cancelled|eapply put_same'; by rewrite Hfs].
    by rewrite decide_False by (cbn; by rewrite H0).
Qed.

(** ** Handshakes *)
Definition handshakes (c : Call P R FiberFn) : bool :=
  match c with CTlsConnect _ _ | CTlsAccept _ => true | _ => false end.

Lemma handshake_resumed n p c s : handshakes c = true →
  call_resumed n p c s = tls_handshake_resumed p c s.
Proof. by destruct c. Qed.

(** What an interrupted handshake does: it registers the socket and waits. *)
Definition waits_for_handshake (p : nat) (c : Call P R FiberFn) : M progress :=
  reg ← fiber_register p readable;
  match reg with
  | inl _ => timed_step_out p;; mret (Blocked c)
  | inr err => mret (Done (RIoUnit (inr err)))
  end.

Lemma handshake_steps n s s1 p f tk c mid r w : fibers_of s !! p = Some f → handshakes c = true →
  FiberInt.wtoken f = Some tk → FiberInt.timed_out f = 0%Z → FiberInt.sock f = TlsTemp mid →
  timer_cancel tk s = Ok (tt, s1) → mid_handshake (Sys.world s1) mid = (r, w) →
  let s2 sock := put (with_world s1 w) p (FiberInt.set_sock (awake f) sock) in
  call_resumed n p c (put s p (FiberInt.set_trans f None)) =
    match r with
    | TlsOk tls => Ok (Done (RIoUnit (inl tt)), s2 (Tls tls))
    | TlsFailure => Ok (Done (RIoUnit (fail Other "tls failure")), s2 Empty)
    | TlsInterrupted mid' => waits_for_handshake p c (s2 (TlsTemp mid'))
    end.
Proof.
  intros Hf Hc Hw H0 Hsock Htk Hmid s2. pose proof (timer_cancel_fibers _ _ _ Htk) as Hfs.
  assert (fibers_of s1 !! p = Some f) as Hf1 by (by rewrite Hfs).
  rewrite handshake_resumed by done. eapply bind_eq; [by eapply timer_cancelled|].
  eapply bind_eq; [by eapply fiber_eq, put_same'|]. rewrite decide_False by (cbn; by rewrite H0).
  eapply bind_eq.
  { unfold take_sock. eapply bind_eq; [by eapply fiber_eq, put_same'|].
    eapply bind_eq; [by eapply set_fiber_eq, lookup_lt_Some, put_same'|reflexivity]. }
  cbn [FiberInt.sock awake FiberInt.set_wtoken FiberInt.set_trans]. rewrite Hsock, put_put.
  eapply bind_eq; [unfold world; cbn; by rewrite Hmid|].
  change (Sys.mk _ _ w) with (s2 Empty).
  assert (∀ sock, upd_fiber p (λ f, FiberInt.set_sock f sock) (s2 Empty) = Ok (tt, s2 sock)) as Hset.
  { intros sock. erewrite upd_fiber_eq by (by eapply put_same'). unfold s2. by rewrite put_put. }
  destruct r as [tls|mid'|]; cbn [tls_handshake]; [|by eapply bind_eq|done].
  eapply bind_eq; [by apply Hset|done].
Qed.

(** C17. A fiber that waits in a TLS handshake goes on when its socket is signalled or
    when its timer fires.  A timer that fires makes the call return [TimedOut], with
    the mark of the timeout cleared; the unfinished handshake stays in the fiber's
    socket.  A socket that is signalled first has the timer cancelled and takes the
    handshake one step further: when it is complete the fiber has its TLS stream and
    the call returns, when it fails the fiber has no socket any more, and when it is
    interrupted again the socket is registered and the fiber waits in the same call. *)
Theorem blocked_tls_resumes n s p f tk home c k mid :
  fibers_of s !! p = Some f → is_Some (FiberInt.func f) →
  FiberInt.trans f = Some (Waiting home c k) → handshakes c = true →
  FiberInt.connect_param f = None → FiberInt.wtoken f = Some tk → FiberInt.timed_out f = 0%Z →
  FiberInt.sock f = TlsTemp mid →
  run_timedout (S n) p s = goes_on n p home (mret (Done (RIoUnit (fail TimedOut "write timeout")))) k
    (put s p (awake f))
  ∧ ∀ s1 r w, timer_cancel tk s = Ok (tt, s1) → mid_handshake (Sys.world s1) mid = (r, w) →
    let s2 sock := put (with_world s1 w) p (FiberInt.set_sock (awake f) sock) in
    run_toexec (S n) p s =
      match r with
      | TlsOk tls => goes_on n p home (mret (Done (RIoUnit (inl tt)))) k (s2 (Tls tls))
      | TlsFailure => goes_on n p home (mret (Done (RIoUnit (fail Other "tls failure")))) k (s2 Empty)
      | TlsInterrupted mid' => goes_on n p home (waits_for_handshake p c) k (s2 (TlsTemp mid'))
      end.
Proof.
  intros Hf Hfn Ht Hc Hcp Hw H0 Hsock. split.
  - rewrite (timer_wakes n s p f tk home c k) by done. apply bind_first. rewrite handshake_resumed by done.
    eapply bind_eq; [by apply timer_gone|]. eapply bind_eq; [by eapply fiber_eq, put_same'|].
    rewrite decide_True by done. eapply bind_eq.
    { eapply set_fiber_eq, lookup_lt_Some. by eapply put_same'. }
    rewrite put_put. cbn. do 3 f_equal. destruct f. cbn in *. by subst.
  - intros s1 r w Htk Hmid s2.
    rewrite (socket_wakes n s p f home c k) by done.
    pose proof (handshake_steps n s s1 p f tk c mid r w Hf Hc Hw H0 Hsock Htk Hmid) as Hstep.
    destruct r; apply bind_first; exact Hstep.
Qed.
End io.
