(* ===== verification/RunnerOrder.v ===== *)
(** * The order in which a run resumes fibers

    A fiber's turn only appends to the runner's queues and to what the main stack
    will take ([grows]).  A call of [run] therefore serves the queues first in,
    first out: the fibers that were queued, then the ones queued meanwhile, then
    the lookups and the timers, none skipped and none twice. *)
From stdpp Require Import strings.
From S2P Require Import Prelude Clock TimerConfig Slab Wheel WheelInv WheelSpec.
From S2P Require Import ByteOrder StdText Resolver Poller PollerProps.
From S2P Require Import Fiber Runner RunnerEval.
Local Open Scope nat_scope.
Local Open Scope list_scope.

Section order.
Context {N : Net} {Pr : Program} {Sl : Type} {SO : SlabOps Entry.t Sl} {BE : BigEndian}.
Implicit Types (s : Sys.t Sl) (p : PollerInt.t Sl Stack).
Abbreviation M := (Run (Sys.t Sl)).

(** ** What a turn does to the queues *)

(** The queues of the poller: fibers of the runner [r] to resume are appended, the
    others wait, and the queues of other runners stay as they are. *)
Record poller_grows (r : nat) p p' : Prop := {
  grows_toexec : queue (PollerInt.toexec_fibers p) r `prefix_of` queue (PollerInt.toexec_fibers p') r;
  grows_apart : ∀ j, j ≠ r →
    queue (PollerInt.toexec_fibers p') j = queue (PollerInt.toexec_fibers p) j;
  grows_timedout : PollerInt.timedout_fibers p' = PollerInt.timedout_fibers p;
  grows_lookups : PollerInt.lookup_results p' = PollerInt.lookup_results p
}.

(** The runner: fibers, and what it holds for the main stack, are appended. *)
Record runner_grows (r r' : RunnerInt.t) : Prop := {
  grows_pos : RunnerInt.pos r' = RunnerInt.pos r;
  grows_fibers : length (RunnerInt.fibers r) ≤ length (RunnerInt.fibers r');
  grows_results : RunnerInt.results r `prefix_of` RunnerInt.results r';
  grows_tomain : RunnerInt.tomain_fibers r `prefix_of` RunnerInt.tomain_fibers r'
}.

Definition grows s s' : Prop :=
  runner_grows (Sys.runner s) (Sys.runner s')
  ∧ poller_grows (Z.to_nat (RunnerInt.pos (Sys.runner s))) (Sys.poller s) (Sys.poller s').

#[export] Instance poller_grows_preorder r : PreOrder (poller_grows r).
Proof.
  split.
  - intros p. by split.
  - intros p1 p2 p3 [? Ha1 ??] [? Ha2 ??]. split; [by etrans| |congruence..].
    intros j Hj. by rewrite Ha2, Ha1.
Qed.
#[export] Instance runner_grows_preorder : PreOrder runner_grows.
Proof.
  split.
  - intros r. by split.
  - intros r1 r2 r3 [] []. split; [congruence|lia|etrans; eauto..].
Qed.
#[export] Instance grows_preorder : PreOrder grows.
Proof.
  split; [intros s; by split|]. intros s1 s2 s3 [Hr1 Hp1] [Hr2 Hp2].
  rewrite (grows_pos _ _ Hr1) in Hp2. split; by etrans.
Qed.

(** [m] only lets the state grow. *)
Definition growing {A} (m : M A) : Prop := ∀ s a s', m s = Ok (a, s') → grows s s'.

Lemma growing_bind {A B} (m : M A) (f : A → M B) :
  growing m → (∀ a, growing (f a)) → growing (m ≫= f).
Proof.
  intros Hm Hf s b s' (a & s1 & Ha & Hb)%run_bind_Ok.
  transitivity s1; [by eapply Hm|by eapply Hf].
Qed.

(** Reading the state, or failing, leaves it alone. *)
Lemma growing_pure {A} (m : M A) : (∀ s a s', m s = Ok (a, s') → s' = s) → growing m.
Proof. intros Hm s a s' ->%Hm. reflexivity. Qed.

Lemma growing_ret {A} (a : A) : growing (mret a).
Proof. apply growing_pure. by intros s ? ? [= _ <-]. Qed.
Lemma growing_panic {A} : growing (A := A) panic.
Proof. by intros s a s' [=]. Qed.
Lemma growing_undefined {A} u : growing (A := A) (undefined u).
Proof. by intros s a s' [=]. Qed.
Lemma growing_out_of_fuel {A} : growing (A := A) out_of_fuel.
Proof. by intros s a s' [=]. Qed.
Lemma growing_lift {A} (o : outcome Undefined A) : growing (lift o).
Proof. apply growing_pure. intros s a s' H. by apply bind_Ok in H as (? & _ & [= _ <-]). Qed.
Lemma growing_get_runner : growing get_runner.
Proof. apply growing_pure. by intros s ? ? [= _ <-]. Qed.
Lemma growing_get_poller : growing get_poller.
Proof. apply growing_pure. by intros s ? ? [= _ <-]. Qed.

Lemma growing_upd_runner g : (∀ r, runner_grows r (g r)) → growing (upd_runner g).
Proof. intros Hg s a s' [= _ <-]. split; [apply Hg|reflexivity]. Qed.

Lemma growing_poller {A} (g : PollerInt.t Sl Stack → outcome Empty_set (A * PollerInt.t Sl Stack)) :
  (∀ r p a p', g p = Ok (a, p') → poller_grows r p p') → growing (poller g).
Proof.
  intros Hg s a s' ([x p'] & Hx%widen_Ok & [= _ <-])%bind_Ok. split; [reflexivity|by eapply Hg].
Qed.

Lemma growing_world {A} (g : W → A * W) : growing (world g).
Proof. intros s a s' H. unfold world in H. destruct (g _). injection H as _ <-. by split. Qed.
Lemma growing_world_opt {A} (g : W → outcome Empty_set (A * W)) : growing (world_opt g).
Proof. intros s a s' ([x w'] & _ & [= _ <-])%bind_Ok. by split. Qed.

Lemma push_back_grows (queues queues' : list (list Z)) r x :
  PollerInt.push_back queues r x = Ok queues' →
  queue queues r `prefix_of` queue queues' r ∧ ∀ j, j ≠ r → queue queues' j = queue queues j.
Proof.
  intros H. assert (r < length queues) as Hr.
  { apply bind_Ok in H as (q & Hq%index_Ok & _). by eapply lookup_lt_Some. }
  destruct (push_back_spec queues r x Hr) as (q' & Hq' & _ & Hj).
  rewrite H in Hq'. injection Hq' as <-. split.
  - rewrite Hj. by eexists.
  - intros j Hne. rewrite Hj, decide_False by done. apply app_nil_r.
Qed.

(** A method of the poller that leaves its queues alone *)
Lemma same_queues_grows r p p' :
  PollerInt.toexec_fibers p' = PollerInt.toexec_fibers p →
  PollerInt.timedout_fibers p' = PollerInt.timedout_fibers p →
  PollerInt.lookup_results p' = PollerInt.lookup_results p → poller_grows r p p'.
Proof. intros Ht ? ?. split; [by rewrite Ht| |done..]. intros j _. by rewrite Ht. Qed.

Lemma growing_push_toexec i : growing (push_toexec i).
Proof.
  intros s a s' (r & s1 & [= <- <-] & H)%run_bind_Ok.
  apply bind_Ok in H as ([y p] & Hx%widen_Ok & [= _ <-]).
  apply bind_Ok in Hx as (x & (q & Hq & [= <-])%bind_Ok & [= _ <-]).
  split; [reflexivity|]. apply push_back_grows in Hq as [? ?]. by split.
Qed.

Lemma growing_timer_reg id dur : growing (timer_reg id dur).
Proof.
  apply growing_bind; [apply growing_world|]. intros now. apply growing_poller.
  intros r p a p' H. unfold PollerInt.timer_reg in H.
  apply bind_Ok in H as ([[tk|] w] & _ & H); [|injection H as _ <-; by apply same_queues_grows].
  apply bind_Ok in H as (at_ & _ & H). apply bind_Ok in H as (w' & _ & [= _ <-]).
  by apply same_queues_grows.
Qed.

Lemma growing_timer_cancel tk : growing (timer_cancel tk).
Proof.
  apply growing_poller. intros r p a p' (x & (w & _ & [= <-])%bind_Ok & [= _ <-])%bind_Ok.
  by apply same_queues_grows.
Qed.

Lemma growing_stack_push stack : growing (stack_push stack).
Proof. apply growing_poller. intros r p a p' [= _ <-]. by apply same_queues_grows. Qed.

Lemma growing_stack_pop : growing stack_pop.
Proof.
  intros s a s' ([[x p] w] & H%widen_Ok & [= _ <-])%bind_Ok. split; [reflexivity|].
  unfold PollerInt.stack_pop in H. destruct (PollerInt.free_stacks _);
    [|simplify_eq; by apply same_queues_grows].
  destruct (PollerInt.stack_size _).
  - destruct (new_stack _ _). apply bind_Ok in H as (? & _ & [= _ <- _]). by apply same_queues_grows.
  - destruct (default_stack _). simplify_eq. by apply same_queues_grows.
Qed.

Lemma growing_set_fiber i f : growing (set_fiber i f).
Proof.
  intros s a s' H. unfold set_fiber in H.
  apply run_bind_Ok in H as (r & s1 & [= <- <-] & H).
  apply run_bind_Ok in H as (fs & s1 & (fs' & Hfs & [= <- <-])%bind_Ok & [= _ <-]).
  split; [|reflexivity]. unfold store in Hfs. case_decide; [|done]. injection Hfs as <-.
  split; cbn; rewrite ?length_insert; done.
Qed.
End order.

Create HintDb order.
#[export] Hint Resolve growing_ret growing_panic growing_undefined growing_out_of_fuel growing_lift
  growing_get_runner growing_get_poller growing_world growing_world_opt growing_push_toexec
  growing_timer_reg growing_timer_cancel growing_stack_push growing_stack_pop
  growing_set_fiber : order.

(** Goes through a method, in all its branches. *)
Ltac grow :=
  repeat first
  [ solve [auto 2 with order nocore]
  | progress intros
  | match goal with
    | |- growing (_ ≫= _) => apply growing_bind
    | |- growing (match ?x with _ => _ end) => destruct x
    | |- growing (let '_ := ?x in _) => destruct x
    end ].

Section turns.
Context {N : Net} {Pr : Program} {Sl : Type} {SO : SlabOps Entry.t Sl} {BE : BigEndian}.
Implicit Types (s : Sys.t Sl).
Abbreviation M := (Run (Sys.t Sl)).

(** ** The methods *)
Lemma growing_fiber i : growing (Sl := Sl) (fiber i).
Proof. unfold fiber. grow. Qed.
#[local] Hint Resolve growing_fiber : order.

Lemma growing_upd_fiber i g : growing (Sl := Sl) (upd_fiber i g).
Proof. unfold upd_fiber. grow. Qed.
#[local] Hint Resolve growing_upd_fiber : order.

Lemma growing_try {A B} (m : M (io A)) (k : A → M (io B)) :
  growing m → (∀ a, growing (k a)) → growing (try m k).
Proof. intros. unfold try. grow. Qed.

Lemma growing_fiber_register i rdy : growing (Sl := Sl) (fiber_register i rdy).
Proof. unfold fiber_register. grow. Qed.
#[local] Hint Resolve growing_fiber_register : order.

(** The changes of the runner outside its fibers *)
Lemma growing_push_free i : growing (Sl := Sl) (push_free i).
Proof. by apply growing_upd_runner. Qed.
Lemma growing_push_tomain i : growing (Sl := Sl) (push_tomain i).
Proof. apply growing_upd_runner. intros r. split; cbn; try done. by eexists. Qed.
#[local] Hint Resolve growing_push_free growing_push_tomain : order.

Lemma growing_take_result i : growing (Sl := Sl) (take_result i).
Proof.
  unfold take_result, take_result_of. grow. apply growing_upd_runner. intros x.
  split; cbn; try done. by eexists.
Qed.
#[local] Hint Resolve growing_take_result : order.

Lemma growing_cancel_timer i : growing (Sl := Sl) (cancel_timer i).
Proof. unfold cancel_timer. grow. Qed.
#[local] Hint Resolve growing_cancel_timer : order.

Lemma growing_register func ft param parent schedule :
  growing (Sl := Sl) (register func ft param parent schedule).
Proof.
  unfold register, fiber_id, try. grow.
  all: apply growing_upd_runner; intros x; split; autorewrite with push; try done.
  rewrite length_app. lia.
Qed.
#[local] Hint Resolve growing_register : order.

Lemma growing_new_resolve parent domain func to st port param :
  growing (Sl := Sl) (new_resolve parent domain func to st port param).
Proof. unfold new_resolve, fiber_id, try. grow. Qed.
#[local] Hint Resolve growing_new_resolve : order.

Lemma growing_timed_step_out i : growing (Sl := Sl) (timed_step_out i).
Proof. unfold timed_step_out, step_out. grow. Qed.
Lemma growing_timed_stepped_back i : growing (Sl := Sl) (timed_stepped_back i).
Proof. unfold timed_stepped_back, stepped_back. grow. Qed.
#[local] Hint Resolve growing_timed_step_out growing_timed_stepped_back : order.

Lemma growing_io_loop {B} (op : IoOp Sl B) n i b :
  (∀ b, growing (attempt op b)) → growing (io_loop op n i b).
Proof.
  intros Ha. revert b. induction n as [|n IH]; intros b; cbn [io_loop]; grow.
Qed.

Lemma growing_io_resumed {B} (op : IoOp Sl B) n i b :
  (∀ b, growing (attempt op b)) → growing (io_resumed op n i b).
Proof. intros Ha. unfold io_resumed. grow. by apply growing_io_loop. Qed.

Lemma growing_attempts i n :
  (∀ b, growing (attempt (Sl := Sl) (read_op i) b))
  ∧ (∀ b, growing (attempt (Sl := Sl) (read_bufs_op i) b))
  ∧ (∀ b, growing (attempt (Sl := Sl) (write_op i) b))
  ∧ (∀ b, growing (attempt (Sl := Sl) (write_bufs_op n i) b)).
Proof. split_and!; intros b; cbn; grow. by apply growing_upd_runner. Qed.

Lemma growing_accept_tcp n i : growing (Sl := Sl) (accept_tcp n i).
Proof. induction n as [|n IH]; cbn [accept_tcp]; unfold step_out; grow. Qed.

Lemma growing_tls_handshake i c cr : growing (Sl := Sl) (tls_handshake i c cr).
Proof. unfold tls_handshake. grow. Qed.
#[local] Hint Resolve growing_accept_tcp growing_tls_handshake : order.

Lemma growing_child_iter i : growing (Sl := Sl) (child_iter i).
Proof.
  assert (∀ n, growing (Sl := Sl) (child_iter_loop n i)) as Hloop.
  { induction n as [|n IH]; cbn [child_iter_loop]; unfold take_result_of, step_out; grow. }
  unfold child_iter. grow.
Qed.
#[local] Hint Resolve growing_child_iter : order.

Lemma growing_call_method n i c : growing (Sl := Sl) (call_method n i c).
Proof.
  destruct (growing_attempts i n) as (? & ? & ? & ?).
  destruct c; cbn [call_method]; try by apply growing_io_loop.
  all: unfold resp_chunk, tcp_tls_connect, tcp_tls_accept, take_sock, join_main,
    hibernate_for_read, hibernate_join_main, socket_timeout, flush, step_out; grow.
Qed.

Lemma growing_call_resumed n i c : growing (Sl := Sl) (call_resumed n i c).
Proof.
  destruct (growing_attempts i n) as (? & ? & ? & ?).
  destruct c; cbn [call_resumed]; try by apply growing_io_resumed.
  all: unfold resp_chunk_resumed, accept_tcp_resumed, tls_handshake_resumed, take_sock,
    join_main_resumed, take_result_of, child_iter_resumed, hibernate_for_read_resumed,
    hibernate_join_main_resumed, stepped_back; grow.
Qed.
#[local] Hint Resolve growing_call_method growing_call_resumed : order.

(** ** Turns *)
Lemma growing_exec n i home code : growing (Sl := Sl) (exec n i home code).
Proof.
  revert code. induction n as [|n IH]; intros code; cbn [exec];
    unfold context_end, step_out; grow.
Qed.
#[local] Hint Resolve growing_exec : order.

Lemma growing_step_into n i : growing (Sl := Sl) (step_into n i).
Proof.
  revert i. induction n as [|n IH]; intros i; cbn [step_into];
    unfold run_turn, switch, context_function, stepped_out, unstack; grow.
Qed.
#[local] Hint Resolve growing_step_into : order.

Lemma growing_have_addr n i addr : growing (Sl := Sl) (have_addr n i addr).
Proof. unfold have_addr. grow. Qed.
#[local] Hint Resolve growing_have_addr : order.

Lemma growing_run_toexec n i : growing (Sl := Sl) (run_toexec n i).
Proof. unfold run_toexec. grow. Qed.
Lemma growing_run_lookup n i gen addr : growing (Sl := Sl) (run_lookup n i gen addr).
Proof. unfold run_lookup. grow. Qed.
Lemma growing_run_timedout n i : growing (Sl := Sl) (run_timedout n i).
Proof. unfold run_timedout, fiber_id. grow. Qed.

(** ** Serving a queue *)

(** [serves pop body n l s s']: from [s] to [s'], the elements [l] have been popped
    and given to [body], one after the other; [n] is the fuel. *)
Inductive serves {A} (pop : M (option A)) (body : nat → A → M unit) :
    nat → list A → Sys.t Sl → Sys.t Sl → Prop :=
| serves_none n s : serves pop body n [] s s
| serves_next n x l s s0 s1 s2 :
    pop s = Ok (Some x, s0) → body n x s0 = Ok (tt, s1) → serves pop body n l s1 s2 →
    serves pop body (S n) (x :: l) s s2.

Lemma while_some_serves {A} (pop : M (option A)) body (q : Sys.t Sl → list A) n s s' :
  (∀ s o s1, pop s = Ok (o, s1) →
     match o with Some x => q s = x :: q s1 | None => q s = [] ∧ s1 = s end) →
  (∀ n x s s1, body n x s = Ok (tt, s1) → q s `prefix_of` q s1) →
  while_some pop body n s = Ok (tt, s') →
  q s' = [] ∧ ∃ more, serves pop body n (q s ++ more) s s'
    ∧ ((∀ n x s s1, body n x s = Ok (tt, s1) → q s1 = q s) → more = []).
Proof.
  intros Hpop Hbody. revert s. induction n as [|n IH]; intros s H; [done|].
  cbn [while_some] in H. apply run_bind_Ok in H as ([x|] & s0 & Hx & H).
  - apply run_bind_Ok in H as ([] & s1 & H1 & H). apply IH in H as (Hend & more & Hs & Hmore).
    split; [done|]. destruct (Hbody _ _ _ _ H1) as [k Hk]. exists (k ++ more).
    rewrite (Hpop _ _ _ Hx). split.
    + cbn. rewrite app_assoc, <- Hk. by eapply serves_next.
    + intros Hsame. rewrite (Hmore Hsame), app_nil_r. apply Hsame in H1.
      rewrite Hk in H1. by apply (app_inv_head (q s0)); rewrite app_nil_r.
  - destruct (Hpop _ _ _ Hx) as [Hq ->]. injection H as <-. split; [done|].
    exists []. rewrite Hq. split; [constructor|done].
Qed.

(** The queues of the runner, as [run] finds them *)
Definition queue_of {A} (f : PollerInt.t Sl Stack → list (list A)) s : list A :=
  queue (f (Sys.poller s)) (Z.to_nat (RunnerInt.pos (Sys.runner s))).
Definition toexec s : list nat := Z.to_nat <$> queue_of PollerInt.toexec_fibers s.
Definition timedout s : list nat := Z.to_nat <$> queue_of PollerInt.timedout_fibers s.
Definition lookups s : list (nat * Z * IpAddr) :=
  (λ '(pos, gen, addr), (Z.to_nat pos, gen, addr)) <$> queue_of PollerInt.lookup_results s.

Lemma pop_front_inv {A} (queues queues' : list (list A)) r o :
  PollerInt.pop_front queues r = Ok (o, queues') →
  match o with
  | Some x => queue queues r = x :: queue queues' r
  | None => queue queues r = [] ∧ queues' = queues
  end.
Proof.
  intros (q & Hq%index_Ok & H)%bind_Ok. unfold queue. rewrite Hq.
  destruct q as [|x q]; [by simplify_eq|].
  apply bind_Ok in H as (q' & Hs & [= <- <-]). unfold store in Hs. case_decide; [|done].
  injection Hs as <-. by rewrite list_lookup_insert_eq.
Qed.

(** A method that pops one of the runner's queues *)
Lemma pops {A B} (f : PollerInt.t Sl Stack → list (list A)) set (h : A → B)
    (g : PollerInt.t Sl Stack → nat → outcome Empty_set (option A * PollerInt.t Sl Stack)) s o s' :
  (∀ p r, g p r = ('(x, q) ← PollerInt.pop_front (f p) r; Ok (x, set p q))) →
  (∀ p q, f (set p q) = q) → (∀ p, set p (f p) = p) →
  (r ← get_runner; x ← poller (λ p, g p (Z.to_nat (RunnerInt.pos r))); mret (h <$> x)) s
    = Ok (o, s') →
  match o with
  | Some x => h <$> queue_of f s = x :: (h <$> queue_of f s')
  | None => h <$> queue_of f s = [] ∧ s' = s
  end.
Proof.
  intros Hg Hset Hid H. apply run_bind_Ok in H as (r & s0 & [= <- <-] & H).
  apply run_bind_Ok in H as (x & s0 & ([y p'] & H%widen_Ok & [= <- <-])%bind_Ok & [= <- <-]).
  rewrite Hg in H. apply bind_Ok in H as ([z q] & H%pop_front_inv & [= <- <-]).
  unfold queue_of. cbn. destruct z; cbn; [by rewrite Hset, H|].
  destruct H as [-> ->]. rewrite Hid. by destruct s.
Qed.

Lemma pop_toexec_spec s o s' : pop_toexec s = Ok (o, s') →
  match o with Some x => toexec s = x :: toexec s' | None => toexec s = [] ∧ s' = s end.
Proof. by apply (pops _ PollerInt.set_toexec Z.to_nat PollerInt.toexec_pop); [|..|intros []]. Qed.

Lemma timedout_pop_spec s o s' : timedout_pop s = Ok (o, s') →
  match o with Some x => timedout s = x :: timedout s' | None => timedout s = [] ∧ s' = s end.
Proof. by apply (pops _ PollerInt.set_timedout Z.to_nat PollerInt.timedout_pop); [|..|intros []]. Qed.

Lemma dns_check_spec s o s' : dns_check s = Ok (o, s') →
  match o with Some x => lookups s = x :: lookups s' | None => lookups s = [] ∧ s' = s end.
Proof. by apply (pops _ PollerInt.set_lookups _ PollerInt.dns_check); [|..|intros []]. Qed.

(** What the queues of [s] are when those of [s'] are known *)
Lemma grows_queues s s' : grows s s' →
  toexec s `prefix_of` toexec s' ∧ timedout s' = timedout s ∧ lookups s' = lookups s.
Proof.
  intros [[Hpos _ _ _] [Ht _ Htd Hl]]. unfold toexec, timedout, lookups, queue_of.
  rewrite Hpos, Htd, Hl. split_and!; [|done..].
  destruct Ht as [k ->].
  rewrite fmap_app. by eexists.
Qed.

(** The three loops of [run] *)
Abbreviation resumed := (serves pop_toexec run_toexec).
Abbreviation resolved :=
  (serves dns_check (λ fuel '(pos, gen, addr), run_lookup fuel pos gen addr)).
Abbreviation expired := (serves timedout_pop run_timedout).

Lemma serves_rel {A} (Rel : Sys.t Sl → Sys.t Sl → Prop) `{!PreOrder Rel} (pop : M (option A)) body n l s s' :
  (∀ s o s', pop s = Ok (o, s') → Rel s s') →
  (∀ n x s s', body n x s = Ok (tt, s') → Rel s s') →
  serves pop body n l s s' → Rel s s'.
Proof.
  intros Hpop Hbody. induction 1 as [|n x l s s0 s1 s2 H0 H1 _ IH]; [reflexivity|].
  transitivity s0; [by eapply Hpop|]. transitivity s1; [by eapply Hbody|done].
Qed.

(** The runner grows, and the results of lookups and the timers stay as they are. *)
Definition keeps_waiting s s' : Prop :=
  runner_grows (Sys.runner s) (Sys.runner s') ∧ timedout s' = timedout s ∧ lookups s' = lookups s.
Definition keeps_timedout s s' : Prop :=
  runner_grows (Sys.runner s) (Sys.runner s') ∧ timedout s' = timedout s.
Definition keeps_lookups s s' : Prop :=
  runner_grows (Sys.runner s) (Sys.runner s') ∧ lookups s' = lookups s.

#[local] Instance keeps_waiting_preorder : PreOrder keeps_waiting.
Proof.
  split; [intros s; by split_and!|]. intros s1 s2 s3 (? & ? & ?) (? & ? & ?).
  split_and!; [by etrans|congruence..].
Qed.
#[local] Instance keeps_timedout_preorder : PreOrder keeps_timedout.
Proof.
  split; [intros s; by split|]. intros s1 s2 s3 [] []. split; [by etrans|congruence].
Qed.
#[local] Instance keeps_lookups_preorder : PreOrder keeps_lookups.
Proof.
  split; [intros s; by split|]. intros s1 s2 s3 [] []. split; [by etrans|congruence].
Qed.

Lemma growing_waiting s s' : grows s s' → keeps_waiting s s'.
Proof. intros H. destruct (grows_queues _ _ H) as (_ & ? & ?). by destruct H. Qed.

Lemma pop_front_apart {A} (queues queues' : list (list A)) r o :
  PollerInt.pop_front queues r = Ok (o, queues') → ∀ j, j ≠ r → queue queues' j = queue queues j.
Proof.
  intros ([|x q] & _ & H)%bind_Ok j Hj; [by simplify_eq|].
  apply bind_Ok in H as (q' & H & [= _ <-]). unfold store in H. case_decide; [|done].
  injection H as <-. unfold queue. by rewrite list_lookup_insert_ne.
Qed.

(** Popping changes one queue of the poller. *)
Lemma popped {A B} (f : PollerInt.t Sl Stack → list (list A)) set (h : A → B)
    (g : PollerInt.t Sl Stack → nat → outcome Empty_set (option A * PollerInt.t Sl Stack)) s o s' :
  (∀ p r, g p r = ('(x, q) ← PollerInt.pop_front (f p) r; Ok (x, set p q))) →
  (r ← get_runner; x ← poller (λ p, g p (Z.to_nat (RunnerInt.pos r))); mret (h <$> x)) s
    = Ok (o, s') →
  ∃ q, s' = with_poller s (set (Sys.poller s) q)
    ∧ ∀ j, j ≠ Z.to_nat (RunnerInt.pos (Sys.runner s)) → queue q j = queue (f (Sys.poller s)) j.
Proof.
  intros Hg H. apply run_bind_Ok in H as (r & s0 & [= <- <-] & H).
  apply run_bind_Ok in H as (x & s0 & ([y p'] & H%widen_Ok & [= <- <-])%bind_Ok & [= <- <-]).
  rewrite Hg in H. apply bind_Ok in H as ([z q] & Hq & [= <- <-]). exists q.
  split; [done|]. by eapply pop_front_apart.
Qed.

Lemma pop_toexec_keeps s o s' : pop_toexec s = Ok (o, s') → keeps_waiting s s'.
Proof.
  intros H. by apply (popped PollerInt.toexec_fibers PollerInt.set_toexec _ PollerInt.toexec_pop) in H as (q & -> & _).
Qed.
Lemma dns_check_keeps s o s' : dns_check s = Ok (o, s') → keeps_timedout s s'.
Proof.
  intros H. by apply (popped PollerInt.lookup_results PollerInt.set_lookups _ PollerInt.dns_check) in H as (q & -> & _).
Qed.
Lemma timedout_pop_keeps s o s' : timedout_pop s = Ok (o, s') → keeps_lookups s s'.
Proof.
  intros H. by apply (popped PollerInt.timedout_fibers PollerInt.set_timedout _ PollerInt.timedout_pop) in H as (q & -> & _).
Qed.

(** The loops, from what their fibers do *)
Lemma toexec_loop n s s' : while_some pop_toexec run_toexec n s = Ok (tt, s') →
  keeps_waiting s s' ∧ toexec s' = [] ∧ ∃ more, resumed n (toexec s ++ more) s s'.
Proof.
  intros H. apply (while_some_serves _ _ toexec) in H as (Hend & more & Hs & _).
  - split_and!; [|done|by exists more].
    eapply serves_rel; [apply _|apply pop_toexec_keeps| |exact Hs].
    intros ? ? ? ? Hb. apply growing_waiting. by eapply growing_run_toexec.
  - intros ? ? ?. apply pop_toexec_spec.
  - intros ? ? ? ? Hb. by eapply grows_queues, growing_run_toexec.
Qed.

Lemma lookup_loop n s s' :
  while_some dns_check (λ fuel '(pos, gen, addr), run_lookup fuel pos gen addr) n s = Ok (tt, s') →
  keeps_timedout s s' ∧ lookups s' = [] ∧ resolved n (lookups s) s s'.
Proof.
  assert (∀ n x s s1, (λ '(pos, gen, addr), run_lookup n pos gen addr) x s = Ok (tt, s1) → grows s s1)
    as Hgrow.
  { intros ? [[i gen] addr] ? ? Hb. by eapply growing_run_lookup. }
  intros H. apply (while_some_serves _ _ lookups) in H as (Hend & more & Hs & Hmore).
  - rewrite Hmore, app_nil_r in Hs.
    2: { intros ? ? ? ? Hb%Hgrow. apply (grows_queues _ _ Hb). }
    split_and!; [|done|done]. eapply serves_rel; [apply _|apply dns_check_keeps| |exact Hs].
    intros ? ? ? ? Hb%Hgrow%growing_waiting. destruct Hb as (? & ? & _). by split.
  - intros ? ? ?. apply dns_check_spec.
  - intros ? ? ? ? Hb%Hgrow. destruct (grows_queues _ _ Hb) as (_ & _ & ->). done.
Qed.

Lemma timedout_loop n s s' : while_some timedout_pop run_timedout n s = Ok (tt, s') →
  keeps_lookups s s' ∧ timedout s' = [] ∧ expired n (timedout s) s s'.
Proof.
  assert (∀ n x s s1, run_timedout n x s = Ok (tt, s1) → grows s s1) as Hgrow.
  { intros ? ? ? ? Hb. by eapply growing_run_timedout. }
  intros H. apply (while_some_serves _ _ timedout) in H as (Hend & more & Hs & Hmore).
  - rewrite Hmore, app_nil_r in Hs.
    2: { intros ? ? ? ? Hb%Hgrow. apply (grows_queues _ _ Hb). }
    split_and!; [|done|done]. eapply serves_rel; [apply _|apply timedout_pop_keeps| |exact Hs].
    intros ? ? ? ? Hb%Hgrow%growing_waiting. by destruct Hb as (? & _ & ?).
  - intros ? ? ?. apply timedout_pop_spec.
  - intros ? ? ? ? Hb%Hgrow. destruct (grows_queues _ _ Hb) as (_ & -> & _). done.
Qed.

(** What a run does: [more] are the fibers that were queued while the first loop
    was running. *)
Record run_order n s (b : bool) s' more s1 s2 : Prop := {
  order_resumed : resumed n (toexec s ++ more) s s1;
  order_resolved : resolved n (lookups s) s1 s2;
  order_expired : expired n (timedout s) s2 s';
  order_drained : toexec s1 = [] ∧ lookups s2 = [] ∧ timedout s' = [] ∧ lookups s' = [];
  order_runner : runner_grows (Sys.runner s) (Sys.runner s');
  order_signaled : b = true ↔ RunnerInt.tomain_fibers (Sys.runner s') ≠ []
                              ∨ RunnerInt.results (Sys.runner s') ≠ []
}.

Lemma run_inv n s b s' : run n s = Ok (b, s') → ∃ more s1 s2, run_order n s b s' more s1 s2.
Proof.
  unfold run. intros H. apply run_bind_Ok in H as ([] & s1 & H1 & H).
  apply run_bind_Ok in H as ([] & s2 & H2 & H).
  apply run_bind_Ok in H as ([] & s3 & H3 & H).
  apply run_bind_Ok in H as (r & s4 & [= <- <-] & [= <- <-]).
  apply toexec_loop in H1 as ((Hr1 & Ht1 & Hl1) & He1 & more & Hs1).
  apply lookup_loop in H2 as ((Hr2 & Ht2) & He2 & Hs2).
  apply timedout_loop in H3 as ([Hr3 Hl3] & He3 & Hs3).
  exists more, s1, s2. split; [done|congruence|congruence|split_and!; [done..|congruence]| |].
  - etrans; [exact Hr1|]. by etrans.
  - unfold signaled. rewrite negb_true_iff, bool_decide_eq_false.
    destruct (RunnerInt.tomain_fibers _), (RunnerInt.results _); naive_solver.
Qed.

(** A run leaves the queues of the other runners alone. *)
Record apart s s' : Prop := {
  apart_pos : RunnerInt.pos (Sys.runner s') = RunnerInt.pos (Sys.runner s);
  apart_toexec : ∀ j, j ≠ Z.to_nat (RunnerInt.pos (Sys.runner s)) →
    queue (PollerInt.toexec_fibers (Sys.poller s')) j = queue (PollerInt.toexec_fibers (Sys.poller s)) j;
  apart_timedout : ∀ j, j ≠ Z.to_nat (RunnerInt.pos (Sys.runner s)) →
    queue (PollerInt.timedout_fibers (Sys.poller s')) j = queue (PollerInt.timedout_fibers (Sys.poller s)) j;
  apart_lookups : ∀ j, j ≠ Z.to_nat (RunnerInt.pos (Sys.runner s)) →
    queue (PollerInt.lookup_results (Sys.poller s')) j = queue (PollerInt.lookup_results (Sys.poller s)) j
}.

#[local] Instance apart_preorder : PreOrder apart.
Proof.
  split; [intros s; by split|]. intros s1 s2 s3 [Hp1 Hq1 Ht1 Hl1] [Hp2 Hq2 Ht2 Hl2].
  rewrite Hp1 in Hp2, Hq2, Ht2, Hl2.
  split; [done|..]; intros j Hj; [by rewrite Hq2, Hq1|by rewrite Ht2, Ht1|by rewrite Hl2, Hl1].
Qed.

Lemma grows_are_apart s s' : grows s s' → apart s s'.
Proof. intros [[? ? ? ?] [_ ? Ht Hl]]. split; [done..| |]; intros j _; by rewrite ?Ht, ?Hl. Qed.

Lemma run_apart n s b s' : run n s = Ok (b, s') → apart s s'.
Proof.
  intros (more & s1 & s2 & [H1 H2 H3 _ _ _])%run_inv.
  transitivity s1; [|transitivity s2].
  - eapply serves_rel; [apply _| | |exact H1].
    + intros x o x' Hx. eapply (popped PollerInt.toexec_fibers PollerInt.set_toexec _ PollerInt.toexec_pop)
        in Hx as (q & -> & Hq); by split.
    + intros ? ? ? ? Hb. by eapply grows_are_apart, growing_run_toexec.
  - eapply serves_rel; [apply _| | |exact H2].
    + intros x o x' Hx. eapply (popped PollerInt.lookup_results PollerInt.set_lookups _ PollerInt.dns_check)
        in Hx as (q & -> & Hq); by split.
    + intros ? [[i gen] addr] ? ? Hb. by eapply grows_are_apart, growing_run_lookup.
  - eapply serves_rel; [apply _| | |exact H3].
    + intros x o x' Hx. eapply (popped PollerInt.timedout_fibers PollerInt.set_timedout _ PollerInt.timedout_pop)
        in Hx as (q & -> & Hq); by split.
    + intros ? ? ? ? Hb. by eapply grows_are_apart, growing_run_timedout.
Qed.

(** C10. The order of a run that returns.  It first resumes the fibers that were
    queued, first in, first out, and then those that were queued meanwhile, until
    none is left; then it hands out the lookups that had ended, and then the timers
    that had fired, each in their order; none is skipped and none served twice
    ([serves]).  Turns only add to what the main stack can take, and the result
    tells whether it can take something. *)
Theorem run_in_order n s b s' : run n s = Ok (b, s') →
  ∃ more s1 s2,
    resumed n (toexec s ++ more) s s1 ∧ toexec s1 = []
  ∧ resolved n (lookups s) s1 s2 ∧ lookups s2 = []
  ∧ expired n (timedout s) s2 s' ∧ timedout s' = []
  ∧ RunnerInt.results (Sys.runner s) `prefix_of` RunnerInt.results (Sys.runner s')
  ∧ RunnerInt.tomain_fibers (Sys.runner s) `prefix_of` RunnerInt.tomain_fibers (Sys.runner s')
  ∧ (b = true ↔ RunnerInt.tomain_fibers (Sys.runner s') ≠ []
                ∨ RunnerInt.results (Sys.runner s') ≠ []).
Proof.
  intros (more & s1 & s2 & [? ? ? (? & ? & ? & _) [] ?])%run_inv. exists more, s1, s2. by split_and!.
Qed.

(** ** The poller and the runner together *)
Lemma routed_in r ids id : id ∈ ids → (PollerInt.split_id id).1 = r →
  (PollerInt.split_id id).2 ∈ routed r ids.
Proof.
  intros Hin Hr. unfold routed. apply list_elem_of_omap. exists id. split; [done|].
  by rewrite decide_True.
Qed.

(** The position of a fiber of this runner is among those that [ids] send to it. *)
Lemma routed_fiber_id (rp : Z) (i : nat) ids : (0 ≤ rp < 256)%Z → (Z.of_nat i < 2 ^ 32)%Z →
  Poller.fiber_id rp (Z.of_nat i) ∈ ids → i ∈ Z.to_nat <$> routed (Z.to_nat rp) ids.
Proof.
  intros Hrp Hi Hin. pose proof (split_id_fiber_id rp (Z.of_nat i) Hrp ltac:(lia)) as Hsplit.
  apply list_elem_of_fmap. exists (Z.of_nat i). rewrite Nat2Z.id. split; [done|].
  replace (Z.of_nat i) with (PollerInt.split_id (Poller.fiber_id rp (Z.of_nat i))).2 at 1
    by by rewrite Hsplit.
  apply routed_in; [done|]. by rewrite Hsplit.
Qed.

(** C3. What the poller finds reaches the fibers in the next run.  [poll] returns;
    if [run] returns after it, it has resumed every fiber of the runner whose
    socket was ready, behind those that were queued before and in the order of the
    events; it has handed out the results of lookups, and after them served every
    timer of the runner's fibers that was due, and no timer that was not. *)
Theorem poll_then_run `{!SlabLaws Entry.t Sl} s events now results :
  let rp := RunnerInt.pos (Sys.runner s) in
  let w := PollerInt.wheel (Sys.poller s) in
  poller_ok (Sys.poller s) → sane w now → (0 ≤ rp < 20)%Z →
  Forall routable events → Forall (λ x, routable x.1.1) results →
  ∃ fired b p', PollerInt.poll (Sys.poller s) (Some events) now results = Ok (b, p')
  ∧ (∀ task, task ∈ fired ↔ ∃ t k, status w t = Armed task k ∧ (k ≤ tick_of w now)%Z)
  ∧ ∀ n c s', run n (with_poller s p') = Ok (c, s') →
    let ready := Z.to_nat <$> routed (Z.to_nat rp) events in
    let expiring := Z.to_nat <$> routed (Z.to_nat rp) fired in
    ∃ more s1 s2,
      resumed n (toexec s ++ ready ++ more) (with_poller s p') s1
    ∧ resolved n (lookups s ++ ((λ '(pos, gen, addr), (Z.to_nat pos, gen, addr)) <$>
        routed_results (Z.to_nat rp) results)) s1 s2
    ∧ expired n (timedout s ++ expiring) s2 s'
    ∧ ∀ i, (Z.of_nat i < 2 ^ 32)%Z →
        (Poller.fiber_id rp (Z.of_nat i) ∈ events → i ∈ ready)
      ∧ (Poller.fiber_id rp (Z.of_nat i) ∈ fired → i ∈ expiring).
Proof.
  intros rp w Hok Hsane Hrp Hev Hres.
  destruct (poll_run (Sys.poller s) events now results Hok Hsane Hev Hres)
    as (fired & b & p' & Hp & _ & _ & _ & _ & Hd & Hq1 & Hq2 & Hq3 & _).
  exists fired.*2, b, p'. split; [exact Hp|]. split.
  { intros task. rewrite list_elem_of_fmap. split.
    - intros ([t x] & -> & (k & ? & ?)%(drained_due _ _ _ _ Hd)). by exists t, k.
    - intros (t & k & Hst & Hk). exists (t, task). split; [done|].
      apply (drained_due _ _ _ _ Hd). by exists k. }
  intros n c s' (more & s1 & s2 & [H1 H2 H3 _ _ _])%run_inv.
  unfold toexec, lookups, timedout, queue_of in *. cbn in H1, H2, H3.
  rewrite Hq1, fmap_app in H1. rewrite Hq2, fmap_app in H3. rewrite Hq3, fmap_app in H2.
  rewrite <- app_assoc in H1. exists more, s1, s2. split_and!; [done..|].
  intros i Hi. split; intros Hin; (apply routed_fiber_id; [|done..]); unfold rp in *; lia.
Qed.
End turns.
