(* ===== verification/RunnerProps.v ===== *)
(** * Properties of the runners *)
From stdpp Require Import strings.
From S2P Require Import Prelude Clock Slab Wheel ByteOrder StdText Resolver Poller.
From S2P Require Import Fiber Runner Sim RunnerInv RunnerTurn RunnerEval RunnerIo.
Local Open Scope nat_scope.
Local Open Scope list_scope.

(** ** The invariant *)
Section reach.
Context {N : Net} {Pr : Program} {Sl : Type} {SO : SlabOps Entry.t Sl} {SL : SlabLaws Entry.t Sl}.
Context {BE : BigEndian}.

(** Every state that the main stack's calls, the poller and the world can
    bring a runner to is well formed ([runner_wf]): each position in its free
    list, its queues, its timers and its fibers' [parent] and [children] is the
    position of a fiber; each fiber carries its own identifier and runner; and each
    fiber is at rest: it has neither stack nor context and is not [Stacked], or it
    has both, is [Stacked], and waits inside a call that can be resumed.  What the
    poller holds for the other runners keeps satisfying the predicate [O]. *)
Theorem runner_reachable_wf rp O (s : Sys.t Sl) : reachable rp O s → runner_wf rp O s.
Proof.
  induction 1 as [p w Hp|s s' _ IH Hs]; [by split; [..|exact Hp|]|by eapply step_wf].
Qed.
End reach.

(** ** The results of children *)
Section children.
Context {N : Net} {Pr : Program} {Sl : Type} {SO : SlabOps Entry.t Sl} {BE : BigEndian}.
Implicit Types (s : Sys.t Sl) (f : FiberInt.t).

(** What a parent sees of the fiber [c] *)
Definition result_of s (c : nat) : option R := fibers_of s !! c ≫= FiberInt.result.
Definition is_closed s (c : nat) : Prop :=
  FiberInt.state <$> fibers_of s !! c = Some Closed.

Lemma find_child_spec s cs idx : Forall (λ c, c < length (fibers_of s)) cs →
  match find_child (E := Undefined) (fibers_of s) cs idx with
  | Ok (Some (c, i)) => ∃ k, i = idx + k ∧ cs !! k = Some c ∧ (is_closed s c ∨ is_Some (result_of s c))
  | Ok None => Forall (λ c, ¬ is_closed s c ∧ result_of s c = None) cs
  | _ => False
  end.
Proof.
  revert idx. induction cs as [|c cs IH]; intros idx; [constructor|].
  intros [Hc Hcs]%Forall_cons. cbn [find_child].
  destruct (index_lt (E := Undefined) _ _ Hc) as (f & -> & Hf). mstep.
  assert (result_of s c = FiberInt.result f) as Hr by (unfold result_of; by rewrite Hf).
  assert (is_closed s c ↔ FiberInt.state f = Closed) as Hcl.
  { unfold is_closed. rewrite Hf. cbn. split; congruence. }
  case_decide; [exists 0; split_and!; [lia|done|left; by apply Hcl]|].
  case_decide; [exists 0; split_and!; [lia|done|right; by rewrite Hr]|].
  specialize (IH (idx + 1) Hcs).
  destruct (find_child _ _ _) as [[[c' i]|]|e| |]; try done.
  - destruct IH as (k & -> & Hk & Hc'). exists (S k). split_and!; [lia|done|done].
  - constructor; [|done]. rewrite Hcl, Hr. split; [done|].
    destruct (FiberInt.result f); [|done]. naive_solver.
Qed.

Lemma swap_remove_front_perm {A} (l : list A) i x : l !! i = Some x →
  l ≡ₚ x :: swap_remove_front l i.
Proof.
  destruct l as [|y l]; [done|]. destruct i as [|i]; cbn; [by intros [= ->]|].
  intros Hi. rewrite (insert_take_drop l i y) by (by eapply lookup_lt_Some).
  rewrite <- (take_drop_middle l i x Hi) at 1. solve_Permutation.
Qed.

(** What [get_child] may leave: the children [gone] were closed and their slots
    are free again, the others are [left]; [o] is the answer. *)
Definition iter_result s (o : progress) s' (gone left : list nat) : Prop :=
  match o with
  | Done (ROption None) => left = [] ∧ Forall (λ c, result_of s c = None) gone
  | Done (ROption (Some x)) => ∃ c, result_of s c = Some x ∧ result_of s' c = None ∧
      (is_closed s c ∧ c ∈ gone ∧ Sys.poller s' = Sys.poller s
       ∨ ¬ is_closed s c ∧ c ∈ left ∧ Sys.poller s' = Sys.poller (queued s c))
  | Blocked CGetChild =>
      left ≠ [] ∧ Forall (λ c, ¬ is_closed s c ∧ result_of s c = None) left
      ∧ Forall (λ c, result_of s c = None) gone
  | _ => False
  end.

Lemma has_queue_same s s' : Sys.poller s' = Sys.poller s →
  RunnerInt.pos (Sys.runner s') = RunnerInt.pos (Sys.runner s) → has_queue s → has_queue s'.
Proof. unfold has_queue. by intros -> ->. Qed.

(** One child after the other is looked at; a closed one is taken off the list. *)
Definition reaped s (p : nat) f (c i : nat) fc : Sys.t Sl :=
  freed (put (put s c (FiberInt.set_result fc None)) p
    (FiberInt.set_children f (swap_remove_front (FiberInt.children f) i))) c.

Section pass.
Context s (p : nat) f (Hf : fibers_of s !! p = Some f).
Context (c : nat) fc (Hfc : fibers_of s !! c = Some fc) (Hcp : c ≠ p).

Lemma reaped_fiber i : fibers_of (reaped s p f c i fc) !! p =
  Some (FiberInt.set_children f (swap_remove_front (FiberInt.children f) i)).
Proof.
  change (fibers_of (put (put s c (FiberInt.set_result fc None)) p
    (FiberInt.set_children f (swap_remove_front (FiberInt.children f) i))) !! p = Some
    (FiberInt.set_children f (swap_remove_front (FiberInt.children f) i))).
  eapply put_same'. by rewrite put_other.
Qed.

Lemma reaped_other i j : j ≠ p → j ≠ c → fibers_of (reaped s p f c i fc) !! j = fibers_of s !! j.
Proof.
  intros Hp Hc. change (fibers_of (put (put s c (FiberInt.set_result fc None)) p
    (FiberInt.set_children f (swap_remove_front (FiberInt.children f) i))) !! j = fibers_of s !! j).
  by rewrite !put_other.
Qed.

Lemma reaped_child i : fibers_of (reaped s p f c i fc) !! c = Some (FiberInt.set_result fc None).
Proof.
  change (fibers_of (put (put s c (FiberInt.set_result fc None)) p
    (FiberInt.set_children f (swap_remove_front (FiberInt.children f) i))) !! c =
    Some (FiberInt.set_result fc None)).
  rewrite put_other by done. by eapply put_same'.
Qed.

(** The pass on its child: its result is taken; then it is freed, or resumed. *)
Lemma child_pass i (k : option R → Run (Sys.t Sl) progress) : has_queue s →
  (out ← take_result_of c;
   c0 ← fiber c;
   (if decide (FiberInt.state c0 = Closed) then
      upd_fiber p (λ f, FiberInt.set_children f (swap_remove_front (FiberInt.children f) i));;
      push_free c
    else push_toexec c);; k out) s =
  k (FiberInt.result fc)
    (if decide (FiberInt.state fc = Closed) then reaped s p f c i fc
     else queued (put s c (FiberInt.set_result fc None)) c).
Proof.
  intros Hq. eapply bind_eq; [by apply take_result_of_eq|].
  eapply bind_eq; [by eapply fiber_eq, put_same'|]. cbn [FiberInt.state FiberInt.set_result].
  eapply (bind_eq _ _ _ tt); [|done]. case_decide.
  - eapply bind_eq; [apply upd_fiber_eq; by rewrite put_other|]. done.
  - apply push_toexec_eq. by eapply has_queue_same.
Qed.
End pass.

Lemma reaped_seen s p f c i fc j : fibers_of s !! p = Some f → fibers_of s !! c = Some fc → c ≠ p →
  FiberInt.result fc = None → 
  result_of (reaped s p f c i fc) j = result_of s j
  ∧ (is_closed (reaped s p f c i fc) j ↔ is_closed s j).
Proof.
  intros Hf Hfc Hcp Hr. unfold result_of, is_closed.
  destruct (decide (j = p)) as [->|Hjp].
  { by rewrite (reaped_fiber _ _ _ Hf _ _ Hcp), Hf. }
  destruct (decide (j = c)) as [->|Hjc].
  { rewrite (reaped_child _ _ _ _ _ Hfc Hcp), Hfc. cbn. by rewrite Hr. }
  by rewrite reaped_other.
Qed.

Lemma reaped_length s p f c i fc : length (fibers_of (reaped s p f c i fc)) = length (fibers_of s).
Proof.
  unfold reaped, freed, put, with_runner, fibers_of. cbn. by rewrite !length_insert.
Qed.

Lemma iter_result_reaped s p f c i fc o s' gone left :
  fibers_of s !! p = Some f → fibers_of s !! c = Some fc → c ≠ p → FiberInt.result fc = None →
  iter_result (reaped s p f c i fc) o s' gone left → iter_result s o s' (c :: gone) left.
Proof.
  intros Hf Hfc Hcp Hr.
  pose proof (λ j, proj1 (reaped_seen s p f c i fc j Hf Hfc Hcp Hr)) as Hres.
  pose proof (λ j, proj2 (reaped_seen s p f c i fc j Hf Hfc Hcp Hr)) as Hcl.
  assert (result_of s c = None) as Hc by (unfold result_of; by rewrite Hfc).
  destruct o as [[| | |[x|]| | |]|[]]; try done; cbn [iter_result].
  - intros (d & Hd & Hd' & Hor). exists d. rewrite <- Hres. split_and!; [done..|].
    rewrite <- Hcl. destruct Hor as [(? & ? & Hp)|(? & ? & Hp)]; [left|right];
      (split_and!; [done|set_solver|exact Hp]).
  - intros [-> Hg]. split; [done|]. constructor; [done|].
    eapply Forall_impl; [exact Hg|]. intros j. cbv beta. by rewrite Hres.
  - intros (Hl & Ho & Hg). split_and!; [done| |constructor; [done|]].
    + eapply Forall_impl; [exact Ho|]. intros j. cbv beta. by rewrite Hres, Hcl.
    + eapply Forall_impl; [exact Hg|]. intros j. cbv beta. by rewrite Hres.
Qed.

(** The three ways a pass of the loop can go *)
Lemma child_iter_none n s p f : fibers_of s !! p = Some f → FiberInt.children f = [] →
  child_iter_loop (S n) p s = Ok (Done (ROption None), s).
Proof. intros Hf Hl. cbn. eapply bind_eq; [by apply fiber_eq|]. by rewrite Hl. Qed.

Lemma child_iter_blocks n s p f : fibers_of s !! p = Some f → FiberInt.trans f = Some Main →
  FiberInt.children f ≠ [] → find_child (E := Undefined) (fibers_of s) (FiberInt.children f) 0 = Ok None →
  child_iter_loop (S n) p s = Ok (Blocked CGetChild, put s p (FiberInt.set_trans f None)).
Proof.
  intros Hf Ht Hl Hfc. cbn [child_iter_loop]. eapply bind_eq; [by apply fiber_eq|].
  rewrite decide_False by (by intros ?%nil_length_inv).
  eapply bind_eq; [done|]. eapply bind_eq; [unfold lift; eapply bind_step; [exact Hfc|done]|].
  by eapply bind_eq; [eapply step_out_eq|].
Qed.

Lemma child_iter_passes n s p f c k fc : fibers_of s !! p = Some f → FiberInt.children f ≠ [] →
  find_child (E := Undefined) (fibers_of s) (FiberInt.children f) 0 = Ok (Some (c, k)) →
  fibers_of s !! c = Some fc → c ≠ p → has_queue s →
  child_iter_loop (S n) p s =
    let s1 := if decide (FiberInt.state fc = Closed) then reaped s p f c k fc
              else queued (put s c (FiberInt.set_result fc None)) c in
    match FiberInt.result fc with
    | Some x => Ok (Done (ROption (Some x)), s1)
    | None => child_iter_loop n p s1
    end.
Proof.
  intros Hf Hl Hfc Hc Hcp Hq. cbn [child_iter_loop]. eapply bind_eq; [by apply fiber_eq|].
  rewrite decide_False by (by intros ?%nil_length_inv).
  eapply bind_eq; [done|]. eapply bind_eq; [unfold lift; eapply bind_step; [exact Hfc|done]|].
  cbv beta iota. rewrite (child_pass s p f Hf c fc Hc Hcp k _ Hq). by destruct (FiberInt.result fc).
Qed.

(** What the loop promises, from the state [s] with the children [cs] *)
Definition iter_spec s (p : nat) (cs : list nat) (r : outcome Undefined (progress * Sys.t Sl)) : Prop :=
  ∃ o s' gone left, r = Ok (o, s')
  ∧ FiberInt.children <$> fibers_of s' !! p = Some left
  ∧ cs ≡ₚ gone ++ left ∧ Forall (is_closed s) gone
  ∧ RunnerInt.free_fibers (Sys.runner s') = RunnerInt.free_fibers (Sys.runner s) ++ gone
  ∧ iter_result s o s' gone left.

(** It holds after a pass over a closed child without a result. *)
Lemma iter_spec_reaped s p f c k fc r : fibers_of s !! p = Some f → fibers_of s !! c = Some fc →
  c ≠ p → FiberInt.state fc = Closed → FiberInt.result fc = None → FiberInt.children f !! k = Some c →
  iter_spec (reaped s p f c k fc) p (swap_remove_front (FiberInt.children f) k) r →
  iter_spec s p (FiberInt.children f) r.
Proof.
  intros Hf Hfc Hcp Hcl Hres Hk (o & s' & gone & left & -> & Hleft & Hpl & Hgone & Hfree & Hir).
  exists o, s', (c :: gone), left. split_and!; [done|done| | | |].
  - rewrite (swap_remove_front_perm _ _ _ Hk). cbn. by constructor.
  - constructor; [unfold is_closed; rewrite Hfc; cbn; by rewrite Hcl|].
    eapply Forall_impl; [exact Hgone|].
    intros j. by apply (reaped_seen s p f c k fc j Hf Hfc Hcp Hres).
  - rewrite Hfree. cbn. by rewrite <- app_assoc.
  - by apply (iter_result_reaped s p f c k fc).
Qed.

Lemma iter_spec_found s p f c k fc x : fibers_of s !! p = Some f → fibers_of s !! c = Some fc →
  c ≠ p → FiberInt.result fc = Some x → FiberInt.children f !! k = Some c →
  iter_spec s p (FiberInt.children f) (Ok (Done (ROption (Some x)),
    if decide (FiberInt.state fc = Closed) then reaped s p f c k fc
    else queued (put s c (FiberInt.set_result fc None)) c)).
Proof.
  intros Hf Hfc Hcp Hres Hk.
  assert (is_closed s c ↔ FiberInt.state fc = Closed) as Hcl.
  { unfold is_closed. rewrite Hfc. cbn. split; congruence. }
  assert (result_of s c = Some x) as Hrc by (unfold result_of; by rewrite Hfc).
  case_decide as Hst.
  - exists (Done (ROption (Some x))), (reaped s p f c k fc), [c],
      (swap_remove_front (FiberInt.children f) k).
    rewrite (reaped_fiber _ _ _ Hf _ _ Hcp). split_and!; try done.
    + by apply swap_remove_front_perm.
    + repeat constructor. by apply Hcl.
    + exists c. split_and!; [done| |left; split_and!; [by apply Hcl|by left|done]].
      unfold result_of. by rewrite (reaped_child _ _ _ _ _ Hfc Hcp).
  - exists (Done (ROption (Some x))), (queued (put s c (FiberInt.set_result fc None)) c), [],
      (FiberInt.children f).
    change (fibers_of (queued ?a c)) with (fibers_of a). rewrite put_other, Hf by done.
    split_and!; try done; [by rewrite app_nil_r|]. exists c. split_and!; [done| |].
    + unfold result_of. change (fibers_of (queued ?a c)) with (fibers_of a).
      by rewrite (put_same' _ _ _ _ Hfc).
    + right. split_and!; [by rewrite Hcl|by eapply list_elem_of_lookup_2|done].
Qed.

Lemma child_iter_loop_spec n : ∀ s p f, fibers_of s !! p = Some f →
  FiberInt.trans f = Some Main → p ∉ FiberInt.children f →
  Forall (λ c, c < length (fibers_of s)) (FiberInt.children f) →
  length (FiberInt.children f) < n → has_queue s →
  iter_spec s p (FiberInt.children f) (child_iter_loop n p s).
Proof.
  induction n as [|n IH]; intros s p f Hf Ht Hp Hcs Hn Hq; [lia|].
  destruct (decide (FiberInt.children f = [])) as [Hl|Hl].
  { rewrite (child_iter_none n s p f Hf Hl), Hl. exists (Done (ROption None)), s, [], [].
    rewrite Hf. cbn. rewrite Hl. split_and!; try done. by rewrite app_nil_r. }
  pose proof (find_child_spec s (FiberInt.children f) 0 Hcs) as Hfind.
  destruct (find_child _ _ _) as [[[c k]|]|e| |] eqn:Hfc; try done.
  2: { rewrite (child_iter_blocks n s p f) by done. eexists _, _, [], (FiberInt.children f).
       split; [done|]. erewrite put_same' by done. split_and!; try done. by rewrite app_nil_r. }
  destruct Hfind as (i & -> & Hk & Hav). rewrite Nat.add_0_l in *.
  pose proof (list_elem_of_lookup_2 _ _ _ Hk) as Hin.
  assert (c ≠ p) as Hcp by (by intros ->).
  destruct (lookup_lt_is_Some_2 (fibers_of s) c) as [fc Hfc'];
    [rewrite Forall_forall in Hcs; by apply Hcs|].
  rewrite (child_iter_passes n s p f c _ fc) by done. cbv zeta.
  destruct (FiberInt.result fc) as [x|] eqn:Hres; [by apply iter_spec_found|].
  assert (FiberInt.state fc = Closed) as Hst.
  { unfold is_closed, result_of in Hav. rewrite Hfc' in Hav. cbn in Hav. rewrite Hres in Hav.
    destruct Hav as [Hav|[? Hav]]; [by injection Hav|done]. }
  rewrite decide_True by done. eapply iter_spec_reaped; [done..|].
  pose proof (swap_remove_front_perm _ _ _ Hk) as Hperm.
  apply (IH _ p _ (reaped_fiber _ _ _ Hf _ _ Hcp _)); cbn [FiberInt.children FiberInt.set_children].
  - done.
  - intros Hin'. apply Hp. rewrite Hperm. by right.
  - rewrite Hperm in Hcs. apply Forall_cons in Hcs as [_ Hcs]. by rewrite reaped_length.
  - apply Permutation_length in Hperm. cbn in Hperm. lia.
  - by eapply has_queue_same.
Qed.

(** C15. [get_child] on a running fiber [p]: it always ends.  It returns a result
    when some child has one, [None] when every child is closed and has none left,
    and blocks when neither is so.  The closed children it passes leave the list of
    children and their slots become free, each once; a child whose result is
    returned has it no more, and is queued to go on unless it is closed.

    The witnesses of [iter_result] say which: [gone] are the closed children, and
    [left] the children afterwards. *)
Theorem child_iter_spec s p f :
  fibers_of s !! p = Some f → FiberInt.trans f = Some Main → p ∉ FiberInt.children f →
  Forall (λ c, c < length (fibers_of s)) (FiberInt.children f) → has_queue s →
  ∃ o s' gone left, child_iter p s = Ok (o, s')
  ∧ FiberInt.children <$> fibers_of s' !! p = Some left
  ∧ FiberInt.children f ≡ₚ gone ++ left ∧ Forall (is_closed s) gone
  ∧ RunnerInt.free_fibers (Sys.runner s') = RunnerInt.free_fibers (Sys.runner s) ++ gone
  ∧ iter_result s o s' gone left.
Proof.
  intros Hf Ht Hp Hcs Hq.
  destruct (child_iter_loop_spec (S (length (FiberInt.children f))) s p f)
    as (o & s' & gone & left & Ho & H); [done..|lia|done|].
  exists o, s', gone, left. split; [|exact H]. unfold child_iter.
  eapply bind_eq; [by apply fiber_eq|exact Ho].
Qed.
End children.

(** ** Socket operations *)
Section sockets.
Context {N : Net} {Pr : Program} {Sl : Type} {SO : SlabOps Entry.t Sl} {BE : BigEndian}.
Implicit Types (s : Sys.t Sl) (f : FiberInt.t).

(** A predicate on the replies a method can give, whether it blocks or not. *)
Definition replies (m : Run (Sys.t Sl) progress) (Φ : Reply R → Prop) : Prop :=
  ∀ s r s', m s = Ok (Done r, s') → Φ r.

Lemma replies_bind {A} (m : Run (Sys.t Sl) A) k Φ : (∀ a, replies (k a) Φ) → replies (m ≫= k) Φ.
Proof. intros Hk s r s' (a & s1 & _ & H)%run_bind_Ok. by eapply Hk. Qed.

Lemma replies_done r (Φ : Reply R → Prop) : Φ r → replies (mret (Done r)) Φ.
Proof. by intros Hr s r' s' [= <- <-]. Qed.

Lemma replies_blocked c Φ : replies (mret (Blocked c)) Φ.
Proof. by intros s r s' [=]. Qed.

(** A count that is returned is not the count of a closed socket. *)
Lemma io_loop_replies {B} (op : IoOp Sl B) fuel p b (Φ : Reply R → Prop) :
  (∀ r b, closed op r b = false → Φ (reply op (inl r) b)) →
  (∀ e b, Φ (reply op (inr e) b)) → replies (io_loop op fuel p b) Φ.
Proof.
  intros Hok Herr. revert b. induction fuel as [|fuel IH]; intros b; [by intros ? ? ? [=]|].
  cbn [io_loop]. apply replies_bind. intros [[r|e] b'].
  - destruct (closed op r b') eqn:Hc; apply replies_done; [apply Herr|by apply Hok].
  - case_decide; [|case_decide; [apply IH|by apply replies_done]].
    apply replies_bind. intros f. apply replies_bind. intros [[]|e']; [|by apply replies_done].
    apply replies_bind. intros []. apply replies_blocked.
Qed.

Lemma io_resumed_replies {B} (op : IoOp Sl B) fuel p b (Φ : Reply R → Prop) :
  (∀ r b, closed op r b = false → Φ (reply op (inl r) b)) →
  (∀ e b, Φ (reply op (inr e) b)) → replies (io_resumed op fuel p b) Φ.
Proof.
  intros Hok Herr. unfold io_resumed. apply replies_bind. intros []. apply replies_bind. intros f.
  case_decide; [|by apply io_loop_replies]. apply replies_bind. intros []. apply replies_done, Herr.
Qed.

(** The replies of [read] that do not hide a closed socket *)
Definition reads_something (r : Reply R) : Prop :=
  match r with
  | RRead (inl n) buf => 0 < n ∨ buf = []
  | RRead (inr _) _ => True
  | _ => False
  end.

(** [read] never returns [Ok(0)] for a buffer that is not empty, at once or
    after it blocked: a closed socket is the error [NotConnected]. *)
Theorem read_not_zero fuel p buf :
  replies (read fuel p buf) reads_something
  ∧ replies (call_resumed fuel p (CRead buf)) reads_something.
Proof.
  split; [apply io_loop_replies|apply io_resumed_replies]; try done.
  all: intros r b Hc; cbn in Hc; apply bool_decide_eq_false in Hc; cbn; destruct b; [by right|left];
    cbn in Hc; lia.
Qed.

(** [write] has the test the other way round: a write of a buffer that is not
    empty returns [Ok(0)] when the socket takes nothing, and it is the write of an
    empty buffer that reports a closed socket. *)
Theorem write_zero fuel s p f buf w : fibers_of s !! p = Some f →
  Sock.write (Sys.world s) (FiberInt.sock f) buf = (inl 0, w) →
  write (S fuel) p buf s =
    Ok (Done (RSize (if decide (buf = []) then fail NotConnected "socket closed" else inl 0)),
        with_world s w).
Proof.
  intros Hf Hw. unfold write. cbn [io_loop]. eapply (bind_eq _ _ _ (inl 0, buf) (with_world s w)).
  { unfold write_op, attempt. eapply bind_eq; [by apply fiber_eq|]. unfold world. by rewrite Hw. }
  cbn. destruct buf; [by rewrite decide_True|]. by rewrite decide_False.
Qed.
End sockets.

(** ** New fibers *)
Section new_fibers.
Context {N : Net} {Pr : Program} {Sl : Type} {SO : SlabOps Entry.t Sl} {BE : BigEndian}.
Implicit Types (s : Sys.t Sl) (f : FiberInt.t).

(** The slot the next fiber gets, with its generation, and the free slots after. *)
Definition next_slot s : nat * Z * list nat :=
  match RunnerInt.free_fibers (Sys.runner s) with
  | [] => (length (fibers_of s), 0%Z, [])
  | i :: free =>
    (i, (default 0 (FiberInt.generation <$> fibers_of s !! i) + 1)%Z, free)
  end.

Definition new_fiber s (i : nat) (gen : Z) (func : option FiberFn) (ft : FiberSock)
    (param : option P) (parent : option nat) : FiberInt.t :=
  let rp := RunnerInt.pos (Sys.runner s) in
  FiberInt.mk rp ready_empty param Unstacked (Poller.fiber_id rp (Z.of_nat i)) gen func None ft
    None None parent [] None None (Some (Duration.from_millis 20000)) 0.

(** The runner after slot [i] got [f]: replaced, or pushed at the end *)
Definition place (r : RunnerInt.t) (i : nat) f : RunnerInt.t :=
  if decide (i < length (RunnerInt.fibers r))
  then RunnerInt.set_fibers r (<[i := f]> (RunnerInt.fibers r)) else RunnerInt.push_fiber r f.

(** ... and after the fiber [i] became the last child of its parent *)
Definition adopt (parent : option nat) (i : nat) (r : RunnerInt.t) : RunnerInt.t :=
  match parent with
  | Some q => RunnerInt.set_fibers r
      (alter (λ f, FiberInt.set_children f (FiberInt.children f ++ [i])) q (RunnerInt.fibers r))
  | None => r
  end.

(** A listener is registered at once, other sockets when they are waited for. *)
Definition first_registration (ft : FiberSock) f (w : W) : io unit * FiberInt.t * W :=
  match ft with
  | Listener _ => FiberInt.register f w readable
  | _ => (inl tt, f, w)
  end.

(** The end of [register]: the new fiber is queued and its parent adopts it. *)
Lemma register_end s i (schedule : bool) parent : has_queue s →
  (∀ q, parent = Some q → q < length (fibers_of s)) →
  ((if schedule then push_toexec i else mret tt);;
    match parent with
    | Some q => upd_fiber q (λ f, FiberInt.set_children f (FiberInt.children f ++ [i]))
    | None => mret tt
    end;;
    mret (inl i)) s =
  Ok (inl (B := IoError.t) i, Sys.mk (adopt parent i (Sys.runner s))
    (Sys.poller (if schedule then queued s i else s)) (Sys.world s)).
Proof.
  intros Hq Hp. eapply (bind_eq _ _ _ tt (if schedule then queued s i else s)).
  { destruct schedule; [by apply push_toexec_eq|done]. }
  destruct parent as [q|]; [|by destruct schedule, s].
  destruct (lookup_lt_is_Some_2 _ _ (Hp q eq_refl)) as [f Hf].
  eapply bind_eq; [apply (upd_fiber_eq _ q _ f); by destruct schedule|].
  unfold adopt. erewrite alter_insert by exact Hf. by destruct schedule.
Qed.

Lemma register_first ft f s : FiberInt.sock f = ft →
  let '(res, f', w) := first_registration ft f (Sys.world s) in
  match FiberInt.sock f with
  | Listener _ =>
    '(res, f) ← world (λ w, let '(res, f, w) := FiberInt.register f w readable in ((res, f), w));
    mret (match res with inl _ => inl f | inr e => inr e end)
  | _ => mret (inl f)
  end s = Ok (match res with inl _ => inl f' | inr e => inr e end, with_world s w).
Proof.
  intros Hft. unfold first_registration. rewrite Hft. destruct ft; try by destruct s.
  destruct (FiberInt.register f (Sys.world s) readable) as [[res f'] w] eqn:Hr.
  eapply bind_eq; [unfold world; by rewrite Hr|done].
Qed.

(** A slot, old or new, gets the new fiber. *)
Lemma register_slot s func ft param parent i gen free :
  next_slot s = (i, gen, free) → (gen ≤ U64_MAX)%Z →
  Forall (λ i, i < length (fibers_of s)) (RunnerInt.free_fibers (Sys.runner s)) →
  let r := RunnerInt.set_free (Sys.runner s) free in
  let '(res, f, w) :=
    first_registration ft (new_fiber s i gen func ft param parent) (Sys.world s) in
  ∀ schedule, register func ft param parent schedule s =
    match res with
    | inr e => Ok (inr e, Sys.mk r (Sys.poller s) w)
    | inl _ =>
      ((if schedule : bool then push_toexec i else mret tt);;
       match parent with
       | Some q => upd_fiber q (λ f, FiberInt.set_children f (FiberInt.children f ++ [i]))
       | None => mret tt
       end;;
       mret (inl i)) (Sys.mk (place r i f) (Sys.poller s) w)
    end.
Proof.
  unfold next_slot. intros Hnext Hgen Hfree. cbv zeta.
  destruct (first_registration _ _ _) as [[res f] w] eqn:Hres. intros schedule.
  destruct (RunnerInt.free_fibers (Sys.runner s)) as [|j free'] eqn:Hf; injection Hnext as <- <- <-.
  - pose proof (register_first ft (new_fiber s (length (fibers_of s)) 0 func ft param parent) s
      eq_refl) as Hreg. rewrite Hres in Hreg.
    assert (RunnerInt.set_free (Sys.runner s) [] = Sys.runner s) as Hsame.
    { destruct (Sys.runner s). cbn in *. by subst. }
    rewrite Hsame. unfold register. eapply bind_eq; [done|]. unfold try. rewrite Hf.
    destruct res as [[]|e].
    + eapply (bind_eq _ _ _ (inl (length (fibers_of s)))); [|done].
      eapply bind_eq; [done|]. eapply bind_eq; [exact Hreg|]. unfold place.
      rewrite decide_False by (cbn; unfold fibers_of; lia). done.
    + eapply (bind_eq _ _ _ (inr e)); [|done]. eapply bind_eq; [done|]. by eapply bind_eq; [exact Hreg|].
  - apply Forall_cons in Hfree as [Hi Hfree].
    destruct (lookup_lt_is_Some_2 _ _ Hi) as [old Hold]. rewrite Hold in *.
    cbn [fmap option_fmap option_map default from_option id] in *.
    set (s0 := with_runner s (RunnerInt.set_free (Sys.runner s) free')).
    pose proof (register_first ft
      (new_fiber s j (FiberInt.generation old + 1) func ft param parent) s0 eq_refl) as Hreg.
    change (Sys.world s0) with (Sys.world s) in Hreg. rewrite Hres in Hreg.
    unfold register. eapply bind_eq; [done|]. unfold try. rewrite Hf.
    destruct res as [[]|e];
      [eapply (bind_eq _ _ _ (inl j)); [|done]|eapply (bind_eq _ _ _ (inr e)); [|done]];
      (eapply (bind_eq _ _ _ tt s0); [done|]);
      (eapply (bind_eq _ _ _ old s0);
        [unfold lift; eapply bind_step; [by apply index_Ok|done]|]);
      (eapply bind_eq; [done|]);
      (eapply (bind_eq _ _ _ (FiberInt.generation old + 1)%Z s0);
        [unfold lift; eapply bind_step; [by apply add64_in|done]|]);
      (eapply bind_eq; [exact Hreg|]); [|done].
    unfold place. rewrite decide_True by done.
    eapply bind_eq; [by apply set_fiber_eq|done].
Qed.

(** C19. [register], for every kind of socket, with the exact state it leaves.  The
    oldest free slot is used again with the next generation, and without one the
    fiber goes to the end of the vector with generation 0; it knows its identifier,
    is not started, waits at most 20 seconds on its socket and has no children.  It
    is queued to be resumed if [schedule] says so, and becomes the last child of its
    parent.  A listener is registered first; if that fails, the call returns the
    error, and the free slot it had taken is lost.  Nothing else changes: not the
    other fibers, the fibers and results that wait for the main stack, the buffer,
    or the rest of the poller; the vector moves when it was full ([push_fiber]), and
    only then. *)
Theorem register_spec s func ft param parent schedule i gen free :
  next_slot s = (i, gen, free) → (gen ≤ U64_MAX)%Z → has_queue s →
  Forall (λ i, i < length (fibers_of s)) (RunnerInt.free_fibers (Sys.runner s)) →
  (∀ q, parent = Some q → q < length (fibers_of s)) →
  let r := RunnerInt.set_free (Sys.runner s) free in
  let '(res, f, w) :=
    first_registration ft (new_fiber s i gen func ft param parent) (Sys.world s) in
  register func ft param parent schedule s =
    match res with
    | inl _ => Ok (inl i, Sys.mk (adopt parent i (place r i f))
        (Sys.poller (if schedule then queued s i else s)) w)
    | inr e => Ok (inr e, Sys.mk r (Sys.poller s) w)
    end.
Proof.
  intros Hnext Hgen Hq Hfree Hp. cbv zeta.
  pose proof (register_slot s func ft param parent i gen free Hnext Hgen Hfree) as Hreg.
  cbv zeta in Hreg. destruct (first_registration _ _ _) as [[[[]|e] f] w]; [|by rewrite Hreg].
  rewrite Hreg. set (r := RunnerInt.set_free _ _).
  assert (RunnerInt.pos (place r i f) = RunnerInt.pos (Sys.runner s)
    ∧ length (fibers_of s) ≤ length (RunnerInt.fibers (place r i f))) as [Hpos Hlen].
  { unfold place. case_decide; autorewrite with push; cbn;
      rewrite ?length_insert, ?length_app; unfold fibers_of; (split; [done|lia]). }
  rewrite register_end.
  - do 3 f_equal. destruct schedule; [|done]. unfold queued. cbn [Sys.runner Sys.poller with_poller].
    by rewrite Hpos.
  - eapply has_queue_same; [|exact Hpos|exact Hq]. done.
  - intros q Hq'. apply Hp in Hq'. cbn. unfold fibers_of in *. cbn. lia.
Qed.
End new_fibers.

(** ** Turns *)
Section turns.
Context {N : Net} {Pr : Program} {Sl : Type} {SO : SlabOps Entry.t Sl} {BE : BigEndian}.
Implicit Types (s : Sys.t Sl) (f : FiberInt.t).

Lemma stack_pop_cases s :
  stack_pop s = Panic
  ∨ ∃ st s0, stack_pop s = Ok (st, s0) ∧ Sys.runner s0 = Sys.runner s
      ∧ PollerInt.toexec_fibers (Sys.poller s0) = PollerInt.toexec_fibers (Sys.poller s).
Proof.
  unfold stack_pop, PollerInt.stack_pop.
  destruct (PollerInt.free_stacks _) as [|st l]; [|right; eexists _, _; split; [mstep; reflexivity|done]].
  destruct (PollerInt.stack_size _) as [size|].
  - destruct (new_stack _ _) as [[st|] w]; [right|by left].
    eexists _, _. split; [mstep; reflexivity|done].
  - destruct (default_stack _) as [st w]. right. eexists _, _. split; [mstep; reflexivity|done].
Qed.

(** A fiber on its new stack, about to call its function *)
Definition started f (st : Stack) : FiberInt.t :=
  FiberInt.set_param (FiberInt.set_trans (FiberInt.set_state
    (FiberInt.set_stack f (Some st)) Stacked) (Some Main)) None.

Definition first_code f (fn : FiberFn) (x : P) : Code :=
  enter fn (Fiber.new (FiberInt.runner f) (Z.land (FiberInt.me f) U32_MAX)) x.

(** The first turn, up to the fiber's code *)
Lemma run_turn_first n s p f fn : fibers_of s !! p = Some f →
  FiberInt.func f = Some fn → FiberInt.trans f = None →
  ∀ st s0, stack_pop s = Ok (st, s0) → Sys.runner s0 = Sys.runner s →
  run_turn n p s =
    match FiberInt.param f with
    | Some x =>
      (t ← exec n p (RunnerInt.buffer (Sys.runner s)) (first_code f fn x); upd_fiber p (λ f, FiberInt.set_trans f (Some t)))
        (put s0 p (started f st))
    | None => Panic
    end.
Proof.
  intros Hf Hfn Ht st s0 Hst Hr. assert (fibers_of s0 = fibers_of s) as Hfs by (unfold fibers_of; by rewrite Hr).
  unfold run_turn. eapply bind_eq; [by apply fiber_eq|]. rewrite Hfn, Ht.
  assert (p < length (fibers_of s0)) as Hp by (rewrite Hfs; by eapply lookup_lt_Some).
  eapply (bind_eq _ _ _ tt).
  { eapply bind_eq; [exact Hst|]. apply upd_fiber_eq. by rewrite Hfs. }
  eapply bind_eq; [by apply fiber_eq, put_same|].
  eapply bind_eq; [by eapply set_fiber_eq; cbn; rewrite length_insert|].
  rewrite put_put. eapply bind_eq; [done|]. cbn [switch].
  set (s1 := put s0 p _). set (home := RunnerInt.buffer (Sys.runner s)).
  assert (context_function n p home s1 = match FiberInt.param f with
    | Some x => exec n p home (first_code f fn x) (put s0 p (started f st)) | None => Panic end) as Hcf.
  { unfold context_function. eapply bind_eq; [by apply upd_fiber_eq, put_same|].
    unfold s1. rewrite put_put. eapply bind_eq; [by apply upd_fiber_eq, put_same|].
    rewrite put_put. eapply bind_eq; [by apply fiber_eq, put_same|].
    eapply bind_eq; [by apply set_fiber_eq; cbn; rewrite length_insert|]. rewrite put_put.
    destruct (FiberInt.param f) as [x|] eqn:Hx; [|apply bind_panic; cbn; by rewrite Hx].
    eapply (bind_eq _ _ _ x); [cbn; by rewrite Hx|].
    eapply (bind_eq _ _ _ fn); [cbn; by rewrite Hfn|]. done. }
  assert ((x ← get_runner; context_function n p (RunnerInt.buffer x)) s1 = context_function n p home s1)
    as Hsw by (eapply bind_eq; [done|]; cbn; by rewrite Hr).
  destruct (FiberInt.param f); (rewrite (bind_first _ (context_function n p home) _ _ s1 Hsw)).
  - by apply bind_first.
  - by apply bind_panic.
Qed.

(** A fiber whose parameter is gone can not be started again. *)
Lemma restart_panics n s p f fn : fibers_of s !! p = Some f →
  FiberInt.func f = Some fn → FiberInt.trans f = None → FiberInt.param f = None →
  step_into (S n) p s = Panic.
Proof.
  intros Hf Hfn Ht Hx. cbn [step_into]. apply bind_panic.
  destruct (stack_pop_cases s) as [Hst|(st & s0 & Hst & Hr & _)].
  - unfold run_turn. eapply bind_eq; [by apply fiber_eq|]. rewrite Hfn, Ht.
    by apply bind_panic, bind_panic.
  - rewrite (run_turn_first n s p f fn Hf Hfn Ht st s0 Hst Hr). by rewrite Hx.
Qed.

(** ** Fibers that finish *)
Lemma stack_push_eq s st : stack_push st s =
  Ok (tt, with_poller s (PollerInt.stack_push (Sys.poller s) st)).
Proof. done. Qed.

Lemma unstack_eq s p f st : fibers_of s !! p = Some f → FiberInt.stack f = Some st →
  unstack p s = Ok (tt, with_poller (put s p (FiberInt.set_trans (FiberInt.set_stack f None) None))
    (PollerInt.stack_push (Sys.poller s) st)).
Proof.
  intros Hf Hst. unfold unstack. eapply bind_eq; [by apply fiber_eq|].
  eapply (bind_eq _ _ _ st); [by rewrite Hst|].
  eapply bind_eq; [apply set_fiber_eq; by eapply lookup_lt_Some|done].
Qed.

Lemma take_result_eq s p f : fibers_of s !! p = Some f →
  take_result p s = Ok (tt,
    let s := put s p (FiberInt.set_result f None) in
    match FiberInt.result f with Some r => push_result s r | None => s end).
Proof.
  intros Hf. unfold take_result. eapply bind_eq; [by apply take_result_of_eq|].
  by destruct (FiberInt.result f).
Qed.

(** ** Inside a turn *)

(** The rest of the turn of [p], from its code on: [m] is the fuel of the code. *)
Definition code_runs (n m p home : nat) (code : Code) : Run (Sys.t Sl) unit :=
  t ← exec m p home code;
  upd_fiber p (λ f, FiberInt.set_trans f (Some t));;
  next ← stepped_out p;
  match next with Some parent => step_into n parent | None => mret tt end.

(** [in_turn n p s0 m home code s]: in its turn that begins in [s0], the fiber [p]
    comes to run [code] in [s].  The turn starts its function on a new stack, or goes
    on with a call that had blocked; then it makes calls that do not block. *)
Inductive in_turn (n p : nat) s0 : nat → nat → Code → Sys.t Sl → Prop :=
| turn_starts f fn x st s1 :
    fibers_of s0 !! p = Some f → FiberInt.func f = Some fn → FiberInt.trans f = None →
    FiberInt.param f = Some x → stack_pop s0 = Ok (st, s1) →
    in_turn n p s0 n (RunnerInt.buffer (Sys.runner s0)) (first_code f fn x)
      (put s1 p (started f st))
| turn_resumes f home c k r s1 :
    fibers_of s0 !! p = Some f → is_Some (FiberInt.func f) →
    FiberInt.trans f = Some (Waiting home c k) →
    call_resumed n p c (put s0 p (FiberInt.set_trans f None)) = Ok (Done r, s1) →
    in_turn n p s0 n home (k r) s1
| turn_calls m home code c k r s s1 :
    in_turn n p s0 (S m) home code s → act code = Calls c k →
    call_method m p c s = Ok (Done r, s1) → in_turn n p s0 m home (k r) s1.

Lemma stack_pop_runner s st s0 : stack_pop s = Ok (st, s0) → Sys.runner s0 = Sys.runner s.
Proof.
  intros Hst. destruct (stack_pop_cases s) as [Hp|(st' & s0' & Hst' & Hr & _)].
  - by rewrite Hst in Hp.
  - rewrite Hst in Hst'. by injection Hst' as _ ->.
Qed.

Lemma in_turn_runs n p s0 m home code s : in_turn n p s0 m home code s →
  step_into (S n) p s0 = code_runs n m p home code s.
Proof.
  induction 1 as [f fn x st s1 Hf Hfn Ht Hx Hst|f home c k r s1 Hf Hfn Ht Hc
    |m home code c k r s s1 _ IH Hact Hc].
  - pose proof (run_turn_first n s0 p f fn Hf Hfn Ht st s1 Hst (stack_pop_runner _ _ _ Hst)) as Hturn.
    rewrite Hx in Hturn. cbn [step_into]. rewrite (bind_first _ _ _ _ _ Hturn). apply bind_assoc.
  - rewrite (step_into_waiting n s0 p f home c k Hf Hfn Ht). unfold goes_on.
    eapply bind_eq; [exact Hc|done].
  - rewrite IH. unfold code_runs. cbn [exec]. rewrite Hact.
    rewrite bind_assoc. eapply bind_eq; [exact Hc|done].
Qed.

(** The fiber [f] runs, on the stack [st]. *)
Definition runs_on f (st : Stack) : Prop := FiberInt.trans f = Some Main ∧ FiberInt.stack f = Some st.

(** Back on the main stack: a fiber that is not [Stacked] gives back its stack. *)
Lemma unstacked s p f st t : fibers_of s !! p = Some f → FiberInt.state f ≠ Stacked →
  FiberInt.stack f = Some st → FiberInt.trans f = Some t →
  (if decide (FiberInt.state f ≠ Stacked ∧ is_Some (FiberInt.trans f))
   then unstack p else mret tt) s =
  Ok (tt, with_poller (put s p (FiberInt.set_trans (FiberInt.set_stack f None) None))
    (PollerInt.stack_push (Sys.poller s) st)).
Proof.
  intros Hf Hns Hst Ht. rewrite decide_True by (rewrite Ht; naive_solver). by apply unstack_eq.
Qed.

(** ** Fibers that finish *)

(** What a fiber that returned [r] leaves in its slot *)
Definition ended f (r : option R) : FiberInt.t :=
  FiberInt.set_sock (FiberInt.set_trans (FiberInt.set_stack
    (FiberInt.set_state (FiberInt.set_result f r) Closed) None) None) Empty.

(** The state in which it does: its stack is free. *)
Definition ended_in s (p : nat) f (r : option R) (st : Stack) : Sys.t Sl :=
  with_poller (put s p (ended f r)) (PollerInt.stack_push (Sys.poller s) st).

(** ... and, when it has no parent, its result is for the main stack and its slot is
    free. *)
Definition delivered s (p : nat) f (r : option R) (st : Stack) : Sys.t Sl :=
  let s1 := ended_in s p (FiberInt.set_result f None) None st in
  freed (match r with Some x => push_result s1 x | None => s1 end) p.

Lemma stepped_out_closed s p f st t : fibers_of s !! p = Some f →
  FiberInt.state f = Closed → FiberInt.stack f = Some st → FiberInt.trans f = Some t →
  stepped_out p s =
    match FiberInt.parent f with
    | Some q => Ok (Some q, ended_in s p f (FiberInt.result f) st)
    | None => Ok (None, delivered s p f (FiberInt.result f) st)
    end.
Proof.
  intros Hf Hcl Hst Ht. assert (p < length (fibers_of s)) as Hp by (by eapply lookup_lt_Some).
  set (f1 := FiberInt.set_trans (FiberInt.set_stack f None) None).
  set (s1 := with_poller (put s p f1) (PollerInt.stack_push (Sys.poller s) st)).
  assert (p < length (fibers_of s1)) as Hp1 by (cbn; by rewrite length_insert).
  assert (ended f (FiberInt.result f) = FiberInt.set_sock f1 Empty) as He.
  { unfold ended, f1. destruct f. cbn in *. by subst. }
  assert (ended (FiberInt.set_result f None) None
    = FiberInt.set_result (FiberInt.set_sock f1 Empty) None) as He'.
  { unfold ended, f1. destruct f. cbn in *. by subst. }
  unfold stepped_out. eapply bind_eq; [by apply fiber_eq|].
  eapply bind_eq; [by apply (unstacked s p f st t); rewrite ?Hcl|].
  change (with_poller _ _) with s1. eapply bind_eq; [by apply fiber_eq, put_same|].
  change (FiberInt.set_trans _ None) with f1.
  rewrite decide_True by done. eapply bind_eq; [by apply set_fiber_eq|].
  change (FiberInt.parent f1) with (FiberInt.parent f). unfold ended_in, delivered.
  assert (put s1 p (FiberInt.set_sock f1 Empty) = ended_in s p f (FiberInt.result f) st) as Hs1.
  { unfold ended_in. rewrite He. unfold s1, put, with_runner, with_poller. cbn.
    by rewrite list_insert_insert_eq. }
  destruct (FiberInt.parent f) as [q|]; [by rewrite Hs1|].
  eapply bind_eq; [by apply take_result_eq, put_same|]. rewrite put_put.
  assert (put s1 p (FiberInt.set_result (FiberInt.set_sock f1 Empty) None)
    = ended_in s p (FiberInt.set_result f None) None st) as Hs2.
  { unfold ended_in. rewrite He'. unfold s1, put, with_runner, with_poller. cbn.
    by rewrite list_insert_insert_eq. }
  rewrite Hs2. by eapply bind_eq.
Qed.

(** C18. A fiber whose function returns [r], in whichever turn and after whatever
    calls.  The end of [context_function] writes through the reference to the fiber
    that it made when the fiber was first started.  When the vector of the fibers has
    moved since ([buffer] is not [home]), that is a use after free.  Otherwise the
    fiber is closed, its socket too, and its stack goes to the front of the pool.
    Without a parent, [r] (if any) is appended to the responses for the main stack
    and the slot to the free slots, and the turn is over; a child keeps its result
    and its slot, for [get_child] to take and free, and its parent is resumed.
    Nothing else changes. *)
Theorem turn_completes n p s0 m home code s f st r :
  in_turn n p s0 (S m) home code s → act code = Finish r →
  fibers_of s !! p = Some f → runs_on f st →
  step_into (S n) p s0 =
    if decide (RunnerInt.buffer (Sys.runner s) = home) then
      match FiberInt.parent f with
      | None => Ok (tt, delivered s p f r st)
      | Some q => step_into n q (ended_in s p f r st)
      end
    else Err UseAfterFree.
Proof.
  intros Hin Hact Hf [Ht Hst]. rewrite (in_turn_runs _ _ _ _ _ _ _ Hin). unfold code_runs.
  cbn [exec]. rewrite Hact. assert (p < length (fibers_of s)) as Hp by (by eapply lookup_lt_Some).
  set (f1 := FiberInt.set_state (FiberInt.set_result f r) Closed).
  case_decide as Hhome; cycle 1.
  { eapply bind_err, bind_eq; [done|]. by rewrite decide_False. }
  eapply (bind_eq _ _ _ Returned (put s p (FiberInt.set_trans f1 None))).
  { unfold context_end. eapply bind_eq; [done|]. rewrite decide_True by done.
    eapply bind_eq; [by apply upd_fiber_eq|]. eapply bind_eq; [by apply upd_fiber_eq, put_same|].
    rewrite put_put. eapply bind_eq; [by apply step_out_eq; [apply put_same|]|]. by rewrite put_put. }
  eapply bind_eq; [by apply upd_fiber_eq, put_same|]. rewrite put_put.
  set (g := FiberInt.set_trans _ (Some Returned)).
  assert (∀ x y, ended_in (put s p g) p (FiberInt.set_result g x) y st
    = ended_in s p (FiberInt.set_result f x) y st) as Hsame.
  { intros x y. unfold ended_in. by rewrite put_put. }
  pose proof (stepped_out_closed (put s p g) p g st Returned
    (put_same _ _ _ Hp) eq_refl Hst eq_refl) as Hout.
  change (FiberInt.parent g) with (FiberInt.parent f) in Hout.
  change (FiberInt.result g) with r in Hout. destruct (FiberInt.parent f) as [q|].
  - eapply bind_eq; [exact Hout|]. f_equal. apply (Hsame r r).
  - eapply bind_eq; [exact Hout|]. unfold delivered. by rewrite Hsame.
Qed.

(** ** Fibers that hibernate *)

(** [mio] accepts the fiber's socket for reading. *)
Definition registers f : Prop := ∃ ev, Sock.evented (FiberInt.sock f) = inl ev ∧
  ∀ w, (if is_empty (FiberInt.ready f) then poll_register w ev (FiberInt.me f) readable
        else poll_reregister w ev (FiberInt.me f) readable).1 = inl tt.

Definition hibernates f (c : Call P R FiberFn) : Prop :=
  c = CHibernateJoinMain
  ∨ c = CHibernateForRead ∧ (is_readable (FiberInt.ready f) = true ∨ registers f).

(** A hibernating fiber, between its switch and [stepped_out] *)
Definition asleep (f g : FiberInt.t) : Prop :=
  FiberInt.state g = Unstacked ∧ FiberInt.trans g = None ∧ FiberInt.stack g = FiberInt.stack f
  ∧ FiberInt.func g = FiberInt.func f ∧ FiberInt.param g = FiberInt.param f
  ∧ FiberInt.result g = FiberInt.result f.

Lemma fiber_register_eq s p f : fibers_of s !! p = Some f → registers f →
  ∃ w, fiber_register p readable s =
    Ok (inl tt, with_world (put s p (FiberInt.set_ready f readable)) w).
Proof.
  intros Hf (ev & Hev & Hreg). specialize (Hreg (Sys.world s)).
  destruct (if is_empty _ then _ else _) as [res w] eqn:Hr; cbn in Hreg; subst res.
  exists w. unfold fiber_register. eapply bind_eq; [by apply fiber_eq|].
  eapply bind_eq; [unfold world, FiberInt.register; by rewrite Hev, Hr|].
  eapply bind_eq; [apply set_fiber_eq; by eapply lookup_lt_Some|]. done.
Qed.

Lemma hibernate_call n s p f c : fibers_of s !! p = Some f → FiberInt.trans f = Some Main →
  hibernates f c →
  ∃ s' g, call_method n p c s = Ok (Blocked c, s') ∧ fibers_of s' = <[p := g]> (fibers_of s)
  ∧ asleep f g ∧ Sys.poller s' = Sys.poller s.
Proof.
  intros Hf Ht Hc. assert (p < length (fibers_of s)) as Hp by (by eapply lookup_lt_Some).
  set (f1 := FiberInt.set_state f Unstacked).
  assert (∀ g, (g = f1 ∨ g = FiberInt.set_ready f1 readable) →
    asleep f (FiberInt.set_trans g None)) as Hsleep by (by intros g [->| ->]).
  destruct Hc as [->|[-> Hc]]; cbn [call_method].
  - exists (with_runner (put (put s p f1) p (FiberInt.set_trans f1 None))
      (RunnerInt.set_tomain (Sys.runner (put (put s p f1) p (FiberInt.set_trans f1 None)))
        (RunnerInt.tomain_fibers (Sys.runner s) ++ [FiberRef.new (RunnerInt.pos (Sys.runner s)) p]))),
      (FiberInt.set_trans f1 None).
    split_and!; [|by cbn; rewrite list_insert_insert_eq|by apply Hsleep; left|done].
    unfold hibernate_join_main. eapply bind_eq; [by apply upd_fiber_eq|].
    eapply bind_eq; [done|].
    eapply bind_eq; [apply (step_out_eq _ p f1); [by apply (put_same s p f1)|done]|done].
  - unfold hibernate_for_read. destruct (is_readable (FiberInt.ready f)) eqn:Hr.
    + exists (put (put s p f1) p (FiberInt.set_trans f1 None)), (FiberInt.set_trans f1 None).
      split_and!; [|by cbn; rewrite list_insert_insert_eq|by apply Hsleep; left|done].
      eapply bind_eq; [by apply upd_fiber_eq|]. eapply bind_eq; [by apply fiber_eq, put_same|].
      cbn [FiberInt.ready FiberInt.set_state]. rewrite Hr. eapply bind_eq; [done|].
      eapply bind_eq; [by apply (step_out_eq _ p f1); [apply put_same|]|done].
    + destruct Hc as [|Hreg]; [done|].
      destruct (fiber_register_eq (put s p f1) p f1 (put_same _ _ _ Hp) Hreg) as [w Hw].
      set (f2 := FiberInt.set_ready f1 readable).
      exists (put (with_world (put (put s p f1) p f2) w) p (FiberInt.set_trans f2 None)),
        (FiberInt.set_trans f2 None).
      split_and!; [|by cbn; rewrite !list_insert_insert_eq|by apply Hsleep; right|done].
      eapply bind_eq; [by apply upd_fiber_eq|]. eapply bind_eq; [by apply fiber_eq, put_same|].
      cbn [FiberInt.ready FiberInt.set_state]. rewrite Hr. eapply bind_eq; [exact Hw|].
      eapply bind_eq; [|done]. apply (step_out_eq _ p f2); [|done].
      apply put_same. cbn. by rewrite length_insert.
Qed.

Lemma stepped_out_asleep s p f st t : fibers_of s !! p = Some f →
  FiberInt.state f = Unstacked → FiberInt.stack f = Some st → FiberInt.trans f = Some t →
  FiberInt.result f = None →
  stepped_out p s = Ok (None, with_poller (put s p (FiberInt.set_trans (FiberInt.set_stack f None) None))
    (PollerInt.stack_push (Sys.poller s) st)).
Proof.
  intros Hf Hun Hst Ht Hres. assert (p < length (fibers_of s)) as Hp by (by eapply lookup_lt_Some).
  unfold stepped_out. eapply bind_eq; [by apply fiber_eq|].
  eapply (bind_eq _ _ _ tt).
  { rewrite decide_True by (rewrite Hun, Ht; naive_solver). by apply unstack_eq. }
  eapply bind_eq; [by apply fiber_eq, put_same|].
  rewrite decide_False by (cbn; by rewrite Hun). cbn. rewrite Hres.
  destruct (FiberInt.parent f); by rewrite decide_False by (by intros []).
Qed.

(** A fiber that has no context and no parameter: its function would be started, but
    there is nothing to start it with. *)
Definition spent f : Prop :=
  is_Some (FiberInt.func f) ∧ FiberInt.trans f = None ∧ FiberInt.param f = None.

Lemma spent_panics s p f : fibers_of s !! p = Some f → spent f →
  ∀ j, step_into (S j) p s = Panic
  ∧ (FiberInt.connect_param f = None → run_toexec (S j) p s = Panic)
  ∧ (FiberInt.connect_param f = None → is_Some (FiberInt.wtoken f) → run_timedout (S j) p s = Panic).
Proof.
  intros Hf ([fn Hfn] & Ht & Hx) j. assert (p < length (fibers_of s)) as Hp by (by eapply lookup_lt_Some).
  split; [by apply (restart_panics j s p f fn)|]. split.
  - intros Hcp. unfold run_toexec. eapply bind_eq; [by apply fiber_eq|]. rewrite Hcp.
    by apply (restart_panics j s p f fn).
  - intros Hcp [tk Hw]. unfold run_timedout. eapply bind_eq; [by apply fiber_eq|]. rewrite Hw, Hcp.
    eapply bind_eq; [by apply upd_fiber_eq|]. eapply bind_eq; [by apply upd_fiber_eq, put_same|].
    rewrite put_put. by eapply (restart_panics j _ p _ fn); [apply put_same|..].
Qed.


(** ** Lookups that time out *)

(** The fiber waits inside a call, and has no result to hand over. *)
Lemma stepped_out_waiting s p f : fibers_of s !! p = Some f →
  FiberInt.state f = Stacked → FiberInt.result f = None → stepped_out p s = Ok (None, s).
Proof.
  intros Hf Hst Hres. unfold stepped_out. eapply bind_eq; [by apply fiber_eq|].
  rewrite Hst, decide_False by naive_solver. eapply bind_eq; [done|].
  eapply bind_eq; [by apply fiber_eq|]. rewrite Hst, Hres, decide_False by done.
  destruct (FiberInt.parent f); by rewrite decide_False by (by intros []).
Qed.

(** A fiber whose lookup is not over is not resumed by its queue: the runner looks
    for a response on its socket instead. *)
Lemma run_toexec_lookup n s p f cp : fibers_of s !! p = Some f →
  FiberInt.connect_param f = Some cp → FiberInt.sock f = Empty → run_toexec n p s = Ok (tt, s).
Proof.
  intros Hf Hcp Hsock. unfold run_toexec. eapply bind_eq; [by apply fiber_eq|].
  rewrite Hcp, Hsock. eapply bind_eq; [done|]. by destruct s.
Qed.

(** The fiber starts after its lookup's last tick. *)
Definition timed_out_lookup f : FiberInt.t :=
  FiberInt.set_wtoken (FiberInt.set_sock (FiberInt.set_timed_out f 0) Empty) None.

Lemma last_tick n s p f tk cp : fibers_of s !! p = Some f → FiberInt.wtoken f = Some tk →
  FiberInt.connect_param f = Some cp → FiberInt.timed_out f = 1%Z →
  run_timedout n p s = step_into n p (put s p (timed_out_lookup f)).
Proof.
  intros Hf Hw Hcp Hto. assert (p < length (fibers_of s)) as Hp by (by eapply lookup_lt_Some).
  unfold run_timedout. eapply bind_eq; [by apply fiber_eq|]. rewrite Hw, Hcp.
  eapply (bind_eq _ _ _ 0%Z); [by rewrite Hto|].
  eapply bind_eq; [by apply upd_fiber_eq|]. eapply bind_eq; [by apply fiber_eq, put_same|].
  rewrite decide_False by (cbn; lia).
  eapply bind_eq; [by apply upd_fiber_eq, put_same|]. rewrite put_put.
  eapply bind_eq; [by apply upd_fiber_eq, put_same|]. by rewrite put_put.
Qed.

(** The runner has handed the fiber [p] to the main stack. *)
Definition handed s (p : nat) : Sys.t Sl :=
  with_runner s (RunnerInt.set_tomain (Sys.runner s)
    (RunnerInt.tomain_fibers (Sys.runner s) ++ [FiberRef.new (RunnerInt.pos (Sys.runner s)) p])).

Lemma exec_join_main m s p home f code k : fibers_of s !! p = Some f →
  FiberInt.trans f = Some Main → act code = Calls CJoinMain k →
  exec (S m) p home code s =
  Ok (Waiting home CJoinMain k, put (handed s p) p (FiberInt.set_trans f None)).
Proof.
  intros Hf Ht Hact. cbn [exec]. rewrite Hact. cbn [call_method]. unfold join_main.
  eapply (bind_eq _ _ _ (Blocked CJoinMain) (put (handed s p) p (FiberInt.set_trans f None))); [|done].
  eapply bind_eq; [done|]. eapply bind_eq; [by apply (step_out_eq (handed s p) p f)|done].
Qed.

(** A lookup without a socket, as those of the macOS client are, has a timer only
    for its first tick: when it fires, the ticks left are counted down, and no timer
    is registered for the next one.  The fiber keeps the token of the old timer. *)
Theorem lookup_without_socket fuel s p f tk cp : fibers_of s !! p = Some f →
  FiberInt.wtoken f = Some tk → FiberInt.connect_param f = Some cp →
  (∀ udp, FiberInt.sock f ≠ Udp udp) → (2 ≤ FiberInt.timed_out f)%Z →
  run_timedout fuel p s
    = Ok (tt, put s p (FiberInt.set_timed_out f (FiberInt.timed_out f - 1)%Z)).
Proof.
  intros Hf Hw Hcp Hs Ht. unfold run_timedout. eapply bind_eq; [by apply fiber_eq|].
  rewrite Hw, Hcp. unfold sub64. rewrite decide_True by lia.
  eapply bind_eq; [done|]. eapply bind_eq; [by apply upd_fiber_eq|].
  eapply bind_eq; [by eapply fiber_eq, put_same'|]. cbn [FiberInt.timed_out FiberInt.set_timed_out].
  rewrite decide_True by lia. eapply bind_eq; [done|].
  cbn [FiberInt.sock FiberInt.set_timed_out]. destruct (FiberInt.sock f) eqn:E; try done.
  by edestruct Hs.
Qed.

(** The runner takes the fiber for one whose lookup is still running. *)
Definition looks_up f : Prop :=
  is_Some (FiberInt.connect_param f) ∧ FiberInt.sock f = Empty ∧ FiberInt.wtoken f = None.

(** Neither its queue nor a timer resumes it, and to resume it from the main stack
    only queues it. *)
Lemma looks_up_stays s p f : fibers_of s !! p = Some f → looks_up f →
  (∀ j, run_toexec j p s = Ok (tt, s)) ∧ (∀ j, run_timedout j p s = Ok (tt, s))
  ∧ ∀ resp, has_queue s → ∃ s' f', resume_fiber p resp s = Ok (tt, s')
      ∧ fibers_of s' !! p = Some f' ∧ looks_up f' ∧ FiberInt.trans f' = FiberInt.trans f.
Proof.
  intros Hf ([cp Hcp] & Hsock & Hw). split_and!.
  - intros j. by eapply run_toexec_lookup.
  - intros j. unfold run_timedout. eapply bind_eq; [by apply fiber_eq|]. by rewrite Hw.
  - intros resp Hq. exists (queued (put s p (FiberInt.set_result f resp)) p), (FiberInt.set_result f resp).
    split_and!; [|by eapply (put_same' s)|by eexists|done..].
    unfold resume_fiber. eapply bind_eq; [by apply upd_fiber_eq|]. by apply push_toexec_eq.
Qed.

(** C33. A fiber whose host lookup timed out can not wait for the main stack.  The
    last tick of the lookup resumes the fiber, to start its function, with an empty
    socket and no timer, but leaves the connection parameters in place.  When the
    function calls [join_main] in that turn, after whatever calls, and they are still
    there ([looks_up]), the main stack gets the fiber; to resume it queues it, but
    in every state in which the fiber still [looks_up], the loops of [run] over the
    queue and over the timers leave it alone.  (A child that steps into its parent,
    or a late answer of the macOS client, could still get it out.) *)
Theorem lookup_timeout_stuck n s p f tk cp m home code s1 g k :
  fibers_of s !! p = Some f → FiberInt.wtoken f = Some tk →
  FiberInt.connect_param f = Some cp → FiberInt.timed_out f = 1%Z →
  looks_up (timed_out_lookup f)
  ∧ run_timedout (S n) p s = step_into (S n) p (put s p (timed_out_lookup f))
  ∧ (in_turn n p (put s p (timed_out_lookup f)) (S m) home code s1 → act code = Calls CJoinMain k →
     fibers_of s1 !! p = Some g → FiberInt.trans g = Some Main → FiberInt.state g = Stacked →
     FiberInt.result g = None → looks_up g →
     ∃ s' g', run_timedout (S n) p s = Ok (tt, s')
     ∧ RunnerInt.tomain_fibers (Sys.runner s') = RunnerInt.tomain_fibers (Sys.runner s1)
         ++ [FiberRef.new (RunnerInt.pos (Sys.runner s1)) p]
     ∧ fibers_of s' !! p = Some g' ∧ looks_up g' ∧ FiberInt.trans g' = Some (Waiting home CJoinMain k))
  ∧ ∀ s2 g2, fibers_of s2 !! p = Some g2 → looks_up g2 →
      (∀ j, run_toexec j p s2 = Ok (tt, s2)) ∧ (∀ j, run_timedout j p s2 = Ok (tt, s2))
      ∧ ∀ resp, has_queue s2 → ∃ s3 g3, resume_fiber p resp s2 = Ok (tt, s3)
          ∧ fibers_of s3 !! p = Some g3 ∧ looks_up g3 ∧ FiberInt.trans g3 = FiberInt.trans g2.
Proof.
  intros Hf Hw Hcp Hto. pose proof (last_tick (S n) s p f tk cp Hf Hw Hcp Hto) as Hlast.
  split; [|split; [exact Hlast|split; [|by intros; apply looks_up_stays]]].
  { split_and!; [cbn; rewrite Hcp; by eexists|done|done]. }
  intros Hin Hact Hg Ht Hst Hres Hl. rewrite Hlast, (in_turn_runs _ _ _ _ _ _ _ Hin).
  set (g' := FiberInt.set_trans g (Some (Waiting home CJoinMain k))).
  exists (put (handed s1 p) p g'), g'. split_and!; [|done|by eapply (put_same' (handed s1 p))|exact Hl|done].
  unfold code_runs. eapply bind_eq; [by eapply exec_join_main|].
  eapply bind_eq; [by eapply upd_fiber_eq, (put_same' (handed s1 p))|]. rewrite put_put.
  eapply bind_eq; [by eapply stepped_out_waiting; [by eapply (put_same' (handed s1 p))|..]|done].
Qed.

(** How long a host lookup may take, in ticks of the poller: the timeout in
    whole milliseconds divided by 250, but at least 1 and at most 255 ticks (less
    than 64 seconds, whatever was asked for); a timeout of more milliseconds than
    [u64] holds panics. *)
Theorem resolve_ticks_spec {E} to : Duration.valid to →
  resolve_ticks (E := E) to =
    if decide (Duration.as_secs to * 1000 ≤ U64_MAX ∧ to / 1000000 ≤ U64_MAX)%Z
    then Ok (Z.max 1 (Z.min 255 (to / 1000000 / 250)))%Z else Panic.
Proof.
  intros Hto. unfold resolve_ticks, mul64, add64.
  destruct (decide (Duration.as_secs to * 1000 ≤ U64_MAX)%Z) as [H1|H1]; mstep;
    [|by rewrite decide_False by tauto].
  rewrite whole_millis. destruct (decide (to / 1000000 ≤ U64_MAX)%Z) as [H2|H2]; mstep;
    [|by rewrite decide_False by tauto].
  rewrite decide_True by done. unfold div64. rewrite decide_False by done. mstep.
  unfold TICK_MS. f_equal. assert (0 ≤ to / 1000000 / 250)%Z by (apply Z.div_pos; [apply Z.div_pos; [apply Hto|]|]; lia).
  repeat case_decide; lia.
Qed.

(** ** Timers *)

(** C38. A response timer that fires: the response goes to the main stack, after
    those that were there, and the slot is free again.  Nothing else changes but
    the slot, which is closed. *)
Theorem timer_response n s p f tk x : fibers_of s !! p = Some f →
  FiberInt.func f = None → FiberInt.wtoken f = Some tk → FiberInt.connect_param f = None →
  FiberInt.parent f = None → FiberInt.trans f = None → FiberInt.result f = Some x →
  ∃ s' g, run_timedout (S n) p s = Ok (tt, s')
  ∧ fibers_of s' = <[p := g]> (fibers_of s)
  ∧ FiberInt.state g = Closed ∧ FiberInt.wtoken g = None ∧ FiberInt.result g = None
  ∧ RunnerInt.results (Sys.runner s') = RunnerInt.results (Sys.runner s) ++ [x]
  ∧ RunnerInt.free_fibers (Sys.runner s') = RunnerInt.free_fibers (Sys.runner s) ++ [p]
  ∧ Sys.poller s' = Sys.poller s ∧ Sys.world s' = Sys.world s.
Proof.
  intros Hf Hfn Hw Hcp Hpar Ht Hres.
  assert (p < length (fibers_of s)) as Hp by (by eapply lookup_lt_Some).
  set (f1 := FiberInt.set_state (FiberInt.set_timed_out (FiberInt.set_wtoken f None) 1) Closed).
  set (f2 := FiberInt.set_sock f1 Empty). set (g := FiberInt.set_result f2 None).
  exists (freed (push_result (put s p g) x) p), g.
  split_and!; try done. unfold run_timedout.
  eapply bind_eq; [by apply fiber_eq|]. rewrite Hw, Hcp.
  eapply bind_eq; [by apply upd_fiber_eq|].
  eapply bind_eq; [by apply upd_fiber_eq, put_same|]. rewrite put_put. cbn [step_into].
  eapply (bind_eq _ _ _ tt (put s p f1)).
  { unfold run_turn. eapply bind_eq; [by apply fiber_eq, put_same|]. cbn. rewrite Hfn.
    erewrite upd_fiber_eq by (by apply put_same). by rewrite put_put. }
  eapply (bind_eq _ _ _ None (freed (push_result (put s p g) x) p)); [|done].
  unfold stepped_out. eapply bind_eq; [by apply fiber_eq, put_same|].
  eapply (bind_eq _ _ _ tt (put s p f1)).
  { rewrite decide_False; [done|]. cbn. rewrite Ht. by intros [_ []]. }
  eapply bind_eq; [by apply fiber_eq, put_same|]. rewrite decide_True by done.
  eapply bind_eq; [apply set_fiber_eq; cbn; by rewrite length_insert|]. rewrite put_put.
  change (FiberInt.parent f1) with (FiberInt.parent f). rewrite Hpar.
  eapply bind_eq; [by apply take_result_eq, (put_same s p f2)|]. rewrite put_put.
  change (FiberInt.result f2) with (FiberInt.result f). rewrite Hres. by eapply bind_eq.
Qed.
End turns.
