(* ===== verification/RunnerSafe.v ===== *)
(** * Runs that do not panic

    A runner panics in the cases that the findings describe: a fiber that is
    restarted, a child that outlives its parent, a fiber that is queued twice.  This
    file shows that there are no others for fibers that serve sockets: they read,
    write and accept, shake hands, send chunks, join the main stack and start
    further fibers, but have no children, do not hibernate, and look up no names
    ([serves_sockets]).

    When [spawn] is [false] the fibers do not start others either, the vector of the
    fibers stays where it is during a run, and the references of their frames are
    valid ([home0] is where they point): there is no use after free.

    [wp m J s]: from [s], the method [m] does not panic; if it has fuel enough it
    ends with a result and a state that satisfy [J], or, when [spawn] allows it,
    with a use after free.  [good cur s]: what keeps the runner [s] from panicking;
    during the turn of the fiber [p] in the state [f], [cur] is [Some (p, f)].  A
    method is verified by running it on [f]. *)
From stdpp Require Import strings.
From S2P Require Import Prelude Clock TimerConfig Slab Wheel WheelInv WheelSpec.
From S2P Require Import ByteOrder StdText Resolver Poller PollerProps.
From S2P Require Import Fiber Runner RunnerEval RunnerInv RunnerOrder.
Local Open Scope nat_scope.
Local Open Scope list_scope.

(** ** Timers *)
Section timers.
Context {S Stack : Type} `{SlabOps Entry.t S, !SlabLaws Entry.t S} (t0 t1 D : Z).
Implicit Types (w : Wheel.t S) (p : PollerInt.t S Stack).

(** The wheel holds instants from [t0] on and [D] beyond [t1], and has room for [b]
    more timers. *)
Record wheel_good (b : nat) w : Prop := {
  wheel_wf : wf w;
  wheel_start : (Wheel.start w ≤ t0)%Z;
  wheel_sane : (t1 + D < Wheel.start w + 2 ^ 63 * 1000000)%Z;
  wheel_ticks : (tick_of w (t1 + D) + 2 < 2 ^ 32)%Z;
  wheel_cursor : (Wheel.cur_wheel_tick w ≤ tick_of w (t1 + D) + 1)%Z;
  wheel_room : (len (Wheel.slab w) + Z.of_nat b ≤ Wheel.max_capacity w ≤ I64_MAX)%Z
}.

Lemma wheel_good_less b b' w : b' ≤ b → wheel_good b w → wheel_good b' w.
Proof. intros Hb []. split; try done. lia. Qed.

(** A wheel of the same configuration that has no more timers and whose cursor is no
    further *)
Lemma wheel_good_same b b' w w' : wheel_good b w → wf w' → same_config w w' →
  (Wheel.cur_wheel_tick w' ≤ tick_of w (t1 + D) + 1)%Z →
  (len (Wheel.slab w') + Z.of_nat b' ≤ len (Wheel.slab w) + Z.of_nat b)%Z → wheel_good b' w'.
Proof.
  intros [] Hwf Hc Hcur Hlen. pose proof (same_config_tick w w' (t1 + D) Hc) as Ht.
  destruct Hc. split; [done|congruence|congruence|lia|lia|]. rewrite same_max. lia.
Qed.

Lemma timer_reg_good b p me d now : wheel_good (b + 1) (PollerInt.wheel p) →
  (t0 ≤ now ≤ t1)%Z → (0 ≤ d ≤ D)%Z →
  ∃ r w', PollerInt.timer_reg p me (Some d) now = Ok (r, PollerInt.set_wheel p w')
    ∧ wheel_good b w'.
Proof.
  intros Hg Hnow Hd. pose proof Hg as [Hwf Hstart Hsane Hticks Hcur Hroom].
  pose proof (len_nonneg (Wheel.slab (PollerInt.wheel p))).
  destruct (reserve_spec _ Hwf) as (r & w1 & Hr & Hwf1 & Hc1 & Hcur1 & Hst); [lia|lia|].
  unfold PollerInt.timer_reg. cbn [default from_option id]. rewrite Hr. mstep. destruct r as [tk|].
  - destruct Hst as (_ & Hlen & Hst).
    assert (sane w1 (now + d)) as Hs1.
    { apply (same_config_sane (PollerInt.wheel p)); [done|]. unfold sane. lia. }
    assert (Instant.add (E:=Empty_set) now d = Ok (now + d)%Z) as ->.
    { destruct Hwf as (ls & rem & Hinv). pose proof (config_start _ (core_config _ _ _ (inv_core _ _ _ Hinv))).
      unfold Instant.add, Duration.as_secs. rewrite decide_True; [done|].
      apply Z.div_le_upper_bound; unfold Duration.NANOS_PER_SEC, I64_MAX in *; lia. }
    mstep. pose proof (tick_of_mono w1 (now + d) (t1 + D) Hwf1 ltac:(lia)) as Hle.
    rewrite !(same_config_tick _ w1 _ Hc1) in Hle.
    destruct (set_timeout_spec w1 tk (now + d) me Hwf1) as (w2 & -> & Hwf2 & Hc2 & Hcur2 & Hlen2 & _);
      [by rewrite Hst, decide_True|done| |].
    { rewrite (same_config_tick _ w1 _ Hc1). lia. }
    mstep. exists (Some tk), w2. split; [done|].
    eapply wheel_good_same; [exact Hg|done|by etrans|lia|lia].
  - destruct Hst as (-> & _). exists None, (PollerInt.wheel p). split; [done|].
    by apply (wheel_good_less (b + 1)); [lia|].
Qed.

Lemma timer_cancel_good b p tk : wheel_good b (PollerInt.wheel p) →
  ∃ w', PollerInt.timer_cancel p tk = Ok (PollerInt.set_wheel p w') ∧ wheel_good b w'.
Proof.
  intros Hg. destruct (cancel_spec _ tk (wheel_wf _ _ Hg)) as (w' & Hw & Hwf & Hc & Hcur & Hlen & _).
  exists w'. unfold PollerInt.timer_cancel. rewrite Hw. split; [done|].
  pose proof (wheel_cursor _ _ Hg). eapply wheel_good_same; [exact Hg|done|done|lia|lia].
Qed.
End timers.

(** ** Not to panic *)
Section wp.
Context {N : Net} {Pr : Program} {Sl : Type} (spawn : bool).
Implicit Types (s : Sys.t Sl).
Abbreviation M := (Run (Sys.t Sl)).

Definition wp {A} (m : M A) (J : A → Sys.t Sl → Prop) s : Prop :=
  match m s with
  | Ok (a, s') => J a s'
  | OutOfFuel => True
  | Err UseAfterFree => spawn = true
  | Panic => False
  end.

Lemma wp_bind {A B} (m : M A) (k : A → M B) J s :
  wp m (λ a, wp (k a) J) s → wp (m ≫= k) J s.
Proof. unfold wp, mbind, run_bind. by destruct (m s) as [[a s1]|[]| |]. Qed.

Lemma wp_mono {A} (m : M A) (J J' : A → Sys.t Sl → Prop) s :
  wp m J s → (∀ a s', J a s' → J' a s') → wp m J' s.
Proof. unfold wp. destruct (m s) as [[a s1]|[]| |]; auto. Qed.

Lemma wp_ret {A} (a : A) (J : A → Sys.t Sl → Prop) s : J a s → wp (mret a) J s.
Proof. done. Qed.

(** The first action is known to return. *)
Lemma wp_step {A B} (m : M A) (k : A → M B) J s a s1 :
  m s = Ok (a, s1) → wp (k a) J s1 → wp (m ≫= k) J s.
Proof. unfold wp, mbind, run_bind. by intros ->. Qed.

Lemma wp_eq {A} (m : M A) (J : A → Sys.t Sl → Prop) s a s1 : m s = Ok (a, s1) → J a s1 → wp m J s.
Proof. unfold wp. by intros ->. Qed.

Lemma wp_then {A B} (m : M A) (k : A → M B) I J s :
  wp m I s → (∀ a s', I a s' → wp (k a) J s') → wp (m ≫= k) J s.
Proof. intros Hm Hk. apply wp_bind. by eapply wp_mono. Qed.

(** Only the world changes. *)
Lemma wp_world {A} (g : W → A * W) (J : A → Sys.t Sl → Prop) s :
  (∀ a w, J a (with_world s w)) → wp (world g) J s.
Proof. intros HJ. unfold wp, world. destruct (g _) as [a w]. apply HJ. Qed.

Lemma wp_world_opt {A} (g : W → outcome Empty_set (A * W)) (J : A → Sys.t Sl → Prop) s :
  (∀ w, g w ≠ Panic) → (∀ a w, J a (with_world s w)) → wp (world_opt g) J s.
Proof.
  intros Hg HJ. unfold wp, world_opt. specialize (Hg (Sys.world s)).
  destruct (g _) as [[a w]|[]| |]; cbn; [apply HJ|by destruct Hg|done].
Qed.

Lemma wp_Ok {A} (m : M A) J s a s' : wp m J s → m s = Ok (a, s') → J a s'.
Proof. unfold wp. intros H Hm. by rewrite Hm in H. Qed.
Lemma wp_no_panic {A} (m : M A) J s : wp m J s → m s ≠ Panic.
Proof. unfold wp. intros H Hm. by rewrite Hm in H. Qed.
Lemma wp_valid {A} (m : M A) J s : wp m J s → spawn = false → m s ≠ Err UseAfterFree.
Proof. unfold wp. intros H Hs Hm. rewrite Hm in H. by rewrite Hs in H. Qed.
End wp.

(** ** Fibers that serve sockets *)
Section serving.
Context {N : Net} {Pr : Program} (D : Z) (spawn : bool) (home0 : nat).
Implicit Types (f : FiberInt.t) (c : Call P R FiberFn).

(** Calls without children, hibernation and lookups; a timeout is at most [D]. *)
Definition allowed c : bool :=
  match c with
  | CSocketTimeout (Some d) => bool_decide (0 ≤ d ≤ D)%Z
  | CNewResolveConnect _ _ _ _ _ _ | CJoinTcp _ _ _ | CJoinUdp _ _ _
  | CJoinResolveConnect _ _ _ _ _ _ | CGetChild | CHibernateForRead | CHibernateJoinMain => false
  | _ => true
  end.

(** The calls that start fibers *)
Definition starts c : bool :=
  match c with CNewTcp _ _ _ | CNewListener _ _ _ | CNewUdp _ _ _ => true | _ => false end.

(** The calls that wait with a timer *)
Definition timed c : bool :=
  match c with
  | CTlsConnect _ _ | CTlsAccept _ | CReadBufs _ | CWriteBufs _ | CRead _ | CWrite _ => true
  | _ => false
  end.

(** All code that satisfies [plain], the fiber functions' among it, only makes
    calls that are allowed, and starts no fibers unless [spawn] says so. *)
Record serves_sockets (plain : Code → Prop) : Prop := {
  enter_plain : ∀ fn h x, plain (enter fn h x);
  act_plain : ∀ code c k, plain code → act code = Calls c k →
    allowed c = true ∧ (starts c = true → spawn = true) ∧ ∀ r, plain (k r)
}.

Context (plain : Code → Prop).

Definition unattached f : Prop := FiberInt.connect_param f = None ∧ FiberInt.parent f = None.

(** Not started yet *)
Definition fresh f : Prop :=
  idle f ∧ FiberInt.state f = Unstacked ∧ unattached f
  ∧ (is_Some (FiberInt.func f) → is_Some (FiberInt.param f) ∧ FiberInt.result f = None).

(** In its function, in the call [c] *)
Definition inside c f : Prop :=
  is_Some (FiberInt.stack f) ∧ is_Some (FiberInt.func f) ∧ FiberInt.state f = Stacked ∧ unattached f
  ∧ allowed c = true ∧ blocking c = true
  ∧ (is_Some (FiberInt.wtoken f) → timed c = true).

(** The reference in its frames is valid. *)
Definition at_home (home : nat) : Prop := spawn = false → home = home0.

Definition waits_in f : Prop :=
  ∃ home c k, FiberInt.trans f = Some (Waiting home c k) ∧ inside c f
    ∧ (is_Some (FiberInt.result f) → c = CJoinMain) ∧ (∀ r, plain (k r)) ∧ at_home home.

(** During its turn *)
Definition running f : Prop :=
  FiberInt.trans f = Some Main ∧ is_Some (FiberInt.stack f) ∧ is_Some (FiberInt.func f)
  ∧ FiberInt.state f = Stacked ∧ unattached f ∧ FiberInt.wtoken f = None ∧ FiberInt.result f = None.

(** Its turn has ended in the call [c]. *)
Definition halted c f : Prop :=
  FiberInt.trans f = None ∧ inside c f
  ∧ (is_Some (FiberInt.result f) → ∃ x, c = CRespChunk x).

(** Its turn goes on in the call [c]. *)
Definition woken c f : Prop :=
  FiberInt.trans f = None ∧ inside c f ∧ (is_Some (FiberInt.result f) → c = CJoinMain).

Definition ended f : Prop :=
  FiberInt.trans f = None ∧ is_Some (FiberInt.stack f) ∧ FiberInt.state f = Closed ∧ unattached f
  ∧ FiberInt.wtoken f = None.

(** Its slot may be used again. *)
Definition dead f : Prop := idle f ∧ FiberInt.state f = Closed ∧ FiberInt.wtoken f = None.

(** It can be resumed now. *)
Definition resumable f : Prop := fresh f ∧ FiberInt.wtoken f = None ∨ waits_in f.

(** Its timeout is a time, and its slot can be used [b] more times. *)
Definition lasting (b : nat) f : Prop :=
  (∀ d, FiberInt.timeout f = Some d → 0 ≤ d ≤ D)%Z
  ∧ (FiberInt.generation f + Z.of_nat b ≤ U64_MAX)%Z.

Lemma resumable_not_dead f : resumable f → ¬ dead f.
Proof.
  intros [[(_ & Hs & _) _]|(home & c & k & Ht & _)] [(Ht' & _) (Hs' & _)]; congruence.
Qed.

(** A socket that is registered changes the fiber's interest only. *)
Lemma register_ready f (w : W) rdy : ∃ x, (FiberInt.register f w rdy).1.2 = FiberInt.set_ready f x
  ∨ (FiberInt.register f w rdy).1.2 = f.
Proof.
  exists rdy. unfold FiberInt.register. destruct (Sock.evented _); [|by right].
  destruct (if is_empty _ then _ else _). cbn. tauto.
Qed.
End serving.

(** ** Vectored reads and writes *)
Section vectored.
Context {N : Net}.

Lemma tls_read_loop_no_panic fuel w tls bufs sz i : Sock.tls_read_loop fuel w tls bufs sz i ≠ Panic.
Proof.
  revert w bufs sz i. induction fuel as [|fuel IH]; intros w bufs sz i; cbn [Sock.tls_read_loop];
    (case_decide as Hi; [|done]); [done|].
  destruct (index_lt (E:=Empty_set) bufs i Hi) as (buf & -> & _). mstep.
  destruct (tls_read w tls buf) as [[[s|e] buf'] w1]; rewrite store_in by done; mstep;
    case_decide; done.
Qed.

Lemma tls_write_loop_no_panic fuel w tls tmp bufs wpos sz i : wpos ≤ length tmp →
  Sock.tls_write_loop fuel w tls tmp bufs wpos sz i ≠ Panic.
Proof.
  revert w tmp wpos sz i. induction fuel as [|fuel IH]; intros w tmp wpos sz i Hw;
    cbn [Sock.tls_write_loop]; (case_decide as Hi; [|done]); [done|].
  destruct (index_lt (E:=Empty_set) bufs i Hi) as (buf & -> & _). mstep. case_decide as Hsmall.
  - rewrite copy_at_in by lia. mstep. apply IH. rewrite !length_app, length_take, length_drop. lia.
  - destruct (decide (0 < wpos)).
    + rewrite slice_in by lia. mstep. destruct (tls_write _ _ _) as [[k|e] w1]; mstep;
        repeat case_decide; try done. apply IH. lia.
    + destruct (tls_write _ _ _) as [[k|e] w1]; mstep; repeat case_decide; try done. by apply IH.
Qed.
End vectored.

(** ** The state *)
Section good.
Context {N : Net} {Pr : Program} {Sl : Type} {SO : SlabOps Entry.t Sl} {SL : SlabLaws Entry.t Sl}.
Context {BE : BigEndian} (t0 t1 D : Z) (spawn : bool) (plain : Code → Prop) (home0 : nat).
Implicit Types (s : Sys.t Sl) (f : FiberInt.t).

(** In the loop over the timers ([late]), a queued fiber has no timer. *)
Definition queueable (late : bool) f : Prop :=
  resumable D spawn home0 plain f ∧ (late = true → FiberInt.wtoken f = None).

(** The poller makes stacks of the default size, or the operating system always has
    one of the size that was asked for. *)
Definition stacks_ok (p : PollerInt.t Sl Stack) : Prop :=
  ∀ size, PollerInt.stack_size p = Some size → ∀ w : W, is_Some (new_stack w size).1.

(** A runner that does not panic, with room for [bt] more timers and [bg] more
    fibers.  [cur] is the fiber whose turn it is. *)
Record good (late : bool) (cur : option (nat * FiberInt.t)) (bt bg : nat) s : Prop := {
  good_pos : (0 ≤ RunnerInt.pos (Sys.runner s) < 20)%Z;
  good_queues : length (PollerInt.toexec_fibers (Sys.poller s)) = RUNNERS
    ∧ length (PollerInt.timedout_fibers (Sys.poller s)) = RUNNERS
    ∧ length (PollerInt.lookup_results (Sys.poller s)) = RUNNERS;
  good_wheel : wheel_good t0 t1 D bt (PollerInt.wheel (Sys.poller s));
  good_size : stacks_ok (Sys.poller s);
  good_home : at_home spawn home0 (RunnerInt.buffer (Sys.runner s));
  good_free_once : NoDup (RunnerInt.free_fibers (Sys.runner s));
  good_free : ∀ i, i ∈ RunnerInt.free_fibers (Sys.runner s) →
    fst <$> cur ≠ Some i ∧ ∃ f, fibers_of s !! i = Some f ∧ dead f;
  good_toexec_once : NoDup (toexec s);
  good_toexec : ∀ i, i ∈ toexec s →
    fst <$> cur ≠ Some i ∧ ∃ f, fibers_of s !! i = Some f ∧ queueable late f;
  good_timedout : ∀ i, i ∈ timedout s → i < length (fibers_of s);
  good_lookups : lookups s = [];
  good_room : (Z.of_nat (length (fibers_of s)) + Z.of_nat bg ≤ 2 ^ 32)%Z;
  good_cur : ∀ p f, cur = Some (p, f) → fibers_of s !! p = Some f;
  good_fibers : ∀ i f, fibers_of s !! i = Some f → lasting D bg f
    ∧ (fst <$> cur ≠ Some i → fresh f ∨ waits_in D spawn home0 plain f ∨ dead f)
}.

Lemma lasting_less b b' f : b' ≤ b → lasting D b f → lasting D b' f.
Proof. intros Hb []. split; [done|lia]. Qed.

Lemma good_less late cur bt bg bt' bg' s : bt' ≤ bt → bg' ≤ bg →
  good late cur bt bg s → good late cur bt' bg' s.
Proof.
  intros Ht Hg []. split; try assumption.
  - by eapply wheel_good_less.
  - lia.
  - intros i f [? ?]%good_fibers0. split; [by eapply lasting_less|assumption].
Qed.

Lemma good_world late cur bt bg s w : good late cur bt bg s → good late cur bt bg (with_world s w).
Proof. intros []. split; assumption. Qed.

(** The runner changes outside its fibers and its free list. *)
Lemma good_runner late cur bt bg s r : RunnerInt.pos r = RunnerInt.pos (Sys.runner s) →
  RunnerInt.fibers r = fibers_of s → RunnerInt.free_fibers r = RunnerInt.free_fibers (Sys.runner s) →
  RunnerInt.buffer r = RunnerInt.buffer (Sys.runner s) →
  good late cur bt bg s → good late cur bt bg (with_runner s r).
Proof.
  intros Hp Hf Hfr Hb []. unfold toexec, timedout, lookups, queue_of in *.
  split; unfold toexec, timedout, lookups, queue_of; cbn; rewrite ?Hp, ?Hfr, ?Hb; try assumption.
  all: unfold fibers_of in *; cbn; by rewrite Hf.
Qed.

(** The poller changes outside its queues. *)
Lemma good_poller late cur bt bg bt' s p :
  PollerInt.toexec_fibers p = PollerInt.toexec_fibers (Sys.poller s) →
  PollerInt.timedout_fibers p = PollerInt.timedout_fibers (Sys.poller s) →
  PollerInt.lookup_results p = PollerInt.lookup_results (Sys.poller s) →
  PollerInt.stack_size p = PollerInt.stack_size (Sys.poller s) →
  wheel_good t0 t1 D bt' (PollerInt.wheel p) →
  good late cur bt bg s → good late cur bt' bg (with_poller s p).
Proof.
  intros H1 H2 H3 H4 Hw []. unfold stacks_ok, toexec, timedout, lookups, queue_of in *.
  split; unfold stacks_ok, toexec, timedout, lookups, queue_of; cbn; rewrite ?H1, ?H2, ?H3, ?H4; assumption.
Qed.

Lemma put_length s i f : length (fibers_of (put s i f)) = length (fibers_of s).
Proof. unfold put, with_runner, fibers_of. cbn. by rewrite length_insert. Qed.

(** The fiber whose turn it is changes. *)
Lemma good_put late bt bg s p f f' : good late (Some (p, f)) bt bg s →
  FiberInt.timeout f' = FiberInt.timeout f ∨ (∀ d, FiberInt.timeout f' = Some d → 0 ≤ d ≤ D)%Z →
  FiberInt.generation f' = FiberInt.generation f →
  good late (Some (p, f')) bt bg (put s p f').
Proof.
  intros [] Hd Hg. pose proof (good_cur0 p f eq_refl) as Hf.
  assert (∀ i, i ≠ p → fibers_of (put s p f') !! i = fibers_of s !! i) as Hother
    by (intros; by apply put_other).
  split; try assumption.
  - intros i [Hi ?]%good_free0. split; [exact Hi|]. rewrite Hother; [done|]. cbn in Hi. congruence.
  - intros i [Hi ?]%good_toexec0. split; [exact Hi|]. rewrite Hother; [done|]. cbn in Hi. congruence.
  - intros i Hi%good_timedout0. by rewrite put_length.
  - by rewrite put_length.
  - intros ? ? [= <- <-]. by eapply put_same'.
  - intros i g Hi. destruct (decide (i = p)) as [->|Hne].
    + rewrite (put_same' _ _ f f' Hf) in Hi. injection Hi as <-.
      destruct (good_fibers0 p f Hf) as [[Hl1 Hl2] _]. split; [|done].
      split; [|by rewrite Hg]. destruct Hd as [->|?]; assumption.
    + rewrite Hother in Hi by done. by apply good_fibers0.
Qed.

(** A turn begins, and ends. *)
Lemma good_open late bt bg s p f : good late None bt bg s → fibers_of s !! p = Some f →
  ¬ dead f → p ∉ toexec s → good late (Some (p, f)) bt bg s.
Proof.
  intros [] Hf Hd Hq. split; try assumption.
  - intros i Hi. destruct (good_free0 i Hi) as (_ & g & Hg & Hdg). split; [|by exists g].
    cbn. intros [= ->]. congruence.
  - intros i Hi. destruct (good_toexec0 i Hi) as (_ & ?). split; [|done]. cbn. by intros [= ->].
  - by intros ? ? [= -> ->].
  - intros i g Hi. destruct (good_fibers0 i g Hi) as [? Hg]. split; [done|]. intros _. by apply Hg.
Qed.

Lemma good_close late bt bg s p f : good late (Some (p, f)) bt bg s →
  fresh f ∨ waits_in D spawn home0 plain f ∨ dead f → good late None bt bg s.
Proof.
  intros [] Hf. split; try assumption.
  - intros i (_ & ?)%good_free0. by split.
  - intros i (_ & ?)%good_toexec0. by split.
  - done.
  - intros i g Hi. destruct (good_fibers0 i g Hi) as [? Hg]. split; [done|]. intros _.
    destruct (decide (i = p)) as [->|Hne].
    + rewrite (good_cur0 p f eq_refl) in Hi. by injection Hi as <-.
    + apply Hg. cbn. congruence.
Qed.

Lemma good_has_queue late cur bt bg s : good late cur bt bg s → has_queue s.
Proof.
  intros []. unfold has_queue. apply lookup_lt_is_Some_2. destruct good_queues0 as [-> _].
  unfold RUNNERS. lia.
Qed.

(** A fiber that has just been made *)
Definition newborn (bg : nat) f : Prop :=
  fresh f ∧ FiberInt.wtoken f = None ∧ lasting D bg f.

Lemma newborn_queueable late bg f : newborn bg f → queueable late f.
Proof. intros (Hf & Hw & _). split; [by left|done]. Qed.

(** A fiber that can be resumed is queued. *)
Lemma toexec_queued s i : has_queue s → toexec (queued s i) = toexec s ++ [i].
Proof.
  intros [q Hq]. unfold toexec, queue_of. set (k := Z.to_nat (RunnerInt.pos (Sys.runner s))) in *.
  assert (queue (PollerInt.toexec_fibers (Sys.poller (queued s i))) k
    = queue (PollerInt.toexec_fibers (Sys.poller s)) k ++ [Z.of_nat i]) as Hk.
  { unfold queue, queued, with_poller, PollerInt.set_toexec.
    cbn [Sys.poller PollerInt.toexec_fibers]. fold k. by rewrite list_lookup_alter_eq, Hq. }
  change (RunnerInt.pos (Sys.runner (queued s i))) with (RunnerInt.pos (Sys.runner s)).
  fold k. rewrite Hk, fmap_app. cbn. by rewrite Nat2Z.id.
Qed.

Lemma good_queued late cur bt bg s i f : good late cur bt bg s → fst <$> cur ≠ Some i →
  fibers_of s !! i = Some f → queueable late f → i ∉ toexec s →
  good late cur bt bg (queued s i).
Proof.
  intros Hs Hc Hf Hq Hi. pose proof (good_has_queue _ _ _ _ _ Hs) as Hh.
  pose proof (toexec_queued s i Hh) as Ht. destruct Hs. split; try assumption.
  - cbn. by rewrite length_alter.
  - rewrite Ht. apply NoDup_app. split_and!; [done| |apply NoDup_singleton].
    by intros x Hx ->%list_elem_of_singleton.
  - intros j. rewrite Ht. intros [Hj| ->%list_elem_of_singleton]%elem_of_app; [by apply good_toexec0|].
    split; [done|by exists f].
Qed.

Lemma wp_schedule late cur bt bg s f i : good late cur bt bg s → newborn bg f →
  fibers_of s !! i = Some f → fst <$> cur ≠ Some i → i ∉ toexec s →
  wp spawn (push_toexec i;; mret tt;; mret (inl i)) (λ _ : io nat, good late cur bt bg) s.
Proof.
  intros Hs Hf Hi Hc Hq. eapply wp_step.
  - apply push_toexec_eq. by eapply good_has_queue.
  - apply wp_bind, wp_ret, wp_ret. eapply good_queued; [exact Hs|done|exact Hi| |done].
    by eapply newborn_queueable.
Qed.
End good.

(** ** The vector of the fibers moves *)
Section moves.
Context {N : Net} {Pr : Program} {Sl : Type} {SO : SlabOps Entry.t Sl} {SL : SlabLaws Entry.t Sl}.
Context {BE : BigEndian} (t0 t1 D : Z) (spawn : bool) (plain : Code → Prop).
Implicit Types (s : Sys.t Sl) (f : FiberInt.t) (h : nat).
Abbreviation good_in sp := (good (Sl := Sl) t0 t1 D sp plain).
Abbreviation good := (good_in spawn).

(** Where the references point does not matter when they may dangle. *)
Lemma good_any spawn' h h' late cur bt bg s : spawn' = true → good h late cur bt bg s →
  good_in spawn' h' late cur bt bg s.
Proof.
  intros -> []. assert (∀ x y, at_home true x y) as Hany by by intros x y [=].
  assert (∀ f, waits_in D spawn h plain f → waits_in D true h' plain f) as Hw.
  { intros f (home & c & k & ? & ? & ? & ? & _). by exists home, c, k. }
  split; try assumption; [apply Hany| |].
  - intros i (Hc & f & Hf & [Hr|Hr] & Hl)%good_toexec0; (split; [done|]); exists f;
      (split; [done|]); (split; [|done]); [by left|right; by apply Hw].
  - intros i f (? & Hk)%good_fibers0. split; [done|]. intros Hc. destruct (Hk Hc) as [?|[?|?]]; auto.
Qed.

(** A new fiber at the end: those that wait still have valid references. *)
Lemma good_push_fiber h h' late cur bt bg s f : good h late cur bt (bg + 1) s → newborn D bg f →
  let s' := with_runner s (RunnerInt.push_fiber (Sys.runner s) f) in
  at_home spawn h' (RunnerInt.buffer (Sys.runner s')) →
  (∀ i g, fibers_of s !! i = Some g → waits_in D spawn h plain g → waits_in D spawn h' plain g) →
  good h' late cur bt bg s'.
Proof.
  intros Hs (Hf & Hw & Hl) s' Hhome Hwait. pose proof (good_room _ _ _ _ _ _ _ _ _ _ _ Hs) as Hroom.
  apply (good_less _ _ _ _ _ _ _ _ bt (bg + 1) bt bg) in Hs; [|lia..]. destruct Hs.
  assert (fibers_of s' = fibers_of s ++ [f]) as Hfs by apply push_fibers.
  assert (RunnerInt.pos (Sys.runner s') = RunnerInt.pos (Sys.runner s)) as Hp by apply push_pos.
  assert (RunnerInt.free_fibers (Sys.runner s') = RunnerInt.free_fibers (Sys.runner s)) as Hfr
    by apply push_free_fibers.
  unfold toexec, timedout, lookups, queue_of in *.
  assert (∀ i g, fibers_of s !! i = Some g → fibers_of s' !! i = Some g) as Hold.
  { intros i g Hi. rewrite Hfs. by apply lookup_app_l_Some. }
  split; unfold toexec, timedout, lookups, queue_of; rewrite ?Hp, ?Hfr; try assumption.
  - intros i (? & g & Hg & ?)%good_free0. split; [done|]. exists g. auto.
  - intros i (? & g & Hg & [Hr|Hr] & ?)%good_toexec0; (split; [done|]); exists g;
      (split; [auto|]); (split; [|done]); [by left|right; by eapply Hwait].
  - intros i Hi%good_timedout0. rewrite Hfs, length_app. lia.
  - rewrite Hfs, length_app. cbn. lia.
  - intros p g Hc%good_cur0. auto.
  - intros i g. rewrite Hfs. intros [Hi|[_ Hg]]%lookup_app_Some.
    + pose proof (good_fibers0 i g Hi) as [? Hk]. split; [done|]. intros Hc.
      destruct (Hk Hc) as [?|[?|?]]; eauto.
    + apply list_lookup_singleton_Some in Hg as [_ <-]. split; [done|]. intros _. by left.
Qed.

(** A new fiber does not move fibers that wait in their functions. *)
Definition steady s : Prop :=
  RunnerInt.free_fibers (Sys.runner s) ≠ []
  ∨ length (fibers_of s) ≠ RunnerInt.capacity (Sys.runner s)
  ∨ ∀ i f, fibers_of s !! i = Some f → FiberInt.state f ≠ Stacked.

(** ... so that their references are valid. *)
Lemma steady_push h late cur bt bg s f : good h late cur bt bg s →
  RunnerInt.free_fibers (Sys.runner s) = [] → (spawn = false → steady s) →
  let h' := RunnerInt.buffer (RunnerInt.push_fiber (Sys.runner s) f) in
  ∀ i g, fibers_of s !! i = Some g → waits_in D spawn h plain g → waits_in D spawn h' plain g.
Proof.
  intros Hs Hfree Hst h' i g Hg (home & c & k & Ht & Hin & Hr & Hk & Hh). exists home, c, k.
  split_and!; try done. intros Hsp. specialize (Hh Hsp). destruct (Hst Hsp) as [?|[Hcap|Hno]]; [done| |].
  - rewrite Hh. unfold h', RunnerInt.push_fiber. rewrite decide_False by done. cbn.
    symmetry. by apply (good_home _ _ _ _ _ _ _ _ _ _ _ Hs).
  - destruct Hin as (_ & _ & Hsd & _). by destruct (Hno i g Hg).
Qed.
End moves.

(** ** Methods *)
Section methods.
Context {N : Net} {Pr : Program} {Sl : Type} {SO : SlabOps Entry.t Sl} {SL : SlabLaws Entry.t Sl}.
Context {BE : BigEndian} (t0 t1 D : Z) (spawn : bool) (plain : Code → Prop) (home0 : nat).
Context (Hclock : ∀ w, (t0 ≤ (now w).1 ≤ t1)%Z) (Hdefault : (Duration.from_millis 20000 ≤ D)%Z).
Implicit Types (s : Sys.t Sl) (f : FiberInt.t).
Abbreviation M := (Run (Sys.t Sl)).
Abbreviation good_at := (good (Sl := Sl) t0 t1 D spawn plain).
Abbreviation good := (good_at home0).
Abbreviation wp := (wp (Sl := Sl) spawn).

(** The fiber [p] is in a state that satisfies [F]. *)
Definition at_turn (late : bool) (p bt bg : nat) (F : FiberInt.t → Prop) s : Prop :=
  ∃ f, F f ∧ good late (Some (p, f)) bt bg s.

Lemma cur_lookup late p f bt bg s : good late (Some (p, f)) bt bg s → fibers_of s !! p = Some f.
Proof. intros []. by apply good_cur0. Qed.

Lemma cur_fiber late p f bt bg s : good late (Some (p, f)) bt bg s → fiber p s = Ok (f, s).
Proof. intros Hs%cur_lookup. by apply fiber_eq. Qed.

Lemma wp_fiber {B} late p f bt bg (k : FiberInt.t → M B) J s : good late (Some (p, f)) bt bg s →
  wp (k f) J s → wp (fiber p ≫= k) J s.
Proof. intros Hs. by eapply wp_step, cur_fiber. Qed.

Lemma wp_set_fiber late p f f' bt bg J s : good late (Some (p, f)) bt bg s →
  FiberInt.timeout f' = FiberInt.timeout f ∨ (∀ d, FiberInt.timeout f' = Some d → 0 ≤ d ≤ D)%Z →
  FiberInt.generation f' = FiberInt.generation f →
  (good late (Some (p, f')) bt bg (put s p f') → J tt (put s p f')) → wp (set_fiber p f') J s.
Proof.
  intros Hs Hd Hg HJ. eapply wp_eq; [eapply set_fiber_eq, lookup_lt_Some, cur_lookup, Hs|].
  eapply HJ, good_put; eauto.
Qed.

Lemma wp_upd_fiber late p f g bt bg J s : good late (Some (p, f)) bt bg s →
  FiberInt.timeout (g f) = FiberInt.timeout f ∨ (∀ d, FiberInt.timeout (g f) = Some d → 0 ≤ d ≤ D)%Z →
  FiberInt.generation (g f) = FiberInt.generation f →
  (good late (Some (p, g f)) bt bg (put s p (g f)) → J tt (put s p (g f))) → wp (upd_fiber p g) J s.
Proof. intros Hs ???. eapply wp_fiber; [exact Hs|]. by eapply wp_set_fiber. Qed.

Lemma wp_timer_reg late cur bt bg id d (J : option Token.t → Sys.t Sl → Prop) s :
  good late cur (bt + 1) bg s → (0 ≤ d ≤ D)%Z →
  (∀ r s', good late cur bt bg s' → J r s') → wp (timer_reg id (Some d)) J s.
Proof.
  intros Hs Hd HJ. unfold timer_reg. apply wp_bind. pose proof (Hclock (Sys.world s)) as Hnow.
  unfold wp at 1, world. destruct (now (Sys.world s)) as [t w]. cbn in Hnow.
  destruct (timer_reg_good t0 t1 D bt (Sys.poller s) id d t) as (r & w' & Hr & Hw);
    [by eapply good_wheel|done|done|].
  eapply wp_eq; [unfold poller; cbn [Sys.poller]; rewrite Hr; reflexivity|]. apply HJ.
  change (good late cur bt bg (with_poller (with_world s w) (PollerInt.set_wheel (Sys.poller s) w'))).
  eapply (good_poller _ _ _ _ _ _ _ _ (bt + 1)); try done. by apply good_world.
Qed.

Lemma wp_timer_cancel late cur bt bg tk (J : unit → Sys.t Sl → Prop) s :
  good late cur bt bg s → (∀ s', good late cur bt bg s' → J tt s') → wp (timer_cancel tk) J s.
Proof.
  intros Hs HJ. destruct (timer_cancel_good t0 t1 D bt (Sys.poller s) tk) as (w' & Hr & Hw);
    [by eapply good_wheel|].
  eapply wp_eq; [unfold timer_cancel, poller; rewrite Hr; reflexivity|]. apply HJ.
  change (good late cur bt bg (with_poller s (PollerInt.set_wheel (Sys.poller s) w'))).
  by eapply good_poller.
Qed.

Lemma cur_lasting late p f bt bg s : good late (Some (p, f)) bt bg s → lasting D bg f.
Proof. intros Hs. pose proof (cur_lookup _ _ _ _ _ _ Hs) as Hf. destruct Hs. by apply good_fibers0 in Hf as []. Qed.

(** ** Switching stacks *)
Lemma wp_step_out late p f bt bg (J : unit → Sys.t Sl → Prop) s :
  good late (Some (p, f)) bt bg s → FiberInt.trans f = Some Main →
  (∀ s', good late (Some (p, FiberInt.set_trans f None)) bt bg s' → J tt s') → wp (step_out p) J s.
Proof.
  intros Hs Ht HJ. unfold step_out. eapply wp_fiber; [exact Hs|]. rewrite Ht.
  eapply wp_set_fiber; [exact Hs|by left|done|]. apply HJ.
Qed.

Lemma wp_stepped_back {B} late p f bt bg (k : M B) J s : good late (Some (p, f)) bt bg s →
  (∀ s', good late (Some (p, FiberInt.set_trans f (Some Main))) bt bg s' → wp k J s') →
  wp (stepped_back p;; k) J s.
Proof.
  intros Hs HJ. eapply wp_bind, wp_upd_fiber; [exact Hs|by left|done|]. apply HJ.
Qed.

(** A call that waits without a timer *)
Lemma wp_blocked late p f bt bg c s : good late (Some (p, f)) bt bg s →
  (∀ g, g = FiberInt.set_trans f None → halted D c g) → FiberInt.trans f = Some Main →
  wp (step_out p;; mret (Blocked c))
    (λ r s, match r with Blocked c => at_turn late p bt bg (halted D c) s | _ => False end) s.
Proof.
  intros Hs Hc Ht. eapply wp_bind, wp_step_out; [exact Hs|exact Ht|]. intros s' Hs'.
  apply wp_ret. eexists. split; [by apply Hc|exact Hs'].
Qed.

(** ... and with one *)
Lemma wp_timed_blocked late p f bt bg c s : good late (Some (p, f)) (bt + 1) bg s → running f →
  allowed D c = true → timed c = true → blocking c = true →
  wp (timed_step_out p;; mret (Blocked c))
    (λ r s, match r with Blocked c => at_turn late p bt bg (halted D c) s | _ => False end) s.
Proof.
  intros Hs Hf Ha Htm Hb. unfold timed_step_out. apply wp_bind.
  eapply wp_fiber; [exact Hs|].
  assert (∀ g s, good late (Some (p, g)) bt bg s → (∃ n tk, g = FiberInt.set_wtoken
      (FiberInt.set_timed_out f n) tk) → wp (step_out p) (λ _, wp (mret (Blocked c))
    (λ r s, match r with Blocked c => at_turn late p bt bg (halted D c) s | _ => False end)) s) as Hend.
  { intros g s1 Hs1 (n & tk & ->). destruct Hf as (Ht & Hst & Hfn & Hsd & Hal & Hw & Hr).
    eapply wp_step_out; [exact Hs1|exact Ht|]. intros s2 Hs2. apply wp_ret.
    eexists. split; [|exact Hs2]. unfold halted, inside, unattached. cbn. rewrite Hr.
    split_and!; try done; apply Hal. }
  pose proof (cur_lasting _ _ _ _ _ _ Hs) as [Hd _].
  assert (f = FiberInt.set_wtoken (FiberInt.set_timed_out f (FiberInt.timed_out f)) (FiberInt.wtoken f))
    as Hid by by destruct f.
  destruct (FiberInt.timeout f) as [d|] eqn:Htd.
  - apply wp_bind, wp_bind. eapply wp_timer_reg; [exact Hs|by apply Hd|].
    intros [tk|] s1 Hs1.
    + eapply wp_upd_fiber; [exact Hs1|by left|done|]. intros Hs2. eapply Hend; [exact Hs2|eauto].
    + apply wp_ret. eapply Hend; [exact Hs1|eauto].
  - apply wp_bind, wp_ret. eapply Hend; [|eauto].
    eapply (good_less _ _ _ _ _ _ _ _ (bt + 1) bg); [lia|done|exact Hs].
Qed.

(** A fiber goes on in the call [c]: its timer is gone. *)
Lemma wp_timed_stepped_back {B} late p f c bt bg (k : M B) J s :
  good late (Some (p, f)) bt bg s → woken D c f → timed c = true →
  (∀ s' g, good late (Some (p, g)) bt bg s' → running g → wp k J s') →
  wp (timed_stepped_back p;; k) J s.
Proof.
  intros Hs (Ht & (Hst & Hfn & Hsd & Hal & Ha & Hb & Hw) & Hr) Htm HJ.
  assert (FiberInt.result f = None) as Hres.
  { destruct (FiberInt.result f); [|done]. by rewrite Hr in Htm. }
  unfold timed_stepped_back. apply wp_bind. eapply wp_stepped_back; [exact Hs|]. intros s1 Hs1.
  eapply wp_fiber; [exact Hs1|]. cbn. destruct (FiberInt.wtoken f) as [tk|] eqn:Hwt.
  - apply wp_bind. eapply wp_timer_cancel; [exact Hs1|]. intros s2 Hs2.
    eapply wp_upd_fiber; [exact Hs2|by left|done|]. intros Hs3. eapply HJ; [exact Hs3|].
    by split_and!.
  - apply wp_ret. eapply HJ; [exact Hs1|]. by split_and!.
Qed.

(** A fiber goes on in a call that has no timer. *)
Lemma running_untimed c f : woken D c f → timed c = false → FiberInt.result f = None →
  running (FiberInt.set_trans f (Some Main)).
Proof.
  intros (Ht & (Hst & Hfn & Hsd & Hal & Ha & Hb & Hw) & Hr) Htm Hres. split_and!; try done.
  cbn. destruct (FiberInt.wtoken f); [|done]. rewrite Hw in Htm; [done|by eexists].
Qed.

Lemma wp_fiber_register {B} late p f rdy bt bg (k : io unit → M B) J s :
  good late (Some (p, f)) bt bg s → running f →
  (∀ r s' g, good late (Some (p, g)) bt bg s' → running g → wp (k r) J s') →
  wp (fiber_register p rdy ≫= k) J s.
Proof.
  intros Hs Hf HJ. unfold fiber_register. apply wp_bind. eapply wp_fiber; [exact Hs|].
  apply wp_bind. unfold wp at 1, world. destruct (register_ready f (Sys.world s) rdy) as [x Hx].
  destruct (FiberInt.register f (Sys.world s) rdy) as [[r g] w]. cbn in Hx.
  pose proof (good_world _ _ _ _ _ _ _ _ _ _ _ w Hs) as Hs1. apply wp_bind.
  assert (FiberInt.timeout g = FiberInt.timeout f ∧ FiberInt.generation g = FiberInt.generation f
    ∧ running g) as (Ht & Hg & Hr) by by destruct Hx as [->| ->].
  eapply wp_set_fiber; [exact Hs1|by left|done|]. intros Hs2. apply wp_ret. by eapply HJ.
Qed.

(** ** Calls *)

(** A call returns to the fiber, or ends its turn. *)
Definition call_post (late : bool) (p bt bg : nat) (r : progress) s : Prop :=
  match r with
  | Done _ => at_turn late p (bt + 1) bg running s
  | Blocked c => at_turn late p bt bg (halted D c) s
  end.

Lemma wp_done late p f bt bg r s : good late (Some (p, f)) (bt + 1) bg s → running f →
  wp (mret (Done r)) (call_post late p bt bg) s.
Proof. intros Hs Hf. apply wp_ret. by exists f. Qed.

Lemma call_timed_blocked late p f bt bg c s : good late (Some (p, f)) (bt + 1) bg s → running f →
  allowed D c = true → timed c = true → blocking c = true →
  wp (timed_step_out p;; mret (Blocked c)) (call_post late p bt bg) s.
Proof.
  intros. eapply wp_mono; [by eapply wp_timed_blocked|]. by intros [r|c'] s'.
Qed.

Lemma call_blocked late p f bt bg c s : good late (Some (p, f)) (bt + 1) bg s →
  running f → allowed D c = true → blocking c = true →
  wp (step_out p;; mret (Blocked c)) (call_post late p bt bg) s.
Proof.
  intros Hs (Ht & Hst & Hfn & Hsd & Hal & Hw & Hr) Ha Hb. eapply wp_mono.
  - eapply wp_blocked; [exact Hs| |exact Ht]. intros g ->. unfold halted, inside. cbn.
    rewrite Hw, Hr. split_and!; try done; intros [? [=]].
  - intros [r|c'] s'; [done|]. intros (g & Hg & Hs'). exists g. split; [exact Hg|].
    eapply (good_less _ _ _ _ _ _ _ _ (bt + 1) bg); [lia|done|exact Hs'].
Qed.

(** An operation of the socket *)
Definition mild {B} (p : nat) (op : IoOp Sl B) : Prop :=
  (∀ late f bt bg b s, good late (Some (p, f)) bt bg s →
     wp (attempt op b) (λ _, good late (Some (p, f)) bt bg) s)
  ∧ ∀ b, allowed D (call op b) = true ∧ timed (call op b) = true ∧ blocking (call op b) = true.

Lemma wp_io_loop {B} (op : IoOp Sl B) late n p f bt bg b s : mild p op →
  good late (Some (p, f)) (bt + 1) bg s → running f →
  wp (io_loop op n p b) (call_post late p bt bg) s.
Proof.
  intros [Ha Hc]. revert b s. induction n as [|n IH]; intros b s Hs Hf; [done|]. cbn [io_loop].
  eapply wp_then; [by apply Ha|]. intros [[r|e] b'] s1 Hs1.
  - case_match; by eapply wp_done.
  - destruct (Hc b') as (? & ? & ?). case_decide; [|case_decide; [by apply IH|by eapply wp_done]].
    eapply wp_fiber; [exact Hs1|]. destruct (negb _).
    + eapply wp_fiber_register; [exact Hs1|done|]. intros [[]|e'] s2 g Hs2 Hg;
        [by eapply call_timed_blocked|by eapply wp_done].
    + apply wp_bind, wp_ret. by eapply call_timed_blocked.
Qed.

Lemma wp_io_resumed {B} (op : IoOp Sl B) late n p f bt bg b s : mild p op →
  good late (Some (p, f)) (bt + 1) bg s → woken D (call op b) f →
  wp (io_resumed op n p b) (call_post late p bt bg) s.
Proof.
  intros Hop Hs Hf. unfold io_resumed.
  eapply wp_timed_stepped_back; [exact Hs|exact Hf|apply Hop|]. intros s1 g Hs1 Hg.
  eapply wp_fiber; [exact Hs1|]. case_decide; [|by eapply wp_io_loop].
  apply wp_bind. eapply wp_set_fiber; [exact Hs1|by left|done|]. intros Hs2.
  by eapply wp_done.
Qed.

Lemma read_mild p : mild p (read_op p).
Proof.
  split; [|done]. intros late f bt bg b s Hs. eapply wp_fiber; [exact Hs|].
  apply wp_world. intros _ w. by apply good_world.
Qed.
Lemma write_mild p : mild p (write_op p).
Proof.
  split; [|done]. intros late f bt bg b s Hs. eapply wp_fiber; [exact Hs|].
  apply wp_world. intros _ w. by apply good_world.
Qed.
Lemma read_bufs_mild p : mild p (read_bufs_op p).
Proof.
  split; [|done]. intros late f bt bg b s Hs. eapply wp_fiber; [exact Hs|]. apply wp_world_opt.
  - intros w. destruct (FiberInt.sock f); cbn; try done. apply tls_read_loop_no_panic.
  - intros _ w. by apply good_world.
Qed.
Lemma write_bufs_mild n p : mild p (write_bufs_op n p).
Proof.
  split; [|done]. intros late f bt bg b s Hs. eapply wp_fiber; [exact Hs|].
  eapply wp_step; [done|]. apply wp_bind, wp_world_opt.
  - intros w. destruct (FiberInt.sock f); cbn; try done.
    + by destruct (tcp_write_bufs _ _ _).
    + apply tls_write_loop_no_panic. lia.
  - intros [r tmp] w. apply (good_world _ _ _ _ _ _ _ _ _ _ _ w) in Hs.
    eapply wp_step; [done|]. apply wp_ret. by eapply good_runner in Hs.
Qed.

Lemma wp_accept_tcp late n p f bt bg s : good late (Some (p, f)) (bt + 1) bg s → running f →
  wp (accept_tcp n p) (call_post late p bt bg) s.
Proof.
  revert s. induction n as [|n IH]; intros s Hs Hf; [done|]. cbn [accept_tcp].
  eapply wp_fiber; [exact Hs|]. apply wp_bind, wp_world. intros [r|e] w;
    apply (good_world _ _ _ _ _ _ _ _ _ _ _ w) in Hs; [by eapply wp_done|].
  case_decide; [by eapply call_blocked|]. case_decide; [by apply IH|by eapply wp_done].
Qed.

(** ** TLS *)
Lemma wp_tls_handshake late p f bt bg c cr s : good late (Some (p, f)) (bt + 1) bg s → running f →
  allowed D c = true → timed c = true → blocking c = true →
  wp (tls_handshake p c cr) (call_post late p bt bg) s.
Proof.
  intros Hs Hf Ha Ht Hb. destruct cr as [tls|mid|]; cbn [tls_handshake]; [..|by eapply wp_done].
  - apply wp_bind. eapply wp_upd_fiber; [exact Hs|by left|done|]. intros Hs1. by eapply wp_done.
  - apply wp_bind. eapply wp_upd_fiber; [exact Hs|by left|done|]. intros Hs1.
    eapply wp_fiber_register; [exact Hs1|done|]. intros [[]|e] s2 g Hs2 Hg;
      [by eapply call_timed_blocked|by eapply wp_done].
Qed.

Lemma wp_take_sock {B} late p f bt bg (k : FiberSock → M B) J s :
  good late (Some (p, f)) bt bg s → running f →
  (∀ s' g sock, good late (Some (p, g)) bt bg s' → running g → wp (k sock) J s') →
  wp (take_sock p ≫= k) J s.
Proof.
  intros Hs Hf HJ. unfold take_sock. apply wp_bind. eapply wp_fiber; [exact Hs|].
  apply wp_bind. eapply wp_set_fiber; [exact Hs|by left|done|]. intros Hs1. apply wp_ret.
  by eapply HJ.
Qed.

Lemma wp_tls_start late p f bt bg c s
    (connect : W → TcpStream → TlsResult TlsStream MidHandshake * W) :
  good late (Some (p, f)) (bt + 1) bg s → running f →
  allowed D c = true → timed c = true → blocking c = true →
  wp (sock ← take_sock p;
      match sock with
      | Tcp tcp => cr ← world (λ w, connect w tcp); tls_handshake p c cr
      | _ => mret (Done (RIoUnit (fail InvalidInput "invalid socket")))
      end) (call_post late p bt bg) s.
Proof.
  intros Hs Hf Ha Ht Hb. eapply wp_take_sock; [exact Hs|done|]. intros s1 g sock Hs1 Hg.
  destruct sock; try by eapply wp_done. apply wp_bind, wp_world. intros cr w.
  eapply wp_tls_handshake; [by apply good_world|done..].
Qed.

Lemma wp_tls_resumed late p f bt bg c s : good late (Some (p, f)) (bt + 1) bg s → woken D c f →
  timed c = true → wp (tls_handshake_resumed p c) (call_post late p bt bg) s.
Proof.
  intros Hs Hf Ht. pose proof Hf as (_ & (_ & _ & _ & _ & Ha & Hb & _) & _).
  unfold tls_handshake_resumed. eapply wp_timed_stepped_back; [exact Hs|exact Hf|done|].
  intros s1 g Hs1 Hg. eapply wp_fiber; [exact Hs1|]. case_decide.
  - apply wp_bind. eapply wp_set_fiber; [exact Hs1|by left|done|]. intros Hs2. by eapply wp_done.
  - eapply wp_take_sock; [exact Hs1|done|]. intros s2 g' sock Hs2 Hg'.
    destruct sock; try by eapply wp_done. apply wp_bind, wp_world. intros cr w.
    eapply wp_tls_handshake; [by apply good_world|done..].
Qed.

(** ** New fibers *)

Lemma toexec_bound late cur bt bg s i : good late cur bt bg s → i ∈ toexec s → i < length (fibers_of s).
Proof. intros [] Hi. destruct (good_toexec0 i Hi) as (_ & f & Hf & _). by eapply lookup_lt_Some. Qed.

(** A slot is taken from the free list ... *)
Lemma good_take_slot late cur bt bg s i free : good late cur bt bg s →
  RunnerInt.free_fibers (Sys.runner s) = i :: free →
  good late cur bt bg (with_runner s (RunnerInt.set_free (Sys.runner s) free)).
Proof.
  intros [] Hfree. rewrite Hfree in *. apply NoDup_cons in good_free_once0 as [? ?].
  split; try assumption. intros j Hj. apply good_free0. by right.
Qed.

(** ... and gets a new fiber. *)
Lemma good_fill_slot late cur bt bg s i old f : good late cur bt (bg + 1) s →
  i ∉ RunnerInt.free_fibers (Sys.runner s) → fst <$> cur ≠ Some i →
  fibers_of s !! i = Some old → dead old → newborn D bg f → good late cur bt bg (put s i f).
Proof.
  intros Hs Hfree Hcur Hi Hd (Hf & Hw & Hl).
  apply (good_less _ _ _ _ _ _ _ _ bt (bg + 1) bt bg) in Hs; [|lia..]. destruct Hs.
  assert (∀ j, j ≠ i → fibers_of (put s i f) !! j = fibers_of s !! j) as Hother
    by (intros; by apply put_other).
  split; try assumption.
  - intros j Hj. destruct (good_free0 j Hj) as (? & ?). split; [done|].
    rewrite Hother; [done|]. intros ->. by apply Hfree.
  - intros j Hj. destruct (good_toexec0 j Hj) as (? & g & Hg & Hq). split; [done|].
    exists g. rewrite Hother; [done|]. intros ->. rewrite Hi in Hg. injection Hg as <-.
    by destruct (resumable_not_dead D spawn home0 plain old (proj1 Hq)).
  - intros j Hj%good_timedout0. by rewrite put_length.
  - by rewrite put_length.
  - intros p g Hc. rewrite Hother; [by apply good_cur0|]. intros ->. rewrite Hc in Hcur. by apply Hcur.
  - intros j g Hj. destruct (decide (j = i)) as [->|Hne].
    + rewrite (put_same' _ _ old f Hi) in Hj. injection Hj as <-. split; [done|]. intros _. by left.
    + rewrite Hother in Hj by done. by apply good_fibers0.
Qed.

(** The new fiber's socket is registered first if it listens. *)
Lemma wp_register_listener {B} late cur bt bg bn f0 (k : io FiberInt.t → M B) J s :
  good late cur bt bg s → newborn D bn f0 →
  (∀ e s', good late cur bt bg s' → Sys.runner s' = Sys.runner s → Sys.poller s' = Sys.poller s →
     wp (k (inr e)) J s') →
  (∀ f s', good late cur bt bg s' → Sys.runner s' = Sys.runner s → Sys.poller s' = Sys.poller s →
     newborn D bn f → wp (k (inl f)) J s') →
  wp (match FiberInt.sock f0 with
    | Listener _ =>
      '(res, f) ← world (λ w, let '(res, f, w) := FiberInt.register f0 w readable in ((res, f), w));
      mret (match res with inl _ => inl f | inr e => inr e end)
    | _ => mret (inl f0)
    end ≫= k) J s.
Proof.
  intros Hs Hf He Hok. apply wp_bind.
  destruct (FiberInt.sock f0); try (apply wp_ret; by apply Hok).
  apply wp_bind. unfold wp at 1, world. destruct (register_ready f0 (Sys.world s) readable) as [x Hx].
  destruct (FiberInt.register f0 (Sys.world s) readable) as [[r g] w]. cbn in Hx. apply wp_ret.
  pose proof (good_world _ _ _ _ _ _ _ _ _ _ _ w Hs) as Hs1.
  destruct r; [|by apply He]. apply Hok; [done..|]. by destruct Hx as [->| ->].
Qed.

(** A position without a fiber, or of a dead one, is neither current nor queued. *)
Lemma beyond late cur bt bg s i : good late cur bt bg s → length (fibers_of s) ≤ i →
  fst <$> cur ≠ Some i ∧ i ∉ toexec s.
Proof.
  intros Hs Hi. split.
  - destruct cur as [[p f]|]; [|done]. intros [= ->]. apply cur_lookup, lookup_lt_Some in Hs. cbn in Hs. lia.
  - intros Hq%(toexec_bound _ _ _ _ _ _ Hs). lia.
Qed.

Lemma dead_not_queued late cur bt bg s i f : good late cur bt bg s → fibers_of s !! i = Some f →
  dead f → i ∉ toexec s.
Proof.
  intros [] Hf Hd (_ & g & Hg & [Hr _])%good_toexec0. rewrite Hf in Hg. injection Hg as <-.
  by apply resumable_not_dead in Hr.
Qed.

(** The fiber that [register] makes *)
Lemma newborn_made bg pos fn ft x me g : (g + Z.of_nat bg ≤ U64_MAX)%Z →
  newborn D bg (FiberInt.set_generation (FiberInt.set_me (FiberInt.mk pos ready_empty (Some x) Unstacked
    0 0 (Some fn) None ft None None None [] None None (Some (Duration.from_millis 20000)) 0) me) g).
Proof using Hdefault.
  intros Hg. split; [|split; [done|split]].
  - split; [by split_and!|]. split; [done|]. split; [done|]. intros _. by split.
  - intros d [= <-]. split; [by vm_compute|exact Hdefault].
  - exact Hg.
Qed.

(** ... behind the others *)
Lemma wp_pushed late cur bt bg s f : good late cur bt (bg + 1) s → newborn D bg f →
  RunnerInt.free_fibers (Sys.runner s) = [] → (spawn = false → steady s) →
  wp (push_toexec (length (fibers_of s));; mret tt;; mret (inl (length (fibers_of s))))
    (λ (_ : io nat) s', ∃ h, good_at h late cur bt bg s')
    (with_runner s (RunnerInt.push_fiber (Sys.runner s) f)).
Proof.
  intros Hs Hf Hfree Hst. destruct (beyond _ _ _ _ _ (length (fibers_of s)) Hs ltac:(done)) as [Hc Hq].
  set (h := RunnerInt.buffer (RunnerInt.push_fiber (Sys.runner s) f)).
  assert (good_at h late cur bt bg (with_runner s (RunnerInt.push_fiber (Sys.runner s) f))) as Hs'.
  { eapply good_push_fiber; [exact Hs|exact Hf|by intros _|]. by eapply steady_push. }
  eapply wp_mono; [eapply (wp_schedule _ _ _ _ _ h); [exact Hs'|exact Hf| |exact Hc|]|by intros ? s' ?; exists h].
  - unfold fibers_of. cbn. rewrite push_fibers. by rewrite list_lookup_middle.
  - unfold toexec, queue_of in *. cbn [Sys.runner Sys.poller with_runner]. by rewrite push_pos.
Qed.

Lemma wp_register late cur bt bg fn ft x s : good late cur bt (bg + 1) s → (spawn = false → steady s) →
  wp (register (Some fn) ft (Some x) None true) (λ _ s', ∃ h, good_at h late cur bt bg s') s.
Proof.
  intros Hs Hst. unfold register. eapply wp_step; [done|].
  set (f0 := FiberInt.mk _ _ _ _ _ _ _ _ _ _ _ _ _ _ _ _ _).
  assert (∀ me g, (g + Z.of_nat bg ≤ U64_MAX)%Z →
    newborn D bg (FiberInt.set_generation (FiberInt.set_me f0 me) g)) as Hnew
    by (intros; by apply newborn_made).
  assert (∀ s', good late cur bt (bg + 1) s' → ∃ h, good_at h late cur bt bg s') as Hleft.
  { intros s' Hs'. exists home0. eapply (good_less _ _ _ _ _ _ _ _ bt (bg + 1)); [lia..|exact Hs']. }
  unfold try at 1. apply wp_bind. destruct (RunnerInt.free_fibers (Sys.runner s)) as [|i free] eqn:Hfree.
  - apply wp_bind. eapply wp_step; [done|]. apply wp_ret. unfold try.
    eapply (wp_register_listener late cur bt (bg + 1) bg); [exact Hs| |..].
    { apply (Hnew (Poller.fiber_id (RunnerInt.pos (Sys.runner s)) (Z.of_nat (length (fibers_of s)))) 0%Z).
      destruct Hs. unfold U64_MAX. lia. }
    { intros e s1 Hs1 _ _. by apply wp_ret, wp_ret, Hleft. }
    intros f s1 Hs1 Hr Hp Hf. eapply wp_step; [done|]. apply wp_ret.
    pose proof (wp_pushed _ _ _ _ _ _ Hs1 Hf) as Hp1. unfold steady, fibers_of in Hp1, Hst.
    rewrite Hr in Hp1 |- *. by apply Hp1.
  - destruct (good_free _ _ _ _ _ _ _ _ _ _ _ Hs i) as (Hc & old & Hold & Hd); [rewrite Hfree; by left|].
    pose proof (good_take_slot _ _ _ _ _ _ _ Hs Hfree) as Hs1.
    pose proof (good_free_once _ _ _ _ _ _ _ _ _ _ _ Hs) as Hnd. rewrite Hfree in Hnd.
    apply NoDup_cons in Hnd as [Hnin _].
    destruct (good_fibers _ _ _ _ _ _ _ _ _ _ _ Hs i old Hold) as [[_ Hgen] _].
    eapply wp_step; [done|].
    eapply wp_step; [unfold lift; rewrite (proj2 (index_Ok _ _ _) Hold); done|].
    apply wp_bind. eapply wp_step; [done|]. apply wp_ret.
    eapply wp_step; [unfold lift, add64; rewrite decide_True by lia; done|].
    unfold try. eapply (wp_register_listener late cur bt (bg + 1) bg); [exact Hs1|apply Hnew; lia|..].
    { intros e s2 Hs2 _ _. by apply wp_ret, wp_ret, Hleft. }
    intros f s2 Hs2 Hr Hp Hf.
    assert (fibers_of s2 !! i = Some old) as Hold2 by (unfold fibers_of; by rewrite Hr).
    eapply wp_step; [by eapply set_fiber_eq, lookup_lt_Some|]. apply wp_ret.
    assert (good late cur bt bg (put s2 i f)) as Hs3.
    { eapply good_fill_slot; [exact Hs2|by rewrite Hr|done|exact Hold2|exact Hd|exact Hf]. }
    eapply wp_mono; [eapply wp_schedule; [exact Hs3|exact Hf|by eapply put_same'|done|]|by intros ? s' ?; exists home0].
    by apply (dead_not_queued _ _ _ _ _ _ _ Hs2 Hold2).
Qed.

(** ** Every call *)
Lemma halted_running c f : running f → allowed D c = true → blocking c = true →
  halted D c (FiberInt.set_trans f None).
Proof.
  intros (Ht & Hst & Hfn & Hsd & Hal & Hw & Hr) Ha Hb. unfold halted, inside. cbn.
  rewrite Hw, Hr. split_and!; try done; intros [? [=]].
Qed.

Lemma call_reply_unit late p f bt bg fn ft x s : spawn = true →
  good late (Some (p, f)) (bt + 1) (bg + 1) s → running f →
  wp (r ← register (Some fn) ft (Some x) None true; mret (Done (RIoUnit (io_unit r))))
    (call_post late p bt bg) s.
Proof.
  intros Hsp Hs Hf. eapply wp_then; [apply wp_register; [exact Hs|by rewrite Hsp]|].
  intros r s1 [h Hs1%(good_any _ _ _ _ _ spawn h home0)]; [|done]. eapply wp_done; [exact Hs1|done].
Qed.

Lemma wp_resp_chunk late p f bt bg x s : good late (Some (p, f)) (bt + 1) bg s → running f →
  wp (resp_chunk p x) (call_post late p bt bg) s.
Proof.
  intros Hs Hf. apply wp_bind. eapply wp_upd_fiber; [exact Hs|by left|done|]. intros Hs1.
  eapply wp_mono; [eapply wp_blocked; [exact Hs1| |apply Hf]|].
  - intros g ->. destruct (halted_running (CRespChunk x) f Hf) as (Ht & Hin & _); [done..|].
    split; [done|]. split; [exact Hin|]. intros _. by exists x.
  - intros [r|c] s2; [done|]. intros (g & Hg & Hs2). exists g. split; [exact Hg|].
    eapply (good_less _ _ _ _ _ _ _ _ (bt + 1) bg); [lia|done|exact Hs2].
Qed.

Lemma wp_join_main late p f bt bg s : good late (Some (p, f)) (bt + 1) bg s → running f →
  wp (join_main p) (call_post late p bt bg) s.
Proof.
  intros Hs Hf. eapply wp_step; [done|]. eapply call_blocked; [by apply good_runner|done..].
Qed.

Lemma wp_call n late p f bt bg c s : good late (Some (p, f)) (bt + 1) (bg + 1) s → running f →
  allowed D c = true → (starts c = true → spawn = true) →
  wp (call_method n p c) (call_post late p bt bg) s.
Proof.
  intros Hs Hf Ha Hsp.
  assert (good late (Some (p, f)) (bt + 1) bg s) as Hs'
    by (eapply (good_less _ _ _ _ _ _ _ _ (bt + 1) (bg + 1)); [lia..|exact Hs]).
  destruct c; cbn [call_method]; try done; try by eapply call_reply_unit; [apply Hsp|..].
  - apply wp_bind. eapply wp_upd_fiber; [exact Hs'| |done|].
    + right. cbn in *. intros d ->. by apply bool_decide_eq_true in Ha.
    + intros Hs1. by eapply wp_done.
  - by eapply wp_resp_chunk.
  - by eapply wp_accept_tcp.
  - by eapply wp_tls_start.
  - by eapply (wp_tls_start _ _ _ _ _ _ _ (λ w, tls_accept w con)).
  - by eapply wp_join_main.
  - eapply wp_io_loop; [apply read_bufs_mild|done..].
  - eapply wp_io_loop; [apply write_bufs_mild|done..].
  - eapply wp_io_loop; [apply read_mild|done..].
  - eapply wp_io_loop; [apply write_mild|done..].
  - apply wp_bind. eapply wp_fiber; [exact Hs'|]. apply wp_world. intros r w.
    eapply wp_done; [by apply good_world|done].
Qed.

Lemma wp_resumed n late p f bt bg c s : good late (Some (p, f)) (bt + 1) bg s → woken D c f →
  wp (call_resumed n p c) (call_post late p bt bg) s.
Proof.
  intros Hs Hf. pose proof Hf as (Ht & (Hst & Hfn & Hsd & Hal & Ha & Hb & Hw) & Hr).
  assert (c ≠ CJoinMain → FiberInt.result f = None) as Hres.
  { intros Hne. destruct (FiberInt.result f); [|done]. by destruct Hne; apply Hr. }
  destruct c; try done; cbn [call_resumed].
  - eapply wp_stepped_back; [exact Hs|]. intros s1 Hs1. eapply wp_done; [exact Hs1|].
    by eapply running_untimed, Hres.
  - eapply wp_stepped_back; [exact Hs|]. intros s1 Hs1. eapply wp_accept_tcp; [exact Hs1|].
    by eapply running_untimed, Hres.
  - by eapply wp_tls_resumed.
  - by eapply wp_tls_resumed.
  - eapply wp_stepped_back; [exact Hs|]. intros s1 Hs1. unfold take_result_of.
    apply wp_bind. eapply wp_fiber; [exact Hs1|]. apply wp_bind.
    eapply wp_set_fiber; [exact Hs1|by left|done|]. intros Hs2. apply wp_ret.
    eapply wp_done; [exact Hs2|]. split_and!; try done; [apply Hal..|]. cbn.
    destruct (FiberInt.wtoken f); [|done]. by discriminate Hw.
  - eapply wp_io_resumed; [apply read_bufs_mild|done..].
  - eapply wp_io_resumed; [apply write_bufs_mild|done..].
  - eapply wp_io_resumed; [apply read_mild|done..].
  - eapply wp_io_resumed; [apply write_mild|done..].
Qed.

(** ** Turns *)
Context (Hplain : serves_sockets D spawn plain).

(** What a turn leaves, given the fiber's new context *)
Definition leaves (t : Transfer) f : Prop :=
  match t with
  | Waiting home c k => halted D c f ∧ (∀ r, plain (k r)) ∧ at_home spawn home0 home
  | Returned => ended f
  | _ => False
  end.

Lemma wp_exec n late p f bt bg home code s : good late (Some (p, f)) (bt + 1) (bg + n) s →
  running f → plain code → at_home spawn home0 home →
  wp (exec n p home code) (λ t, at_turn late p bt bg (leaves t)) s.
Proof.
  intros Hs Hf Hc Hh. revert f code s Hs Hf Hc. induction n as [|n IH]; intros f code s Hs Hf Hc; [done|].
  cbn [exec].
  destruct (act code) as [r|c k] eqn:Hact.
  - assert (good late (Some (p, f)) bt bg s) as Hs'
      by (eapply (good_less _ _ _ _ _ _ _ _ (bt + 1) (bg + S n)); [lia..|exact Hs]).
    destruct Hf as (Ht & Hst & Hfn & Hsd & Hal & Hw & Hr).
    unfold context_end. eapply wp_step; [done|]. pose proof (good_home _ _ _ _ _ _ _ _ _ _ _ Hs) as Hb.
    case_decide as Hd; [|destruct (spawn) eqn:Hsp; [done|]; by rewrite Hb, Hh in Hd].
    apply wp_bind. eapply wp_upd_fiber; [exact Hs'|by left|done|]. intros Hs1.
    apply wp_bind. eapply wp_upd_fiber; [exact Hs1|by left|done|]. intros Hs2.
    apply wp_bind. eapply wp_step_out; [exact Hs2|exact Ht|]. intros s3 Hs3.
    apply wp_ret. eexists. split; [|exact Hs3]. by split_and!; try apply Hal.
  - destruct (act_plain _ _ _ Hplain _ _ _ Hc Hact) as (Ha & Hsp & Hk).
    replace (bg + S n) with (bg + n + 1) in Hs by lia.
    eapply wp_then; [by eapply wp_call|]. intros [r|c'] s1 (g & Hg & Hs1).
    + by eapply IH.
    + apply wp_ret. exists g. split; [by split|].
      eapply (good_less _ _ _ _ _ _ _ _ bt (bg + n)); [lia..|exact Hs1].
Qed.

(** A fiber that gets its stack *)
Definition starting f : Prop :=
  FiberInt.trans f = None ∧ is_Some (FiberInt.stack f) ∧ is_Some (FiberInt.func f)
  ∧ is_Some (FiberInt.param f) ∧ unattached f ∧ FiberInt.wtoken f = None ∧ FiberInt.result f = None.

Lemma wp_context_function n late p f bt bg home s : good late (Some (p, f)) (bt + 1) (bg + n) s →
  starting f → at_home spawn home0 home →
  wp (context_function n p home) (λ t, at_turn late p bt bg (leaves t)) s.
Proof.
  intros Hs (Ht & Hst & [fn Hfn] & [x Hx] & Hal & Hw & Hr) Hh. unfold context_function.
  apply wp_bind. eapply wp_upd_fiber; [exact Hs|by left|done|]. intros Hs1.
  apply wp_bind. eapply wp_upd_fiber; [exact Hs1|by left|done|]. intros Hs2.
  eapply wp_fiber; [exact Hs2|]. apply wp_bind.
  eapply wp_set_fiber; [exact Hs2|by left|done|]. intros Hs3. cbn [FiberInt.param FiberInt.func
    FiberInt.set_trans FiberInt.set_state FiberInt.set_param]. rewrite Hx, Hfn.
  eapply wp_step; [done|]. eapply wp_step; [done|].
  eapply wp_exec; [exact Hs3|by split_and!|by eapply enter_plain|exact Hh].
Qed.

Lemma wp_switch n late p f bt bg t s : good late (Some (p, f)) (bt + 1) (bg + n) s →
  match t with
  | Fresh => starting f
  | Waiting home c k => woken D c f ∧ (∀ r, plain (k r)) ∧ at_home spawn home0 home
  | _ => False
  end → wp (switch n p t) (λ t, at_turn late p bt bg (leaves t)) s.
Proof.
  intros Hs Ht. destruct t as [|home c k| |]; try done; cbn [switch].
  { eapply wp_step; [done|]. eapply wp_context_function; [exact Hs|done|].
    by apply (good_home _ _ _ _ _ _ _ _ _ _ _ Hs). }
  destruct Ht as (Hw & Hk & Hh). eapply wp_then; [by eapply wp_resumed|]. intros [r|c'] s1 (g & Hg & Hs1).
  - by eapply wp_exec.
  - apply wp_ret. exists g. split; [by split|].
    eapply (good_less _ _ _ _ _ _ _ _ bt (bg + n)); [lia..|exact Hs1].
Qed.

(** After the turn, before [stepped_out] *)
Definition after_turn f : Prop :=
  (∃ home c k, FiberInt.trans f = Some (Waiting home c k) ∧ inside D c f ∧ (∀ r, plain (k r))
     ∧ (is_Some (FiberInt.result f) → ∃ x, c = CRespChunk x) ∧ at_home spawn home0 home)
  ∨ (FiberInt.trans f = Some Returned ∧ is_Some (FiberInt.stack f) ∧ FiberInt.state f = Closed
     ∧ unattached f ∧ FiberInt.wtoken f = None)
  ∨ dead f ∧ unattached f.

Lemma wp_stack_pop late cur bt bg (J : Stack → Sys.t Sl → Prop) s : good late cur bt bg s →
  (∀ st s', good late cur bt bg s' → J st s') → wp stack_pop J s.
Proof.
  intros Hs HJ. assert (∀ st w, J st (with_world s w)) as Hw by (intros; by apply HJ, good_world).
  pose proof (good_size _ _ _ _ _ _ _ _ _ _ _ Hs) as Hsize. unfold stacks_ok in Hsize.
  unfold wp, stack_pop, PollerInt.stack_pop.
  destruct (PollerInt.free_stacks _) as [|st l].
  - destruct (PollerInt.stack_size _) as [size|].
    + destruct (Hsize size eq_refl (Sys.world s)) as [st Hst].
      destruct (new_stack _ _) as [o w]. cbn in Hst. subst o. mstep. apply Hw.
    + destruct (default_stack _) as [st w]. mstep. apply Hw.
  - mstep. apply HJ.
    change (good late cur bt bg (with_poller s (PollerInt.set_stacks (Sys.poller s) l))).
    eapply good_poller; try done. by eapply good_wheel.
Qed.

Lemma wp_run_turn n late p f bt bg s : good late (Some (p, f)) (bt + 1) (bg + n) s →
  resumable D spawn home0 plain f → wp (run_turn n p) (λ _, at_turn late p bt bg after_turn) s.
Proof.
  intros Hs Hf. unfold run_turn. eapply wp_fiber; [exact Hs|].
  assert (∀ g s t, good late (Some (p, g)) (bt + 1) (bg + n) s → FiberInt.trans g = Some t →
    match t with
    | Fresh => starting (FiberInt.set_trans g None)
    | Waiting home c k => woken D c (FiberInt.set_trans g None) ∧ (∀ r, plain (k r))
        ∧ at_home spawn home0 home
    | _ => False
    end →
    wp (f ← fiber p; set_fiber p (FiberInt.set_trans f None);; t ← lift (expect (FiberInt.trans f));
        t ← switch n p t; upd_fiber p (λ f, FiberInt.set_trans f (Some t)))
      (λ _, at_turn late p bt bg after_turn) s) as Hend.
  { intros g s1 t Hs1 Ht Hg. eapply wp_fiber; [exact Hs1|]. apply wp_bind.
    eapply wp_set_fiber; [exact Hs1|by left|done|]. intros Hs2. rewrite Ht.
    eapply wp_step; [done|]. eapply wp_then; [by eapply wp_switch|].
    intros t' s3 (h & Hh & Hs3). eapply wp_upd_fiber; [exact Hs3|by left|done|]. intros Hs4.
    eexists. split; [|exact Hs4]. destruct t' as [|home c k| |]; try done.
    - destruct Hh as ((_ & Hin & Hres) & Hk & Hhome). left. by exists home, c, k.
    - right. left. destruct Hh as (_ & ? & ? & Hal & ?). by split_and!; try apply Hal. }
  destruct Hf as [[(Hidle & Hsd & Hal & Hfn) Hw]|(home & c & k & Ht & Hin & Hres & Hk & Hhome)].
  - destruct (FiberInt.func f) as [fn|] eqn:Hfunc.
    + destruct Hfn as [Hx Hr]; [by eexists|]. pose proof Hidle as (Ht & _). rewrite Ht. apply wp_bind.
      apply wp_bind. eapply wp_stack_pop; [exact Hs|]. intros st s1 Hs1.
      eapply wp_upd_fiber; [exact Hs1|by left|done|]. intros Hs2. eapply Hend; [exact Hs2|done|].
      unfold starting. cbn. rewrite Hfunc. by split_and!.
    + eapply wp_upd_fiber; [eapply (good_less _ _ _ _ _ _ _ _ (bt + 1) (bg + n) bt bg); [lia..|exact Hs]
        |by left|done|]. intros Hs1. eexists. split; [|exact Hs1]. right. right.
      destruct Hidle as (? & ? & ?). by split; [split_and!|].
  - pose proof Hin as (_ & [fn Hfn] & _). rewrite Hfn, Ht. apply wp_bind, wp_ret.
    eapply Hend; [exact Hs|exact Ht|]. by split; [split_and!|].
Qed.

(** A dead fiber's slot is free. *)
Lemma good_freed late bt bg s p f : good late (Some (p, f)) bt bg s → dead f →
  good late None bt bg (freed s p).
Proof.
  intros Hs Hd. pose proof (cur_lookup _ _ _ _ _ _ Hs) as Hf.
  assert (p ∉ RunnerInt.free_fibers (Sys.runner s)) as Hp.
  { intros Hp. by destruct (good_free _ _ _ _ _ _ _ _ _ _ _ Hs p Hp). }
  apply good_close in Hs; [|by right; right]. destruct Hs. split; try assumption.
  - apply NoDup_app. split_and!; [done| |apply NoDup_singleton].
    by intros x Hx ->%list_elem_of_singleton.
  - intros i [Hi| ->%list_elem_of_singleton]%elem_of_app; [by apply good_free0|].
    split; [done|by exists f].
Qed.

Lemma wp_take_result late p f bt bg (J : unit → Sys.t Sl → Prop) s :
  good late (Some (p, f)) bt bg s →
  (∀ s', good late (Some (p, FiberInt.set_result f None)) bt bg s' → J tt s') →
  wp (take_result p) J s.
Proof.
  intros Hs HJ. unfold take_result, take_result_of. apply wp_bind.
  eapply wp_fiber; [exact Hs|]. apply wp_bind. eapply wp_set_fiber; [exact Hs|by left|done|].
  intros Hs1. apply wp_ret. destruct (FiberInt.result f); [|by apply wp_ret, HJ].
  eapply wp_eq; [done|]. by apply HJ, good_runner.
Qed.

(** A fiber whose function has returned: its stack goes to the pool, its result to
    the main stack, and its slot is free. *)
Lemma wp_finish late p f bt bg s : good late (Some (p, f)) bt bg s → dead f → unattached f →
  wp (set_fiber p (FiberInt.set_sock f Empty);;
      match FiberInt.parent f with
      | Some parent => mret (Some parent)
      | None => take_result p;; push_free p;; mret None
      end) (λ o s, o = None ∧ good late None bt bg s) s.
Proof.
  intros Hs Hd [_ Hpar]. apply wp_bind. eapply wp_set_fiber; [exact Hs|by left|done|]. intros Hs1.
  rewrite Hpar. apply wp_bind. eapply wp_take_result; [exact Hs1|]. intros s2 Hs2.
  eapply wp_step; [done|]. apply wp_ret. split; [done|].
  by apply (good_freed _ _ _ _ _ _ Hs2).
Qed.

Lemma wp_unstack late p f bt bg (J : unit → Sys.t Sl → Prop) s : good late (Some (p, f)) bt bg s →
  is_Some (FiberInt.stack f) →
  (∀ s', good late (Some (p, FiberInt.set_trans (FiberInt.set_stack f None) None)) bt bg s' → J tt s') →
  wp (unstack p) J s.
Proof.
  intros Hs [st Hst] HJ. unfold unstack. eapply wp_fiber; [exact Hs|]. rewrite Hst.
  eapply wp_step; [done|]. apply wp_bind. eapply wp_set_fiber; [exact Hs|by left|done|]. intros Hs1.
  eapply wp_eq; [done|]. apply HJ.
  change (good late (Some (p, FiberInt.set_trans (FiberInt.set_stack f None) None)) bt bg
    (with_poller (put s p (FiberInt.set_trans (FiberInt.set_stack f None) None))
       (PollerInt.stack_push (Sys.poller s) st))).
  eapply good_poller; [done..| |exact Hs1]. by eapply good_wheel.
Qed.

(** A fiber that waits again; one that sent a chunk is queued. *)
Lemma wp_wait_again late p f bt bg home c k s : good late (Some (p, f)) bt bg s →
  FiberInt.trans f = Some (Waiting home c k) → inside D c f → (∀ r, plain (k r)) →
  (is_Some (FiberInt.result f) → ∃ x, c = CRespChunk x) → at_home spawn home0 home →
  wp (match FiberInt.parent f with
      | Some parent => mret (if decide (is_Some (FiberInt.result f)) then Some parent else None)
      | None =>
        if decide (is_Some (FiberInt.result f))
        then take_result p;; push_toexec p;; mret None
        else mret None
      end) (λ o s, o = None ∧ good late None bt bg s) s.
Proof.
  intros Hs Ht Hin Hk Hres Hhome. pose proof Hin as (_ & _ & _ & [_ Hpar] & _ & _ & Hw). rewrite Hpar.
  case_decide as Hr.
  - destruct (Hres Hr) as [x ->]. apply wp_bind. eapply wp_take_result; [exact Hs|].
    intros s1 Hs1. set (g := FiberInt.set_result f None) in *.
    assert (waits_in D spawn home0 plain g) as Hg.
    { exists home, (CRespChunk x), k. split_and!; try done. by intros [? [=]]. }
    assert (p ∉ toexec s1) as Hq.
    { intros Hq. by destruct (good_toexec _ _ _ _ _ _ _ _ _ _ _ Hs1 p Hq). }
    pose proof (cur_lookup _ _ _ _ _ _ Hs1) as Hp.
    apply good_close in Hs1; [|by right; left].
    eapply wp_step; [by eapply push_toexec_eq, good_has_queue|]. apply wp_ret. split; [done|].
    eapply good_queued; [exact Hs1|done|exact Hp| |done]. split; [by right|]. intros _. cbn.
    destruct (FiberInt.wtoken f); [|done]. by discriminate Hw.
  - apply wp_ret. split; [done|]. eapply good_close; [exact Hs|]. right. left. exists home, c, k.
    by split_and!.
Qed.

Lemma wp_stepped_out late p f bt bg s : good late (Some (p, f)) bt bg s → after_turn f →
  wp (stepped_out p) (λ o s, o = None ∧ good late None bt bg s) s.
Proof.
  intros Hs Hf. unfold stepped_out. eapply wp_fiber; [exact Hs|].
  destruct Hf as [(home & c & k & Ht & Hin & Hk & Hres & Hhome)|[(Ht & Hst & Hsd & Hal & Hw)|[Hd Hal]]].
  - pose proof Hin as (_ & _ & Hsd & _). rewrite decide_False by tauto. apply wp_bind, wp_ret.
    eapply wp_fiber; [exact Hs|]. rewrite Hsd. rewrite decide_False by done. by eapply wp_wait_again.
  - rewrite decide_True by (rewrite Hsd, Ht; by split). apply wp_bind.
    eapply wp_unstack; [exact Hs|done|]. intros s1 Hs1. eapply wp_fiber; [exact Hs1|].
    rewrite decide_True by done. eapply wp_finish; [exact Hs1| |done].
    split; [|done]. split_and!; try done. cbn. by rewrite Hsd.
  - pose proof Hd as ((Ht & _) & Hsd & _). rewrite decide_False by (rewrite Ht; by intros [_ [? [=]]]).
    apply wp_bind, wp_ret. eapply wp_fiber; [exact Hs|]. rewrite decide_True by done.
    by eapply wp_finish.
Qed.

(** A fiber that can be resumed is resumed. *)
Lemma wp_step_into n late p f bt bg s : good late (Some (p, f)) (bt + 1) (bg + n) s →
  resumable D spawn home0 plain f → wp (step_into n p) (λ _, good late None bt bg) s.
Proof.
  intros Hs Hf. destruct n as [|n]; [done|]. cbn [step_into].
  assert (good late (Some (p, f)) (bt + 1) (bg + n) s) as Hs'
    by (eapply (good_less _ _ _ _ _ _ _ _ (bt + 1) (bg + S n)); [lia..|exact Hs]).
  eapply wp_then; [by eapply wp_run_turn|]. intros [] s1 (g & Hg & Hs1).
  eapply wp_then; [by eapply wp_stepped_out|]. intros o s2 [-> Hs2]. by apply wp_ret.
Qed.

(** ** The loops *)
Lemma resumable_unattached f : resumable D spawn home0 plain f → unattached f.
Proof. intros [[(_ & _ & ? & _) _]|(home & c & k & _ & (_ & _ & _ & ? & _) & _)]; done. Qed.

(** One of the poller's queues is popped. *)
Lemma pop_front_run {A} (queues : list (list A)) r : r < length queues →
  PollerInt.pop_front (queues) r = Ok (head (queue queues r),
    match queue queues r with [] => queues | _ :: q => <[r := q]> queues end).
Proof.
  intros [q Hq]%lookup_lt_is_Some_2. unfold PollerInt.pop_front, queue.
  rewrite (proj2 (index_Ok _ _ _) Hq), Hq. mstep. cbn. destruct q as [|x q]; [done|].
  rewrite store_in by (by eapply lookup_lt_Some). done.
Qed.

Lemma wp_pop {A B} (f : PollerInt.t Sl Stack → list (list A)) set
    (g : PollerInt.t Sl Stack → nat → outcome Empty_set (option A * PollerInt.t Sl Stack)) (h : A → B)
    (J : option B → Sys.t Sl → Prop) s :
  (∀ p r, g p r = ('(x, q) ← PollerInt.pop_front (f p) r; Ok (x, set p q))) →
  (∀ p, set p (f p) = p) →
  Z.to_nat (RunnerInt.pos (Sys.runner s)) < length (f (Sys.poller s)) →
  match queue_of f s with
  | [] => J None s
  | x :: q => J (Some (h x)) (with_poller s (set (Sys.poller s)
      (<[Z.to_nat (RunnerInt.pos (Sys.runner s)) := q]> (f (Sys.poller s)))))
  end →
  wp (r ← get_runner; x ← poller (λ p, g p (Z.to_nat (RunnerInt.pos r))); mret (h <$> x)) J s.
Proof.
  intros Hg Hset Hr HJ. unfold queue_of in HJ. eapply wp_step; [done|].
  eapply wp_step; [unfold poller; rewrite Hg, pop_front_run by done; mstep; reflexivity|].
  apply wp_ret. destruct (queue _ _); [|done]. cbn. rewrite Hset. by destruct s.
Qed.

Lemma good_in_queues late cur bt bg s : good late cur bt bg s →
  let k := Z.to_nat (RunnerInt.pos (Sys.runner s)) in
  k < length (PollerInt.toexec_fibers (Sys.poller s))
  ∧ k < length (PollerInt.timedout_fibers (Sys.poller s))
  ∧ k < length (PollerInt.lookup_results (Sys.poller s)).
Proof. intros []. destruct good_queues0 as (-> & -> & ->). unfold RUNNERS. lia. Qed.

(** The poller with a shorter queue *)
Lemma queue_insert {A} (queues : list (list A)) k q : k < length queues → queue (<[k := q]> queues) k = q.
Proof. intros Hk. unfold queue. by rewrite list_lookup_insert_eq. Qed.

Lemma wp_pop_toexec late bt bg s : good late None bt bg s →
  wp pop_toexec (λ o s', match o with
    | Some i => ∃ f, queueable D spawn plain home0 late f ∧ good late (Some (i, f)) bt bg s'
    | None => good late None bt bg s' ∧ toexec s' = []
    end) s.
Proof.
  intros Hs. destruct (good_in_queues _ _ _ _ _ Hs) as (Hk & _ & _). set (k := Z.to_nat _) in *.
  apply (wp_pop PollerInt.toexec_fibers PollerInt.set_toexec PollerInt.toexec_pop Z.to_nat);
    [done|by intros []|done|].
  destruct (queue_of PollerInt.toexec_fibers s) as [|x q] eqn:Hq.
  { split; [done|]. unfold toexec. by rewrite Hq. }
  fold k. set (s' := with_poller _ _).
  assert (toexec s' = Z.to_nat <$> q) as Ht.
  { unfold toexec, queue_of. cbn. by rewrite queue_insert. }
  assert (toexec s = Z.to_nat x :: toexec s') as Hts by (rewrite Ht; unfold toexec; by rewrite Hq).
  destruct (good_toexec _ _ _ _ _ _ _ _ _ _ _ Hs (Z.to_nat x)) as (_ & f & Hf & Hqf); [rewrite Hts; left|].
  pose proof (good_toexec_once _ _ _ _ _ _ _ _ _ _ _ Hs) as Hnd. rewrite Hts in Hnd.
  apply NoDup_cons in Hnd as [Hnin Hnd].
  exists f. split; [done|]. apply good_open; [|exact Hf| |done].
  - destruct Hs. split; try assumption.
    + cbn. by rewrite length_insert.
    + intros i Hi. apply good_toexec0. rewrite Hts. by right.
  - eapply resumable_not_dead, Hqf.
Qed.

Lemma wp_timedout_pop late bt bg s : good late None bt bg s →
  wp timedout_pop (λ o s', match o with
    | Some i => i < length (fibers_of s') | None => True end ∧ good late None bt bg s') s.
Proof.
  intros Hs. destruct (good_in_queues _ _ _ _ _ Hs) as (_ & Hk & _). set (k := Z.to_nat _) in *.
  apply (wp_pop PollerInt.timedout_fibers PollerInt.set_timedout PollerInt.timedout_pop Z.to_nat);
    [done|by intros []|done|].
  destruct (queue_of PollerInt.timedout_fibers s) as [|x q] eqn:Hq; [done|].
  fold k. set (s' := with_poller _ _).
  assert (timedout s = Z.to_nat x :: timedout s') as Ht.
  { unfold timedout, queue_of. cbn. rewrite queue_insert by done.
    unfold queue_of in Hq. by rewrite Hq. }
  split.
  - apply (good_timedout _ _ _ _ _ _ _ _ _ _ _ Hs). rewrite Ht. left.
  - destruct Hs. split; try assumption.
    + cbn. by rewrite length_insert.
    + intros i Hi. apply good_timedout0. rewrite Ht. by right.
Qed.

Lemma wp_dns_check late bt bg s : good late None bt bg s →
  wp dns_check (λ o s', o = None ∧ good late None bt bg s') s.
Proof.
  intros Hs. destruct (good_in_queues _ _ _ _ _ Hs) as (_ & _ & Hk).
  apply (wp_pop PollerInt.lookup_results PollerInt.set_lookups PollerInt.dns_check); [done|by intros []|done|].
  pose proof (good_lookups _ _ _ _ _ _ _ _ _ _ _ Hs) as Hl. unfold lookups in Hl.
  destruct (queue_of PollerInt.lookup_results s); [done|by destruct p as [[??]?]].
Qed.

Lemma wp_run_toexec n late p f bt bg s : good late (Some (p, f)) (bt + 1) (bg + n) s →
  resumable D spawn home0 plain f → wp (run_toexec n p) (λ _, good late None bt bg) s.
Proof.
  intros Hs Hf. unfold run_toexec. eapply wp_fiber; [exact Hs|].
  destruct (resumable_unattached f Hf) as [-> _]. by eapply wp_step_into.
Qed.

(** A fiber with a timer can be resumed once the timer has fired, and is not queued. *)
Lemma wp_run_timedout n p bt bg s : good true None (bt + 1) (bg + n) s → p < length (fibers_of s) →
  wp (run_timedout n p) (λ _, good true None bt bg) s.
Proof.
  intros Hs Hp. destruct (lookup_lt_is_Some_2 _ _ Hp) as [f Hf]. unfold run_timedout.
  eapply wp_step; [by apply fiber_eq|]. destruct (FiberInt.wtoken f) as [tk|] eqn:Hw.
  2: { apply wp_ret. eapply (good_less _ _ _ _ _ _ _ _ (bt + 1) (bg + n)); [lia..|exact Hs]. }
  destruct (good_fibers _ _ _ _ _ _ _ _ _ _ _ Hs p f Hf) as [_ Hk].
  assert (p ∉ toexec s) as Hq.
  { intros Hq. destruct (good_toexec _ _ _ _ _ _ _ _ _ _ _ Hs p Hq) as (_ & g & Hg & _ & Hgw).
    rewrite Hf in Hg. injection Hg as <-. by rewrite Hgw in Hw. }
  assert (fresh f ∨ waits_in D spawn home0 plain f) as Hfw.
  { destruct Hk as [?|[?|(_ & _ & Hw')]]; [done|by left|by right|congruence]. }
  assert (¬ dead f ∧ unattached f) as [Hnd Hal].
  { destruct Hfw as [(? & Hsd & ? & _)|Hwf].
    - split; [|done]. intros (_ & Hsd' & _). congruence.
    - split; [by apply resumable_not_dead with D spawn home0 plain; right|].
      by apply resumable_unattached; right. }
  destruct Hal as [-> _]. apply good_open with (p := p) (f := f) in Hs; [|done..].
  apply wp_bind. eapply wp_upd_fiber; [exact Hs|by left|done|]. intros Hs1.
  apply wp_bind. eapply wp_upd_fiber; [exact Hs1|by left|done|]. intros Hs2.
  eapply wp_step_into; [exact Hs2|]. destruct Hfw as [Hfr|(home & c & k & Ht & Hin & Hres & Hkp & Hh)].
  - by left.
  - right. exists home, c, k. split; [exact Ht|]. split; [|done].
    destruct Hin as (? & ? & ? & ? & ? & ? & _). split_and!; try done. by intros [? [=]].
Qed.

Lemma wp_drain n late bt bg s : good late None (bt + n) (bg + n * n) s →
  wp (while_some pop_toexec run_toexec n) (λ _ s', good late None bt bg s' ∧ toexec s' = []) s.
Proof.
  revert s. induction n as [|n IH]; intros s Hs; [done|]. cbn [while_some].
  eapply wp_then; [by apply wp_pop_toexec|]. intros [i|] s1.
  - intros (f & [Hf _] & Hs1). eapply (wp_then _ _ _ (λ _, good late None (bt + n) (bg + n * n)));
      [|intros [] s2 Hs2; by apply IH].
    eapply wp_run_toexec; [|exact Hf].
    eapply (good_less _ _ _ _ _ _ _ _ (bt + S n) (bg + S n * S n)); [lia..|exact Hs1].
  - intros [Hs1 Ht]. apply wp_ret. split; [|done].
    eapply (good_less _ _ _ _ _ _ _ _ (bt + S n) (bg + S n * S n)); [lia..|exact Hs1].
Qed.

Lemma wp_drain_timers n bt bg s : good true None (bt + n) (bg + n * n) s →
  wp (while_some timedout_pop run_timedout n) (λ _, good true None bt bg) s.
Proof.
  revert s. induction n as [|n IH]; intros s Hs; [done|]. cbn [while_some].
  eapply wp_then; [by apply wp_timedout_pop|]. intros [i|] s1 [Hi Hs1].
  - eapply (wp_then _ _ _ (λ _, good true None (bt + n) (bg + n * n)));
      [|intros [] s2 Hs2; by apply IH]. eapply wp_run_timedout; [|exact Hi].
    eapply (good_less _ _ _ _ _ _ _ _ (bt + S n) (bg + S n * S n)); [lia..|exact Hs1].
  - apply wp_ret. eapply (good_less _ _ _ _ _ _ _ _ (bt + S n) (bg + S n * S n)); [lia..|exact Hs1].
Qed.

Lemma good_late late late' bt bg s : toexec s = [] ∨ late' = false → good late None bt bg s →
  good late' None bt bg s.
Proof.
  intros Hl []. split; try assumption. intros i Hi. split; [done|].
  destruct (good_toexec0 i Hi) as (_ & f & Hf & Hr & Hw). exists f. split; [done|]. split; [done|].
  destruct Hl as [Hl| ->]; [|done]. rewrite Hl in Hi. by apply elem_of_nil in Hi.
Qed.

Lemma wp_lookups n late bt bg s : good late None bt bg s →
  wp (while_some dns_check (λ fuel '(pos, gen, addr), run_lookup fuel pos gen addr) n)
    (λ _, good late None bt bg) s.
Proof.
  intros Hs. destruct n as [|n]; [done|]. cbn [while_some].
  eapply wp_then; [by apply wp_dns_check|]. intros o s2 [-> Hs2]. by apply wp_ret.
Qed.

Lemma wp_run n bt bg s : good false None (bt + (n + n)) (bg + (n * n + n * n)) s →
  wp (run n) (λ _, good false None bt bg) s.
Proof.
  intros Hs. rewrite !Nat.add_assoc in Hs. unfold run.
  eapply wp_then; [by apply wp_drain|]. intros [] s1 [Hs1 Ht].
  eapply (good_late _ true) in Hs1; [|by left].
  eapply wp_then; [by apply wp_lookups|]. intros [] s2 Hs2.
  eapply wp_then; [by apply wp_drain_timers|]. intros [] s3 Hs3.
  eapply wp_step; [done|]. apply wp_ret. eapply good_late; [by right|exact Hs3].
Qed.
End methods.
