(* ===== verification/RunnerSession.v ===== *)
(** * Sessions

    A runner in service: it is made, its fibers are started from the main stack or
    from other fibers, the poller reports to it, it runs.  As long as its fibers
    serve sockets only (RunnerSafe) none of this panics, however long it goes on, and
    as long as the vector of the fibers does not move under a fiber in its function
    there is no use after free. *)
From S2P Require Import Prelude Clock TimerConfig Slab Wheel WheelInv WheelSpec.
From S2P Require Import ByteOrder StdText Resolver Poller PollerProps Routing.
From S2P Require Import Fiber Runner RunnerInv RunnerTurn RunnerEval RunnerOrder RunnerSafe.
Local Open Scope nat_scope.
Local Open Scope list_scope.

(** ** What a poller's timers and events name *)
Section naming.
Context {S Stack : Type} `{SlabOps Entry.t S, !SlabLaws Entry.t S}.

Lemma armed_task (L : Task → Prop) (w : Wheel.t S) t task k :
  tasks_of L w → status w t = Armed task k → L task.
Proof.
  intros Hw Hs. unfold status, payload in Hs. destruct (get (Wheel.slab w) t) as [e|] eqn:He; [|done].
  destruct e; simplify_eq/=. by eapply Hw in He.
Qed.

(** The identifiers of fibers of the thread *)
Definition named (events : list Z) : Prop := ∀ e, e ∈ events →
  ∃ r i, e = Poller.fiber_id (Z.of_nat r) (Z.of_nat i) ∧ r < RUNNERS ∧ (Z.of_nat i < 2 ^ 32)%Z.

Lemma named_cons e events : named (e :: events) →
  (∃ r i, PollerInt.split_id e = (r, Z.of_nat i) ∧ r < RUNNERS ∧ (Z.of_nat i < 2 ^ 32)%Z
     ∧ e = Poller.fiber_id (Z.of_nat r) (Z.of_nat i)) ∧ named events.
Proof.
  intros He. split; [|intros e' ?; apply He; by right].
  destruct (He e) as (r & i & -> & Hr & Hi); [by left|]. exists r, i.
  rewrite split_id_fiber_id by (unfold RUNNERS in Hr; lia). by rewrite Nat2Z.id.
Qed.

Lemma routed_named k events x : named events →
  x ∈ Z.to_nat <$> routed k events →
  Poller.fiber_id (Z.of_nat k) (Z.of_nat x) ∈ events ∧ (Z.of_nat x < 2 ^ 32)%Z.
Proof.
  induction events as [|e events IH]; [by intros _ ?%elem_of_nil|].
  intros [(r & i & Hs & Hr & Hi & He) Hn]%named_cons. specialize (IH Hn).
  unfold routed in *. cbn [omap list_omap]. rewrite Hs, elem_of_cons.
  cbn [fst snd]. case_decide as Hk; [|intros []%IH; by split; [right|]].
  subst r. rewrite fmap_cons, Nat2Z.id.
  intros [->|[]%IH]%elem_of_cons; [by split; [left; rewrite He|]|by split; [right|]].
Qed.

Lemma routed_once k events : named events → NoDup events → NoDup (Z.to_nat <$> routed k events).
Proof.
  induction events as [|e events IH]; [constructor|].
  intros [(r & i & Hs & Hr & Hi & He) Hn]%named_cons [Hnin Hnd]%NoDup_cons.
  pose proof (routed_named k events) as Hin. unfold routed in *. cbn [omap list_omap]. rewrite Hs.
  cbn [fst snd]. case_decide as Hk; [|by apply IH]. subst r. rewrite fmap_cons, Nat2Z.id.
  apply NoDup_cons. split; [|by apply IH]. intros Hi'. apply Hnin. rewrite He. by apply Hin.
Qed.

Lemma named_routable events : named events → Forall routable events.
Proof.
  intros Hn. apply Forall_forall. intros e He. destruct (Hn e He) as (r & i & -> & Hr & Hi).
  unfold routable. rewrite split_id_fiber_id by (unfold RUNNERS in Hr; lia). cbn. by rewrite Nat2Z.id.
Qed.
End naming.

(** ** Sessions *)
Section session.
Context {N : Net} {Pr : Program} {Sl : Type} {SO : SlabOps Entry.t Sl} {SL : SlabLaws Entry.t Sl}.
Context {BE : BigEndian} (t0 t1 D : Z) (spawn : bool) (plain : Code → Prop) (rp : nat).
Implicit Types (s : Sys.t Sl) (p : PollerInt.t Sl Stack).
Abbreviation good h := (good (Sl := Sl) t0 t1 D spawn plain h false None).

(** The other runners of the thread may have anything at the poller. *)
Definition others (r : nat) (x : Z) : Prop := r < RUNNERS ∧ r ≠ rp.

(** A poller for a runner with [n] fibers, with room for [bt] more timers *)
Record hosts (bt n : nat) p : Prop := {
  hosts_queues : length (PollerInt.toexec_fibers p) = RUNNERS
    ∧ length (PollerInt.timedout_fibers p) = RUNNERS
    ∧ length (PollerInt.lookup_results p) = RUNNERS;
  hosts_wheel : wheel_good t0 t1 D bt (PollerInt.wheel p);
  hosts_size : stacks_ok p;
  hosts_names : names_ok (Z.of_nat rp) others n p
}.

(** The three queues of the runner *)
Definition own_queues p : list Z * list Z * list (Z * Z * IpAddr) :=
  (queue (PollerInt.toexec_fibers p) rp, queue (PollerInt.timedout_fibers p) rp,
   queue (PollerInt.lookup_results p) rp).

(** Sockets that are ready, as the operating system reports them: each once, and
    those of this runner belong to fibers that have been entered and are not queued. *)
Record reports s (events : list Z) : Prop := {
  reports_once : NoDup events;
  reports_named : named events;
  reports_fibers : ∀ i, Poller.fiber_id (Z.of_nat rp) (Z.of_nat i) ∈ events →
    (Z.of_nat i < 2 ^ 32)%Z →
    (i ∉ toexec s) ∧ ∃ f, fibers_of s !! i = Some f ∧ FiberInt.state f = Stacked
}.

(** Results of lookups that other runners have asked for *)
Definition foreign (results : list (Z * Z * IpAddr)) : Prop :=
  Forall (λ x, live_id others x.1.1) results.

(** A runner in service, with room for [bt] more timers and [bg] more fibers: both
    may be counted anew at any time. *)
Inductive session : nat → nat → Sys.t Sl → Prop :=
| session_new bt bg p w : hosts bt 0 p → own_queues p = ([], [], []) →
    rp < RUNNERS → (Z.of_nat bg ≤ 2 ^ 32)%Z →
    session bt bg (Sys.mk (RunnerInt.new (Z.of_nat rp)) p w)
| session_count bt bg bg' s : session bt bg s →
    (Z.of_nat (length (fibers_of s)) + Z.of_nat bg' ≤ 2 ^ 32)%Z →
    (∀ i f, fibers_of s !! i = Some f → FiberInt.generation f + Z.of_nat bg' ≤ U64_MAX)%Z →
    session bt bg' s
| session_outside bt bt' bg s p w : session bt bg s → hosts bt' (length (fibers_of s)) p →
    own_queues p = own_queues (Sys.poller s) → session bt' bg (Sys.mk (Sys.runner s) p w)
| session_world bt bg s w : session bt bg s → session bt bg (with_world s w)
| session_start bt bg s func ft x r s' : session bt (bg + 1) s → (spawn = false → steady s) →
    register (Some func) ft (Some x) None true s = Ok (r, s') → session bt bg s'
| session_response bt bg s r s' : session bt bg s → get_response s = Ok (r, s') → session bt bg s'
| session_poll bt bg s now events results b p : session bt bg s → (t0 ≤ now ≤ t1)%Z →
    reports s events → foreign results →
    PollerInt.poll (Sys.poller s) (Some events) now results = Ok (b, p) →
    session bt bg (with_poller s p)
| session_run bt bg n b s s' : session (bt + (n + n)) (bg + (n * n + n * n)) s →
    run n s = Ok (b, s') → session bt bg s'.

Context (Hclock : ∀ w, (t0 ≤ (now w).1 ≤ t1)%Z) (Hdefault : (Duration.from_millis 20000 ≤ D)%Z).
Context (Hplain : serves_sockets D spawn plain).

Record in_service (bt bg : nat) s : Prop := {
  service_good : ∃ h, good h bt bg s;
  service_wf : runner_wf (Z.of_nat rp) others s
}.

Lemma service_pos bt bg s : in_service bt bg s → RunnerInt.pos (Sys.runner s) = Z.of_nat rp.
Proof. intros [_ []]. done. Qed.

Lemma service_routable bt bg s t task k : in_service bt bg s →
  status (PollerInt.wheel (Sys.poller s)) t = Armed task k → routable task.
Proof.
  intros Hs Hst. pose proof (service_pos _ _ _ Hs) as Hpos. destruct Hs as [[h []] [? ? ? ? Hn ?]].
  assert (few (Z.of_nat rp) (RunnerTurn.fibers_of s)) as Hfew.
  { unfold few, RunnerTurn.fibers_of, fibers_of in *. lia. }
  pose proof (armed_task _ _ _ _ _ (ok_tasks _ _ _ _ Hn Hfew) Hst) as Hl.
  unfold live_id, entry_ok, others in Hl. unfold routable, RUNNERS in *. lia.
Qed.

Lemma service_poller_ok bt bg s : in_service bt bg s → poller_ok (Sys.poller s).
Proof.
  intros Hs. assert (∀ t task k, status (PollerInt.wheel (Sys.poller s)) t = Armed task k → routable task)
    as Hr by (intros; by eapply service_routable).
  destruct Hs as [[h Hg] Hwf]. destruct (good_queues _ _ _ _ _ _ _ _ _ _ _ Hg) as (? & ? & ?).
  split; try done. by apply Hg.
Qed.

(** A fiber that has been entered, and is not queued, can be resumed. *)
Lemma service_stacked h bt bg s i f : good h bt bg s → fibers_of s !! i = Some f →
  FiberInt.state f = Stacked → resumable D spawn h plain f.
Proof.
  intros Hg Hf Hst. destruct (good_fibers _ _ _ _ _ _ _ _ _ _ _ Hg i f Hf) as [_ Hk].
  destruct Hk as [(_ & H & _)|[?|(_ & H & _)]]; [done|congruence|by right|congruence].
Qed.

Lemma foreign_routed results : foreign results → Forall (λ x, routable x.1.1) results
  ∧ routed_results rp results = [].
Proof.
  unfold foreign, live_id, routable. induction 1 as [|[[e gen] addr] results [Hr Hne] _ [IH1 IH2]];
    [by split|]. cbn in Hr, Hne. split; [by constructor|].
  unfold routed_results. cbn [omap list_omap]. rewrite decide_False by done. exact IH2.
Qed.

Lemma poll_size p events now results b p' : PollerInt.poll p (Some events) now results = Ok (b, p') →
  PollerInt.stack_size p' = PollerInt.stack_size p.
Proof.
  unfold PollerInt.poll. intros (q & _ & H)%bind_Ok.
  apply bind_Ok in H as ([[w to] smth] & _ & H). by apply bind_Ok in H as (l & _ & [= _ <-]).
Qed.

Lemma service_few bt bg s : in_service bt bg s → few (Z.of_nat rp) (length (fibers_of s)).
Proof. intros Hs. rewrite <- (service_pos _ _ _ Hs) at 1. destruct Hs as [[h []] _]. unfold few. lia. Qed.

(** What is reported names fibers. *)
Lemma service_names bt bg s now events results b p : in_service bt bg s → reports s events →
  foreign results → PollerInt.poll (Sys.poller s) (Some events) now results = Ok (b, p) →
  names_ok (Z.of_nat rp) others (length (fibers_of s)) p.
Proof.
  intros Hs [_ Hnm Hfb] Hres Hp. pose proof (service_few _ _ _ Hs) as Hfew.
  destruct (inv_poller _ _ _ _ _ (service_wf _ _ _ Hs)) as [H1 H2 H3 H4].
  destruct (poll_live (entry_ok (Z.of_nat rp) others (length (fibers_of s))) _ _ _ _ _ _ Hp) as [];
    [| | |by split; try intros _].
  - intros ? [= <-]. apply Forall_forall. intros e He.
    destruct (Hnm e He) as (r & i & -> & Hr & Hi). unfold live_id, entry_ok, pos_ok, others.
    rewrite split_id_fiber_id by (unfold RUNNERS in Hr; lia). cbn. rewrite !Nat2Z.id.
    destruct (decide (r = rp)) as [->|Hne]; [left|by right].
    destruct (Hfb i He Hi) as (_ & f & Hf & _). split; [done|]. by eapply lookup_lt_Some.
  - eapply Forall_impl; [exact Hres|]. intros x Hx. by right.
  - split; [exact H1|exact H2|exact H3|by apply H4].
Qed.

(** A poller whose queues have grown by what is reported *)
Lemma reported_good h bt bg s events p : good h bt bg s → RunnerInt.pos (Sys.runner s) = Z.of_nat rp →
  reports s events → names_ok (Z.of_nat rp) others (length (fibers_of s)) p →
  length (PollerInt.toexec_fibers p) = RUNNERS ∧ length (PollerInt.timedout_fibers p) = RUNNERS
    ∧ length (PollerInt.lookup_results p) = RUNNERS →
  wheel_good t0 t1 D bt (PollerInt.wheel p) →
  PollerInt.stack_size p = PollerInt.stack_size (Sys.poller s) →
  toexec (with_poller s p) = toexec s ++ (Z.to_nat <$> routed rp events) →
  lookups (with_poller s p) = lookups s → good h bt bg (with_poller s p).
Proof.
  intros Hg Hpos [Hon Hnm Hfb] Hn Hlen Hw Hsize Hto Hlo. pose proof Hg as [].
  assert (∀ i, i ∈ Z.to_nat <$> routed rp events →
    (i ∉ toexec s) ∧ ∃ f, fibers_of s !! i = Some f ∧ queueable D spawn plain h false f) as Hnew.
  { intros i [Hi Hb]%routed_named; [|done]. destruct (Hfb i Hi Hb) as (Hq & f & Hf & Hst).
    split; [done|]. exists f. split; [done|]. split; [|done]. by eapply service_stacked. }
  split; try assumption.
  - unfold stacks_ok in *. cbn. by rewrite Hsize.
  - rewrite Hto. apply NoDup_app. split_and!; [done| |by apply routed_once].
    intros i Hi Hi'. by apply Hnew in Hi' as [].
  - rewrite Hto. intros i [Hi|Hi]%elem_of_app; [by eapply good_toexec|]. split; [done|]. by apply Hnew.
  - intros i (x & -> & Hx)%list_elem_of_fmap. unfold queue_of in Hx. cbn in Hx.
    rewrite Hpos, Nat2Z.id in Hx. pose proof (ok_timedout _ _ _ _ Hn rp) as Hq.
    apply (proj1 (Forall_forall _ _) Hq) in Hx. unfold entry_ok, others in Hx. rewrite Nat2Z.id in Hx.
    by destruct Hx as [[_ ?]|[_ ?]].
  - by rewrite Hlo.
Qed.

Lemma delay_nonneg : (0 ≤ D)%Z.
Proof. etrans; [|exact Hdefault]. by vm_compute. Qed.

(** The poller reports to the runner. *)
Lemma service_poll bt bg s now events results : in_service bt bg s → (t0 ≤ now ≤ t1)%Z →
  reports s events → foreign results →
  ∃ b p, PollerInt.poll (Sys.poller s) (Some events) now results = Ok (b, p)
    ∧ in_service bt bg (with_poller s p).
Proof.
  intros Hs Hnow Hrep Hres. pose proof (service_pos _ _ _ Hs) as Hpos.
  destruct (foreign_routed _ Hres) as [Hrt Hno].
  destruct (service_good _ _ _ Hs) as [h Hg]. pose proof (good_wheel _ _ _ _ _ _ _ _ _ _ _ Hg) as Hw.
  pose proof Hw as [Hwf Hstart Hsane Hticks Hcurs Hroom]. pose proof delay_nonneg as HD.
  pose proof (tick_of_mono _ now (t1 + D) Hwf ltac:(lia)) as Hmono.
  destruct (poll_run (Sys.poller s) events now results) as (fired & b & p & Hp & Hok & Hc & Hlen & Hcur & _
    & Hq1 & Hq2 & Hq3 & _);
    [by eapply service_poller_ok|unfold sane; lia|by apply named_routable, Hrep|done|].
  pose proof (service_names _ _ _ _ _ _ _ _ Hs Hrep Hres Hp) as Hn.
  exists b, p. split; [exact Hp|]. split; [exists h|by destruct Hs as [_ []]].
  apply (reported_good h bt bg s events p); try done.
  - by destruct Hok.
  - eapply wheel_good_same; [exact Hw|apply Hok|exact Hc|lia|lia].
  - by eapply poll_size.
  - unfold toexec, queue_of. cbn. rewrite Hpos, Nat2Z.id, Hq1. by rewrite fmap_app.
  - unfold lookups, queue_of. cbn. by rewrite Hpos, Nat2Z.id, Hq3, Hno, app_nil_r.
Qed.

(** ** Every step of a session *)
Lemma service_new bt bg p (w : W) : hosts bt 0 p → own_queues p = ([], [], []) →
  rp < RUNNERS → (Z.of_nat bg ≤ 2 ^ 32)%Z →
  in_service bt bg (Sys.mk (RunnerInt.new (Z.of_nat rp)) p w).
Proof.
  intros [Hl Hw Hs Hn] [=Hq1 Hq2 Hq3] Hr Hg. unfold RUNNERS in Hr. split.
  - exists 0. split; try assumption; unfold toexec, timedout, lookups, queue_of; cbn; rewrite ?Nat2Z.id;
      rewrite ?Hq1, ?Hq2, ?Hq3; try apply NoDup_nil_2; try done; try lia.
    all: try by intros ? ?%elem_of_nil. all: intros i f Hi; discriminate Hi.
  - split; try done; try constructor.
Qed.

Lemma service_count bt bg bg' s : in_service bt bg s →
  (Z.of_nat (length (fibers_of s)) + Z.of_nat bg' ≤ 2 ^ 32)%Z →
  (∀ i f, fibers_of s !! i = Some f → FiberInt.generation f + Z.of_nat bg' ≤ U64_MAX)%Z →
  in_service bt bg' s.
Proof.
  intros [[h Hg] Hwf] Hlen Hgen. split; [exists h|done].
  pose proof (good_fibers _ _ _ _ _ _ _ _ _ _ _ Hg) as Hfs.
  destruct Hg. split; try assumption. intros i f Hf. destruct (Hfs i f Hf) as [[Hd _] Hk]. split; [|exact Hk].
  split; [exact Hd|by eapply Hgen].
Qed.

Lemma service_outside bt bt' bg s p w : in_service bt bg s → hosts bt' (length (fibers_of s)) p →
  own_queues p = own_queues (Sys.poller s) → in_service bt' bg (Sys.mk (Sys.runner s) p w).
Proof.
  intros Hs [Hl Hw Hsz Hn] [= Hq1 Hq2 Hq3]. pose proof (service_pos _ _ _ Hs) as Hpos.
  destruct Hs as [[h Hg] Hwf]. split; [exists h|by destruct Hwf]. destruct Hg.
  unfold toexec, timedout, lookups, queue_of in *. rewrite Hpos, Nat2Z.id in *.
  split; try assumption; unfold toexec, timedout, lookups, queue_of; cbn; rewrite ?Hpos, ?Nat2Z.id;
    rewrite ?Hq1, ?Hq2, ?Hq3; try assumption.
Qed.

Lemma service_response bt bg s r s' : in_service bt bg s → get_response s = Ok (r, s') →
  in_service bt bg s'.
Proof.
  intros [[h Hg] Hwf] H. split; [exists h|eapply call_wf; [by eapply call_get_response|done]].
  unfold get_response in H. apply run_bind_Ok in H as (ru & s1 & [= <- <-] & H).
  destruct (RunnerInt.results (Sys.runner s)) as [|x l]; [by injection H as _ <-|].
  apply run_bind_Ok in H as ([] & s2 & [= <-] & [= _ <-]). by apply (good_runner _ _ _ _ _ _ _ _ _ _ s).
Qed.

Lemma service_start bt bg s func ft x r s' : in_service bt (bg + 1) s → (spawn = false → steady s) →
  register (Some func) ft (Some x) None true s = Ok (r, s') → in_service bt bg s'.
Proof.
  intros [[h Hg] Hwf] Hst H. split; [|eapply call_wf; [by eapply call_start|done]].
  eapply (wp_Ok spawn _ (λ _ s, ∃ h, good h bt bg s)); [|exact H]. by eapply wp_register.
Qed.

Lemma service_run bt bg n s b s' : in_service (bt + (n + n)) (bg + (n * n + n * n)) s →
  run n s = Ok (b, s') → in_service bt bg s'.
Proof.
  intros [[h Hg] Hwf] H. split; [exists h|eapply call_wf; [by eapply call_run|done]].
  eapply (wp_Ok spawn _ (λ _ s, good h bt bg s)); [|exact H]. by eapply wp_run.
Qed.

Lemma session_in_service bt bg s : session bt bg s → in_service bt bg s.
Proof.
  induction 1 as [| | |bt bg s w Hs IH| | |bt bg s now events results b p Hs IH Hnow Hrep Hres Hp|].
  - by apply service_new.
  - by eapply service_count.
  - by eapply service_outside.
  - destruct IH as [[h Hg] []]. by split; [exists h; apply good_world|].
  - by eapply service_start.
  - by eapply service_response.
  - destruct (service_poll bt bg s now events results IH Hnow Hrep Hres) as (b' & p' & Hp' & Hs').
    rewrite Hp in Hp'. by injection Hp' as _ <-.
  - by eapply service_run.
Qed.

(** C2. A session does not panic.  [session] says what may happen: the runner is
    made; fibers are started from the main stack, and with [spawn] by fibers too;
    other runners of the thread use the poller; the main stack takes responses; the
    poller reports sockets, each once and of this runner only those whose fibers
    have been entered and are not queued ([reports]); the runner runs.  The fibers
    only serve sockets ([serves_sockets]: no children, lookups or hibernation), the
    clock shows an instant between [t0] and [t1], no timeout of a fiber is longer
    than [D], and stacks can be made ([stacks_ok]).  Then neither [run] nor the start
    of a fiber panics (a run with fuel [n] that has room for [2 n] timers and [2 n^2]
    fibers; it may run out of fuel, since a fiber need not come to an end), and a
    poll as above returns.  A run can go through a dangling reference, but not when
    [spawn] is [false]: the fibers start none themselves, and the main stack only
    while the vector has a free slot or room for one more, or no fiber is in its
    function ([steady]). *)
Theorem session_never_panics bt bg s : session bt bg s →
  (∀ n, n + n ≤ bt → n * n + n * n ≤ bg →
     run n s ≠ Panic ∧ (spawn = false → run n s ≠ Err UseAfterFree))
  ∧ (0 < bg → ∀ func ft x, register (Some func) ft (Some x) None true s ≠ Panic)
  ∧ ∀ now events results, (t0 ≤ now ≤ t1)%Z → reports s events → foreign results →
      ∃ b p, PollerInt.poll (Sys.poller s) (Some events) now results = Ok (b, p).
Proof.
  intros Hs%session_in_service. destruct (service_good _ _ _ Hs) as [h Hg]. split_and!.
  - intros n Ht Hn.
    assert (wp spawn (run n) (λ _, good h 0 0) s) as Hwp.
    { eapply (wp_run _ _ _ _ _ _ Hclock Hdefault Hplain n 0 0).
      by eapply (good_less _ _ _ _ _ _ _ _ bt bg). }
    split; [by eapply wp_no_panic|by eapply wp_valid].
  - intros Hb func ft x. eapply (wp_no_panic true), (wp_register _ _ _ true _ h Hdefault _ _ 0 0); [|done].
    eapply (good_any _ _ _ spawn _ true); [done|].
    eapply (good_less _ _ _ _ _ _ _ _ bt bg); [lia..|exact Hg].
  - intros now events results Hnow Hrep Hres.
    destruct (service_poll bt bg s now events results Hs Hnow Hrep Hres) as (b & p & Hp & _). eauto.
Qed.
End session.
