(* ===== verification/RunnerExamples.v ===== *)
(** * Runs of the runner

    Instances of the theorems of RunnerProps and RunnerFuel on the simulated
    network of Sim, and runs that show how the parts work together: an echo server,
    a parent and its child, and the cases in which the code departs from its
    documentation or does what no code may do. *)
From stdpp Require Import strings.
From S2P Require Import Prelude Clock TimerConfig Slab Wheel ByteOrder StdText Resolver Poller.
From S2P Require Import WheelInv WheelSpec WheelProps PollerProps.
From S2P Require Import Fiber Runner Sim RunnerInv RunnerTurn RunnerFuel RunnerEval RunnerProps.
From S2P Require Import Routing RunnerIo RunnerOrder.
Local Open Scope nat_scope.
Local Open Scope list_scope.

Import Sim.

(** The entries of the wheel are kept in a vector. *)
Abbreviation slab := (list (option Entry.t)).

(** ** Fiber functions *)

(** Reads once, writes back what it got, and returns the count. *)
Definition echo (_ : Fiber.t) (_ : list Z) : script :=
  Do (CRead (replicate 16 0%Z)) (λ r,
    match r with
    | RRead (inl n) buf => Do (CWrite (take n buf)) (λ _, Ret (Some (Z.of_nat n)))
    | RRead (inr e) _ =>
      Ret (Some (if decide (IoError.kind e = TimedOut) then -1 else -2)%Z)
    | _ => Ret None
    end).

(** Returns the first byte of its parameter at once. *)
Definition answer (_ : Fiber.t) (x : list Z) : script := Ret (head x).

(** Sends its parameter in chunks. *)
Definition stream (_ : Fiber.t) (x : list Z) : script :=
  foldr (λ v next, Do (CRespChunk v) (λ _, next)) (Ret None) x.

(** Starts a child that answers, and returns what the child returned, negated. *)
Definition parent (_ : Fiber.t) (x : list Z) : script :=
  Do (CJoinTcp (7 : nat) 1 x) (λ _,
    Do CGetChild (λ r, match r with
                       | ROption (Some v) => Ret (Some (- v)%Z)
                       | _ => Ret None end)).

(** Starts a child and returns without waiting for it. *)
Definition hasty_parent (_ : Fiber.t) (x : list Z) : script :=
  Do (CJoinTcp (7 : nat) 0 x) (λ _, Ret (Some 1%Z)).

Definition hibernator (_ : Fiber.t) (_ : list Z) : script := Do CHibernateJoinMain (λ _, Ret None).
Definition joiner (_ : Fiber.t) (_ : list Z) : script :=
  Do CJoinMain (λ r, match r with ROption v => Ret v | _ => Ret None end).

(** Reads twice, and tells how the second read ended. *)
Definition twice (_ : Fiber.t) (_ : list Z) : script :=
  Do (CRead (replicate 16 0%Z)) (λ _,
    Do (CRead (replicate 16 0%Z)) (λ r,
      match r with
      | RRead (inr e) _ => Ret (Some (if decide (IoError.kind e = TimedOut) then -1 else -2)%Z)
      | _ => Ret (Some 0%Z)
      end)).

(** Starts a fiber and returns. *)
Definition spawner (_ : Fiber.t) (x : list Z) : script :=
  Do (CNewTcp (7 : nat) 1 x) (λ _, Ret None).

(** Reads; sends a chunk when that ends, and returns after it. *)
Definition late_chunk (_ : Fiber.t) (_ : list Z) : script :=
  Do (CRead (replicate 16 0%Z)) (λ _, Do (CRespChunk 1%Z) (λ _, Ret None)).

(** Reads, then hibernates until the main stack resumes it. *)
Definition napper (_ : Fiber.t) (_ : list Z) : script :=
  Do (CRead (replicate 16 0%Z)) (λ _, Do CHibernateJoinMain (λ _, Ret None)).

(** Makes its connection a TLS stream, then reads. *)
Definition after_handshake (r : Reply Z) : script :=
  match r with
  | RIoUnit (inl _) => Do (CRead (replicate 16 0%Z)) (λ _, Ret (Some 1%Z))
  | _ => Ret (Some 0%Z)
  end.
Definition secured (_ : Fiber.t) (_ : list Z) : script := Do (CTlsConnect tt []) after_handshake.

Definition table (f : nat) : Fiber.t → list Z → script :=
  match f with
  | 0 => echo | 1 => answer | 2 => stream | 3 => parent | 4 => hasty_parent
  | 5 => hibernator | 6 => twice | 7 => joiner | 8 => spawner | 9 => late_chunk
  | 10 => secured | _ => napper
  end.

#[local] Instance prog : Program := Sim.program table.
Abbreviation sys := (Sys.t slab).
Abbreviation M := (Run sys).

(** ** The main stack *)
Definition start (w : Sim.world) : outcome Undefined sys :=
  p ← widen (PollerInt.new None None 0); Ok (Sys.mk (RunnerInt.new 3) p w).

(** [Poller::poll] with the sockets of the fibers [ready] signalled, at [at_]
    milliseconds *)
Definition poll_at (at_ : Z) (ready : list nat) : M bool := λ s,
  let now := Duration.from_millis at_ in
  '(b, p) ← widen (PollerInt.poll (Sys.poller s)
    (Some (Poller.fiber_id 3 ∘ Z.of_nat <$> ready)) now []);
  Ok (b, Sys.mk (Sys.runner s) p (set_clock (Sys.world s) now)).

Definition deliver (h : nat) (x : io (list Z)) : M unit := λ s,
  Ok (tt, Sys.mk (Sys.runner s) (Sys.poller s)
        (set_inbox (Sys.world s) (inbox (Sys.world s) ++ [(h, x)]))).

(** What a run of the main stack gives: its result, what was sent, the free slots
    and the number of pooled stacks. *)
Definition observe {A} (m : M A) : outcome Undefined (A * list (nat * list Z) * list nat * nat) :=
  s ← start world0; '(a, s) ← m s;
  Ok (a, outbox (Sys.world s), RunnerInt.free_fibers (Sys.runner s),
      length (PollerInt.free_stacks (Sys.poller s))).

(** An echo server's connection: blocks, is woken by its socket, answers. *)
Example echo_runs :
  observe (_ ← new_tcp (5 : nat) 0 []; b ← run 9; deliver 5 (inl [1; 2; 3]%Z);;
           poll_at 10 [0];; c ← run 9; r ← get_response; mret (b, c, r))
  = Ok ((false, true, Some 3%Z), [(5, [1; 2; 3]%Z)], [0], 1).
Proof. vm_compute. reflexivity. Qed.

(** Nothing arrives for 20 seconds: the read times out. *)
Example read_times_out :
  observe (_ ← new_tcp (5 : nat) 0 []; run 9;; poll_at 19000 [];; b ← run 9;
           poll_at 20250 [];; c ← run 9; r ← get_response; mret (b, c, r))
  = Ok ((false, true, Some (-1)%Z), [], [0], 1).
Proof. vm_compute. reflexivity. Qed.

(** A child's result goes to its parent, which goes on with it; both slots and
    both stacks come back. *)
Example parent_gets_child :
  observe (_ ← new_tcp (5 : nat) 3 [42]%Z; run 9;; r ← get_response; r' ← get_response; mret (r, r'))
  = Ok ((Some (-42)%Z, None), [], [1; 0], 2).
Proof. vm_compute. reflexivity. Qed.

(** A timer gives its response at its time, and none after it was dropped. *)
Example timer_responds :
  observe (t ← new_resp_timer (Duration.from_millis 1000) 5%Z; poll_at 500 [];; run 9;;
           a ← get_response; poll_at 1000 [];; run 9;; b ← get_response; mret (t, a, b))
  = Ok ((Some 0, None, Some 5%Z), [], [0], 0).
Proof. vm_compute. reflexivity. Qed.

Example timer_dropped :
  observe (t ← new_resp_timer (Duration.from_millis 1000) 5%Z; drop_timer 0;;
           poll_at 1000 [];; run 9;; get_response)
  = Ok (None, [], [0], 0).
Proof. vm_compute. reflexivity. Qed.

(** The main stack's response reaches the fiber that joined it. *)
Example join_main_response :
  observe (_ ← new_processor 7 []; b ← run 9; f ← get_fiber;
           (if f is Some f then resume_ref f (Some 8%Z) else mret tt);;
           run 9;; r ← get_response; mret (b, r))
  = Ok ((true, Some 8%Z), [], [0], 1).
Proof. vm_compute. reflexivity. Qed.

(** ** Departures from the documentation *)

(** A fiber that streams responses is not rescheduled "on next poll()": it is
    resumed again and again by the same call of [run]. *)
Example stream_in_one_run :
  observe (_ ← new_processor 2 [1; 2; 3]%Z; run 20;; a ← get_response; b ← get_response;
           c ← get_response; mret (a, b, c))
  = Ok ((Some 1, Some 2, Some 3)%Z, [], [0], 1).
Proof. vm_compute. reflexivity. Qed.

(** A parent that returns before its child: the child's end steps into the closed
    parent, which starts again without a parameter and panics. *)
Example hasty_parent_panics :
  observe (_ ← new_processor 4 []; run 9;; deliver 7 (inl [1]%Z);; poll_at 10 [1];; run 9)
  = Panic.
Proof. vm_compute. reflexivity. Qed.

(** A [TimerRef] names a slot, not a timer: dropping one after its timer has fired
    cancels the timer of the fiber that has the slot now, and frees the slot while
    the fiber runs, so that two fibers get it. *)
Example stale_timer_ref :
  observe (t ← new_resp_timer (Duration.from_millis 1000) 5%Z; poll_at 1000 [];; run 9;;
           _ ← new_tcp (5 : nat) 0 []; run 9;; drop_timer 0;;
           t2 ← new_resp_timer (Duration.from_millis 1000) 6%Z; mret (t, t2))
  = Ok ((Some 0, Some 0), [], [], 0).
Proof. vm_compute. reflexivity. Qed.

(** A socket and its timer are reported by the same poll.  The fiber is resumed
    for its socket and waits again; then the old timer's entry ends the new wait,
    which has just begun. *)
Example spurious_timeout :
  observe (_ ← new_tcp (5 : nat) 6 []; run 9;; deliver 5 (inl [1]%Z);;
           poll_at 20250 [0];; run 9;; get_response)
  = Ok (Some (-1)%Z, [], [0], 1).
Proof. vm_compute. reflexivity. Qed.

(** A fiber that a timer's fiber starts is queued after [run] has emptied the
    queue.  It stays there: [run] has nothing to tell, and the next [poll], which
    returns whether runners should be executed, finds nothing new. *)
Example late_fiber_waits :
  observe (_ ← new_fiber_timer (Duration.from_millis 1000) 8 [5]%Z; a ← poll_at 1000 [];
           b ← run 9; c ← poll_at 1010 []; p ← get_poller;
           run 9;; r ← get_response;
           mret (a, b, c, queue (PollerInt.toexec_fibers p) 3, r))
  = Ok ((true, false, false, [1%Z], Some 5%Z), [], [0; 1], 1).
Proof. vm_compute. reflexivity. Qed.

(** A fiber that sends a chunk when its timer ends its wait is queued after [run]
    has emptied the queue; the next [poll] queues it again for its socket.  Its
    first turn ends it, and its second one starts it again, without a parameter.
    Two polls without a run between them have the same effect. *)
Example double_queued_panics :
  observe (_ ← new_tcp (5 : nat) 9 []; run 9;; poll_at 20250 [];; run 9;; p ← get_poller;
           poll_at 20300 [0];; p' ← get_poller;
           mret (queue (PollerInt.toexec_fibers p) 3, queue (PollerInt.toexec_fibers p') 3))
  = Ok (([0], [0; 0])%Z, [], [], 0)
  ∧ observe (_ ← new_tcp (5 : nat) 9 []; run 9;; poll_at 20250 [];; run 9;; poll_at 20300 [0];; run 9)
    = Panic
  ∧ observe (_ ← new_tcp (5 : nat) 0 []; run 9;; deliver 5 (inl [1]%Z);; poll_at 10 [0];;
             poll_at 20 [0];; run 9) = Panic.
Proof. vm_compute. by split_and!. Qed.

(** The slot of a parent that returned before its child is given to a fiber that
    waits for the main stack.  The end of the child resumes that fiber: it gets no
    response, and ends before the main stack has answered. *)
Example orphan_resumes_stranger :
  observe (_ ← new_processor 4 []; run 9;; new_processor 7 [];; a ← run 9;
           p ← fiber 0; deliver 7 (inl [1]%Z);; poll_at 10 [1];; run 9;;
           f ← fiber 0;
           mret (bool_decide (is_Some (FiberInt.trans p)), bool_decide (FiberInt.state f = Closed)))
  = Ok ((true, true), [(7, [1]%Z)], [0], 2).
Proof. vm_compute. reflexivity. Qed.

(** A connection waits for data while the main stack starts four more fibers: the
    vector of the fibers, with room for four, moves.  When the data arrive, the
    first connection's fiber is resumed, answers and returns, and the end of
    [context_function] writes its result into the memory that was freed.  With three
    more fibers all is well. *)
Definition meanwhile (n : nat) : M (option Z) :=
  _ ← new_tcp (5 : nat) 0 []; run 9;;
  foldr (λ h next, _ ← new_tcp (h : nat) 1 []; next) (mret tt) (seq 6 n);;
  deliver 5 (inl [1]%Z);; poll_at 10 [0];; run 9;; get_response.

Example vector_moves : observe (meanwhile 4) = Err UseAfterFree
  ∧ observe (meanwhile 3) = Ok (Some 1%Z, [(5, [1]%Z)], [1; 2; 3; 0], 2).
Proof. vm_compute. by split. Qed.

(** ** Instances of the theorems *)

(** The value of a computation, which is known to return *)
Definition value {E A : Type} (o : outcome E A) (d : A) : A :=
  match o with Ok a => a | _ => d end.

(** Whether it does, with the first part of its result in view *)
Definition returns {E A B : Type} (o : outcome E (A * B)) (a : A) : Prop :=
  match o with Ok (x, _) => x = a | _ => False end.

Lemma returned {E A B : Type} (o : outcome E (A * B)) a d :
  returns o a → o = Ok (a, (value o d).2).
Proof. by destruct o as [[x b]|e| |]; cbn; [intros ->|..]. Qed.

Definition poller0 : PollerInt.t slab Z :=
  value (PollerInt.new None None 0)
    (PollerInt.mk [] [] [] None [] (Wheel.mk [] [] 0 0 0 0 0 0)%Z (Dns.mk [])).
Definition sys0 : sys := Sys.mk (RunnerInt.new 3) poller0 world0.
(** ... with one fiber, which is queued to run the function [f] *)
Definition queued_fiber (f : nat) (x : list Z) : FiberInt.t :=
  new_fiber sys0 0 0 (Some f) Empty (Some x) None.
Definition with_fibers (fs : list FiberInt.t) : sys :=
  with_runner sys0 (foldl RunnerInt.push_fiber (Sys.runner sys0) fs).

(** No other runner has anything at the poller. *)
Definition alone (r : nat) (x : Z) : Prop := False.

Lemma new_poller0 : PollerInt.new (S := slab) (Stack := Z) None None 0 = Ok poller0.
Proof. vm_compute. reflexivity. Qed.

Lemma reachable_sys0 : reachable 3 alone sys0.
Proof.
  apply reach_new. destruct (new_live (entry_ok 3 alone 0) _ _ _ _ new_poller0) as [].
  by split; [..|intros _].
Qed.

Definition connected : io unit * sys := value (new_tcp (5 : nat) 0 [] sys0) (inl tt, sys0).
Definition blocked : bool * sys := value (run 9 connected.2) (false, sys0).

Lemma runner_reachable_wf_witness : reachable 3 alone blocked.2 ∧ runner_wf 3 alone blocked.2.
Proof.
  assert (reachable 3 alone blocked.2) as Hr.
  { apply (reach_step 3 alone connected.2).
    - apply (reach_step 3 alone sys0); [apply reachable_sys0|].
      apply step_call, (call_start sys0 (0 : nat) (Tcp (N := Sim.net) (5 : nat)) [] (inl 0)). vm_compute. reflexivity.
    - apply step_call, (call_run connected.2 9 blocked.1). vm_compute. reflexivity. }
  split; [exact Hr|]. by apply runner_reachable_wf.
Defined.

Lemma run_fuel_witness :
  9 ≤ 20 ∧ run 9 connected.2 ≠ OutOfFuel ∧ run 20 connected.2 = run 9 connected.2.
Proof.
  assert (match run 9 connected.2 with OutOfFuel => false | _ => true end = true) as Ht
    by (vm_compute; reflexivity).
  assert (run 9 connected.2 ≠ OutOfFuel) as Hr by (intros Hr; rewrite Hr in Ht; discriminate Ht).
  split_and!; [lia|exact Hr|]. apply run_fuel; [lia|exact Hr].
Defined.

(** A fiber gets a child, and a listener starts in the slot that was freed last. *)
Lemma register_spec_witness :
  let s := with_fibers [queued_fiber 3 [42]%Z] in
  let child := new_fiber s 1 0 (Some 1) (Tcp (N := Sim.net) (7 : nat)) (Some [1]%Z) (Some 0) in
  let s' := with_runner s (RunnerInt.set_free (Sys.runner s) [0]) in
  let listener := new_fiber s' 0 1 (Some 1) (Listener (N := Sim.net) (4 : nat)) (Some []) None in
  has_queue s
  ∧ register (Some 1) (Tcp (N := Sim.net) (7 : nat)) (Some [1]%Z) (Some 0) true s =
      Ok (inl 1, Sys.mk (adopt (Some 0) 1 (RunnerInt.push_fiber (Sys.runner s) child))
        (Sys.poller (queued s 1)) (Sys.world s))
  ∧ register (Some 1) (Listener (N := Sim.net) (4 : nat)) (Some []) None true s' =
      Ok (inl 0, Sys.mk (place (Sys.runner s) 0 (FiberInt.set_ready listener readable))
        (Sys.poller (queued s' 0))
        (sim_register (Sys.world s) (EvListener (4 : nat)) (FiberInt.me listener) readable).2).
Proof.
  intros s child s' listener.
  assert (has_queue s) as Hq by (exists []; vm_compute; reflexivity).
  split_and!; [exact Hq|..].
  - apply (register_spec s (Some 1) (Tcp (N := Sim.net) (7 : nat)) (Some [1]%Z) (Some 0) true 1 0 []);
      [reflexivity|by vm_compute|exact Hq|constructor|]. intros q [= <-]. vm_compute. lia.
  - apply (register_spec s' (Some 1) (Listener (N := Sim.net) (4 : nat)) (Some []) None true 0 1 []);
      [reflexivity|by vm_compute|exact Hq| |done]. repeat constructor.
Defined.

(** A running parent with a closed child that left a result, an open child and a
    closed child without a result *)
Definition mother : FiberInt.t :=
  FiberInt.set_children (FiberInt.set_trans (queued_fiber 3 []) (Some Main)) [3; 2; 1].
Definition family : sys :=
  let closed := FiberInt.set_state (queued_fiber 1 []) Closed in
  with_fibers [mother; FiberInt.set_result closed (Some 5%Z);
               queued_fiber 1 []; closed].

Lemma child_iter_spec_witness :
  has_queue family
  ∧ ∃ o s' gone left, child_iter 0 family = Ok (o, s')
    ∧ FiberInt.children <$> fibers_of s' !! 0 = Some left
    ∧ [3; 2; 1] ≡ₚ gone ++ left ∧ Forall (is_closed family) gone
    ∧ RunnerInt.free_fibers (Sys.runner s') = RunnerInt.free_fibers (Sys.runner family) ++ gone
    ∧ iter_result family o s' gone left.
Proof.
  assert (has_queue family) as Hq by (exists []; vm_compute; reflexivity).
  split; [exact Hq|]. apply (child_iter_spec family 0 mother); [reflexivity|reflexivity| | |exact Hq].
  - cbn. set_solver.
  - repeat constructor.
Defined.

(** ... where the closed child with a result is found and freed. *)
Example family_answer :
  match child_iter 0 family with
  | Ok (o, s') => o = Done (ROption (Some 5%Z)) ∧ RunnerInt.free_fibers (Sys.runner s') = [3; 1]
  | _ => False
  end.
Proof. vm_compute. by split. Qed.

(** A fiber that starts gets the first stack. *)
Definition one_stack_made (s : sys) : sys :=
  Sys.mk (Sys.runner s) (Sys.poller s) (set_made (Sys.world s) 1).

Lemma starts_turn n f x : let s := with_fibers [queued_fiber f x] in
  in_turn n 0 s n 1 (table f (Fiber.new 3 0) x)
    (put (one_stack_made s) 0 (started (queued_fiber f x) 0%Z)).
Proof.
  intros s. apply (turn_starts n 0 s (queued_fiber f x) (f : @FiberFn Sim.net prog) x 0%Z (one_stack_made s));
    reflexivity.
Qed.

(** A fiber that returns at once, and one that waited for the main stack while the
    vector moved: its reference points into the first allocation, the fibers are in
    the second. *)
Definition forgotten : FiberInt.t :=
  FiberInt.set_trans (FiberInt.set_stack (FiberInt.set_param (FiberInt.set_state (queued_fiber 7 [])
    Stacked) None) (Some 0%Z)) (Some (Waiting 1 CJoinMain (λ _, Ret (Some 1%Z)))).
Definition moved : sys := with_fibers (forgotten :: replicate 4 (queued_fiber 1 [])).

Lemma turn_completes_witness :
  let s := with_fibers [queued_fiber 1 [42]%Z] in
  let s1 := put (one_stack_made s) 0 (started (queued_fiber 1 [42]%Z) 0%Z) in
  in_turn 1 0 s 1 1 (Ret (Some 42%Z)) s1
  ∧ step_into 2 0 s = Ok (tt, delivered s1 0 (started (queued_fiber 1 [42]%Z) 0%Z) (Some 42%Z) 0%Z)
  ∧ RunnerInt.buffer (Sys.runner moved) = 2 ∧ step_into 2 0 moved = Err UseAfterFree.
Proof.
  intros s s1. pose proof (starts_turn 1 1 [42]%Z) as Hin. split; [exact Hin|]. split.
  { apply (turn_completes 1 0 s 0 1 _ s1 (started (queued_fiber 1 [42]%Z) 0%Z) 0%Z (Some 42%Z) Hin);
      by split_and?. }
  split; [reflexivity|].
  set (f := FiberInt.set_result (FiberInt.set_trans forgotten (Some Main)) None).
  apply (turn_completes 1 0 moved 0 1 (Ret (Some 1%Z)) (put moved 0 f) f 0%Z (Some 1%Z)); [|by split_and?..].
  eapply (turn_resumes 1 0 moved forgotten 1 CJoinMain (λ _, Ret (Some 1%Z)) (ROption None));
    [reflexivity|by eexists|reflexivity|reflexivity].
Defined.

(** A connection's fiber that reads, and then hibernates *)
Definition napping : sys :=
  (value (run 9 (value (new_tcp (5 : nat) 11 [] sys0) (inl tt, sys0)).2) (false, sys0)).2.
Definition data_came : sys :=
  with_world napping (set_inbox (Sys.world napping) [(5, inl [1]%Z)]).
Definition nap (_ : Reply (@R Sim.net prog)) : script := Do CHibernateJoinMain (λ _, Ret None).
Definition reader : FiberInt.t := default (queued_fiber 11 []) (fibers_of data_came !! 0).
Definition has_read : progress * sys :=
  value (call_resumed 3 0 (CRead (replicate 16 0%Z)) (put data_came 0 (FiberInt.set_trans reader None)))
    (Blocked CJoinMain, sys0).
Definition drowsy : FiberInt.t := default reader (fibers_of has_read.2 !! 0).


(** The fiber of a lookup that is in its last tick *)
Definition looking_up : FiberInt.t :=
  FiberInt.set_timed_out (FiberInt.set_wtoken (FiberInt.set_connect_param (queued_fiber 7 [])
    (Some (ConnectParam.mk 80 TcpSocket [97; 46; 98]%Z))) (Some 3%Z)) 1.

Lemma lookup_timeout_stuck_witness :
  let s := with_fibers [looking_up] in
  ∃ s' g', run_timedout 2 0 s = Ok (tt, s')
  ∧ RunnerInt.tomain_fibers (Sys.runner s') = [FiberRef.new 3 0]
  ∧ fibers_of s' !! 0 = Some g' ∧ looks_up g' ∧ (∀ j, run_toexec j 0 s' = Ok (tt, s')).
Proof.
  intros s. set (f := timed_out_lookup looking_up). set (s0 := put s 0 f).
  set (s1 := put (one_stack_made s0) 0 (started f 0%Z)).
  destruct (lookup_timeout_stuck 1 s 0 looking_up 3%Z (ConnectParam.mk 80 TcpSocket [97; 46; 98]%Z)
    0 1 (joiner (Fiber.new 3 0) []) s1 (started f 0%Z)
    (λ r, match r with ROption v => Ret v | _ => Ret None end)) as (_ & _ & Hturn & Hall); [done..|].
  destruct Hturn as (s' & g' & Hrun & Hmain & Hg & Hl & _); [|done..| |].
  - apply (turn_starts 1 0 s0 f (7 : @FiberFn Sim.net prog) [] 0%Z (one_stack_made s0)); reflexivity.
  - split_and!; [by eexists|done|done].
  - exists s', g'. split_and!; [exact Hrun|exact Hmain|exact Hg|exact Hl|]. by apply (Hall s' g' Hg Hl).
Defined.

Lemma resolve_ticks_spec_witness :
  Duration.valid (Duration.from_millis 100000)
  ∧ resolve_ticks (E := Undefined) (Duration.from_millis 100000) = Ok 255%Z.
Proof.
  assert (Duration.valid (Duration.from_millis 100000)) as Hv by (vm_compute; by split).
  split; [exact Hv|]. by rewrite (resolve_ticks_spec _ Hv).
Defined.

Lemma timer_response_witness :
  let f := FiberInt.set_result (FiberInt.set_wtoken (new_fiber sys0 0 0 None Empty None None)
    (Some 3%Z)) (Some 5%Z) in
  let s := with_fibers [f] in
  ∃ s' g, run_timedout 1 0 s = Ok (tt, s')
  ∧ fibers_of s' = <[0 := g]> (fibers_of s)
  ∧ FiberInt.state g = Closed ∧ FiberInt.wtoken g = None ∧ FiberInt.result g = None
  ∧ RunnerInt.results (Sys.runner s') = [5]%Z
  ∧ RunnerInt.free_fibers (Sys.runner s') = [0]
  ∧ Sys.poller s' = Sys.poller s ∧ Sys.world s' = Sys.world s.
Proof. intros f s. by apply (timer_response 0 s 0 f 3%Z 5%Z). Defined.

(** What is seen of the result of a computation, without computing the rest *)
Definition seen {E A B : Type} (o : outcome E A) (f : A → B) : option B :=
  match o with Ok a => Some (f a) | _ => None end.

Lemma seen_Ok {E A B : Type} (o : outcome E A) (f : A → B) b :
  seen o f = Some b → ∃ a, o = Ok a ∧ f a = b.
Proof. destruct o as [a|e| |]; [|done..]. intros [= <-]. by exists a. Qed.

Definition signal_and_results (x : bool * sys) : bool * list Z :=
  (x.1, RunnerInt.results (Sys.runner x.2)).

(** Two fibers that answer are queued; their turns are served in that order. *)
Lemma run_in_order_witness :
  let s := (value ((_ ← new_tcp (5 : nat) 1 [8]%Z; new_tcp (6 : nat) 1 [9]%Z) sys0) (inl tt, sys0)).2 in
  ∃ s', run 9 s = Ok (true, s') ∧ RunnerInt.results (Sys.runner s') = [8; 9]%Z
  ∧ ∃ more s1, serves pop_toexec run_toexec 9 ([0; 1] ++ more) s s1.
Proof.
  intros s.
  destruct (seen_Ok (run 9 s) signal_and_results (true, [8; 9]%Z)) as ([b s'] & Hrun & Hs');
    [vm_compute; reflexivity|]. injection Hs' as -> Hs'.
  exists s'. split_and!; [exact Hrun|exact Hs'|].
  destruct (run_in_order 9 s true s' Hrun) as (more & s1 & s2 & H & _).
  exists more, s1. exact H.
Defined.

(** A runner 0 whose fiber 4 waits to be started, and whose fiber 71 is a response
    timer, on a wheel where the timer is armed for the third tick *)
Definition timer_sys : sys :=
  let s := Sys.mk (RunnerInt.new 0)
    (PollerInt.mk (replicate RUNNERS []) (replicate RUNNERS []) (replicate RUNNERS []) None []
       wheel2 (Dns.mk []) : PollerInt.t slab Z) world0 in
  let answers i := new_fiber s i 0 (Some 1) Empty (Some [9]%Z) None in
  let timer := FiberInt.set_result (FiberInt.set_wtoken
    (new_fiber s 71 0 None Empty None None) (Some 0%Z)) (Some 5%Z) in
  with_runner s (foldl RunnerInt.push_fiber (Sys.runner s) ((answers <$> seq 0 71) ++ [timer])).

Lemma timer_sys_ok : poller_ok (Sys.poller timer_sys).
Proof. destruct wheel2_poller_ok. by split. Qed.

(** The poller reports the fiber 4 and the timer; the run resumes both. *)
Lemma poll_then_run_witness :
  ∃ (fired : list Task) b p', PollerInt.poll (Sys.poller timer_sys) (Some [Poller.fiber_id 0 4]) (ms 700) []
    = Ok (b, p')
  ∧ (∀ task, task ∈ fired ↔ ∃ t k, status wheel2 t = Armed task k ∧ (k ≤ tick_of wheel2 (ms 700))%Z)
  ∧ ∃ s', run 9 (with_poller timer_sys p') = Ok (true, s')
    ∧ RunnerInt.results (Sys.runner s') = [9; 5]%Z
    ∧ ∃ more s1, serves pop_toexec run_toexec 9 ([4] ++ more) (with_poller timer_sys p') s1.
Proof.
  destruct (poll_then_run timer_sys [Poller.fiber_id 0 4] (ms 700) [] timer_sys_ok)
    as (fired & b & p' & Hp & Hfired & Hrun).
  - by split.
  - by split.
  - constructor; [|constructor]. unfold routable. vm_compute. lia.
  - constructor.
  - exists fired, b, p'. split_and!; [exact Hp|exact Hfired|].
    vm_compute in Hp. injection Hp as <- <-.
    set (s0 := with_poller timer_sys _) in Hrun |- *.
    destruct (seen_Ok (run 9 s0) signal_and_results (true, [9; 5]%Z)) as ([c s'] & H & Hs');
      [vm_compute; reflexivity|]. injection Hs' as -> Hs'.
    exists s'. split_and!; [exact H|exact Hs'|].
    destruct (Hrun 9 true s' H) as (more & s1 & s2 & Hs & _). exists more, s1. exact Hs.
Defined.

(** The echo server's connection waits for data: its timer fires, or its socket is
    signalled. *)
Definition echo_reply (r : Reply Z) : script :=
  match r with
  | RRead (inl n) buf => Do (CWrite (take n buf)) (λ _, Ret (Some (Z.of_nat n)))
  | RRead (inr e) _ =>
    Ret (Some (if decide (IoError.kind e = TimedOut) then -1 else -2)%Z)
  | _ => Ret None
  end.
Definition connection : FiberInt.t :=
  default (queued_fiber 0 []) (fibers_of blocked.2 !! 0).

Lemma blocked_io_resumes_witness :
  let buf := replicate 16 0%Z in
  ∃ tk, FiberInt.wtoken connection = Some tk
  ∧ run_timedout 4 0 blocked.2 =
      goes_on 3 0 1 (mret (Done (RRead (fail TimedOut "read timeout") buf))) echo_reply
        (put blocked.2 0 (awake connection))
  ∧ ∀ s1, timer_cancel tk blocked.2 = Ok (tt, s1) →
      run_toexec 4 0 blocked.2 =
        goes_on 3 0 1 (call_method 3 0 (CRead buf)) echo_reply (put s1 0 (awake connection)).
Proof.
  intros buf. exists 0%Z.
  assert (FiberInt.wtoken connection = Some 0%Z) as Hw by (vm_compute; reflexivity).
  split; [exact Hw|].
  apply (blocked_io_resumes 3 blocked.2 0 connection 0%Z 1 (CRead buf) echo_reply
    (RRead (fail TimedOut "read timeout") buf)).
  - vm_compute. reflexivity.
  - exists 0. vm_compute. reflexivity.
  - vm_compute. reflexivity.
  - reflexivity.
  - vm_compute. reflexivity.
  - exact Hw.
  - vm_compute. reflexivity.
Defined.

(** A connection that waits in its handshake *)
Definition securing : bool * sys :=
  value (run 9 (value (new_tcp (5 : nat) 10 [] sys0) (inl tt, sys0)).2) (false, sys0).
Definition handshaking : FiberInt.t := default (queued_fiber 10 []) (fibers_of securing.2 !! 0).

Lemma blocked_tls_resumes_witness :
  ∃ tk, FiberInt.wtoken handshaking = Some tk
  ∧ run_timedout 4 0 securing.2 =
      goes_on 3 0 1 (mret (Done (RIoUnit (fail TimedOut "write timeout")))) after_handshake
        (put securing.2 0 (awake handshaking))
  ∧ ∀ s1, timer_cancel tk securing.2 = Ok (tt, s1) →
      run_toexec 4 0 securing.2 =
        goes_on 3 0 1 (mret (Done (RIoUnit (inl tt)))) after_handshake
          (put (with_world s1 (Sys.world s1)) 0
            (FiberInt.set_sock (awake handshaking) (Tls (5 : nat)))).
Proof.
  exists 0%Z. assert (FiberInt.wtoken handshaking = Some 0%Z) as Hw by (vm_compute; reflexivity).
  split; [exact Hw|].
  destruct (blocked_tls_resumes 3 securing.2 0 handshaking 0%Z 1 (CTlsConnect (tt : @TlsConnector Sim.net) []) after_handshake (5 : nat))
    as [Ht Hs].
  - vm_compute. reflexivity.
  - exists 10. vm_compute. reflexivity.
  - vm_compute. reflexivity.
  - reflexivity.
  - vm_compute. reflexivity.
  - exact Hw.
  - vm_compute. reflexivity.
  - vm_compute. reflexivity.
  - split; [exact Ht|]. intros s1 Htk. exact (Hs s1 _ _ Htk eq_refl).
Defined.

