(* ===== verification/SessionExamples.v ===== *)
(** * A server in service

    An instance of the theorem of RunnerSession, on the simulated network: a listener
    whose fiber accepts connections and starts an echo fiber for each. *)
From stdpp Require Import strings.
From S2P Require Import Prelude Clock TimerConfig Slab Wheel WheelInv WheelSpec WheelProps.
From S2P Require Import ByteOrder StdText Resolver Poller PollerProps Routing Fiber Runner Sim.
From S2P Require Import RunnerInv RunnerTurn RunnerEval RunnerOrder RunnerSafe RunnerExamples.
From S2P Require Import RunnerSession.
Local Open Scope nat_scope.
Local Open Scope list_scope.

Import Sim.

(** Accepts [n] connections. *)
Fixpoint server (n : nat) : script :=
  match n with
  | 0 => Ret None
  | S n =>
    Do CAcceptTcp (λ r,
      match r with
      | RAccept (inl (tcp, _)) => Do (CNewTcp (tcp : nat) 0 []) (λ _, server n)
      | _ => server n
      end)
  end.

Definition services (f : nat) (h : Fiber.t) (x : list Z) : script :=
  match f with 0 => echo h x | n => server n end.

#[local] Instance server_prog : Program := Sim.program services.
Abbreviation sys := (Sys.t slab).

(** ** The fibers serve sockets *)
Definition delay : Z := Duration.from_millis 20000.

Inductive plain : script → Prop :=
| plain_ret r : plain (Ret r)
| plain_do c k : allowed delay c = true → (∀ r, plain (k r)) → plain (Do c k).

Lemma server_plain n : plain (server n).
Proof.
  induction n as [|n IH]; cbn; constructor; [done|]. intros [| |[[tcp ?]|]| | | |]; try exact IH.
  constructor; [done|]. by intros.
Qed.

Lemma services_plain : serves_sockets delay true plain.
Proof.
  split.
  - intros [|f] h x; [|apply server_plain]. repeat (constructor; [done|]). intros r.
    destruct r as [| | | |[n|e] ?| |]; try constructor; [done|]. by constructor.
  - intros code c k Hc. destruct Hc; [done|]. cbn. intros [= <- <-]. by split_and!.
Qed.

Lemma clock_bounded (w : Sim.world) : (0 ≤ (now (Net := Sim.net) w).1 ≤ 2 ^ 59)%Z.
Proof. pose proof (low_bits_bound 59 (Sim.clock w)). cbn [now Sim.net fst]. lia. Qed.

(** ** A session *)
Definition listening : io nat * sys :=
  value (register (Some 2) (Listener (N := Sim.net) (4 : nat)) (Some []) None true
    (Sys.mk (RunnerInt.new 3) poller0 world0)) (inl 0, Sys.mk (RunnerInt.new 3) poller0 world0).
Definition accepting : bool * sys := value (run 9 listening.2) (false, listening.2).
(** A connection is pending, which the poller reports. *)
Definition called : sys :=
  Sys.mk (Sys.runner accepting.2) (Sys.poller accepting.2)
    (set_pending (Sys.world accepting.2) [(4, inl 5)]).
Definition signalled : bool * PollerInt.t slab Z :=
  value (PollerInt.poll (Sys.poller called) (Some [Poller.fiber_id 3 0]) 7 [])
    (false, Sys.poller called).
Definition woken_up : sys := with_poller called signalled.2.

Lemma poller0_hosts bt : (Z.of_nat bt ≤ 4194304)%Z → hosts 0 (2 ^ 59) delay 3 bt 0 poller0.
Proof.
  intros Hbt. destruct (new_poller (S := slab) (Stack := Stack) None None 0) as (p & Hp & Hok & Hst & Htick & Ht).
  { by split. }
  change (PollerInt.new (S := slab) (Stack := Z) None None 0 = Ok p) in Hp.
  rewrite new_poller0 in Hp. injection Hp as <-.
  destruct (Ht (2 ^ 31)%Z bt) as [_ _ Hcur Hroom]; [lia|exact Hbt|].
  destruct (new_live (entry_ok 3 (others 3) 0) _ _ _ _ new_poller0) as [].
  assert (tick_of (PollerInt.wheel (Stack := Stack) poller0) (2 ^ 59 + delay) = 2305843089)%Z as Htick'.
  { unfold tick_of. rewrite Hst, Htick. vm_compute. reflexivity. }
  split; [by split_and!| |by intros ? [=]|by split; [..|intros _]].
  split; [apply Hok|by rewrite Hst|rewrite Hst; by vm_compute|by rewrite Htick'| |exact Hroom].
  rewrite Htick'. by vm_compute.
Qed.

Lemma session_listening : session 0 (2 ^ 59) delay true 3 36 324 listening.2.
Proof.
  eapply session_start; [apply session_new|..].
  - by apply poller0_hosts.
  - by vm_compute.
  - unfold RUNNERS. lia.
  - done.
  - done.
  - apply (returned _ (inl 0)). by vm_compute.
Qed.

Lemma session_accepting : session 0 (2 ^ 59) delay true 3 18 162 accepting.2.
Proof.
  eapply (session_run _ _ _ _ _ 18 162 9); [apply session_listening|].
  apply (returned _ false). by vm_compute.
Qed.

(** The listener's fiber waits for a connection; what the poller reports is its. *)
Lemma called_reports : reports 3 called [Poller.fiber_id 3 0].
Proof.
  split.
  - apply NoDup_singleton.
  - intros e ->%list_elem_of_singleton. exists 3, 0. unfold RUNNERS. by split; [|lia].
  - intros i Hi%list_elem_of_singleton Hb.
    assert (PollerInt.split_id (Poller.fiber_id 3 (Z.of_nat i)) = PollerInt.split_id (Poller.fiber_id 3 0))
      as Hs by (f_equal; exact Hi).
    rewrite !split_id_fiber_id in Hs by lia. injection Hs as Hs. assert (i = 0) as -> by lia.
    assert (toexec called = []) as -> by (vm_compute; reflexivity).
    assert (FiberInt.state <$> fibers_of called !! 0 = Some Stacked) as (f & Hf & Hst)%fmap_Some
      by (vm_compute; reflexivity).
    split; [apply not_elem_of_nil|]. exists f. split; [exact Hf|by symmetry].
Qed.

Lemma session_woken_up : session 0 (2 ^ 59) delay true 3 18 162 woken_up.
Proof.
  eapply (session_poll _ _ _ _ _ _ _ called 7).
  - apply session_world, session_accepting.
  - by split.
  - exact called_reports.
  - by constructor.
  - apply (returned _ true). by vm_compute.
Qed.

(** When the poller has reported the connection, the run that accepts it returns,
    with the listener's fiber and the connection's waiting. *)
Lemma session_never_panics_witness : session 0 (2 ^ 59) delay true 3 18 162 woken_up
  ∧ run 9 woken_up ≠ Panic
  ∧ match run 9 woken_up with
    | Ok (b, s) => FiberInt.state <$> fibers_of s = [Stacked; Stacked]
    | _ => False
    end.
Proof.
  split; [exact session_woken_up|]. split; [|vm_compute; reflexivity].
  destruct (session_never_panics 0 (2 ^ 59) delay true (plain : Code (Program := server_prog) → Prop) 3
    clock_bounded ltac:(done) services_plain 18 162 woken_up session_woken_up) as (Hrun & _ & _).
  apply (Hrun 9); lia.
Defined.

(** ** Through a dangling reference

    The same server, when four connections come: its fiber starts a fiber for each,
    the vector of the fibers moves for the last one, and the server's fiber returns. *)
Definition crowded (n : nat) : sys :=
  let s := value (register (Some n) (Listener (N := Sim.net) (4 : nat)) (Some []) None true
    (Sys.mk (RunnerInt.new 3) poller0 world0)) (inl 0, Sys.mk (RunnerInt.new 3) poller0 world0) in
  Sys.mk (Sys.runner s.2) (Sys.poller s.2)
    (set_pending (Sys.world s.2) ((λ h, (4, inl h)) <$> seq 5 n)).

Example server_dangles : run 20 (crowded 4) = Err UseAfterFree
  ∧ match run 20 (crowded 3) with
    | Ok (_, s) => FiberInt.state <$> fibers_of s = [Closed; Stacked; Stacked; Stacked]
    | _ => False
    end.
Proof. vm_compute. by split. Qed.

(** ** Connections that the main stack starts

    Fibers that start no others have no use for dangling references. *)
Section quiet.
#[local] Instance echo_prog : Program := Sim.program (λ _, echo).

Inductive plain_echo : script → Prop :=
| echo_ret r : plain_echo (Ret r)
| echo_do c k : allowed delay c = true → starts c = false → (∀ r, plain_echo (k r)) →
    plain_echo (Do c k).

Lemma echo_plain : serves_sockets (Pr := echo_prog) delay false plain_echo.
Proof.
  split.
  - intros f h x. repeat (constructor; [done|done|]). intros r.
    destruct r as [| | | |[n|e] ?| |]; try constructor; [done|done|]. by constructor.
  - intros code c k Hc. destruct Hc as [|c' k' Ha Hs Hk]; [done|]. cbn. intros [= <- <-].
    split_and!; [done|by rewrite Hs|done].
Qed.

Definition opened : io nat * Sys.t slab :=
  value (register (Pr := echo_prog) (Some 0) (Tcp (N := Sim.net) (5 : nat)) (Some []) None true
    (Sys.mk (RunnerInt.new 3) poller0 world0)) (inl 0, Sys.mk (RunnerInt.new 3) poller0 world0).

Lemma session_opened :
  session (Pr := echo_prog) 0 (2 ^ 59) delay false 3 36 324 opened.2.
Proof.
  eapply session_start; [apply session_new|..].
  - by apply poller0_hosts.
  - by vm_compute.
  - unfold RUNNERS. lia.
  - done.
  - intros _. right. right. intros i f Hi. discriminate Hi.
  - apply (returned _ (inl 0)). by vm_compute.
Qed.

Lemma opened_is_safe : run 9 opened.2 ≠ Panic ∧ run 9 opened.2 ≠ Err UseAfterFree.
Proof.
  destruct (session_in_service (Pr := echo_prog) 0 (2 ^ 59) delay false plain_echo 3 clock_bounded
    ltac:(done) echo_plain 36 324 opened.2 session_opened) as [[h Hg] _].
  pose proof (wp_run (Pr := echo_prog) 0 (2 ^ 59) delay false plain_echo h clock_bounded ltac:(done)
    echo_plain 9 18 162 opened.2 Hg) as Hwp.
  split; [by eapply wp_no_panic|by eapply wp_valid].
Qed.
End quiet.
