(* ===== verification/Thread.v ===== *)
(** * A thread (src/src/poller.rs, runner.rs and tls.c together)

    A thread has a slot for its poller and a table of runners, which all use that
    poller.  A method of a [Runner] finds its state through the table, and the
    poller through its slot; [on_runner] does both, and stops where the pointer
    would be null (the code dereferences it).  What the poller holds can outlive a
    runner: the reachable states ([reachable]) come with the numbers of fibers that
    the dropped runners had. *)
From stdpp Require Import strings relations.
From S2P Require Import Prelude Clock Slab Wheel ByteOrder StdText Resolver Poller.
From S2P Require Import PollerProps Routing Fiber Runner RunnerEval RunnerInv RunnerTurn RunnerOrder.
Local Open Scope nat_scope.
Local Open Scope list_scope.

Module Thread.
Record t {N : Net} {Pr : Program} (S : Type) := mk {
  poller : option (PollerInt.t S Stack);
  runners : list (option RunnerInt.t);
  world : W
}.
Arguments mk {N Pr S} _ _ _.
Arguments poller {N Pr S} _.
Arguments runners {N Pr S} _.
Arguments world {N Pr S} _.

Section ops.
Context {N : Net} {Pr : Program} {Sl : Type} {SO : SlabOps Entry.t Sl}.
Implicit Types (th : t Sl).

(** The thread-local variables before their first use *)
Definition start (w : W) : t Sl := mk None (replicate RUNNERS None) w.

(** [Poller::new], [Poller::poll] and the end of a [Poller] *)
Definition new_poller th (stack_size : option Z) (file : option (list Z)) (now : Z)
    : outcome Empty_set (bool * t Sl) :=
  '(b, p) ← Poller.new (poller th) stack_size file now;
  Ok (b, mk p (runners th) (world th)).
Definition poll th (ready : option (list Z)) (now : Z) (results : list (Z * Z * IpAddr))
    : outcome Empty_set (bool * t Sl) :=
  '(b, p) ← Poller.poll (poller th) ready now results;
  Ok (b, mk p (runners th) (world th)).
Definition drop_poller th : t Sl := mk (Poller.drop (poller th)) (runners th) (world th).

(** The fields of a [RunnerInt] are dropped in their order, [fibers] before
    [tomain_fibers]; dropping a [FiberRef] that was not resumed uses its fiber. *)
Definition drop_refs (refs : list FiberRef.t) : outcome Undefined unit :=
  if forallb FiberRef.resumed refs then Ok tt else Err UseAfterFree.

(** [Runner::new] and the end of a [Runner] *)
Definition new_runner th : outcome Empty_set (io nat * t Sl) :=
  '(r, rs) ← Slots.start_runner (bool_decide (is_Some (poller th))) (runners th);
  Ok (r, mk (poller th) rs (world th)).
Definition drop_runner th (pos : nat) : outcome Undefined (t Sl) :=
  slot ← index (runners th) pos;
  r ← expect slot;
  drop_refs (RunnerInt.tomain_fibers r);;
  rs ← store (runners th) pos None;
  Ok (mk (poller th) rs (world th)).

(** [runner::<P, R>(pos)] and a method of it *)
Definition sys_of th (pos : nat) : outcome Undefined (Sys.t Sl) :=
  slot ← index (runners th) pos;
  r ← expect slot;
  p ← expect (poller th);
  Ok (Sys.mk r p (world th)).
Definition put_back th (pos : nat) (s : Sys.t Sl) : outcome Undefined (t Sl) :=
  rs ← Slots.set_runner (runners th) pos (Some (Sys.runner s));
  Ok (mk (Some (Sys.poller s)) rs (Sys.world s)).
Definition on_runner {A} (pos : nat) (m : Run (Sys.t Sl) A) : Run (t Sl) A := λ th,
  s ← sys_of th pos;
  '(a, s) ← m s;
  th ← put_back th pos s;
  Ok (a, th).
End ops.
End Thread.

(** ** What the poller holds names fibers *)
Section reach.
Context {N : Net} {Pr : Program} {Sl : Type} {SO : SlabOps Entry.t Sl} {SL : SlabLaws Entry.t Sl}.
Context {BE : BigEndian}.
Implicit Types (th : Thread.t Sl) (s : Sys.t Sl) (p : PollerInt.t Sl Stack).
Import Thread.

(** The runner [r] exists and has a fiber at [x]. *)
Definition live th (r : nat) (x : Z) : Prop :=
  ∃ ru, runners th !! r = Some (Some ru) ∧ pos_ok (length (RunnerInt.fibers ru)) x.

(** What the poller may name: such a fiber, or one of a runner that was dropped.
    [past r] is the largest number of fibers that a runner dropped from the slot [r]
    had. *)
Definition named (past : nat → nat) th (r : nat) (x : Z) : Prop := live th r x ∨ pos_ok (past r) x.

(** The runner [ru] is dropped from the slot [pos]. *)
Definition bury (past : nat → nat) (pos : nat) (ru : RunnerInt.t) (r : nat) : nat :=
  if decide (r = pos) then past r `max` length (RunnerInt.fibers ru) else past r.

(** What can happen on a thread.  [mio] reports, and a lookup answers, what a fiber
    was registered or asked with, whether or not its runner still exists; and a
    runner has no more than 2{^32} fibers. *)
Inductive step past th : (nat → nat) → Thread.t Sl → Prop :=
| step_new_poller size file now b th' :
    new_poller th size file now = Ok (b, th') → step past th past th'
| step_drop_poller : step past th past (drop_poller th)
| step_poll ready now results b th' :
    (∀ events, ready = Some events → Forall (live_id (named past th)) events) →
    Forall (λ x, live_id (named past th) x.1.1) results →
    poll th ready now results = Ok (b, th') → step past th past th'
| step_new_runner r th' : new_runner th = Ok (r, th') → step past th past th'
| step_drop_runner pos ru th' : runners th !! pos = Some (Some ru) →
    drop_runner th pos = Ok th' → step past th (bury past pos ru) th'
| step_call pos s s' th' :
    sys_of th pos = Ok s → call s s' → (Z.of_nat (fibers_of s') ≤ 2 ^ 32)%Z →
    put_back th pos s' = Ok th' → step past th past th'
| step_world w : step past th past (mk (poller th) (runners th) w).

Inductive reachable : (nat → nat) → Thread.t Sl → Prop :=
| reach_start w : reachable (λ _, 0) (start w)
| reach_step past th past' th' : reachable past th → step past th past' th' → reachable past' th'.

(** The runner in the slot [i]: the parts of its invariant that do not depend on
    the poller *)
Record calm (i : nat) (ru : RunnerInt.t) : Prop := {
  calm_pos : RunnerInt.pos ru = Z.of_nat i;
  calm_few : (Z.of_nat (length (RunnerInt.fibers ru)) ≤ 2 ^ 32)%Z;
  calm_free : Forall (λ j, j < length (RunnerInt.fibers ru)) (RunnerInt.free_fibers ru);
  calm_main : Forall (λ r, FiberRef.id r < length (RunnerInt.fibers ru))
                (RunnerInt.tomain_fibers ru);
  calm_fibers : ∀ j f, RunnerInt.fibers ru !! j = Some f →
    fiber_ok (Z.of_nat i) (length (RunnerInt.fibers ru)) j f ∧ rest f
}.

Record wf past th : Prop := {
  wf_slots : length (runners th) = RUNNERS;
  wf_runners : ∀ i ru, runners th !! i = Some (Some ru) → calm i ru;
  wf_poller : ∀ p, poller th = Some p → poller_live (named past th) p
}.

Lemma runner_wf_calm i O s : (Z.of_nat (fibers_of s) ≤ 2 ^ 32)%Z → runner_wf (Z.of_nat i) O s →
  calm i (Sys.runner s) ∧ names_ok (Z.of_nat i) O (fibers_of s) (Sys.poller s).
Proof. intros ? []. split; [|assumption]. split; assumption. Qed.

Lemma calm_runner_wf i O s : calm i (Sys.runner s) →
  names_ok (Z.of_nat i) O (fibers_of s) (Sys.poller s) → runner_wf (Z.of_nat i) O s.
Proof. intros [] ?. split; try assumption. done. Qed.

Lemma sys_of_Ok th pos s : sys_of th pos = Ok s ↔
  runners th !! pos = Some (Some (Sys.runner s)) ∧ poller th = Some (Sys.poller s)
  ∧ world th = Sys.world s.
Proof.
  unfold sys_of. split.
  - intros (slot & Hs%index_Ok & (r & ->%expect_Ok & (p & Hp%expect_Ok & [= <-])%bind_Ok)%bind_Ok)%bind_Ok.
    done.
  - intros (Hr & Hp & Hw). rewrite (proj2 (index_Ok _ _ _) Hr). mstep. rewrite Hp, Hw. mstep.
    by destruct s.
Qed.

Lemma put_back_Ok th pos s th' : put_back th pos s = Ok th' →
  th' = mk (Some (Sys.poller s)) (<[pos := Some (Sys.runner s)]> (runners th)) (Sys.world s)
  ∧ pos < length (runners th).
Proof.
  intros (rs & Hrs & [= <-])%bind_Ok. unfold Slots.set_runner, store in Hrs.
  case_decide; [|done]. by injection Hrs as <-.
Qed.

(** What the poller names, seen from the runner [pos]: its own fibers, and others *)
Definition elsewhere past th (pos r : nat) (x : Z) : Prop :=
  r ≠ pos ∧ live th r x ∨ pos_ok (past r) x.

Lemma live_names past th pos s : sys_of th pos = Ok s →
  poller_live (named past th) (Sys.poller s) →
  names_ok (Z.of_nat pos) (elsewhere past th pos) (fibers_of s) (Sys.poller s).
Proof.
  intros (Hr & _)%sys_of_Ok Hp.
  assert (∀ r x, named past th r x → entry_ok (Z.of_nat pos) (elsewhere past th pos) (fibers_of s) r x)
    as Hl.
  { intros r x [Hx|Hx]; [|by right; right]. unfold entry_ok, elsewhere. rewrite Nat2Z.id.
    destruct (decide (r = pos)) as [->|Hne]; [left|by right; left]. split; [done|].
    destruct Hx as (ru & Hru & Hx). rewrite Hr in Hru. by injection Hru as <-. }
  apply (poller_live_mono _ _ _ Hl) in Hp as []. split; [assumption..|]. intros _. assumption.
Qed.

Lemma names_live past th pos s' : pos < length (runners th) → pos < RUNNERS →
  (Z.of_nat (fibers_of s') ≤ 2 ^ 32)%Z →
  names_ok (Z.of_nat pos) (elsewhere past th pos) (fibers_of s') (Sys.poller s') →
  poller_live (named past (mk (Some (Sys.poller s')) (<[pos := Some (Sys.runner s')]> (runners th))
    (Sys.world s'))) (Sys.poller s').
Proof.
  intros Hlen Hpos Hn [].
  eapply (poller_live_mono (entry_ok (Z.of_nat pos) (elsewhere past th pos) (fibers_of s'))).
  - intros r x [[Hr Hx]|[[Hne (ru & Hru & Hx)]|Hx]]; [left|left|by right].
    + rewrite Nat2Z.id in Hr. subst. exists (Sys.runner s').
      cbn. rewrite list_lookup_insert_eq by exact Hlen. by split; [|exact Hx].
    + exists ru. cbn. rewrite list_lookup_insert_ne by congruence. by split; [|exact Hx].
  - split; [assumption..|]. apply ok_tasks. unfold few, RUNNERS in *. lia.
Qed.

(** ** Each step *)
Lemma find_empty_from_spec (rs : list (option RunnerInt.t)) i k :
  Slots.find_empty_from rs i = Some k →
  i ≤ k ∧ rs !! (k - i) = Some None ∧ ∀ j, j < k - i → ∃ ru, rs !! j = Some (Some ru).
Proof.
  revert i. induction rs as [|[ru|] rs IH]; intros i H; [done| |].
  - apply IH in H as (? & Hk & Hj). replace (k - i) with (S (k - (i + 1))) by lia.
    split_and!; [lia|done|]. intros [|j] Hlt; [by exists ru|]. apply Hj. lia.
  - injection H as ->. rewrite Nat.sub_diag. split_and!; [lia|done|lia].
Qed.

Lemma new_runner_Ok th r th' : new_runner th = Ok (r, th') →
  th' = th ∨ ∃ k, r = inl k ∧ runners th !! k = Some None ∧ is_Some (poller th)
    ∧ th' = mk (poller th) (<[k := Some (RunnerInt.new (Z.of_nat k))]> (runners th)) (world th).
Proof.
  intros ([r' rs] & Hr & [= <- <-])%bind_Ok. unfold Slots.start_runner in Hr.
  destruct (bool_decide _) eqn:Hp; cbn [negb] in Hr; [|injection Hr as <- <-; left; by destruct th].
  apply bool_decide_eq_true in Hp. destruct (Slots.find_empty _) as [k|] eqn:Hk;
    [|injection Hr as <- <-; left; by destruct th].
  right. exists k. apply bind_Ok in Hr as (rs' & Hs & [= <- <-]).
  apply find_empty_from_spec in Hk as (_ & Hk & _). rewrite Nat.sub_0_r in Hk.
  unfold Slots.set_runner, store in Hs. case_decide; [|done]. by injection Hs as <-.
Qed.

Lemma new_calm k : calm k (RunnerInt.new (Z.of_nat k)).
Proof. by split. Qed.

Lemma wf_start w : wf (λ _, 0) (start w).
Proof.
  split; [apply length_replicate| |done].
  intros i ru Hi. by apply (lookup_replicate RUNNERS) in Hi as [? _].
Qed.

(** A table in which one entry changes *)
Lemma wf_insert past past' th pos o po w : wf past th → (∀ ru, o = Some ru → calm pos ru) →
  (∀ q, po = Some q → poller_live (named past' (mk po (<[pos := o]> (runners th)) w)) q) →
  wf past' (mk po (<[pos := o]> (runners th)) w).
Proof.
  intros [Hlen Hr _] Ho Hp. split; cbn; [by rewrite length_insert| |exact Hp].
  intros i ru [(<- & Ho' & _)|[_ Hi]]%list_lookup_insert_Some; [by apply Ho|by apply Hr].
Qed.

Lemma named_other past th pos o po w r x : r ≠ pos →
  named past th r x → named past (mk po (<[pos := o]> (runners th)) w) r x.
Proof.
  intros Hne [(ru & Hru & Hx)|Hx]; [left|by right]. exists ru. cbn.
  rewrite list_lookup_insert_ne by congruence. by split; [|exact Hx].
Qed.

(** The fibers of a runner that is dropped become names of the past. *)
Lemma named_buried past th pos ru po w r x : runners th !! pos = Some (Some ru) →
  named past th r x → named (bury past pos ru) (mk po (<[pos := None]> (runners th)) w) r x.
Proof.
  intros Hru Hx. destruct (decide (r = pos)) as [->|Hne].
  - right. unfold bury, pos_ok. rewrite decide_True by done.
    destruct Hx as [(ru' & Hru' & Hx)|Hx]; unfold pos_ok in Hx; [|lia].
    rewrite Hru in Hru'. injection Hru' as <-. lia.
  - apply (named_other _ _ pos None po w) in Hx; [|done]. destruct Hx as [Hx|Hx]; [by left|].
    right. unfold bury. by rewrite decide_False.
Qed.

Lemma thread_step_wf past th past' th' : step past th past' th' → wf past th → wf past' th'.
Proof.
  intros Hstep Hwf. pose proof Hwf as [Hlen Hr Hp].
  destruct Hstep as [size file now b th' H| |ready now results b th' He Hres H|r th' H
    |pos ru th' Hru H|pos s s' th' Hs Hc Hn H|w].
  - apply bind_Ok in H as ([b' p] & H & [= <- <-]). split; [done..|]. cbn. intros q ->.
    unfold Poller.new in H. destruct (poller th) as [p0|]; [injection H as _ <-; by apply Hp|].
    apply bind_Ok in H as (p1 & H & [= _ <-]). by eapply new_live.
  - by split.
  - apply bind_Ok in H as ([b' p] & H & [= <- <-]). split; [done..|]. cbn. intros q ->.
    apply bind_Ok in H as (p0 & Hp0%expect_Ok & H). apply bind_Ok in H as ([b0 p1] & H & [= _ <-]).
    eapply poll_live; [exact H|exact He|exact Hres|by apply Hp].
  - apply new_runner_Ok in H as [->|(k & _ & Hk & _ & ->)]; [done|].
    eapply wf_insert; [done|intros ru [= <-]; apply new_calm|]. intros q Hq.
    eapply poller_live_mono; [|by apply Hp]. intros i x [(ru & Hru & Hx)|Hx]; [left|by right].
    exists ru. cbn. rewrite list_lookup_insert_ne by congruence. by split; [|exact Hx].
  - apply bind_Ok in H as (slot & _ & H). apply bind_Ok in H as (ru0 & _ & H).
    apply bind_Ok in H as ([] & _ & H). apply bind_Ok in H as (rs & H & [= <-]).
    unfold store in H. case_decide; [|done]. injection H as <-. eapply wf_insert; [done..|].
    intros q Hq. eapply poller_live_mono; [|by apply Hp]. intros i x. by apply named_buried.
  - apply put_back_Ok in H as [-> Hpos]. pose proof Hs as (Hru & Hpo & _)%sys_of_Ok.
    destruct (runner_wf_calm pos (elsewhere past th pos) s') as [Hcalm Hnames]; [done|..].
    { eapply call_wf; [exact Hc|]. apply calm_runner_wf; [by apply Hr|].
      apply live_names; [done|by apply Hp]. }
    eapply wf_insert; [done|by intros ru [= <-]|]. intros q [= <-].
    apply names_live; [done|by rewrite <- Hlen|done..].
  - split; [done..|]. intros p Hpp. by apply Hp.
Qed.

Lemma reachable_wf past th : reachable past th → wf past th.
Proof.
  induction 1 as [w|past th past' th' _ IH Hstep]; [apply wf_start|]. by eapply thread_step_wf.
Qed.

(** C5. Several runners on one thread.  Whatever a thread has done ([reachable]),
    every fiber identifier in the poller's queues, every identifier that a timer on
    the wheel was set for, and so every one that a later [poll] will queue, names a
    slot of the thread's table and in it the position of a fiber: of the runner that
    is there, or else of one that was dropped from there ([past] remembers how many
    fibers those had), since dropping a runner takes nothing out of the poller.  And
    each runner that exists is at rest ([calm]), whatever stale names there are: its
    positions are fibers, each fiber knows its runner and its identifier, and stacks
    and contexts go together.  No runner can spoil this for another. *)
Theorem thread_reachable_wf past th : reachable past th → wf past th.
Proof. apply reachable_wf. Qed.

Lemma fiber_id_usize (i j : nat) : i < RUNNERS → (Z.of_nat j < 2 ^ 32)%Z →
  (0 ≤ Poller.fiber_id (Z.of_nat i) (Z.of_nat j) ≤ U64_MAX)%Z.
Proof.
  unfold RUNNERS, Poller.fiber_id, U64_MAX. intros Hi Hj.
  pose proof (Z.add_lor_land (Z.of_nat j) (Z.shiftl (Z.of_nat i) 40)).
  assert (0 ≤ Z.land (Z.of_nat j) (Z.shiftl (Z.of_nat i) 40))%Z by (apply Z.land_nonneg; lia).
  rewrite Z.lor_nonneg, Z.shiftl_nonneg, Z.shiftl_mul_pow2 in * by lia. lia.
Qed.

(** C20. The integers of a fiber fit their Rust types.  In every reachable state of
    a thread whose program passes values of the right types ([typed_program]: the
    timeouts of its calls are [Duration]s, the ports [u16]s), a fiber's identifier
    [me] is a [usize] that splits into the slot of its runner and its position, so
    that the handle its function is given, which keeps the low 32 bits, names the
    fiber itself; the runner's number is an [i8]; the counter [timed_out] stays in
    [u8], although ticks are cast to it and it is counted down; [generation] stays in
    [usize]; a timer's token is a [usize] other than the wheel's end mark; [timeout]
    is a [Duration]; and the port of a lookup is a [u16]. *)
Theorem fiber_types past th i ru j f : typed_program → reachable past th →
  runners th !! i = Some (Some ru) → RunnerInt.fibers ru !! j = Some f →
  PollerInt.split_id (FiberInt.me f) = (i, Z.of_nat j)
  ∧ (0 ≤ FiberInt.me f ≤ U64_MAX)%Z ∧ Z.land (FiberInt.me f) U32_MAX = Z.of_nat j
  ∧ FiberInt.runner f = Z.of_nat i ∧ i < 20
  ∧ (0 ≤ FiberInt.timed_out f ≤ 255)%Z ∧ (0 ≤ FiberInt.generation f ≤ U64_MAX)%Z
  ∧ (∀ tk, FiberInt.wtoken f = Some tk → 0 ≤ tk < USIZE_MAX)%Z
  ∧ (∀ d, FiberInt.timeout f = Some d → Duration.valid d)
  ∧ ∀ cp, FiberInt.connect_param f = Some cp → (0 ≤ ConnectParam.port cp < 2 ^ 16)%Z.
Proof.
  intros Hty [Hlen Hr _]%reachable_wf Hru Hf. pose proof (Hr _ _ Hru) as [_ Hfew _ _ Hfs].
  destruct (Hfs j f Hf) as [(Hme & Hrun & _ & _ & Ht) _]. specialize (Ht Hty).
  apply lookup_lt_Some in Hf, Hru. rewrite Hlen in Hru.
  pose proof (split_id_fiber_id (Z.of_nat i) (Z.of_nat j)) as Hsplit.
  rewrite Nat2Z.id in Hsplit. unfold RUNNERS in *. rewrite Hme.
  assert (PollerInt.split_id (Poller.fiber_id (Z.of_nat i) (Z.of_nat j)) = (i, Z.of_nat j)) as Hs
    by (apply Hsplit; lia).
  split; [exact Hs|]. split; [apply fiber_id_usize; unfold RUNNERS; lia|].
  split; [by injection Hs|]. split; [done|]. split; [lia|]. exact Ht.
Qed.

(** ** A slot that is used again *)
Lemma find_empty_from_first (rs : list (option RunnerInt.t)) i k :
  rs !! k = Some None → (∀ j, j < k → ∃ ru, rs !! j = Some (Some ru)) →
  Slots.find_empty_from rs i = Some (i + k).
Proof.
  revert i k. induction rs as [|o rs IH]; intros i [|k] Hk Hj; [done..| |].
  - injection Hk as ->. cbn. by rewrite Nat.add_0_r.
  - destruct (Hj 0) as [ru [= ->]]; [lia|]. cbn. rewrite (IH _ k); [f_equal; lia|done|].
    intros j Hlt. apply (Hj (S j)). lia.
Qed.

Lemma reused th pos ru : is_Some (poller th) → runners th !! pos = Some (Some ru) →
  forallb FiberRef.resumed (RunnerInt.tomain_fibers ru) = true →
  (∀ j, j < pos → ∃ ru, runners th !! j = Some (Some ru)) →
  ∃ th1 th2, drop_runner th pos = Ok th1 ∧ new_runner th1 = Ok (inl pos, th2)
    ∧ poller th2 = poller th ∧ runners th2 !! pos = Some (Some (RunnerInt.new (Z.of_nat pos))).
Proof.
  intros [p Hp] Hr Ht Hj. assert (pos < length (runners th)) as Hpos by by eapply lookup_lt_Some.
  unfold drop_runner. rewrite (proj2 (index_Ok _ _ _) Hr). mstep. unfold drop_refs. rewrite Ht. mstep.
  rewrite store_in by done. mstep. eexists _, _. split; [done|].
  unfold new_runner, Slots.start_runner. cbn [poller runners world].
  rewrite bool_decide_eq_true_2 by by eexists. cbn [negb]. unfold Slots.find_empty.
  rewrite (find_empty_from_first _ 0 pos); cycle 1.
  { by rewrite list_lookup_insert_eq. }
  { intros j Hlt. destruct (Hj j Hlt) as [r1 Hr1]. exists r1.
    rewrite list_lookup_insert_ne by lia. done. }
  unfold Slots.set_runner. rewrite store_in by (rewrite length_insert; done). mstep.
  split_and!; [done|done|]. cbn. rewrite list_lookup_insert_eq; [done|]. by rewrite length_insert.
Qed.

Lemma pop_toexec_eq s x rest :
  queue (PollerInt.toexec_fibers (Sys.poller s)) (Z.to_nat (RunnerInt.pos (Sys.runner s))) = x :: rest →
  ∃ q, pop_toexec s
    = Ok (Some (Z.to_nat x), with_poller s (PollerInt.set_toexec (Sys.poller s) q)).
Proof.
  unfold queue. intros Hq. destruct (_ !! _) as [l|] eqn:Hl; [|done]. cbn in Hq. subst l.
  set (q := <[Z.to_nat (RunnerInt.pos (Sys.runner s)) := rest]>
    (PollerInt.toexec_fibers (Sys.poller s))).
  exists q. unfold pop_toexec. eapply bind_eq; [done|].
  apply (bind_eq _ _ _ (Some x) (with_poller s (PollerInt.set_toexec (Sys.poller s) q))); [|done].
  unfold Runner.poller, PollerInt.toexec_pop, PollerInt.pop_front.
  rewrite (proj2 (index_Ok _ _ _) Hl). mstep.
  rewrite store_in by (by eapply lookup_lt_Some). mstep. done.
Qed.

Lemma no_fiber_panics s i : RunnerInt.fibers (Sys.runner s) !! i = None → fiber i s = Panic.
Proof.
  intros Hi. unfold fiber. eapply bind_eq; [done|]. unfold lift, index. by rewrite Hi.
Qed.

(** A runner whose queue begins with a position that no fiber of it has *)
Lemma stale_head_panics fuel th pos ru p x rest : poller th = Some p →
  runners th !! pos = Some (Some ru) → RunnerInt.pos ru = Z.of_nat pos →
  queue (PollerInt.toexec_fibers p) pos = x :: rest → length (RunnerInt.fibers ru) ≤ Z.to_nat x →
  on_runner pos (run (S fuel)) th = Panic.
Proof.
  intros Hp Hr Hpos Hq Hx. set (s := Sys.mk ru p (world th)).
  unfold on_runner. rewrite (proj2 (sys_of_Ok th pos s)) by done. mstep.
  destruct (pop_toexec_eq s x rest) as [q Hpop].
  { unfold s. cbn. by rewrite Hpos, Nat2Z.id. }
  assert (run (S fuel) s = Panic) as ->; [|done].
  apply bind_panic. cbn [while_some]. eapply bind_eq; [exact Hpop|].
  apply bind_panic. apply bind_panic. apply no_fiber_panics. by apply lookup_ge_None_2.
Qed.

(** C21. A runner that is dropped while a fiber of it is queued leaves its position
    in the poller's queue.  When its slot is the lowest free one, the next runner of
    the thread gets it together with that queue.  As long as the stale position is
    the first one there and the new runner has not started so many fibers that it
    has one at that position, its run panics: it indexes its own fibers with it. *)
Theorem stale_queue_panics fuel th pos ru p x rest :
  poller th = Some p → runners th !! pos = Some (Some ru) →
  forallb FiberRef.resumed (RunnerInt.tomain_fibers ru) = true →
  (∀ j, j < pos → ∃ ru, runners th !! j = Some (Some ru)) →
  queue (PollerInt.toexec_fibers p) pos = x :: rest →
  ∃ th1 th2, drop_runner th pos = Ok th1 ∧ new_runner th1 = Ok (inl pos, th2)
    ∧ on_runner pos (run (S fuel)) th2 = Panic
    ∧ poller th2 = Some p
    ∧ ∀ th3 ru3 p3 rest3, runners th3 !! pos = Some (Some ru3) → RunnerInt.pos ru3 = Z.of_nat pos →
        poller th3 = Some p3 → queue (PollerInt.toexec_fibers p3) pos = x :: rest3 →
        length (RunnerInt.fibers ru3) ≤ Z.to_nat x → on_runner pos (run (S fuel)) th3 = Panic.
Proof.
  intros Hp Hr Ht Hj Hq. destruct (reused th pos ru) as (th1 & th2 & H1 & H2 & Hp2 & Hr2); [by eexists|done..|].
  exists th1, th2. rewrite Hp2. split_and!; [done..| |done|].
  - eapply stale_head_panics; [by rewrite Hp2|exact Hr2|done|exact Hq|cbn; lia].
  - intros. by eapply stale_head_panics.
Qed.

(** ** Running every runner *)

(** The runners of the given slots are run, one after the other. *)
Fixpoint run_all (fuel : nat) (slots : list nat) : Run (Thread.t Sl) (list bool) :=
  match slots with
  | [] => mret []
  | pos :: slots =>
    b ← on_runner pos (run fuel); bs ← run_all fuel slots; mret (b :: bs)
  end.

(** The queues of the runner [pos] *)
Definition queues_of p (pos : nat) : list Z * list Z * list (Z * Z * IpAddr) :=
  (queue (PollerInt.toexec_fibers p) pos, queue (PollerInt.timedout_fibers p) pos,
   queue (PollerInt.lookup_results p) pos).

Definition placed th : Prop :=
  ∀ i ru, runners th !! i = Some (Some ru) → RunnerInt.pos ru = Z.of_nat i.

Lemma on_runner_Ok {A} pos (m : Run (Sys.t Sl) A) th a th' : on_runner pos m th = Ok (a, th') →
  ∃ s s', sys_of th pos = Ok s ∧ m s = Ok (a, s') ∧ put_back th pos s' = Ok th'.
Proof.
  intros (s & Hs & ([a' s'] & Hm & (th1 & Hp & [= <- <-])%bind_Ok)%bind_Ok)%bind_Ok.
  by exists s, s'.
Qed.

(** What a runner's turn leaves alone *)
Lemma on_runner_run fuel pos th b th' p : placed th → poller th = Some p →
  on_runner pos (run fuel) th = Ok (b, th') →
  ∃ s s' p', run fuel s = Ok (b, s') ∧ runners th !! pos = Some (Some (Sys.runner s))
    ∧ Sys.poller s = p ∧ RunnerInt.pos (Sys.runner s) = Z.of_nat pos
    ∧ placed th' ∧ poller th' = Some p' ∧ Sys.poller s' = p'
    ∧ runners th' !! pos = Some (Some (Sys.runner s'))
    ∧ (∀ j, j ≠ pos → runners th' !! j = runners th !! j ∧ queues_of p' j = queues_of p j).
Proof.
  intros Hpl Hp (s & s' & Hs & Hrun & Hput)%on_runner_Ok.
  apply sys_of_Ok in Hs as (Hr & Hps & _). rewrite Hp in Hps. injection Hps as Hps.
  apply put_back_Ok in Hput as [-> Hlt]. apply run_apart in Hrun as Ha.
  destruct Ha as [Hpos Hq1 Hq2 Hq3]. pose proof (Hpl _ _ Hr) as Hpos0.
  rewrite Hpos0, Nat2Z.id in Hq1, Hq2, Hq3.
  exists s, s', (Sys.poller s'). split_and!; try done.
  - intros i ru. cbn. intros [(<- & [= <-] & _)|[_ Hi]]%list_lookup_insert_Some; [|by apply Hpl].
    by rewrite Hpos.
  - cbn. by apply list_lookup_insert_eq.
  - intros j Hj. cbn. rewrite list_lookup_insert_ne by congruence. split; [done|].
    unfold queues_of. by rewrite Hq1, Hq2, Hq3, Hps.
Qed.

Lemma drained_queues n s b s' more s1 s2 : run_order n s b s' more s1 s2 →
  ∀ pos, RunnerInt.pos (Sys.runner s) = Z.of_nat pos →
  (queues_of (Sys.poller s') pos).1.2 = [] ∧ (queues_of (Sys.poller s') pos).2 = [].
Proof.
  intros [_ _ _ (_ & _ & Ht & Hl) [Hp _ _ _] _] pos Hpos. unfold timedout, lookups, queue_of in *.
  rewrite Hp, Hpos, Nat2Z.id in Ht, Hl. by apply fmap_nil_inv in Ht, Hl.
Qed.

(** C6. Every runner is served as if it were alone.  In a round that runs the
    runners of different slots one after the other, each starts from the state and
    the queues that it had before the round, whatever the others did in between;
    so, with what [run] does ([run_in_order]), everything that the last poll queued
    for it is served in order.  After the round, none of them has a timer or the
    result of a lookup left in its queues; a runner that was not run keeps its
    state and its queues. *)
Theorem round_serves fuel slots past th bs th' p : wf past th → NoDup slots → poller th = Some p →
  run_all fuel slots th = Ok (bs, th') →
  ∃ p', poller th' = Some p' ∧ (∀ pos, pos ∈ slots →
    ∃ s b s' more s1 s2, runners th !! pos = Some (Some (Sys.runner s))
      ∧ queues_of (Sys.poller s) pos = queues_of p pos
      ∧ run fuel s = Ok (b, s') ∧ run_order fuel s b s' more s1 s2
      ∧ runners th' !! pos = Some (Some (Sys.runner s'))
      ∧ queues_of p' pos = queues_of (Sys.poller s') pos
      ∧ (queues_of p' pos).1.2 = [] ∧ (queues_of p' pos).2 = [])
  ∧ ∀ pos, pos ∉ slots → runners th' !! pos = runners th !! pos ∧ queues_of p' pos = queues_of p pos.
Proof.
  intros [_ Hr _] Hnd. assert (placed th) as Hpl by (intros i ru Hi; by apply Hr in Hi as []).
  clear Hr. revert th bs p Hpl. induction Hnd as [|pos slots Hpos Hnd IH]; intros th bs p Hpl Hp H.
  { injection H as _ <-. exists p. by split_and!; [|intros pos Hin; inversion Hin|]. }
  cbn [run_all] in H. apply run_bind_Ok in H as (b & th1 & H1 & H).
  apply run_bind_Ok in H as (bs' & th2 & H & [= _ <-]).
  destruct (on_runner_run _ _ _ _ _ _ Hpl Hp H1)
    as (s & s' & p1 & Hrun & Hr & Hsp & Hsr & Hpl1 & Hp1 & Hsp' & Hr' & Ha).
  destruct (IH _ _ _ Hpl1 Hp1 H) as (p' & Hp' & Hin & Hout). exists p'. split; [done|]. split.
  - intros j [->|Hj]%elem_of_cons.
    + destruct (run_inv _ _ _ _ Hrun) as (more & s1 & s2 & Hord).
      destruct (Hout pos Hpos) as [Hr1 Hq1].
      exists s, b, s', more, s1, s2. subst p1. rewrite Hq1, Hr1.
      destruct (drained_queues _ _ _ _ _ _ _ Hord pos Hsr) as [-> ->].
      split_and!; try done. by rewrite Hsp.
    + destruct (Hin j Hj) as (s0 & b0 & s0' & more & s1 & s2 & Hr0 & Hq0 & Hrest).
      destruct (Ha j) as [Hrj Hqj]; [by intros ->|].
      exists s0, b0, s0', more, s1, s2. split_and!; [congruence|congruence|apply Hrest..].
  - intros j [Hj Hjs]%not_elem_of_cons. destruct (Ha j Hj) as [Hrj Hqj].
    destruct (Hout j Hjs) as [Hrj' Hqj']. split; congruence.
Qed.
End reach.
