(* ===== verification/RunnerStacks.v ===== *)
(** * Who has which stack

    The poller keeps a pool of unused execution stacks; a fiber holds one while it
    is in its function.  Only two places move stacks: [step_into] takes one for a
    fiber that has none, and [unstack] gives it back.  Everything else leaves each
    fiber with the stack it had, or with none ([holds]).  So no stack is ever in
    two places ([separate]): no two fibers run on the same stack, and no pooled
    stack is in use.

    A new stack is none that was made before: the class [StackLaws] states this for
    the library [context], relative to the stacks that a world has seen made. *)
From stdpp Require Import strings relations.
From S2P Require Import Prelude Clock Slab Wheel ByteOrder StdText Resolver Poller.
From S2P Require Import Fiber Runner RunnerInv RunnerTurn Thread.
Local Open Scope nat_scope.
Local Open Scope list_scope.

(** ** Stacks and the world *)

(** [born w st]: the stack [st] has been made. *)
Class Births (N : Net) := born : W → Stack → Prop.

Definition grown {N : Net} {BI : Births N} (w w' : W) : Prop := ∀ st, born w st → born w' st.

Class StackLaws (N : Net) {BI : Births N} := {
  default_stack_new : ∀ w st w', default_stack w = (st, w') → ¬ born w st ∧ born w' st;
  default_stack_grown : ∀ w, grown w (default_stack w).2;
  new_stack_new : ∀ w size st w', new_stack w size = (Some st, w') → ¬ born w st ∧ born w' st;
  new_stack_grown : ∀ w size, grown w (new_stack w size).2;
  now_grown : ∀ w, grown w (now w).2;
  tcp_connect_grown : ∀ w a, grown w (tcp_connect w a).2;
  tcp_read_grown : ∀ w h b, grown w (tcp_read w h b).2;
  tcp_write_grown : ∀ w h b, grown w (tcp_write w h b).2;
  tcp_flush_grown : ∀ w h, grown w (tcp_flush w h).2;
  tcp_read_bufs_grown : ∀ w h b, grown w (tcp_read_bufs w h b).2;
  tcp_write_bufs_grown : ∀ w h b, grown w (tcp_write_bufs w h b).2;
  listener_accept_grown : ∀ w h, grown w (listener_accept w h).2;
  udp_connect_grown : ∀ w h a, grown w (udp_connect w h a).2;
  udp_recv_grown : ∀ w h b, grown w (udp_recv w h b).2;
  udp_send_grown : ∀ w h b, grown w (udp_send w h b).2;
  tls_read_grown : ∀ w h b, grown w (tls_read w h b).2;
  tls_write_grown : ∀ w h b, grown w (tls_write w h b).2;
  tls_flush_grown : ∀ w h, grown w (tls_flush w h).2;
  tls_connect_grown : ∀ w c d h, grown w (tls_connect w c d h).2;
  tls_accept_grown : ∀ w c h, grown w (tls_accept w c h).2;
  mid_handshake_grown : ∀ w h, grown w (mid_handshake w h).2;
  poll_register_grown : ∀ w e t r, grown w (poll_register w e t r).2;
  poll_reregister_grown : ∀ w e t r, grown w (poll_reregister w e t r).2;
  random_grown : ∀ w : W, grown w (random w).2;
  udp_bind_grown : ∀ (w : W) a, grown w (udp_bind w a).2;
  send_to_grown : ∀ (w : W) h b a p, grown w (send_to w h b a p).2
}.

Create HintDb stacks.
#[export] Hint Resolve now_grown tcp_connect_grown tcp_read_grown tcp_write_grown
  tcp_flush_grown tcp_read_bufs_grown tcp_write_bufs_grown listener_accept_grown
  udp_connect_grown udp_recv_grown udp_send_grown tls_read_grown tls_write_grown
  tls_flush_grown tls_connect_grown tls_accept_grown mid_handshake_grown
  poll_register_grown poll_reregister_grown random_grown udp_bind_grown send_to_grown : stacks.

Section world.
Context {N : Net} {BI : Births N} {SL : StackLaws N}.
Implicit Types (w : W).

#[export] Instance grown_preorder : PreOrder grown.
Proof. split; [by intros w st|]. intros w1 w2 w3 H1 H2 st Hst. by apply H2, H1. Qed.

Lemma grown_refl w : grown w w.
Proof. reflexivity. Qed.
#[local] Hint Resolve grown_refl : stacks.

(** The world after a call whose result is taken apart *)
Lemma grown_pair {A} (x : A * W) a w w' : grown w x.2 → x = (a, w') → grown w w'.
Proof. by intros Hx ->. Qed.

#[local] Ltac world_step :=
  match goal with
  | H : context [let '(_, _) := ?x in _] |- _ => destruct x eqn:?
  | |- context [let '(_, _) := ?x in _] => destruct x eqn:?
  end.

Lemma read_grown w sock buf : grown w (Sock.read w sock buf).2.
Proof. destruct sock; cbn; auto with stacks. Qed.
Lemma write_grown w sock buf : grown w (Sock.write w sock buf).2.
Proof. destruct sock; cbn; auto with stacks. Qed.
Lemma flush_grown w sock : grown w (Sock.flush w sock).2.
Proof. destruct sock; cbn; auto with stacks. Qed.
Lemma accept_tcp_grown w sock : grown w (Sock.accept_tcp w sock).2.
Proof. destruct sock; cbn; auto with stacks. Qed.

Lemma tls_read_loop_grown fuel w tls bufs sz i r w' :
  Sock.tls_read_loop fuel w tls bufs sz i = Ok (r, w') → grown w w'.
Proof.
  revert w bufs sz i. induction fuel as [|fuel IH]; intros w bufs sz i H; cbn [Sock.tls_read_loop] in H;
    (case_decide; [|by simplify_eq]); [done|].
  apply bind_Ok in H as (buf & _ & H). destruct (tls_read w tls buf) as [[res b] w1] eqn:Hr.
  pose proof (grown_pair _ _ _ _ (tls_read_grown w tls buf) Hr) as H1.
  apply bind_Ok in H as (bufs' & _ & H). destruct res as [s|e]; case_decide; try by simplify_eq.
  etrans; [exact H1|]. by eapply IH.
Qed.

Lemma read_bufs_grown w sock bufs r w' : Sock.read_bufs w sock bufs = Ok (r, w') → grown w w'.
Proof.
  destruct sock; cbn; try (intros [= _ <-]; reflexivity); [|apply tls_read_loop_grown].
  intros [= H]. eapply grown_pair; [|exact H]. auto with stacks.
Qed.

Lemma tls_write_loop_grown fuel w tls tmp bufs wpos sz i r w' :
  Sock.tls_write_loop fuel w tls tmp bufs wpos sz i = Ok (r, w') → grown w w'.
Proof.
  revert w tmp wpos sz i. induction fuel as [|fuel IH]; intros w tmp wpos sz i H;
    cbn [Sock.tls_write_loop] in H; (case_decide; [|by simplify_eq]); [done|].
  apply bind_Ok in H as (buf & _ & H). case_decide.
  { apply bind_Ok in H as (tmp' & _ & H). by eapply IH. }
  apply bind_Ok in H as ([[[[res w1] len] wp] j] & Hw & H).
  assert (grown w w1) as Hg.
  { destruct (decide (0 < wpos)).
    - apply bind_Ok in Hw as (data & _ & Hw). destruct (tls_write w tls data) eqn:E. simplify_eq.
      eapply grown_pair; [|exact E]. auto with stacks.
    - destruct (tls_write w tls buf) eqn:E. simplify_eq. eapply grown_pair; [|exact E].
      auto with stacks. }
  destruct res as [s|e]; repeat case_decide; simplify_eq; try exact Hg;
    (etrans; [exact Hg|]; by eapply IH).
Qed.

Lemma write_bufs_grown fuel w sock tmp bufs r w' :
  Sock.write_bufs fuel w sock tmp bufs = Ok (r, w') → grown w w'.
Proof.
  destruct sock; cbn; try (intros [= _ <-]; reflexivity); [|apply tls_write_loop_grown].
  destruct (tcp_write_bufs w tcp bufs) eqn:E. intros [= _ <-].
  eapply grown_pair; [|exact E]. auto with stacks.
Qed.

Lemma register_grown {Pr : Program} f w rdy : grown w (FiberInt.register f w rdy).2.
Proof.
  unfold FiberInt.register. destruct (Sock.evented _); [|apply grown_refl].
  destruct (is_empty _).
  - destruct (poll_register _ _ _ _) eqn:E. eapply grown_pair; [|exact E]. auto with stacks.
  - destruct (poll_reregister _ _ _ _) eqn:E. eapply grown_pair; [|exact E]. auto with stacks.
Qed.

Context {BE : BigEndian}.

Lemma lookup_loop_grown n d w sock pos host e r w' :
  Dns.lookup_loop n d w sock pos host e = Ok (r, w') → grown w w'.
Proof.
  revert w pos e. induction n as [|n IH]; intros w pos e H; cbn [Dns.lookup_loop] in H;
    [by injection H as _ <-|].
  apply bind_Ok in H as (pos' & _ & H). apply bind_Ok in H as (a & _ & H).
  destruct (random w) as [id w1] eqn:Hr. apply bind_Ok in H as (buf & _ & H).
  assert (grown w w1) as H1 by (eapply grown_pair; [|exact Hr]; auto with stacks).
  destruct (send_to _ _ _ _ _) as [[e'|] w2] eqn:Hs;
    assert (grown w1 w2) as H2 by (eapply grown_pair; [|exact Hs]; auto with stacks).
  - etrans; [exact H1|]. etrans; [exact H2|]. by eapply IH.
  - injection H as _ <-. by etrans.
Qed.

Lemma lookup_on_grown d w sock pos host r w' :
  Dns.lookup_on d w sock pos host = Ok (r, w') → grown w w'.
Proof. apply lookup_loop_grown. Qed.

Lemma start_lookup_grown d w host r w' : Dns.start_lookup d w host = Ok (r, w') → grown w w'.
Proof.
  assert (∀ w r w', match Dns.get_socket_v6 w with
    | (inl s, w) =>
      '(r, w) ← Dns.lookup_on d w s 0 host;
      match r with inl _ => Ok (inl (Some s), w) | inr e => Ok (inr e, w) end
    | (inr e, w) => Ok (inr e, w)
    end = Ok (r, w') → grown w w') as Hv6.
  { clear -SL. intros w r w' H. destruct (Dns.get_socket_v6 w) as [[s|e] w1] eqn:E;
      assert (grown w w1) as H1 by (eapply grown_pair; [|exact E]; apply udp_bind_grown);
      [|by injection H as _ <-].
    apply bind_Ok in H as ([r1 w2] & Hl%lookup_on_grown & H).
    destruct r1; injection H as _ <-; by etrans. }
  unfold Dns.start_lookup. intros H.
  destruct (Dns.get_socket_v4 w) as [[s|e] w1] eqn:E;
    assert (grown w w1) as H1 by (eapply grown_pair; [|exact E]; apply udp_bind_grown).
  - apply bind_Ok in H as ([r1 w2] & Hl%lookup_on_grown & H).
    destruct r1; [injection H as _ <-; by etrans|]. etrans; [exact H1|]. etrans; [exact Hl|].
    by eapply Hv6.
  - etrans; [exact H1|]. by eapply Hv6.
Qed.
End world.

(** ** What leaves the stacks where they are *)
Section holds.
Context {N : Net} {Pr : Program} {Sl : Type} {SO : SlabOps Entry.t Sl} {BE : BigEndian}.
Context {BI : Births N} {SL : StackLaws N}.
Context (own : nat → Stack → Prop) (pool : list Stack) (w0 : W).
Implicit Types (s : Sys.t Sl) (f : FiberInt.t).
Abbreviation M := (Run (Sys.t Sl)).

(** The fiber at [i] has one of its own stacks, or none. *)
Definition owned (i : nat) f : Prop := ∀ st, FiberInt.stack f = Some st → own i st.

Record held s : Prop := {
  held_fibers : ∀ i f, RunnerInt.fibers (Sys.runner s) !! i = Some f → owned i f;
  held_pool : PollerInt.free_stacks (Sys.poller s) = pool;
  held_world : grown w0 (Sys.world s)
}.

(** [m] leaves the stacks alone, and its result satisfies [Φ]. *)
Definition holds {A} (m : M A) (Φ : A → Prop) : Prop :=
  ∀ s a s', held s → m s = Ok (a, s') → held s' ∧ Φ a.
Definition whatever {A} (a : A) : Prop := True.
Abbreviation calm m := (holds m whatever).

Lemma holds_bind {A B} (m : M A) (k : A → M B) Φ Ψ :
  holds m Φ → (∀ a, Φ a → holds (k a) Ψ) → holds (m ≫= k) Ψ.
Proof.
  intros Hm Hk s b s' Hs (a & s1 & Ha & Hb)%run_bind_Ok.
  destruct (Hm _ _ _ Hs Ha) as [Hs1 ?]. by eapply Hk.
Qed.
Lemma calm_bind {A B} (m : M A) (k : A → M B) :
  calm m → (∀ a, calm (k a)) → calm (m ≫= k).
Proof. intros Hm Hk. by eapply holds_bind. Qed.
Lemma holds_weaken {A} (m : M A) Φ : holds m Φ → calm m.
Proof. intros Hm s a s' Hs H. by destruct (Hm _ _ _ Hs H). Qed.

Lemma holds_pure {A} (m : M A) (Φ : A → Prop) :
  (∀ s a s', held s → m s = Ok (a, s') → s' = s ∧ Φ a) → holds m Φ.
Proof. intros Hm s a s' Hs H. by destruct (Hm _ _ _ Hs H) as [-> ?]. Qed.

Lemma holds_ret {A} (a : A) (Φ : A → Prop) : Φ a → holds (mret a) Φ.
Proof. intros Ha. apply holds_pure. by intros s ? ? _ [= <- <-]. Qed.
Lemma calm_ret {A} (a : A) : calm (mret a).
Proof. by apply holds_ret. Qed.
Lemma calm_panic {A} : calm (panic : M A).
Proof. by intros s a s' _ [=]. Qed.
Lemma calm_out_of_fuel {A} : calm (out_of_fuel : M A).
Proof. by intros s a s' _ [=]. Qed.
Lemma calm_undefined {A} u : calm (undefined u : M A).
Proof. by intros s a s' _ [=]. Qed.
Lemma calm_lift {A} (o : outcome Undefined A) : calm (lift o).
Proof. apply holds_pure. intros s a s' _ H. by apply bind_Ok in H as (? & _ & [= _ <-]). Qed.
Lemma calm_get_runner : calm get_runner.
Proof. apply holds_pure. by intros s ? ? _ [= _ <-]. Qed.
Lemma calm_get_poller : calm get_poller.
Proof. apply holds_pure. by intros s ? ? _ [= _ <-]. Qed.

Lemma calm_upd_runner g :
  (∀ r i f, RunnerInt.fibers (g r) !! i = Some f →
     RunnerInt.fibers r !! i = Some f ∨ FiberInt.stack f = None) → calm (upd_runner g).
Proof.
  intros Hg s a s' [Hf ? ?] [= _ <-]. split; [|done]. split; [|done..].
  intros i f Hi. apply Hg in Hi as [Hi|Hn]; [by apply Hf|]. intros st Hst. congruence.
Qed.

Lemma calm_upd_rest g : (∀ r, RunnerInt.fibers (g r) = RunnerInt.fibers r) → calm (upd_runner g).
Proof. intros Hg. apply calm_upd_runner. intros r i f. rewrite Hg. by left. Qed.

Lemma calm_poller {A} (g : PollerInt.t Sl Stack → outcome Empty_set (A * PollerInt.t Sl Stack)) :
  (∀ p a p', g p = Ok (a, p') → PollerInt.free_stacks p' = PollerInt.free_stacks p) →
  calm (poller g).
Proof.
  intros Hg s a s' [? Hp ?] ([x p'] & Hx%widen_Ok & [= _ <-])%bind_Ok. split; [|done].
  split; [done| |done]. cbn. by rewrite (Hg _ _ _ Hx).
Qed.

Lemma holds_world {A} (g : W → A * W) (Φ : A → Prop) :
  (∀ w, grown w (g w).2 ∧ Φ (g w).1) → holds (world g) Φ.
Proof.
  intros Hg s a s' [? ? Hw] H. unfold world in H. destruct (Hg (Sys.world s)) as [Hgr HΦ].
  destruct (g (Sys.world s)) as [x w']. injection H as <- <-. split; [|done].
  split; [done..|]. cbn. by etrans.
Qed.
Lemma calm_world {A} (g : W → A * W) : (∀ w, grown w (g w).2) → calm (world g).
Proof. intros Hg. by apply holds_world. Qed.
Lemma calm_world_opt {A} (g : W → outcome Empty_set (A * W)) :
  (∀ w a w', g w = Ok (a, w') → grown w w') → calm (world_opt g).
Proof.
  intros Hg s a s' [? ? Hw] ([x w'] & Hx%widen_Ok & [= _ <-])%bind_Ok. split; [|done].
  split; [done..|]. cbn. etrans; [exact Hw|by eapply Hg].
Qed.

(** Fibers, read and written *)
Lemma holds_fiber i : holds (fiber i) (owned i).
Proof.
  intros s f s' Hs H. apply run_bind_Ok in H as (r & s1 & [= <- <-] & H).
  apply bind_Ok in H as (g & Hg%index_Ok & [= -> <-]). split; [done|]. by apply Hs.
Qed.
Lemma fiber_bind {B} i (k : FiberInt.t → M B) :
  (∀ f, owned i f → calm (k f)) → calm (fiber i ≫= k).
Proof. apply holds_bind, holds_fiber. Qed.

Lemma calm_set_fiber i f : owned i f → calm (set_fiber i f).
Proof.
  intros Hf s a s' [Ho ? ?] H. unfold set_fiber in H.
  apply run_bind_Ok in H as (r & s1 & [= <- <-] & H).
  apply run_bind_Ok in H as (fs & s1 & (fs' & Hfs & [= <- <-])%bind_Ok & [= _ <-]).
  unfold store in Hfs. case_decide; [|done]. injection Hfs as <-. split; [|done].
  split; [|done..]. cbn. intros j g [(<- & <- & _)|[_ Hj]]%list_lookup_insert_Some; [done|by apply Ho].
Qed.

Lemma calm_upd_fiber i g : (∀ f, FiberInt.stack (g f) = FiberInt.stack f) → calm (upd_fiber i g).
Proof.
  intros Hg. apply fiber_bind. intros f Hf. apply calm_set_fiber. intros st. rewrite Hg. apply Hf.
Qed.
End holds.

#[export] Hint Resolve calm_ret calm_panic calm_undefined calm_out_of_fuel calm_lift calm_get_runner
  calm_get_poller calm_upd_rest : stacks.
#[export] Hint Extern 1 (holds _ _ _ (upd_fiber _ _) _) =>
  apply calm_upd_fiber; reflexivity : stacks.
#[export] Hint Extern 1 (holds _ _ _ (set_fiber _ _) _) =>
  apply calm_set_fiber; first [assumption|by intros ? [=]] : stacks.
#[export] Hint Extern 1 (holds _ _ _ (upd_runner _) _) =>
  apply calm_upd_rest; reflexivity : stacks.

(** Goes through a method, in all its branches. *)
Ltac calmly :=
  repeat first
  [ solve [auto 2 with stacks nocore]
  | progress intros
  | match goal with
    | |- holds _ _ _ (fiber _ ≫= _) _ => apply fiber_bind
    | |- holds _ _ _ (_ ≫= _) _ => apply calm_bind
    | |- holds _ _ _ (match ?x with _ => _ end) _ => destruct x
    | |- holds _ _ _ (let '_ := ?x in _) _ => destruct x
    end ].

Section turns.
Context {N : Net} {Pr : Program} {Sl : Type} {SO : SlabOps Entry.t Sl} {BE : BigEndian}.
Context {BI : Births N} {SL : StackLaws N}.
Context (own : nat → Stack → Prop) (pool : list Stack) (w0 : W).
Implicit Types (s : Sys.t Sl) (f : FiberInt.t).
Abbreviation M := (Run (Sys.t Sl)).
Abbreviation calm m := (holds (Sl := Sl) own pool w0 m whatever).

Lemma calm_fiber i : calm (fiber i).
Proof. eapply holds_weaken, holds_fiber. Qed.
#[local] Hint Resolve calm_fiber : stacks.

(** ** The actions *)
Lemma calm_push_toexec i : calm (push_toexec i).
Proof.
  apply calm_bind; [apply calm_get_runner|]. intros r. apply calm_poller.
  by intros p a p' (x & (q & _ & [= <-])%bind_Ok & [= _ <-])%bind_Ok.
Qed.

Lemma calm_timer_reg id dur : calm (timer_reg id dur).
Proof.
  apply calm_bind; [apply calm_world, now_grown|]. intros t. apply calm_poller.
  intros p a p' H. unfold PollerInt.timer_reg in H.
  apply bind_Ok in H as ([[tk|] w] & _ & H); [|by injection H as _ <-].
  apply bind_Ok in H as (at_ & _ & H). by apply bind_Ok in H as (w' & _ & [= _ <-]).
Qed.

Lemma calm_timer_cancel tk : calm (timer_cancel tk).
Proof.
  apply calm_poller. by intros p a p' (x & (w & _ & [= <-])%bind_Ok & [= _ <-])%bind_Ok.
Qed.
#[local] Hint Resolve calm_push_toexec calm_timer_reg calm_timer_cancel : stacks.

(** A fiber's socket is registered: its stack stays. *)
Lemma holds_register f rdy :
  holds (Sl := Sl) own pool w0
    (world (λ w, let '(res, f, w) := FiberInt.register f w rdy in ((res, f), w)))
    (λ x, FiberInt.stack x.2 = FiberInt.stack f).
Proof.
  apply holds_world. intros w. pose proof (register_grown f w rdy) as Hw.
  assert (FiberInt.stack (FiberInt.register f w rdy).1.2 = FiberInt.stack f) as Hs.
  { unfold FiberInt.register. destruct (Sock.evented _); [|done].
    by destruct (if is_empty _ then _ else _). }
  by destruct (FiberInt.register f w rdy) as [[res f'] w'].
Qed.

Lemma calm_fiber_register i rdy : calm (fiber_register i rdy).
Proof.
  apply fiber_bind. intros f Hf. eapply holds_bind; [by apply holds_register|].
  intros [r f'] Hf'. cbn in Hf'. apply calm_bind; [|calmly].
  apply calm_set_fiber. intros st. rewrite Hf'. apply Hf.
Qed.
#[local] Hint Resolve calm_fiber_register : stacks.

Lemma calm_take_result i : calm (take_result i).
Proof. unfold take_result, take_result_of. calmly. Qed.
Lemma calm_cancel_timer i : calm (cancel_timer i).
Proof. unfold cancel_timer, push_free. calmly. Qed.
#[local] Hint Resolve calm_take_result calm_cancel_timer : stacks.

Lemma calm_try {A B} (m : M (io A)) (k : A → M (io B)) :
  calm m → (∀ a, calm (k a)) → calm (try m k).
Proof. intros. unfold try. calmly. Qed.

(** The fiber that [register] stores has no stack. *)
Lemma holds_register_listener f : FiberInt.stack f = None →
  holds (Sl := Sl) own pool w0
    (match FiberInt.sock f with
     | Listener _ =>
       '(res, f) ← world (λ w, let '(res, f, w) := FiberInt.register f w readable in ((res, f), w));
       mret (match res with inl _ => inl f | inr e => inr e end)
     | _ => mret (inl f)
     end) (λ x, ∀ f, x = inl f → FiberInt.stack f = None).
Proof.
  intros Hf. destruct (FiberInt.sock f); try by (apply holds_ret; intros ? [= <-]).
  eapply holds_bind; [by apply holds_register|]. intros [[?|e] f'] Hf'; apply holds_ret; [|done].
  intros ? [= <-]. cbn in Hf'. congruence.
Qed.

Lemma calm_register func ft param parent schedule : calm (register func ft param parent schedule).
Proof.
  unfold register. apply calm_bind; [apply calm_get_runner|]. intros r.
  apply calm_try; [|calmly]. destruct (RunnerInt.free_fibers r) as [|i free].
  - unfold fiber_id. apply calm_bind; [calmly|]. intros me.
    eapply holds_bind; [by apply holds_register_listener|].
    intros [f|e] Hf; [|apply calm_ret]. apply calm_bind; [|intros; apply calm_ret].
    apply calm_upd_runner. intros x j g. rewrite push_fibers.
    intros [Hj|[_ Hg]]%lookup_app_Some; [by left|right].
    apply list_lookup_singleton_Some in Hg as [_ <-]. by apply Hf.
  - unfold fiber_id. apply calm_bind; [calmly|]. intros _. apply calm_bind; [calmly|]. intros old.
    apply calm_bind; [calmly|]. intros me. apply calm_bind; [calmly|]. intros gen.
    eapply holds_bind; [by apply holds_register_listener|].
    intros [f|e] Hf; [|apply calm_ret]. apply calm_bind; [|intros; apply calm_ret].
    apply calm_set_fiber. intros st. by rewrite Hf.
Qed.
#[local] Hint Resolve calm_register : stacks.

Lemma calm_new_resolve parent domain func to st port param :
  calm (new_resolve parent domain func to st port param).
Proof.
  unfold new_resolve, fiber_id. case_decide; [apply calm_ret|]. apply calm_try; [calmly|].
  intros i. unfold try. calmly. all: apply calm_world_opt; intros ???; apply start_lookup_grown.
Qed.
#[local] Hint Resolve calm_new_resolve : stacks.

Lemma calm_step_out i : calm (step_out i).
Proof. unfold step_out. calmly. Qed.
Lemma calm_stepped_back i : calm (stepped_back i).
Proof. unfold stepped_back. calmly. Qed.
#[local] Hint Resolve calm_step_out calm_stepped_back : stacks.
Lemma calm_timed_step_out i : calm (timed_step_out i).
Proof. unfold timed_step_out. calmly. Qed.
Lemma calm_timed_stepped_back i : calm (timed_stepped_back i).
Proof. unfold timed_stepped_back. calmly. Qed.
#[local] Hint Resolve calm_timed_step_out calm_timed_stepped_back : stacks.

Lemma calm_io_loop {B} (op : IoOp Sl B) n i b :
  (∀ b, calm (attempt op b)) → calm (io_loop op n i b).
Proof. intros Ha. revert b. induction n as [|n IH]; intros b; cbn [io_loop]; calmly. Qed.
Lemma calm_io_resumed {B} (op : IoOp Sl B) n i b :
  (∀ b, calm (attempt op b)) → calm (io_resumed op n i b).
Proof. intros Ha. unfold io_resumed. calmly. by apply calm_io_loop. Qed.

Lemma calm_attempts i n :
  (∀ b, calm (attempt (read_op i) b)) ∧ (∀ b, calm (attempt (read_bufs_op i) b))
  ∧ (∀ b, calm (attempt (write_op i) b)) ∧ (∀ b, calm (attempt (write_bufs_op n i) b)).
Proof.
  split_and!; intros b; cbn; calmly.
  - apply calm_world. intros w. apply read_grown.
  - apply calm_world_opt. intros w x w'. destruct x. apply read_bufs_grown.
  - apply calm_world. intros w. pose proof (write_grown w (FiberInt.sock f) b).
    by destruct (Sock.write _ _ _).
  - apply calm_world_opt. intros w x w'. destruct x. apply write_bufs_grown.
Qed.

Lemma calm_accept_tcp n i : calm (accept_tcp n i).
Proof.
  induction n as [|n IH]; cbn [accept_tcp]; calmly.
  apply calm_world. intros w. apply accept_tcp_grown.
Qed.

Lemma calm_tls_handshake i c cr : calm (tls_handshake i c cr).
Proof. unfold tls_handshake. calmly. Qed.
#[local] Hint Resolve calm_accept_tcp calm_tls_handshake : stacks.

Lemma calm_child_iter i : calm (child_iter i).
Proof.
  assert (∀ n, calm (child_iter_loop n i)) as Hloop.
  { induction n as [|n IH]; cbn [child_iter_loop]; unfold take_result_of, push_free; calmly. }
  unfold child_iter. calmly.
Qed.
#[local] Hint Resolve calm_child_iter : stacks.

Lemma calm_call_method n i c : calm (call_method n i c).
Proof.
  destruct (calm_attempts i n) as (? & ? & ? & ?).
  destruct c; cbn [call_method]; try by apply calm_io_loop.
  all: unfold resp_chunk, tcp_tls_connect, tcp_tls_accept, take_sock, join_main,
    hibernate_for_read, hibernate_join_main, push_tomain, socket_timeout, flush; calmly.
  all: apply calm_world; intros w; auto with stacks. apply flush_grown.
Qed.

Lemma calm_call_resumed n i c : calm (call_resumed n i c).
Proof.
  destruct (calm_attempts i n) as (? & ? & ? & ?).
  destruct c; cbn [call_resumed]; try by apply calm_io_resumed.
  all: unfold resp_chunk_resumed, accept_tcp_resumed, tls_handshake_resumed, take_sock,
    join_main_resumed, take_result_of, child_iter_resumed, hibernate_for_read_resumed,
    hibernate_join_main_resumed; calmly.
  all: apply calm_world; intros w; auto with stacks.
Qed.
#[local] Hint Resolve calm_call_method calm_call_resumed : stacks.

Lemma calm_exec n i home code : calm (exec n i home code).
Proof.
  revert code. induction n as [|n IH]; intros code; cbn [exec]; unfold context_end; calmly.
Qed.
#[local] Hint Resolve calm_exec : stacks.

(** While a fiber runs, it keeps its stack, and nothing happens to the others'. *)
Lemma calm_switch n i t : calm (switch n i t).
Proof. unfold switch, context_function. calmly. Qed.
End turns.

#[export] Hint Resolve calm_fiber calm_push_toexec calm_timer_reg calm_timer_cancel
  calm_fiber_register calm_take_result calm_cancel_timer calm_register calm_new_resolve
  calm_switch : stacks.

(** ** No stack in two places *)
Section separate.
Context {N : Net} {Pr : Program} {Sl : Type} {SO : SlabOps Entry.t Sl} {BE : BigEndian}.
Context {BI : Births N} {SL : StackLaws N}.
(** the stacks that fibers of other runners have *)
Context (others : Stack → Prop).
Implicit Types (s : Sys.t Sl) (f : FiberInt.t) (st : Stack).
Abbreviation M := (Run (Sys.t Sl)).

Definition uses s (i : nat) st : Prop :=
  ∃ f, RunnerInt.fibers (Sys.runner s) !! i = Some f ∧ FiberInt.stack f = Some st.
Definition unused s : list Stack := PollerInt.free_stacks (Sys.poller s).

Record separate s : Prop := {
  sep_fibers : ∀ i j st, uses s i st → uses s j st → i = j;
  sep_pool : NoDup (unused s);
  sep_pooled : ∀ i st, uses s i st → st ∉ unused s;
  sep_others : ∀ st, others st → (st ∉ unused s) ∧ (∀ i, ¬ uses s i st);
  sep_born : ∀ st, others st ∨ st ∈ unused s ∨ (∃ i, uses s i st) →
    born (Sys.world s) st
}.

(** [m] keeps the stacks apart. *)
Definition parts {A} (m : M A) : Prop := ∀ s a s', separate s → m s = Ok (a, s') → separate s'.

(** A state whose stacks are among those of another, at the same places *)
Lemma separate_within s s' : separate s → (∀ i st, uses s' i st → uses s i st) →
  unused s' = unused s → grown (Sys.world s) (Sys.world s') → separate s'.
Proof.
  intros [Hf Hp Hpf Ho Hb] Hu Hun Hw. split; rewrite ?Hun; [by eauto|done|by eauto|..].
  - intros st Hst. destruct (Ho st Hst) as [? Hn]. split; [done|]. intros i Hi. by eapply Hn, Hu.
  - intros st Hst. apply Hw, Hb. destruct Hst as [?|[?|[i Hi]]]; [by left|by right; left|].
    right; right. exists i. by apply Hu.
Qed.

Lemma calm_parts {A} (m : M A) :
  (∀ own pool w0, holds (Sl := Sl) own pool w0 m whatever) → parts m.
Proof.
  intros Hm s a s' Hs H.
  destruct (Hm (uses s) (unused s) (Sys.world s) s a s') as [[Hf Hp Hw] _]; [split|exact H|].
  - intros i f Hi st Hst. by exists f.
  - done.
  - reflexivity.
  - apply (separate_within s); [done| |done..]. intros i st (f & Hi & Hst). by eapply Hf.
Qed.

Lemma parts_bind {A B} (m : M A) (k : A → M B) :
  parts m → (∀ a, parts (k a)) → parts (m ≫= k).
Proof. intros Hm Hk s b s' Hs (a & s1 & Ha & Hb)%run_bind_Ok. eapply Hk, Hb. by eapply Hm. Qed.

Lemma fiber_Ok i s f s' : fiber i s = Ok (f, s') →
  RunnerInt.fibers (Sys.runner s) !! i = Some f ∧ s' = s.
Proof.
  intros (r & s1 & [= <- <-] & H)%run_bind_Ok.
  by apply bind_Ok in H as (g & Hg%index_Ok & [= -> <-]).
Qed.

Lemma set_fiber_Ok i f s a s' : set_fiber i f s = Ok (a, s') →
  i < length (RunnerInt.fibers (Sys.runner s))
  ∧ s' = Sys.mk (RunnerInt.set_fibers (Sys.runner s)
           (<[i := f]> (RunnerInt.fibers (Sys.runner s)))) (Sys.poller s) (Sys.world s).
Proof.
  intros (r & s1 & [= <- <-] & H)%run_bind_Ok.
  apply run_bind_Ok in H as (fs & s1 & (fs' & Hfs & [= <- <-])%bind_Ok & [= _ <-]).
  unfold store in Hfs. case_decide; [|done]. by injection Hfs as <-.
Qed.

Lemma parts_take {B} i (g : FiberInt.t → FiberInt.t) (k : FiberInt.t → M B) :
  (∀ f, FiberInt.stack (g f) = FiberInt.stack f) → (∀ f, parts (k f)) →
  parts (f ← fiber i; set_fiber i (g f);; k f).
Proof.
  intros Hg Hk s b s' Hs (f & s1 & [Hf ->]%fiber_Ok & H)%run_bind_Ok.
  apply run_bind_Ok in H as (a & s1 & [_ ->]%set_fiber_Ok & H). eapply Hk, H.
  apply (separate_within s); [done| |done|by intros st].
  intros j st (f' & Hj & Hst). cbn in Hj. apply list_lookup_insert_Some in Hj as [(<- & <- & _)|[_ Hj]].
  - exists f. by rewrite <- Hg.
  - by exists f'.
Qed.

(** A stack that a fiber gives back *)
Lemma parts_unstack i : parts (unstack i).
Proof.
  intros s a s' [Hf Hp Hpf Ho Hb] (f & s1 & [Hi ->]%fiber_Ok & H)%run_bind_Ok.
  apply run_bind_Ok in H as (st & s1 & (x & Hx0%expect_Ok & [= <- <-])%bind_Ok & H).
  apply run_bind_Ok in H as ([] & s1 & [Hlt ->]%set_fiber_Ok & [= _ <-]).
  assert (uses s i x) as Hx by by exists f.
  set (s' := Sys.mk _ _ _).
  assert (∀ j st, uses s' j st → uses s j st ∧ st ≠ x) as Hu.
  { intros j st (g & Hj & Hg). cbn in Hj.
    apply list_lookup_insert_Some in Hj as [(<- & <- & _)|[Hne Hj]]; [done|].
    assert (uses s j st) as Hj' by by exists g. split; [done|]. intros ->. by apply Hne, (Hf _ _ x). }
  assert (unused s' = x :: unused s) as Hun by done.
  split; rewrite ?Hun.
  - intros j k st [??]%Hu [??]%Hu. by eapply Hf.
  - constructor; [by eapply Hpf|done].
  - intros j st [Hj ?]%Hu [?|Hin]%elem_of_cons; [done|]. by eapply Hpf.
  - intros st Hst. destruct (Ho st Hst) as [? Hn]. split.
    + intros [->|?]%elem_of_cons; [|done]. by apply (Hn i).
    + intros j [??]%Hu. by apply (Hn j).
  - intros st Hst. apply (Hb st). destruct Hst as [?|[[->|?]%elem_of_cons|[j [??]%Hu]]]; eauto.
Qed.

Lemma stack_pop_Ok s st s' : stack_pop s = Ok (st, s') →
  Sys.runner s' = Sys.runner s ∧ grown (Sys.world s) (Sys.world s')
  ∧ (unused s = st :: unused s'
     ∨ unused s' = unused s ∧ ¬ born (Sys.world s) st ∧ born (Sys.world s') st).
Proof.
  intros ([[x p] w] & H%widen_Ok & [= <- <-])%bind_Ok. cbn. split; [done|]. unfold PollerInt.stack_pop in H.
  unfold unused at 1 3. cbn. destruct (PollerInt.free_stacks _) as [|y l] eqn:Hl.
  - destruct (PollerInt.stack_size _) as [size|].
    + destruct (new_stack _ _) as [y w'] eqn:Hn. apply bind_Ok in H as (z & ->%expect_Ok & [= -> <- <-]).
      pose proof (new_stack_grown (Sys.world s) size) as Hg. rewrite Hn in Hg. split; [done|].
      right. split; [by rewrite Hl|]. by eapply new_stack_new.
    + destruct (default_stack _) as [y w'] eqn:Hn. injection H as -> <- <-.
      pose proof (default_stack_grown (Sys.world s)) as Hg. rewrite Hn in Hg. split; [done|].
      right. split; [by rewrite Hl|]. by eapply default_stack_new.
  - injection H as <- <- <-. split; [by intros st|by left].
Qed.

(** A stack that a fiber gets, from the pool or new *)
Lemma parts_restack i (g : Stack → FiberInt.t → FiberInt.t) :
  (∀ st f, FiberInt.stack (g st f) = Some st) → parts (st ← stack_pop; upd_fiber i (g st)).
Proof.
  intros Hg s a s' [Hf Hp Hpf Ho Hb] (x & s1 & (Hr & Hw & Hx)%stack_pop_Ok & H)%run_bind_Ok.
  apply run_bind_Ok in H as (f & s2 & [Hi ->]%fiber_Ok & [Hlt ->]%set_fiber_Ok).
  set (s' := Sys.mk _ _ _). rewrite Hr in Hi, Hlt.
  assert (∀ j st, uses s' j st → j = i ∧ st = x ∨ uses s j st) as Hu.
  { intros j st (h & Hj & Hh). cbn in Hj. rewrite Hr in Hj.
    apply list_lookup_insert_Some in Hj as [(<- & <- & _)|[_ Hj]]; [|by right; exists h].
    left. split; [done|]. rewrite Hg in Hh. congruence. }
  assert (unused s' = unused s1) as Hun by done.
  assert ((∀ j, ¬ uses s j x) ∧ ¬ others x ∧ (x ∉ unused s1) ∧ NoDup (unused s1)
    ∧ (∀ st, st ∈ unused s1 → st ∈ unused s) ∧ born (Sys.world s1) x) as (Hnu & Hno & Hnp & Hnd & Hin & Hbx).
  { destruct Hx as [Hx|(Hx & Hnb & Hbx)].
    - rewrite Hx in Hp, Hpf, Ho, Hb. apply NoDup_cons in Hp as [? ?]. split_and!; try done.
      + intros j Hj. apply (Hpf j x Hj). by left.
      + intros Hox. apply (Ho x Hox). by left.
      + intros st. rewrite Hx. by right.
      + apply Hw, Hb. right. left. by left.
    - rewrite Hx. split_and!; try done.
      + intros j Hj. by apply Hnb, Hb; right; right; exists j.
      + intros Hox. by apply Hnb, Hb; left.
      + intros Hpx. by apply Hnb, Hb; right; left. }
  split; rewrite ?Hun.
  - intros j k st [[-> ->]|Hj]%Hu [[-> Hk]|Hk]%Hu; subst; try done.
    + by destruct (Hnu k).
    + by destruct (Hnu j).
    + by eapply Hf.
  - done.
  - intros j st [[-> ->]|Hj]%Hu; [done|]. intros Hst%Hin. by eapply Hpf.
  - intros st Hst. destruct (Ho st Hst) as [? Hn]. split; [by intros Hst'%Hin|].
    intros j [[-> ->]|Hj]%Hu; [done|]. by apply (Hn j).
  - intros st Hst. cbn. destruct Hst as [Hst|[Hst%Hin|[j [[-> ->]|Hj]%Hu]]]; [..|done|];
      apply Hw, Hb; eauto.
Qed.

(** ** A runner's turns *)
Lemma parts_stepped_out i : parts (stepped_out (Sl := Sl) i).
Proof.
  unfold stepped_out. apply parts_bind; [|intros f; apply parts_bind; [|intros _]].
  - apply calm_parts. intros. calmly.
  - case_decide; [apply parts_unstack|]. apply calm_parts. intros. calmly.
  - apply calm_parts. intros. unfold push_free. calmly.
Qed.

Lemma parts_run_turn n i : parts (run_turn n i).
Proof.
  unfold run_turn. apply parts_bind; [apply calm_parts; intros; calmly|]. intros f.
  destruct (FiberInt.func f); [|apply calm_parts; intros; calmly].
  apply parts_bind; [|intros _; apply calm_parts; intros; calmly].
  destruct (FiberInt.trans f); [apply calm_parts; intros; calmly|]. by apply parts_restack.
Qed.

Lemma parts_step_into n i : parts (step_into n i).
Proof.
  revert i. induction n as [|n IH]; intros i; cbn [step_into]; [by intros s a s' _ [=]|].
  apply parts_bind; [apply parts_run_turn|]. intros _.
  apply parts_bind; [apply parts_stepped_out|]. intros [j|]; [apply IH|].
  apply calm_parts; intros; calmly.
Qed.

Lemma parts_have_addr n i addr : parts (have_addr n i addr).
Proof.
  assert (∀ (m : M (io unit)), (∀ own pool w0, holds (Sl := Sl) own pool w0 m whatever) →
    parts (reg ← m; match reg with inl _ => mret tt | inr _ => step_into n i end)) as Hend.
  { intros m Hm. apply parts_bind; [by apply calm_parts|].
    intros [?|?]; [apply calm_parts; intros; calmly|apply parts_step_into]. }
  unfold have_addr. do 3 (apply parts_bind; [apply calm_parts; intros; calmly|intros _]).
  apply (parts_take i (λ f, FiberInt.set_connect_param f None)); [done|]. intros f.
  apply parts_bind; [apply calm_parts; intros; calmly|]. intros cp. cbn zeta.
  apply parts_bind; [|intros _; apply Hend; intros; calmly].
  apply calm_parts. intros. calmly; apply calm_world; intros w; auto with stacks.
Qed.

Lemma parts_run_toexec n i : parts (run_toexec n i).
Proof.
  unfold run_toexec. apply parts_bind; [apply calm_parts; intros; calmly|]. intros f.
  destruct (FiberInt.connect_param f); [|apply parts_step_into].
  apply parts_bind.
  { apply calm_parts. intros. apply calm_world. intros w. apply read_grown. }
  intros [[nb|e] buf]; [|apply calm_parts; intros; calmly].
  do 2 (apply parts_bind; [apply calm_parts; intros; calmly|intros]).
  destruct a0 as [adr|]; [|apply calm_parts; intros; calmly].
  do 2 (apply parts_bind; [apply calm_parts; intros; calmly|intros]). apply parts_have_addr.
Qed.

Lemma parts_run_lookup n i gen addr : parts (run_lookup n i gen addr).
Proof.
  unfold run_lookup. apply parts_bind; [apply calm_parts; intros; calmly|]. intros f.
  case_decide; [apply calm_parts; intros; calmly|].
  apply parts_bind; [apply calm_parts; intros; calmly|intros _; apply parts_have_addr].
Qed.

Lemma parts_run_timedout n i : parts (run_timedout n i).
Proof.
  unfold run_timedout. apply parts_bind; [apply calm_parts; intros; calmly|]. intros f.
  destruct (FiberInt.wtoken f); [|apply calm_parts; intros; calmly].
  destruct (FiberInt.connect_param f).
  - do 3 (apply parts_bind; [apply calm_parts; intros; calmly|intros]).
    case_decide; [apply calm_parts; intros; unfold fiber_id; calmly|].
    + apply calm_world_opt. intros w r w'. apply lookup_on_grown.
    + do 2 (apply parts_bind; [apply calm_parts; intros; calmly|intros _]). apply parts_step_into.
  - do 2 (apply parts_bind; [apply calm_parts; intros; calmly|intros _]). apply parts_step_into.
Qed.

Lemma parts_pop {A B} (f : PollerInt.t Sl Stack → nat → outcome Empty_set (A * PollerInt.t Sl Stack))
    (k : A → B) :
  (∀ p r a p', f p r = Ok (a, p') → PollerInt.free_stacks p' = PollerInt.free_stacks p) →
  parts (r ← get_runner; x ← poller (λ p, f p (Z.to_nat (RunnerInt.pos r))); mret (k x)).
Proof.
  intros Hf. apply calm_parts. intros. apply calm_bind; [calmly|]. intros r.
  apply calm_bind; [|intros; calmly]. apply calm_poller. intros p a p'. apply Hf.
Qed.

Lemma parts_while_some {A} (pop : M (option A)) body n :
  parts pop → (∀ n x, parts (body n x)) → parts (while_some pop body n).
Proof.
  intros Hp Hb. induction n as [|n IH]; cbn [while_some]; [by intros s a s' _ [=]|].
  apply parts_bind; [done|]. intros [x|]; [by apply parts_bind|].
  apply calm_parts. intros. calmly.
Qed.

Lemma parts_run n : parts (run n).
Proof.
  assert (∀ {A} (f : PollerInt.t Sl Stack → list (list A))
      (set : PollerInt.t Sl Stack → list (list A) → PollerInt.t Sl Stack) p r x p',
    (∀ p q, PollerInt.free_stacks (set p q) = PollerInt.free_stacks p) →
    ('(x, q) ← PollerInt.pop_front (f p) r; Ok (x, set p q)) = Ok (E := Empty_set) (x, p') →
    PollerInt.free_stacks p' = PollerInt.free_stacks p) as Hpop.
  { intros A f set p r x p' Hset ([y q] & _ & [= _ <-])%bind_Ok. apply Hset. }
  unfold run. apply parts_bind; [|intros _; apply parts_bind; [|intros _; apply parts_bind]].
  - apply parts_while_some; [|intros; apply parts_run_toexec].
    apply parts_pop. intros p r a p'. by apply Hpop.
  - apply parts_while_some; [|intros k [[i gen] addr]; apply parts_run_lookup].
    apply parts_pop. intros p r a p'. by apply Hpop.
  - apply parts_while_some; [|intros; apply parts_run_timedout].
    apply parts_pop. intros p r a p'. by apply Hpop.
  - intros _. apply calm_parts. intros. calmly.
Qed.

(** What the main stack calls *)
Lemma call_separate s s' : call s s' → separate s → separate s'.
Proof.
  intros [] Hs; [by eapply parts_run|..];
    (match goal with
     | H : ?m s = Ok _ |- _ => enough (parts m) by eauto; clear H
     end); apply calm_parts; intros; unfold new_timer, fiber_id, get_response, get_fiber, resume_fiber;
    calmly.
Qed.
End separate.

(** ** The stacks of a thread *)
Section threads.
Context {N : Net} {Pr : Program} {Sl : Type} {SO : SlabOps Entry.t Sl} {SlL : SlabLaws Entry.t Sl}.
Context {BE : BigEndian} {BI : Births N} {SL : StackLaws N}.
Implicit Types (th : Thread.t Sl) (s : Sys.t Sl) (st : Stack).
Import Thread.

(** The fiber at [j] of the runner [i] holds [st]. *)
Definition holder th (i j : nat) st : Prop :=
  ∃ ru f, runners th !! i = Some (Some ru) ∧ RunnerInt.fibers ru !! j = Some f
    ∧ FiberInt.stack f = Some st.
Definition pooled th : list Stack :=
  match poller th with Some p => PollerInt.free_stacks p | None => [] end.

Record stacks_apart th : Prop := {
  apart_fibers : ∀ i j i' j' st, holder th i j st → holder th i' j' st → i = i' ∧ j = j';
  apart_pool : NoDup (pooled th);
  apart_pooled : ∀ i j st, holder th i j st → st ∉ pooled th;
  apart_born : ∀ st, st ∈ pooled th ∨ (∃ i j, holder th i j st) → born (world th) st
}.

Lemma apart_within th th' : stacks_apart th → (∀ i j st, holder th' i j st → holder th i j st) →
  pooled th' = pooled th ∨ pooled th' = [] → grown (world th) (world th') → stacks_apart th'.
Proof.
  intros [Hf Hp Hpf Hb] Hh Hpool Hw.
  assert (∀ st, st ∈ pooled th' → st ∈ pooled th) as Hin.
  { intros st. destruct Hpool as [->| ->]; [done|]. by intros ?%elem_of_nil. }
  split.
  - intros i j i' j' st H1%Hh H2%Hh. by eapply Hf.
  - destruct Hpool as [->| ->]; [done|constructor].
  - intros i j st H1%Hh H2%Hin. by eapply Hpf.
  - intros st Hst. apply Hw, Hb. destruct Hst as [?|(i & j & ?)]; eauto 6.
Qed.

Definition others_of th (pos : nat) st : Prop := ∃ i j, i ≠ pos ∧ holder th i j st.

Lemma apart_separate th pos s : sys_of th pos = Ok s → stacks_apart th →
  separate (others_of th pos) s.
Proof.
  intros (Hr & Hpo & Hw)%sys_of_Ok [Hf Hp Hpf Hb].
  assert (pooled th = unused s) as Hun by (unfold pooled; by rewrite Hpo).
  assert (∀ j st, uses s j st → holder th pos j st) as Hu.
  { intros j st (f & Hj & Hst). by exists (Sys.runner s), f. }
  rewrite Hun, Hw in *. split.
  - intros j k st H1%Hu H2%Hu. by destruct (Hf _ _ _ _ _ H1 H2).
  - done.
  - intros j st H%Hu. by eapply Hpf.
  - intros st (i & j & Hne & Hh). split; [by eapply Hpf|]. intros k Hk%Hu.
    by destruct (Hf _ _ _ _ _ Hh Hk) as [-> _].
  - intros st [(i & j & _ & Hh)|[?|[j Hj%Hu]]]; apply Hb; eauto.
Qed.

Lemma separate_apart th pos s s' th' : sys_of th pos = Ok s → put_back th pos s' = Ok th' →
  stacks_apart th → separate (others_of th pos) s' → stacks_apart th'.
Proof.
  intros _ [-> Hlt]%put_back_Ok [Hf0 _ _ _] [Hf Hp Hpf Ho Hb]. set (th' := mk _ _ _).
  assert (∀ i j st, holder th' i j st → i = pos ∧ uses s' j st ∨ i ≠ pos ∧ holder th i j st) as Hh.
  { intros i j st (ru & f & Hi & Hj & Hst). cbn in Hi.
    apply list_lookup_insert_Some in Hi as [(<- & [= <-] & _)|[Hne Hi]].
    - left. split; [done|]. by exists f.
    - right. split; [done|]. by exists ru, f. }
  change (unused s') with (pooled th') in *. split; [|done|..].
  - intros i j i' j' st [[-> H1]|[Hne H1]]%Hh [[-> H2]|[Hne' H2]]%Hh.
    + split; [done|]. by eapply Hf.
    + destruct (Ho st) as [_ Hn]; [by exists i', j'|]. by destruct (Hn j).
    + destruct (Ho st) as [_ Hn]; [by exists i, j|]. by destruct (Hn j').
    + by eapply Hf0.
  - intros i j st [[-> H]|[Hne H]]%Hh; [by eapply Hpf|]. by apply (Ho st); exists i, j.
  - intros st [?|(i & j & [[-> H]|[Hne H]]%Hh)]; apply Hb; [by right; left|right; right|left].
    + by exists j.
    + by exists i, j.
Qed.

Lemma step_apart past th past' th' : step past th past' th' → grown (world th) (world th') →
  stacks_apart th → stacks_apart th'.
Proof.
  intros Hstep Hw Ha. destruct Hstep as [size file now b th' H| |ready now results b th' He Hres H
    |r th' H|pos ru1 th' _ H|pos s s' th' Hs Hc Hn H|w].
  - apply bind_Ok in H as ([b' p] & H & [= _ <-]). apply (apart_within th); [done|done| |done].
    unfold Poller.new in H. unfold pooled. cbn. destruct (poller th) as [p0|].
    + left. by injection H as _ <-.
    + apply bind_Ok in H as (p1 & (w & _ & (d & _ & [= <-])%bind_Ok)%bind_Ok & [= _ <-]). by left.
  - apply (apart_within th); [done|done|by right|done].
  - apply bind_Ok in H as ([b' p] & H & [= _ <-]). apply (apart_within th); [done|done| |done].
    left. apply bind_Ok in H as (p0 & Hp0%expect_Ok & H).
    apply bind_Ok in H as ([b0 p1] & H & [= _ <-]). unfold pooled. cbn. rewrite Hp0.
    unfold PollerInt.poll in H. destruct ready; [|by injection H as _ <-].
    apply bind_Ok in H as (? & _ & H). apply bind_Ok in H as ([[? ?] ?] & _ & H).
    by apply bind_Ok in H as (? & _ & [= _ <-]).
  - apply new_runner_Ok in H as [->|(k & _ & Hk & _ & ->)]; [done|].
    apply (apart_within th); [done| |by left|done]. intros i j st (ru & f & Hi & Hj & Hst). cbn in Hi.
    apply list_lookup_insert_Some in Hi as [(<- & [= <-] & _)|[_ Hi]]; [done|by exists ru, f].
  - apply bind_Ok in H as (slot & _ & H). apply bind_Ok in H as (ru0 & _ & H).
    apply bind_Ok in H as ([] & _ & H). apply bind_Ok in H as (rs & H & [= <-]).
    unfold store in H. case_decide; [|done]. injection H as <-.
    apply (apart_within th); [done| |by left|done]. intros i j st (ru & f & Hi & Hj & Hst). cbn in Hi.
    apply list_lookup_insert_Some in Hi as [(_ & [=] & _)|[_ Hi]]. by exists ru, f.
  - eapply separate_apart; [exact Hs|exact H|exact Ha|].
    eapply call_separate; [exact Hc|]. by apply apart_separate.
  - apply (apart_within th); [done|done|by left|done].
Qed.

(** What a thread comes to when no stack that was made is forgotten *)
Inductive remembering : (nat → nat) → Thread.t Sl → Prop :=
| rem_start w : remembering (λ _, 0) (start w)
| rem_step past th past' th' : remembering past th → step past th past' th' →
    grown (world th) (world th') → remembering past' th'.

Lemma remembering_reachable past th : remembering past th → reachable past th.
Proof. induction 1; [apply reach_start|by eapply reach_step]. Qed.

Lemma start_apart w : stacks_apart (start (Sl := Sl) w).
Proof.
  split; cbn.
  - by intros i j i' j' st (ru & f & [[=] _]%lookup_replicate & _).
  - constructor.
  - by intros i j st (ru & f & [[=] _]%lookup_replicate & _).
  - intros st [?%elem_of_nil|(i & j & ru & f & [[=] _]%lookup_replicate & _)]; done.
Qed.

Lemma remembering_apart past th : remembering past th → stacks_apart th.
Proof. induction 1; [apply start_apart|by eapply step_apart]. Qed.

(** C9. A suspended fiber has its stack for itself.  Whatever a thread has done
    without running into undefined behaviour, a fiber that waits inside a call, so
    that its frames are on a stack, holds that stack; no other fiber of any runner of
    the thread holds it, and it is not among the stacks that the poller would give to
    the next fiber.  Nor does the poller keep a stack twice.  (A fiber that returns
    after its runner's vector has moved ends the history: [context_end] is then
    undefined, and nothing is claimed of what would follow.) *)
Theorem stacks_exclusive past th i ru j f t :
  remembering past th → runners th !! i = Some (Some ru) →
  RunnerInt.fibers ru !! j = Some f → FiberInt.trans f = Some t →
  NoDup (pooled th) ∧
  ∃ st, FiberInt.stack f = Some st ∧ (st ∉ pooled th)
    ∧ ∀ i' j', holder th i' j' st → i' = i ∧ j' = j.
Proof.
  intros H Hru Hf Ht. pose proof (remembering_apart _ _ H) as [Hfs Hp Hpf _].
  pose proof (reachable_wf _ _ (remembering_reachable _ _ H)) as [_ Hwf _].
  destruct (calm_fibers _ _ (Hwf _ _ Hru) j f Hf) as [_ [(Ht' & _)|(_ & [st Hst] & _)]]; [congruence|].
  assert (holder th i j st) as Hh by by exists ru, f.
  split; [done|]. exists st. split_and!; [done|by eapply Hpf|]. intros i' j' Hh'.
  by eapply Hfs.
Qed.
End threads.
