(* ===== verification/ThreadExamples.v ===== *)
(** * A thread with two runners

    Instances of the theorems of Thread, on the simulated network and the fiber
    functions of RunnerExamples. *)
From stdpp Require Import strings relations.
From S2P Require Import Prelude Clock TimerConfig Slab Wheel ByteOrder StdText Resolver Poller.
From S2P Require Import PollerProps Routing Fiber Runner Sim RunnerInv RunnerTurn RunnerEval.
From S2P Require Import RunnerOrder RunnerExamples Thread RunnerStacks.
Local Open Scope nat_scope.
Local Open Scope list_scope.

Import Sim Thread.

(** The functions of RunnerExamples, as programs whose calls have arguments of the
    right types: a script comes to its end where it would pass another. *)
Definition call_ok (c : Call (list Z) Z nat) : bool :=
  match c with
  | CSocketTimeout (Some d) => bool_decide (0 ≤ d < 2 ^ 64 * Duration.NANOS_PER_SEC)%Z
  | CNewResolveConnect _ _ port to _ _ | CJoinResolveConnect _ _ port to _ _ =>
    bool_decide (0 ≤ port < 2 ^ 16 ∧ 0 ≤ to < 2 ^ 64 * Duration.NANOS_PER_SEC)%Z
  | _ => true
  end.
#[local] Instance prog : Program := {|
  P := list Z; R := Z; FiberFn := nat; Code := script;
  enter := table;
  act c := match c with
           | Ret r => Finish r
           | Do c k => if call_ok c then Calls c k else Finish None
           end
|}.

Lemma prog_typed : typed_program.
Proof.
  intros [r|c k] c' k' H; [done|]. cbn in H. destruct (call_ok c) eqn:Hc; [|done].
  injection H as -> _. destruct c'; try done; cbn in Hc.
  - destruct t0 as [d|]; [|done]. apply bool_decide_eq_true in Hc. by intros ? [= <-].
  - apply bool_decide_eq_true in Hc as [Hp Ht]. by split.
  - apply bool_decide_eq_true in Hc as [Hp Ht]. by split.
Qed.

Abbreviation thread := (Thread.t slab).

(** A method of a runner that the main stack calls is a step of the thread. *)
Lemma step_on_runner {A} past pos (m : Run (Sys.t slab) A) th a th' :
  (∀ s a s', m s = Ok (a, s') → call s s') → on_runner pos m th = Ok (a, th') →
  match runners th' !! pos with
  | Some (Some ru) => Z.of_nat (length (RunnerInt.fibers ru)) <=? 2 ^ 32
  | _ => false
  end%Z = true → step past th past th'.
Proof.
  intros Hm (s & s' & Hs & H & Hput)%on_runner_Ok Hfew.
  eapply step_call; [exact Hs|by eapply Hm| |exact Hput].
  apply put_back_Ok in Hput as [-> Hlt]. cbn in Hfew.
  rewrite list_lookup_insert_eq in Hfew by done. by apply Z.leb_le.
Qed.

Lemma calls_new_tcp tcp f x s r s' : new_tcp tcp f x s = Ok (r, s') → call (Sl := slab) s s'.
Proof. intros (r' & s1 & H & [= _ <-])%run_bind_Ok. by eapply call_start. Qed.

Lemma tcp_starts past pos (tcp : nat) f x th th' :
  on_runner pos (new_tcp (tcp : nat) f x) th = Ok (inl tt, th') →
  match runners th' !! pos with
  | Some (Some ru) => Z.of_nat (length (RunnerInt.fibers ru)) <=? 2 ^ 32
  | _ => false
  end%Z = true → step past th past th'.
Proof. intros H. eapply step_on_runner; [|exact H]. intros s r s'. apply calls_new_tcp. Qed.

(** A poller, two runners, and a fiber queued in each *)
Definition th0 : thread := Thread.start world0.
Definition th1 : thread := (value (new_poller th0 None None 0) (false, th0)).2.
Definition th2 : thread := (value (new_runner th1) (inl 0, th1)).2.
Definition th3 : thread := (value (new_runner th2) (inl 0, th2)).2.
Definition th4 : thread := (value (on_runner 0 (new_tcp (5 : nat) 0 []) th3) (inl tt, th3)).2.
Definition th5 : thread := (value (on_runner 1 (new_tcp (6 : nat) 1 [9%Z]) th4) (inl tt, th4)).2.

Abbreviation nobody := (λ _ : nat, 0).

Lemma reachable_th5 : reachable nobody th5.
Proof.
  eapply reach_step; [|apply (tcp_starts _ 1 6 1 [9%Z] th4 th5); [apply returned|];
    vm_compute; reflexivity].
  eapply reach_step; [|apply (tcp_starts _ 0 5 0 [] th3 th4); [apply returned|]; vm_compute; reflexivity].
  eapply reach_step; [|apply (step_new_runner _ _ (inl 1) th3), returned; vm_compute; reflexivity].
  eapply reach_step; [|apply (step_new_runner _ _ (inl 0) th2), returned; vm_compute; reflexivity].
  eapply reach_step; [|apply (step_new_poller _ _ None None 0 true th1), returned; vm_compute; reflexivity].
  exact (reach_start (world0 : W)).
Qed.

Lemma has_runner (th : thread) i :
  match runners th !! i with Some (Some _) => true | _ => false end = true →
  ∃ ru, runners th !! i = Some (Some ru).
Proof. destruct (runners th !! i) as [[ru|]|]; [by exists ru|done..]. Qed.

(** The second runner is dropped: its fiber stays in the poller's queue. *)
Definition th5' : thread := value (drop_runner th5 1) th5.

Lemma thread_reachable_wf_witness :
  ∃ past, reachable past th5' ∧ past 1 = 1
    ∧ match runners th5' !! 1 with Some None => true | _ => false end = true
    ∧ (λ p, queue (PollerInt.toexec_fibers p) 1) <$> poller th5' = Some [0%Z] ∧ wf past th5'.
Proof.
  destruct (has_runner th5 1) as [ru Hru]; [vm_compute; reflexivity|].
  assert (length ∘ RunnerInt.fibers <$> mjoin (runners th5 !! 1) = Some 1) as Hn
    by (vm_compute; reflexivity).
  assert (reachable (bury nobody 1 ru) th5') as H.
  { eapply reach_step; [exact reachable_th5|]. apply step_drop_runner; [exact Hru|].
    assert (match drop_runner th5 1 with Ok _ => true | _ => false end = true) as Hok
      by (vm_compute; reflexivity).
    unfold th5'. by destruct (drop_runner th5 1). }
  exists (bury nobody 1 ru). split; [exact H|]. rewrite Hru in Hn. injection Hn as Hn.
  split; [unfold bury; rewrite decide_True by done; cbn in *; lia|].
  split; [vm_compute; reflexivity|]. split; [vm_compute; reflexivity|].
  exact (thread_reachable_wf (bury nobody 1 ru) th5' H).
Defined.

(** Both runners are run; the fiber of the second one ends. *)
Definition p5 : PollerInt.t slab Z := default poller0 (poller th5).
Definition round5 : thread := (value (run_all 9 [0; 1] th5) ([], th5)).2.

Lemma poller_th5 : poller th5 = Some p5.
Proof. vm_compute. reflexivity. Qed.
Lemma round5_Ok : run_all 9 [0; 1] th5 = Ok ([false; true], round5).
Proof. apply returned. vm_compute. reflexivity. Qed.
Lemma wf_th5 : wf nobody th5.
Proof. apply reachable_wf, reachable_th5. Qed.

Lemma fiber_types_witness :
  ∃ ru f, runners th5 !! 1 = Some (Some ru) ∧ RunnerInt.fibers ru !! 0 = Some f
    ∧ FiberInt.me f = (2 ^ 40)%Z ∧ PollerInt.split_id (FiberInt.me f) = (1, 0%Z)
    ∧ (0 ≤ FiberInt.timed_out f ≤ 255)%Z.
Proof.
  destruct (has_runner th5 1) as [ru Hru]; [vm_compute; reflexivity|].
  assert (FiberInt.me <$> (mjoin (runners th5 !! 1) ≫= λ ru, head (RunnerInt.fibers ru))
    = Some (2 ^ 40)%Z) as Hme by (vm_compute; reflexivity).
  rewrite Hru in Hme. cbn in Hme. destruct (RunnerInt.fibers ru) as [|f l] eqn:Hf; [done|].
  cbn in Hme. injection Hme as Hme. exists ru, f. rewrite Hf.
  split; [done|]. split; [done|]. split; [exact Hme|].
  destruct (fiber_types nobody th5 1 ru 0 f) as (Hs & _ & _ & _ & _ & Ht & _);
    [exact prog_typed|exact reachable_th5|exact Hru|by rewrite Hf|].
  split; [exact Hs|exact Ht].
Defined.

Lemma round_serves_witness :
  queues_of p5 1 = ([0%Z], [], []) ∧
  ∃ p', poller round5 = Some p' ∧ (queues_of p' 1).2 = []
    ∧ ∃ s b s' more s1 s2, runners th5 !! 1 = Some (Some (Sys.runner s))
        ∧ run_order 9 s b s' more s1 s2.
Proof.
  split; [vm_compute; reflexivity|].
  destruct (round_serves 9 [0; 1] nobody th5 [false; true] round5 p5 wf_th5) as (p' & Hp' & Hin & _).
  - apply (bool_decide_unpack (NoDup [0; 1])). exact I.
  - exact poller_th5.
  - exact round5_Ok.
  - exists p'. split; [exact Hp'|]. 
    destruct (Hin 1 ltac:(right; left)) as (s & b & s' & more & s1 & s2 & Hr & _ & _ & Ho & _ & _ & _ & Hl).
    split; [exact Hl|]. exists s, b, s', more, s1, s2. split; [exact Hr|].
    exact Ho.
Defined.

Lemma stale_queue_panics_witness :
  queue (PollerInt.toexec_fibers p5) 1 = [0%Z] ∧
  ∃ a b, drop_runner th5 1 = Ok a ∧ new_runner a = Ok (inl 1, b)
    ∧ on_runner 1 (run 9) b = Panic.
Proof.
  split; [vm_compute; reflexivity|].
  destruct (has_runner th5 1) as [ru H1]; [vm_compute; reflexivity|].
  destruct (stale_queue_panics 8 th5 1 ru p5 0%Z []) as (a & b & Ha & Hb & Hp & _);
    [exact poller_th5|exact H1| | |vm_compute; reflexivity|].
  3: { exists a, b. split; [exact Ha|]. split; [exact Hb|exact Hp]. }
  - assert (RunnerInt.tomain_fibers <$> mjoin (runners th5 !! 1) = Some []) as H
      by (vm_compute; reflexivity).
    rewrite H1 in H. injection H as H. by rewrite H.
  - intros [|j] Hj; [|lia]. apply has_runner. vm_compute. reflexivity.
Defined.

(** ** Stacks

    The simulated network numbers the stacks that it makes. *)
#[local] Instance births : Births net := λ w st, (st < made w)%Z.

Lemma made_grown w w' : made w = made w' → grown (N := net) w w'.
Proof. intros H st. unfold born, births. by rewrite H. Qed.

Lemma one_more_grown w : grown (N := net) w (set_made w (made w + 1)).
Proof. intros st. unfold born, births. cbn. lia. Qed.

Lemma sim_read_grown w h b : grown (N := net) w (sim_read w h b).2.
Proof. apply made_grown. unfold sim_read. by destruct (take_first _ _) as [[[?|?] ?]|]. Qed.
Lemma sim_write_grown w h b : grown (N := net) w (sim_write w h b).2.
Proof. apply made_grown. unfold sim_write. by destruct (take_first _ _) as [[[?|?] ?]|]. Qed.
Lemma sim_accept_grown w h : grown (N := net) w (sim_accept w h).2.
Proof. apply made_grown. unfold sim_accept. by destruct (take_first _ _) as [[[?|?] ?]|]. Qed.

#[local] Instance stack_laws : StackLaws net.
Proof.
  split; intros; try apply sim_read_grown; try apply sim_write_grown; try apply sim_accept_grown;
    try apply one_more_grown; try (by apply made_grown).
  - cbn in H. injection H as <- <-. unfold born, births. cbn. lia.
  - cbn in H. injection H as <- <-. unfold born, births. cbn. lia.
Qed.

Lemma remember past (th : thread) past' th' : remembering past th → step past th past' th' →
  (made (Thread.world th) <=? made (Thread.world th'))%Z = true → remembering past' th'.
Proof.
  intros Hr Hs Hm%Z.leb_le. eapply rem_step; [exact Hr|exact Hs|].
  intros st. unfold born, births. cbn in *. lia.
Qed.

(** The first runner is run: its fiber waits for its socket. *)
Definition th6 : thread := (value (on_runner 0 (run 9) th5) (false, th5)).2.

Lemma remembering_th6 : remembering nobody th6.
Proof.
  eapply (remember _ th5); [|eapply (step_on_runner _ 0 (run 9) th5 false th6);
    [intros s a s'; apply call_run|apply returned|]|]; [|vm_compute; reflexivity..].
  eapply (remember _ th4); [|apply (tcp_starts _ 1 6 1 [9%Z] th4 th5); [apply returned|]|];
    [|vm_compute; reflexivity..].
  eapply (remember _ th3); [|apply (tcp_starts _ 0 5 0 [] th3 th4); [apply returned|]|];
    [|vm_compute; reflexivity..].
  eapply (remember _ th2); [|apply (step_new_runner _ _ (inl 1) th3), returned|];
    [|vm_compute; reflexivity..].
  eapply (remember _ th1); [|apply (step_new_runner _ _ (inl 0) th2), returned|];
    [|vm_compute; reflexivity..].
  eapply (remember _ th0); [|apply (step_new_poller _ _ None None 0 true th1), returned|];
    [|vm_compute; reflexivity..].
  exact (rem_start (world0 : W)).
Qed.

Lemma stacks_exclusive_witness :
  ∃ ru f t, runners th6 !! 0 = Some (Some ru) ∧ RunnerInt.fibers ru !! 0 = Some f
    ∧ FiberInt.trans f = Some t ∧ NoDup (pooled th6)
    ∧ ∃ st, FiberInt.stack f = Some st ∧ st ∉ pooled th6.
Proof.
  destruct (has_runner th6 0) as [ru Hru]; [vm_compute; reflexivity|].
  assert ((λ f, bool_decide (is_Some (FiberInt.trans f))) <$>
    (mjoin (runners th6 !! 0) ≫= λ ru, head (RunnerInt.fibers ru)) = Some true) as Ht
    by (vm_compute; reflexivity).
  rewrite Hru in Ht. cbn in Ht. destruct (RunnerInt.fibers ru) as [|f l] eqn:Hf; [done|].
  cbn in Ht. injection Ht as Ht. destruct (FiberInt.trans f) as [t|] eqn:Hft; [|done].
  exists ru, f, t. rewrite Hf. split; [done|]. split; [done|]. split; [done|].
  destruct (stacks_exclusive (N := net) nobody th6 0 ru 0 f t) as (Hnd & st & Hst & Hp & _);
    [exact remembering_th6|exact Hru|by rewrite Hf|exact Hft|].
  split; [exact Hnd|]. exists st. split; [exact Hst|exact Hp].
Defined.
